(* ===== verification/_CoqProject ===== *)
-Q . S2P
Prelude.v
Tiling.v
Lmdb.v
Structs.v
Heap.v
Extent.v
ExtentInv.v
AllocProofs.v
Dirent.v
Inode.v
InodeProofs.v
Path.v
Metal.v
File.v
Storage.v
Namespace.v
StorageProofs.v
FileProofs.v
Growth.v
Removal.v
Truncation.v
Fuse.v
FuseProofs.v
Endian.v
Extmap.v
OpMem.v
TransferProofs.v
CardMemory.v
NvmeMemory.v
Jobs.v
Pipeline.v
Manifest.v
Runner.v
Profiling.v
ProfilingProofs.v
DataContexts.v
StorageSetup.v
JobsProofs.v
CardJobs.v
ManifestProofs.v
Main.v
SnapAction.v
RunProofs.v
CardStorage.v
CardNvme.v
CardFiles.v
NvmeFiles.v
Messages.v
Sockets.v
SharedMemory.v
Agents.v
AgentProofs.v
MainProofs.v
AgentContexts.v
Driver.v
Entry.v
ServerProofs.v
EntryProofs.v
DriverFiles.v
AgentRound.v
SourceProofs.v
Placeholder.v
Protocol.v
Streams.v
Tests.v
