(* ===== verification/Prelude.v ===== *)
(** * Metal FS: a verification development

    Metal FS lets programs in a shell pipeline stand for operators on an FPGA.
    A driver mounts a FUSE file system with files that live on the card or in
    memory and with one executable per operator. When operators are run in a
    shell pipeline, their placeholder programs register with the driver, which
    builds an FPGA pipeline from them, configures the card and moves the data.
    This library models that program, in C, C++ and HLS C++ under src/, as
    executable functions and proves what its parts promise each other.

    ** The parts, and how they interact

    A path goes through FUSE to [CombinedFuse], which hands it to the handler
    of its mount point. The file system handler calls the functions of metal.h
    ([Metal], [File]); these work on inodes and directories ([InodeDb]), the
    extent allocator ([ExtentDb]) and its heap ([Heap]), all kept in LMDB
    transactions, and move contents through a storage backend: the one in
    memory ([Storage]), or one on the card ([DataContexts]). Agents register
    with the pool ([Agents]); [Server] builds a pipeline from their arguments
    and the operators of the image ([Manifest]), and [Runner] runs it round by
    round between a data source and a data sink ([AgentContexts],
    [DataContexts]). [Pipeline] turns a run into jobs for the card; on the card
    [Jobs] decodes them and [OpMem] cuts transfers into pieces that [Extmap]
    translates to blocks of the storage.

    ** Files

    Shared: this file (integers with their wrap-around, the monad [M] of C code
    with faults, the monad [Exc] of C++ code whose exceptions keep the state,
    bytes and strings), Tiling (ranges of blocks), Lmdb (the database
    interface, its laws and an instance), Structs (the C structures).

    metal-filesystem: Heap is heap.c, Extent is extent.c, Inode is inode.c and
    meta.c on the bytes of Dirent, Path is libgen.h's dirname and basename,
    Metal is metal.c but for the contents of files, which are File; Storage is
    storage_in_memory.c. ExtentInv and AllocProofs hold the invariant of the
    allocator (extents tile the volume, one heap node per free extent) and the
    refinement of each operation; InodeProofs the view of a directory as a list
    of entries; Namespace the tree as a map from paths and every call that
    changes it; StorageProofs and FileProofs contents as byte arrays; Growth a file
    as the sequence of its blocks, which a write extends by free ones; Removal the
    release of these blocks; Truncation the files that keep the first of them.

    metal-driver: Fuse is fuse_handler.hpp and the four handlers, with
    FuseProofs; Agents is operator_agent.hpp, agent_pool.cpp and the checks of
    pipeline_builder.cpp; AgentContexts is the rest of operator_agent.cpp,
    pseudo_operators.cpp and the agents as data source and sink; Driver (module
    [Server]) is pipeline_builder.cpp, pipeline_loop.cpp and server.cpp; Main
    is what metal_fs.cpp makes of a configuration, Entry the rest of it (options,
    the end of the process) with metal_fuse_operations.cpp (the functions that FUSE
    calls) and the socket and the loop of server.cpp. AgentProofs: registration and resolution of operators;
    ServerProofs: the pool over any number of connections; AgentRound: the loop
    of a pipeline between shared buffers; SourceProofs: what generated data and
    files on the card are read as; MainProofs: the mount points; EntryProofs: from
    FUSE's functions to the handlers, and from connections to answers; DriverFiles:
    a file as a user of the driver with files in memory sees it.

    metal-driver-messages and metal-driver-placeholder: Messages, Sockets
    (messages on the bytes of a connection), SharedMemory (the descriptor and the
    mapping of a shared buffer), Placeholder, and Protocol, in which the program and
    the driver take steps in any order.

    metal-pipeline and metal-filesystem-pipeline: Pipeline is operator.cpp,
    operator_context.cpp, pipeline.cpp and what executeJob of snap_action.cpp
    means to them; SnapAction is the rest of that file, the ownership of cards
    and actions; Runner is the two runners and the context interfaces, and Profiling
    the text of profiling results; Manifest is
    operator_specification.cpp and operator_factory.cpp; DataContexts is the
    file contexts and metal_pipeline_storage.cpp but for its constructor, which is
    in StorageSetup with filesystem_context.cpp. RunProofs: the jobs of a run;
    ManifestProofs: an image is read back as it was written; ProfilingProofs: what
    the table of profiling results shows.

    targets/SNAP (the action on the FPGA): Endian is mtl_endian.h, Extmap is
    mtl_extmap.cpp, OpMem is mtl_op_mem.cpp and .hpp with axi_switch.cpp, Jobs
    is mtl_jobs.cpp, operators.cpp, axi_perfmon.cpp and hls_action.cpp.
    TransferProofs: pieces and addresses; CardMemory: what transfers do to the
    memory of the card; NvmeMemory: what they do to the NVMe drive through the page
    files, the DataMover and the NVMe controller working side by side; JobsProofs:
    from the block the host writes to the registers it reaches. CardJobs and
    CardStorage put host and card together: the jobs of a storage_write and a
    storage_read are carried out on one memory; CardNvme
    does so for a card with a drive, for every order of its engines; CardFiles and
    NvmeFiles put the calls of metal.h on top, with a storage in the card's memory
    or on the drive as their backend. Streams is the stream generator and sink, the example operator
    changecase and the padding templates of stream.h.

    Tests runs the unit tests of the repository on the definitions.

    Definitions have the names of the code's functions; the parts of a long
    function that are definitions of their own follow it in the same file.

    ** State, errors and pointers

    A C function is a computation in [M]: it returns a value (error codes are
    values) or a [fault] that names what goes wrong: a null pointer, an
    assertion, an access out of bounds, an overflow of the stack, waiting for
    ever, an uncaught exception, or more rounds than the bound. Where the
    driver catches exceptions, [Exc] keeps the state at the throw. Output
    parameters that a caller leaves uninitialised start from a parameter. An
    object that is shared by pointers is an index into a list of the state.

    ** What the theorems show

    - Allocator: initialisation establishes the invariant, reservation and
      release refine the abstract set of blocks, with the conditions under
      which they do and executions that violate them.
    - Tree: resolution is the walk through the directories; each changing call
      makes exactly its change or, with an error, none, and leaves the writer
      lock free, but for the removal of a missing file.
    - Contents: what was written is read back, growing and shrinking files
      reserves and frees exactly the blocks at the end.
    - Card: the map, option and switch jobs written by the host are decoded to
      what the host meant; a transfer is cut into pieces that cover it and go
      to the blocks of the file; what a pipeline writes to a file in the card's
      memory or on the NVMe drive is what it reads there; the byte orders of
      memory lines agree.
    - Storage on the card: write of a host buffer and read of the same range, from
      the arguments of the host's functions to the memory after the card did the
      jobs, return the bytes; so do mtl_write and mtl_read on top of them, also on the
      NVMe storage, whatever the order in which controller and DataMover work.
    - Start: the storages are set up over what the last run left; handles of cards
      and actions are released exactly once, whatever throws.
    - Streams: the generator writes the bytes asked for, padding is inserted and
      removed without loss, changecase changes the letters that count.
    - Pipelines: a run is a fixed sequence of jobs; a loop makes a round per
      request and answers each; sources are read in pieces that cover them.
    - Server: programs may register in any order, every program is answered,
      errors go to the program that caused them, whatever bytes arrive on the
      connections; messages cross a socket unchanged.
    - Driver: every function that FUSE calls reaches the handler of the path; from
      the command line to the bytes, a file that is created and written through
      FUSE is read back, and the other files are left alone.
    - Protocol: every interleaving of a program and the driver ends and
      delivers the outputs, provided no piece but the last has an empty one.
    - Manifests: the factory reads back every image written for operators.
    - Profiling: the percentages of the table are those of the counters, rounded to
      the nearest in spite of the errors of doubles, and its columns are aligned.

    Properties that the code does not have are stated as theorems too: what it
    does instead, at a concrete input or under the condition that leads there.

    ** Fuel

    Recursion that is not structural takes fuel and answers [OutOfFuel] when it
    is used up. [path_fuel] is one more than the length of the path, enough for
    every absolute path (resolution of others never ends); [dir_fuel] one more
    than the bytes of a directory, enough because an entry has at least one;
    [partial_fuel] covers one piece per block; the loops of the in-memory
    backend and of a truncation get one round per extent and one more, that of
    an expansion one per block, [walk_outputs] one per agent, enough unless
    the agents form a cycle, which the code walks for ever. The loop over the
    rounds of a pipeline takes its bound as an argument, and the theorems say
    how many rounds are made.

    ** Outside code

    LMDB ([Lmdb]), cxxopts ([OptionParser]), the JSON library ([Json]), the
    operating system ([Host], [HostDirectories], [SharedHost], [environment]), libsnap
    ([Libsnap]), the card as the host sees it ([Device]), the DataMover
    ([DataMover]), the NVMe controller ([NVMeController]), uninitialised memory and
    the stack limit ([Machine]), memory that was freed ([Operator.FreedMemory]), the
    order of hash sets ([HashOrder]), protobuf ([Protobuf]), recv ([Network]), FUSE's
    matching of options ([FuseOptions]), mkdtemp ([SocketHost]) and the text of a number that is none ([Printf]) are
    classes; what the code relies on of them are classes of laws or named
    hypotheses, each with an instance.

    ** Not modelled

    The encoding of messages by protobuf, which is generated code; logging;
    mtl_dump_extents, which prints; the scripts that build images; the answers of
    socket, bind and listen, which the code ignores. LMDB's threads: a second writer blocks.
    FUSE's threads: the driver's calls are taken one after the other.
    LMDB's map never fills up: an mdb_put that fails with MDB_MAP_FULL is not
    modelled (extent.c:54 and the other callers ignore its result).

    ** Memory that is no longer valid

    The source reads some memory that C or LMDB no longer promise. Where such a read
    is modelled its value is a parameter: setOption and configure look into maps that
    were destroyed ([Operator.FreedMemory]), and the theorems hold whatever they find;
    mtl_truncate_extent and mtl_truncate re-read records they have just replaced
    ([mdb_read_after_put]), of which [truncate_grows_or_drops] assumes nothing while
    [truncate_frees_rest] needs that the old records are found. One case is taken as harmless:
    the loops of mtl_unlink and mtl_truncate go on reading the record of the file while
    they free extents, which changes other databases of the same transaction; the
    model reads what the record held (see [File.free_extents]). *)
From stdpp Require Export base option list list_numbers numbers strings.
From Stdlib Require Export ZArith Lia Sorted.

#[global] Open Scope Z_scope.

(** ** Machine integers

    An unsigned C integer of width [w] is a [Z]; arithmetic that can wrap is
    written with the wrap-around. *)

Definition wrap (w x : Z) : Z := x mod 2 ^ w.

Definition u64 (x : Z) : Z := wrap 64 x.
Definition u32 (x : Z) : Z := wrap 32 x.
Definition u8 (x : Z) : Z := wrap 8 x.

Definition in_u64 (x : Z) : Prop := 0 ≤ x < 2 ^ 64.

Declare Scope c_scope.
Delimit Scope c_scope with c.
Notation "x +ᵤ y" := (u64 (x + y)) (at level 50, left associativity) : c_scope.
Notation "x -ᵤ y" := (u64 (x - y)) (at level 50, left associativity) : c_scope.
Notation "x *ᵤ y" := (u64 (x * y)) (at level 40, left associativity) : c_scope.
#[global] Open Scope c_scope.

Lemma wrap_small w x : 0 ≤ x < 2 ^ w → wrap w x = x.
Proof. apply Z.mod_small. Qed.

Lemma wrap_range w x : 0 ≤ w → 0 ≤ wrap w x < 2 ^ w.
Proof. intros Hw. apply Z.mod_pos_bound. lia. Qed.

Lemma u64_small x : in_u64 x → u64 x = x.
Proof. apply wrap_small. Qed.

Lemma u64_range x : 0 ≤ u64 x < 2 ^ 64.
Proof. by apply wrap_range. Qed.

(** Removes the wrap-around of every sum, difference and product that
    provably stays in range. *)
Ltac u64_norm :=
  repeat match goal with
  | |- context [u64 ?x] => rewrite (u64_small x) by (unfold in_u64; lia)
  | H : context [u64 ?x] |- _ =>
      rewrite (u64_small x) in H by (unfold in_u64; lia)
  end.

(** ** Faults and the state monad

    A C function that dereferences a null or dangling pointer, fails an
    [assert], writes out of bounds, blocks forever or recurses without end has
    no result: that is a [Fault], naming the reason. Return codes are ordinary
    values. *)

Inductive fault : Type :=
  | NullDeref        (** a null or uninitialised pointer is dereferenced *)
  | AssertFail       (** an [assert] fails and the process aborts *)
  | OutOfBounds      (** an access outside an object *)
  | StackOverflow    (** a variable-length array that cannot be allocated *)
  | DivByZero        (** an integer division by zero *)
  | WouldBlock       (** waits for something that never happens *)
  | OutOfFuel        (** more iterations or recursive calls than the bound *)
  | Throw (what : string).  (** an uncaught C++ exception *)

Inductive result (A : Type) : Type :=
  | Ok (a : A)
  | Fault (f : fault).
Arguments Ok {A} a.
Arguments Fault {A} f.

#[export] Instance result_ret : MRet result := λ A a, Ok a.
#[export] Instance result_bind : MBind result := λ A B f m,
  match m with Ok a => f a | Fault e => Fault e end.

(** [M S A]: a computation over the mutable state [S] that returns an [A]. *)
Definition M (S A : Type) : Type := S → result (A * S).

#[export] Instance M_ret {S} : MRet (M S) := λ A a s, Ok (a, s).
#[export] Instance M_bind {S} : MBind (M S) := λ A B f m s,
  match m s with
  | Ok (a, s') => f a s'
  | Fault e => Fault e
  end.

Definition m_get {S} : M S S := λ s, Ok (s, s).
Definition m_put {S} (s' : S) : M S unit := λ _, Ok (tt, s').
Definition m_modify {S} (f : S → S) : M S unit := λ s, Ok (tt, f s).
Definition m_fault {S A} (e : fault) : M S A := λ _, Fault e.
Definition m_lift {S A} (r : result A) : M S A := λ s,
  match r with Ok a => Ok (a, s) | Fault e => Fault e end.

(** [assert(b)] with assertions enabled. *)
Definition c_assert {S} (b : bool) : M S unit :=
  if b then mret tt else m_fault AssertFail.

(** Dereferences a pointer that [mdb_get] or a lookup may have left null. *)
Definition c_deref {S A} (p : option A) : M S A :=
  match p with Some a => mret a | None => m_fault NullDeref end.

Section MonadLemmas.
Context {S A B : Type}.
Implicit Types (m : M S A) (k : A → M S B) (s : S).

(** A bind returns when, and only when, both of its halves do. *)
Lemma bind_Ok_inv m k s r :
  (x ← m; k x) s = Ok r → ∃ a s', m s = Ok (a, s') ∧ k a s' = Ok r.
Proof.
  unfold mbind, M_bind. destruct (m s) as [[a s'] | e]; [eauto | done].
Qed.

Lemma bind_run m k s a s' : m s = Ok (a, s') → (x ← m; k x) s = k a s'.
Proof. unfold mbind, M_bind. by intros ->. Qed.

Lemma bind_fault m k s e : m s = Fault e → (x ← m; k x) s = Fault e.
Proof. unfold mbind, M_bind. by intros ->. Qed.

Lemma ret_run (a : A) s : (mret a : M S A) s = Ok (a, s).
Proof. done. Qed.
End MonadLemmas.



(** [inv_bind H]: splits a hypothesis that a sequence of statements returned
    into what each statement returned. *)
Ltac inv_bind H :=
  repeat match type of H with
  | mbind _ _ _ = Ok _ =>
      let a := fresh "a" in let s := fresh "st" in
      let E := fresh "E" in
      apply bind_Ok_inv in H as (a & s & E & H)
  end.

(** One symbolic step of a computation whose first statement is known. *)
Ltac run_step E := rewrite (bind_run _ _ _ _ _ E).

(** ** Exceptions

    Code that catches exceptions goes on in the state in which they were
    thrown. [Exc S A] is a computation that returns, throws, or has no result. *)

Inductive exn : Type :=
  | RuntimeError (what : string)
  | ClientError (agent : nat) (what : string).  (** client_error.hpp *)

Inductive outcome (S A : Type) : Type :=
  | Done (a : A) (s : S)
  | Thrown (e : exn) (s : S)
  | Stuck (f : fault).
Arguments Done {S A} a s.
Arguments Thrown {S A} e s.
Arguments Stuck {S A} f.

Definition Exc (S A : Type) : Type := S → outcome S A.

#[export] Instance exc_ret {S} : MRet (Exc S) := λ A a s, Done a s.
#[export] Instance exc_bind {S} : MBind (Exc S) := λ A B f m s,
  match m s with
  | Done a s' => f a s'
  | Thrown e s' => Thrown e s'
  | Stuck e => Stuck e
  end.

Definition e_get {S} : Exc S S := λ s, Done s s.
Definition e_put {S} (s' : S) : Exc S unit := λ _, Done tt s'.
Definition e_modify {S} (f : S → S) : Exc S unit := λ s, Done tt (f s).
Definition e_throw {S A} (e : exn) : Exc S A := λ s, Thrown e s.

Definition e_deref {S A} (p : option A) : Exc S A :=
  λ s, match p with Some a => Done a s | None => Stuck NullDeref end.

(** A computation without state, and one on a part of the state. *)
Definition e_lift {S A} (r : result A) : Exc S A := λ s,
  match r with
  | Ok a => Done a s
  | Fault (Throw what) => Thrown (RuntimeError what) s
  | Fault f => Stuck f
  end.

Definition e_part {S T A} (get : S → T) (put : T → S → S) (m : M T A) : Exc S A := λ s,
  match m (get s) with
  | Ok (a, t) => Done a (put t s)
  | Fault (Throw what) => Thrown (RuntimeError what) s
  | Fault f => Stuck f
  end.

Section ExceptionLemmas.
Context {S A B : Type}.
Implicit Types (m : Exc S A) (k : A → Exc S B) (s : S).

Lemma e_bind_run m k s a s' : m s = Done a s' → (x ← m; k x) s = k a s'.
Proof. unfold mbind, exc_bind. by intros ->. Qed.

Lemma e_bind_thrown m k s e s' : m s = Thrown e s' → (x ← m; k x) s = Thrown e s'.
Proof. unfold mbind, exc_bind. by intros ->. Qed.

Lemma e_bind_Done_inv m k s b s'' :
  (x ← m; k x) s = Done b s'' → ∃ a s', m s = Done a s' ∧ k a s' = Done b s''.
Proof. unfold mbind, exc_bind. destruct (m s); naive_solver. Qed.
End ExceptionLemmas.

(** A relation every way out of a computation respects. *)
Section Keeps.
Context {S : Type} (R : S → S → Prop) `{!PreOrder R}.

Definition keeps {A} (m : Exc S A) : Prop := ∀ s,
  match m s with Done _ s' | Thrown _ s' => R s s' | Stuck _ => True end.

Lemma keeps_ret {A} (a : A) : keeps (mret a).
Proof. intros s. cbn. reflexivity. Qed.

Lemma keeps_bind {A B} (m : Exc S A) (k : A → Exc S B) :
  keeps m → (∀ a, keeps (k a)) → keeps (x ← m; k x).
Proof.
  intros Hm Hk s. unfold mbind, exc_bind. specialize (Hm s).
  destruct (m s) as [a s'| |]; [|exact Hm|exact Hm]. specialize (Hk a s').
  destruct (k a s') as [b s''|e s''|]; [by etransitivity|by etransitivity|exact Hk].
Qed.

Lemma keeps_throw {A} e : keeps (e_throw (A := A) e).
Proof. intros s. cbn. reflexivity. Qed.
Lemma keeps_get : keeps e_get.
Proof. intros s. cbn. reflexivity. Qed.
Lemma keeps_deref {A} (p : option A) : keeps (e_deref p).
Proof. intros s. destruct p; cbn; [reflexivity|done]. Qed.
Lemma keeps_lift {A} (r : result A) : keeps (e_lift r).
Proof. intros s. unfold e_lift. destruct r as [|[]]; done || reflexivity. Qed.
Lemma keeps_modify f : (∀ s, R s (f s)) → keeps (e_modify f).
Proof. intros Hf s. apply Hf. Qed.
Lemma keeps_stuck {A} f : keeps (λ _, Stuck (A := A) f).
Proof. done. Qed.

(** The same with a property of what is returned. *)
Definition keeps_post {A} (P : A → Prop) (m : Exc S A) : Prop := ∀ s,
  match m s with Done a s' => R s s' ∧ P a | Thrown _ s' => R s s' | Stuck _ => True end.

Lemma keeps_post_ret {A} (P : A → Prop) a : P a → keeps_post P (mret a).
Proof. intros HP s. split; [reflexivity|done]. Qed.

Lemma keeps_post_bind {A B} (Q : A → Prop) (P : B → Prop) (m : Exc S A) (k : A → Exc S B) :
  keeps_post Q m → (∀ a, Q a → keeps_post P (k a)) → keeps_post P (x ← m; k x).
Proof.
  intros Hm Hk s. unfold mbind, exc_bind. specialize (Hm s).
  destruct (m s) as [a s'| |]; [|exact Hm|exact Hm]. destruct Hm as [HR HQ].
  specialize (Hk a HQ s'). destruct (k a s') as [b s''|e s''|]; [|by etransitivity|exact Hk].
  destruct Hk. split; [by etransitivity|done].
Qed.

Lemma keeps_keeps_post {A} (m : Exc S A) : keeps m → keeps_post (λ _, True) m.
Proof. intros Hm s. specialize (Hm s). by destruct (m s). Qed.

Lemma keeps_post_keeps {A} (P : A → Prop) (m : Exc S A) : keeps_post P m → keeps m.
Proof. intros Hm s. specialize (Hm s). by destruct (m s); [destruct Hm| |]. Qed.
End Keeps.

Create HintDb keeps.
#[export] Hint Resolve keeps_ret keeps_throw keeps_get keeps_deref keeps_lift keeps_stuck : keeps.

(** Follows the statements of a computation. *)
Ltac keep :=
  repeat first
    [ progress intros
    | solve [eauto with keeps typeclass_instances]
    | apply keeps_bind; [typeclasses eauto| |]
    | match goal with |- keeps _ (match ?x with _ => _ end) => destruct x end ].

(** One symbolic step of such a computation. *)
Ltac e_step H := rewrite (e_bind_run _ _ _ _ _ H).

(** ** Bytes *)

Definition byte_ok (b : Z) : Prop := 0 ≤ b < 256.

(** The object representation of an unsigned integer of [n] bytes on the
    little-endian hosts the driver runs on (x86-64 and ppc64le). *)
Fixpoint le_bytes (n : nat) (x : Z) : list Z :=
  match n with
  | O => []
  | S n' => x mod 256 :: le_bytes n' (x / 256)
  end.

Fixpoint le_val (l : list Z) : Z :=
  match l with
  | [] => 0
  | b :: l' => b + 256 * le_val l'
  end.

Lemma length_le_bytes n x : length (le_bytes n x) = n.
Proof. revert x. induction n as [|n IH]; intros x; simpl; [done | by rewrite IH]. Qed.

Lemma le_bytes_ok n x : Forall byte_ok (le_bytes n x).
Proof.
  revert x. induction n as [|n IH]; intros x; simpl; constructor; [|done].
  apply Z.mod_pos_bound. lia.
Qed.

Lemma pow256_S (n : nat) : 256 ^ Z.of_nat (S n) = 256 * 256 ^ Z.of_nat n.
Proof. rewrite Nat2Z.inj_succ, Z.pow_succ_r; lia. Qed.

(** Reading back the bytes of a value gives the value modulo the width. *)
Lemma le_val_bytes n x : le_val (le_bytes n x) = x mod 256 ^ Z.of_nat n.
Proof.
  revert x. induction n as [|n IH]; intros x.
  - simpl. by rewrite Z.mod_1_r.
  - cbn [le_bytes le_val]. rewrite IH, pow256_S.
    rewrite (Z.rem_mul_r x 256) by lia. lia.
Qed.

Lemma le_val_bytes_small n x :
  0 ≤ x < 256 ^ Z.of_nat n → le_val (le_bytes n x) = x.
Proof. intros Hx. rewrite le_val_bytes. by apply Z.mod_small. Qed.

Lemma le_val_range l :
  Forall byte_ok l → 0 ≤ le_val l < 256 ^ Z.of_nat (length l).
Proof.
  induction 1 as [|b l Hb Hl IH]; [simpl; lia|].
  cbn [length le_val]. rewrite pow256_S. unfold byte_ok in Hb. lia.
Qed.

Lemma le_bytes_val l : Forall byte_ok l → le_bytes (length l) (le_val l) = l.
Proof.
  induction 1 as [|b l Hb Hl IH]; [done|]. cbn [length le_bytes le_val].
  unfold byte_ok in Hb.
  replace ((b + 256 * le_val l) mod 256) with b
    by (rewrite (Z.mul_comm 256), Z.mod_add, Z.mod_small; lia).
  replace ((b + 256 * le_val l) / 256) with (le_val l)
    by (rewrite (Z.mul_comm 256), Z.div_add, Z.div_small; lia).
  by rewrite IH.
Qed.

Lemma le_bytes_inj n x y :
  0 ≤ x < 256 ^ Z.of_nat n → 0 ≤ y < 256 ^ Z.of_nat n →
  le_bytes n x = le_bytes n y → x = y.
Proof.
  intros Hx Hy E. apply (f_equal le_val) in E.
  by rewrite !le_val_bytes_small in E.
Qed.

(** [memcmp] as LMDB uses it: bytes first, then the shorter key first. *)
Fixpoint memcmp (a b : list Z) : comparison :=
  match a, b with
  | [], [] => Eq
  | [], _ :: _ => Lt
  | _ :: _, [] => Gt
  | x :: a', y :: b' =>
      match x ?= y with
      | Eq => memcmp a' b'
      | c => c
      end
  end.

Definition mem_lt (a b : list Z) : bool :=
  match memcmp a b with Lt => true | _ => false end.
Definition mem_le (a b : list Z) : bool :=
  match memcmp a b with Gt => false | _ => true end.

Lemma memcmp_refl a : memcmp a a = Eq.
Proof. induction a as [|x a IH]; simpl; [done|]. by rewrite Z.compare_refl. Qed.

Lemma memcmp_antisym a b : memcmp b a = CompOpp (memcmp a b).
Proof.
  revert b. induction a as [|x a IH]; intros [|y b]; simpl; try done.
  rewrite (Z.compare_antisym x y). destruct (x ?= y); simpl; auto.
Qed.

Lemma memcmp_eq a b : memcmp a b = Eq → a = b.
Proof.
  revert b. induction a as [|x a IH]; intros [|y b]; simpl; try done.
  destruct (Z.compare_spec x y); try done. intros. subst. f_equal. auto.
Qed.

Lemma mem_lt_trans a b c : mem_lt a b → mem_lt b c → mem_lt a c.
Proof.
  unfold mem_lt. revert b c.
  induction a as [|x a IH]; intros [|y b] [|z c]; simpl; try done.
  specialize (IH b c).
  destruct (Z.compare_spec x y), (Z.compare_spec y z), (Z.compare_spec x z);
    try done; try lia; naive_solver.
Qed.

Lemma mem_le_lt_eq a b : mem_le a b ↔ mem_lt a b ∨ a = b.
Proof.
  unfold mem_le, mem_lt. destruct (memcmp a b) eqn:E; simpl.
  - split; [|done]. intros _. right. by apply memcmp_eq.
  - split; [|done]. by left.
  - split; [done|]. intros [[]| ->]. by rewrite memcmp_refl in E.
Qed.

Lemma mem_lt_irrefl a : ¬ mem_lt a a.
Proof. unfold mem_lt. rewrite memcmp_refl. intros []. Qed.

Lemma mem_le_nlt a b : mem_le a b ↔ ¬ mem_lt b a.
Proof.
  unfold mem_le, mem_lt. rewrite (memcmp_antisym a b).
  destruct (memcmp a b); simpl; naive_solver.
Qed.

Lemma mem_le_refl a : mem_le a a.
Proof. apply mem_le_lt_eq. by right. Qed.

Lemma mem_le_trans a b c : mem_le a b → mem_le b c → mem_le a c.
Proof.
  rewrite !mem_le_lt_eq. intros [?| ->] [?| ->]; eauto using mem_lt_trans.
Qed.

Create HintDb mem.
#[export] Hint Resolve mem_le_refl mem_le_trans mem_lt_trans : mem.

(** ** C strings

    A C string is the list of its bytes without the terminating zero. *)

Definition cstr : Type := list Z.

Definition str (s : string) : cstr :=
  (λ a, Z.of_nat (Ascii.nat_of_ascii a)) <$> String.list_ascii_of_string s.

Lemma length_str s : length (str s) = String.length s.
Proof. unfold str. rewrite length_fmap. induction s as [|c s IH]; cbn; [done|by rewrite IH]. Qed.

(** A [std::set] of strings: in the order of their bytes, each once. *)
Fixpoint set_emplace (s : string) (l : list string) : list string :=
  match l with
  | [] => [s]
  | t :: l' =>
      match String.compare s t with
      | Lt => s :: l
      | Eq => l
      | Gt => t :: set_emplace s l'
      end
  end.

Lemma elem_of_set_emplace s l x : x ∈ set_emplace s l ↔ x = s ∨ x ∈ l.
Proof.
  induction l as [|t l IH]; cbn [set_emplace].
  - rewrite list_elem_of_singleton, elem_of_nil. tauto.
  - destruct (String.compare s t) eqn:E; rewrite ?elem_of_cons.
    + apply String.compare_eq_iff in E as ->. tauto.
    + tauto.
    + rewrite IH. tauto.
Qed.

Lemma elem_of_set_emplaced names l x : x ∈ foldl (λ l s, set_emplace s l) l names ↔ x ∈ names ∨ x ∈ l.
Proof.
  revert l. induction names as [|s names IH]; intros l; cbn [foldl].
  - rewrite elem_of_nil. tauto.
  - rewrite IH, elem_of_set_emplace, elem_of_cons. tauto.
Qed.

Definition byte_order (s t : string) : Prop := String.compare s t = Lt.

Lemma set_emplace_sorted s l : Sorted byte_order l → Sorted byte_order (set_emplace s l).
Proof.
  induction 1 as [|t l Hl IH Hhd]; cbn [set_emplace]; [by repeat constructor|].
  destruct (String.compare s t) eqn:E; [by constructor|by repeat constructor|].
  constructor; [exact IH|]. assert (byte_order t s) as Hts.
  { unfold byte_order. rewrite String.compare_antisym, E. done. }
  destruct l as [|t' l]; cbn [set_emplace]; [by constructor|].
  apply HdRel_inv in Hhd. by destruct (String.compare s t'); constructor.
Qed.

Lemma string_length_app s1 s2 : String.length (s1 ++ s2)%string = (String.length s1 + String.length s2)%nat.
Proof. induction s1 as [|c s1 IH]; [done|]. exact (f_equal S IH). Qed.

Lemma string_app_assoc s1 s2 s3 : ((s1 ++ s2) ++ s3)%string = (s1 ++ (s2 ++ s3))%string.
Proof. induction s1 as [|c s1 IH]; [done|]. exact (f_equal (String c) IH). Qed.

Lemma string_app_nil_r s : (s ++ "")%string = s.
Proof. induction s as [|c s IH]; [done|]. exact (f_equal (String c) IH). Qed.

(** A part of a text behind another, and at its beginning. *)
Lemma substring_skip s1 s2 i n : String.substring (String.length s1 + i) n (s1 ++ s2)%string = String.substring i n s2.
Proof. induction s1 as [|c s1 IH]; [done|]. exact IH. Qed.

Lemma substring_first s1 s2 : String.substring 0 (String.length s1) (s1 ++ s2)%string = s1.
Proof.
  induction s1 as [|c s1 IH]; [by destruct s2|]. exact (f_equal (String c) IH).
Qed.

(** ** Lists *)

Lemma sum_list_Z_app (f : Z * Z → Z) l1 l2 :
  foldr (λ e acc, f e + acc) 0 (l1 ++ l2)
  = foldr (λ e acc, f e + acc) 0 l1 + foldr (λ e acc, f e + acc) 0 l2.
Proof. induction l1 as [|e l1 IH]; cbn [foldr app]; [done | rewrite IH; lia]. Qed.

(** Splits a rejected or accepted test into its cases. *)
Ltac case_bool :=
  repeat match goal with
  | H : context [if ?b then _ else _] |- _ =>
      let E := fresh "Hb" in destruct b eqn:E
  | |- context [if ?b then _ else _] =>
      let E := fresh "Hb" in destruct b eqn:E
  end.

(** Turns the boolean comparisons of the code into propositions. *)
Ltac to_prop :=
  repeat match goal with
  | H : (_ && _)%bool = true |- _ => apply andb_true_iff in H as [? ?]
  | H : (_ || _)%bool = false |- _ => apply orb_false_iff in H as [? ?]
  | H : (_ <? _) = true |- _ => apply Z.ltb_lt in H
  | H : (_ <? _) = false |- _ => apply Z.ltb_ge in H
  | H : (_ <=? _) = true |- _ => apply Z.leb_le in H
  | H : (_ <=? _) = false |- _ => apply Z.leb_gt in H
  | H : (_ =? _) = true |- _ => apply Z.eqb_eq in H
  | H : (_ =? _) = false |- _ => apply Z.eqb_neq in H
  | H : negb _ = true |- _ => apply negb_true_iff in H
  | H : negb _ = false |- _ => apply negb_false_iff in H
  end.
