(* ===== verification/Tiling.v ===== *)
(** * Tilings of a range of blocks

    The extents database is meant to cut the blocks [0, N) into consecutive
    extents. This file states that once, for a lookup function from start
    blocks to extents of some type with a length, and proves what the
    allocator needs: an extent may be replaced by one of the same length, cut
    in two, or merged with its successor. *)
From S2P Require Import Prelude.

(** Functional update of a lookup function, by pointwise equality. *)
Definition upd {K A} `{EqDecision K} (E : K → option A) (k : K) (x : option A) :
    K → option A :=
  λ k', if decide (k = k') then x else E k'.

Lemma upd_eq {K A} `{EqDecision K} (E : K → option A) k x : upd E k x k = x.
Proof. unfold upd. by rewrite decide_True. Qed.

Lemma upd_ne {K A} `{EqDecision K} (E : K → option A) k k' x :
  k ≠ k' → upd E k x k' = E k'.
Proof. intros. unfold upd. by rewrite decide_False. Qed.

#[export] Instance upd_proper {K A} `{EqDecision K} :
  Proper (pointwise_relation K (=) ==> (=) ==> (=) ==> pointwise_relation K (=))
    (@upd K A _).
Proof.
  intros E1 E2 HE k ? <- x ? <- k'. unfold upd. by destruct (decide _).
Qed.

(** Case analysis on every updated lookup of a hypothesis or the goal. *)
Ltac upd_cases :=
  repeat match goal with
  | H : upd _ ?k _ ?k' = _ |- _ =>
      let E := fresh "Ek" in
      destruct (decide (k = k')) as [E|E];
      [ rewrite E, upd_eq in H | rewrite (upd_ne _ _ _ _ E) in H ]
  end.

Section Tiles.
Context {A : Type} (len : A → Z).
Implicit Types (E : Z → option A) (e : A).

Record tiles (N : Z) E : Prop := Tiles {
  tile_range : ∀ o e, E o = Some e → 0 ≤ o ∧ 0 < len e ∧ o + len e ≤ N;
  tile_disjoint : ∀ o1 e1 o2 e2,
    E o1 = Some e1 → E o2 = Some e2 → o1 < o2 → o1 + len e1 ≤ o2;
  tile_cover : ∀ b, 0 ≤ b < N → ∃ o e, E o = Some e ∧ o ≤ b < o + len e;
}.

#[export] Instance tiles_proper N :
  Proper (pointwise_relation Z (=) ==> iff) (tiles N).
Proof.
  assert (∀ E1 E2, pointwise_relation Z (=) E1 E2 → tiles N E1 → tiles N E2) as Himp.
  { intros E1 E2 HE [Hr Hd Hc]. unfold pointwise_relation in HE. split.
    - intros o e. rewrite <-HE. apply Hr.
    - intros o1 e1 o2 e2. rewrite <-!HE. apply Hd.
    - intros b Hb. destruct (Hc b Hb) as (o & e & ? & ?).
      exists o, e. by rewrite <-HE. }
  intros E1 E2 HE. split; apply Himp; [done|]. by symmetry.
Qed.

(** A block belongs to one extent only. *)
Lemma tile_unique N E o1 e1 o2 e2 b :
  tiles N E → E o1 = Some e1 → E o2 = Some e2 →
  o1 ≤ b < o1 + len e1 → o2 ≤ b < o2 + len e2 → o1 = o2.
Proof.
  intros [_ Hd _] H1 H2 Hb1 Hb2.
  destruct (Z.lt_trichotomy o1 o2) as [?|[?|?]]; [|done|].
  - specialize (Hd _ _ _ _ H1 H2 ltac:(done)). lia.
  - specialize (Hd _ _ _ _ H2 H1 ltac:(done)). lia.
Qed.

(** Nothing starts strictly inside an extent. *)
Lemma tile_inside N E o e o' :
  tiles N E → E o = Some e → o < o' < o + len e → E o' = None.
Proof.
  intros Ht He Hin. destruct (E o') as [e'|] eqn:He'; [|done].
  pose proof (tile_disjoint _ _ Ht _ _ _ _ He He'). lia.
Qed.

(** After an extent comes the end, or the extent that starts there. *)
Lemma tile_next N E o e :
  tiles N E → E o = Some e →
  o + len e = N ∨ ∃ e', E (o + len e) = Some e'.
Proof.
  intros Ht He. pose proof (tile_range _ _ Ht _ _ He) as (? & ? & ?).
  destruct (decide (o + len e = N)) as [?|Hne]; [by left|right].
  destruct (tile_cover _ _ Ht (o + len e) ltac:(lia)) as (o' & e' & He' & Hin).
  destruct (Z.lt_trichotomy o o') as [Hlt|[<-|Hlt]]; [|simplify_eq; lia|].
  - pose proof (tile_disjoint _ _ Ht _ _ _ _ He He' Hlt).
    replace (o + len e) with o' by lia. eauto.
  - pose proof (tile_disjoint _ _ Ht _ _ _ _ He' He Hlt). lia.
Qed.

(** A single extent over everything. *)
Lemma tiles_single N e E :
  0 < N → len e = N → (∀ o, E o = None) → tiles N (upd E 0 (Some e)).
Proof.
  intros HN Hlen HE. split.
  - intros o e' Ho. upd_cases; [naive_solver lia | by rewrite HE in Ho].
  - intros o1 e1 o2 e2 H1 H2 ?. upd_cases; try lia; congruence.
  - intros b Hb. exists 0, e. rewrite upd_eq, Hlen. split; [done|lia].
Qed.

Lemma tiles_replace N E o e e' :
  tiles N E → E o = Some e → len e' = len e → tiles N (upd E o (Some e')).
Proof.
  intros Ht He Hlen. pose proof Ht as [Hr Hd Hc]. split.
  - intros o2 e2 H2. upd_cases; [|by apply Hr].
    simplify_eq. rewrite Hlen. by apply Hr.
  - intros o1 e1 o2 e2 H1 H2 Hlt.
    assert (∃ e1', E o1 = Some e1' ∧ len e1 = len e1') as (e1' & He1' & ->)
      by (upd_cases; simplify_eq; eauto).
    assert (∃ e2', E o2 = Some e2') as (e2' & He2') by (upd_cases; simplify_eq; eauto).
    by eapply Hd.
  - intros b Hb. destruct (Hc b Hb) as (o2 & e2 & H2 & Hin).
    destruct (decide (o = o2)) as [<-|Hne].
    + exists o, e'. rewrite upd_eq. simplify_eq. rewrite Hlen. done.
    + exists o2, e2. by rewrite upd_ne.
Qed.

Lemma tiles_split N E o e e1 e2 :
  tiles N E → E o = Some e → 0 < len e1 → 0 < len e2 →
  len e = len e1 + len e2 →
  tiles N (upd (upd E (o + len e1) (Some e2)) o (Some e1)).
Proof.
  intros Ht He H1 H2 Hlen. pose proof Ht as [Hr Hd Hc].
  pose proof (Hr _ _ He) as Ho.
  assert (∀ o' e', E o' = Some e' → o' ≠ o →
    0 < len e' ∧ (o' + len e' ≤ o ∨ o + len e ≤ o')) as Hapart.
  { intros o' e' He' Hne. split; [by eapply Hr|]. destruct (Z.lt_trichotomy o' o) as [?|[?|?]]; [|done|].
    - left. by eapply Hd.
    - right. by eapply Hd. }
  split.
  - intros o' e' He'. upd_cases; simplify_eq; try lia. by apply Hr.
  - intros oa ea ob eb Ha Hb Hlt.
    upd_cases; simplify_eq; try lia;
      try (pose proof (Hapart _ _ Hb); lia);
      try (pose proof (Hapart _ _ Ha); lia).
    all: by eapply Hd.
  - intros b Hb. destruct (Hc b Hb) as (o' & e' & He' & Hin).
    destruct (decide (o' = o)) as [->|Hne].
    + simplify_eq. destruct (decide (b < o + len e1)).
      * exists o, e1. rewrite upd_eq. split; [done|lia].
      * exists (o + len e1), e2. rewrite upd_ne by lia. rewrite upd_eq.
        split; [done|lia].
    + exists o', e'. rewrite upd_ne by done.
      rewrite upd_ne; [done|]. intros <-.
      by rewrite (tile_inside N E o e (o + len e1)) in He' by (done || lia).
Qed.

Lemma tiles_merge N E o e1 e2 e :
  tiles N E → E o = Some e1 → E (o + len e1) = Some e2 →
  len e = len e1 + len e2 →
  tiles N (upd (upd E (o + len e1) None) o (Some e)).
Proof.
  intros Ht He1 He2 Hlen. pose proof Ht as [Hr Hd Hc].
  pose proof (Hr _ _ He1) as Ho1. pose proof (Hr _ _ He2) as Ho2.
  assert (∀ o' e', E o' = Some e' → o' ≠ o → o' ≠ o + len e1 →
    0 < len e' ∧ (o' + len e' ≤ o ∨ o + len e ≤ o')) as Hapart.
  { intros o' e' He' Hne Hne'. split; [by eapply Hr|].
    destruct (Z.lt_trichotomy o' o) as [?|[?|?]]; [|done|].
    - left. by eapply Hd.
    - right. pose proof (Hd _ _ _ _ He1 He').
      destruct (Z.lt_trichotomy o' (o + len e1)) as [?|[?|?]]; [lia|done|].
      pose proof (Hd _ _ _ _ He2 He'). lia. }
  split.
  - intros o' e' He'. upd_cases; simplify_eq; try lia. by apply Hr.
  - intros oa ea ob eb Ha Hb Hlt.
    upd_cases; simplify_eq; try lia;
      try (pose proof (Hapart _ _ Hb); lia);
      try (pose proof (Hapart _ _ Ha); lia).
    all: by eapply Hd.
  - intros b Hb. destruct (Hc b Hb) as (o' & e' & He' & Hin).
    destruct (decide (o' = o)) as [->|Hne].
    { exists o, e. rewrite upd_eq. simplify_eq. split; [done|lia]. }
    destruct (decide (o' = o + len e1)) as [->|Hne'].
    { exists o, e. rewrite upd_eq. simplify_eq. split; [done|lia]. }
    exists o', e'. by rewrite !upd_ne.
Qed.
End Tiles.
