(* ===== verification/Lmdb.v ===== *)
(** * The LMDB interface

    The file system keeps all its metadata in LMDB, which is not part of the
    repository. [Lmdb] lists the operations the source calls, [LmdbLaws] the
    documented behaviour the theorems rely on, and [RefLmdb] is a concrete
    store on which the witnesses evaluate.

    - A named database ([MDB_dbi]) holds keys and values as bytes. The source
      stores objects of one C type per database and casts what it reads back
      to that type, so a database is typed here by its key and value; the
      order of the cursors is [memcmp] on the bytes of the keys ([mem_repr]),
      as [mdb_dbi_open] documents for a database opened without
      [MDB_INTEGERKEY] or a comparison function of its own.
    - [mdb_get], [mdb_del] and the cursors answer [None] for [MDB_NOTFOUND].
    - There is at most one write transaction: [mdb_txn_begin] of a second one
      waits for the first ([None]). Readers see the last commit.
    - What a pointer returned by [mdb_get] reads after a later [mdb_put] of the
      same key is left open by the documentation ("valid until a subsequent
      update operation"): [mdb_read_after_put] is whatever that read gives. The loops
      of mtl_truncate and mtl_unlink also read the extents of a file through such a
      pointer after updates of other databases; there the model reads the record as it
      was loaded.
    - The map is large enough: an [mdb_put] that fails with [MDB_MAP_FULL], whose
      result the source ignores, is not modelled. *)
From S2P Require Import Prelude.

Class MdbKey (K : Type) := {
  mdb_key_dec :: EqDecision K;
  mem_repr : K → list Z;
}.

Class Lmdb := {
  mdb : Type → Type → Type;
  mdb_empty {K V : Type} : mdb K V;
  mdb_get {K V : Type} `{MdbKey K} : mdb K V → K → option V;
  mdb_put {K V : Type} `{MdbKey K} : mdb K V → K → V → mdb K V;
  mdb_del {K V : Type} `{MdbKey K} : mdb K V → K → option (mdb K V);
  (** [MDB_LAST], and [MDB_SET] of a key followed by [MDB_NEXT] *)
  mdb_cursor_last {K V : Type} `{MdbKey K} : mdb K V → option (K * V);
  mdb_cursor_next {K V : Type} `{MdbKey K} : mdb K V → K → option (K * V);
  (** [mdb_read_after_put d k v]: a pointer obtained from [mdb_get d k], read
      after [mdb_put d k v] *)
  mdb_read_after_put {K V : Type} `{MdbKey K} : mdb K V → K → V → V;
  mdb_env : Type → Type;
  mdb_txn_begin {S : Type} : mdb_env S → option (S * mdb_env S);
  mdb_txn_begin_rdonly {S : Type} : mdb_env S → S;
  mdb_txn_commit {S : Type} : mdb_env S → S → mdb_env S;
  mdb_txn_abort {S : Type} : mdb_env S → mdb_env S;
  (** observers, for the laws *)
  mdb_committed {S : Type} : mdb_env S → S;
  mdb_writer {S : Type} : mdb_env S → bool;
}.

Class LmdbLaws `{Lmdb} := {
  mdb_get_empty {K V} `{MdbKey K} (k : K) :
    mdb_get (mdb_empty : mdb K V) k = None;
  mdb_get_put {K V} `{MdbKey K} (d : mdb K V) k v k' :
    mdb_get (mdb_put d k v) k' = if decide (k = k') then Some v else mdb_get d k';
  mdb_del_notfound {K V} `{MdbKey K} (d : mdb K V) k :
    mdb_get d k = None → mdb_del d k = None;
  mdb_del_found {K V} `{MdbKey K} (d : mdb K V) k v :
    mdb_get d k = Some v →
    ∃ d', mdb_del d k = Some d' ∧
      ∀ k', mdb_get d' k' = if decide (k = k') then None else mdb_get d k';
  mdb_last_none {K V} `{MdbKey K} (d : mdb K V) :
    mdb_cursor_last d = None → ∀ k, mdb_get d k = None;
  mdb_last_some {K V} `{MdbKey K} (d : mdb K V) k v :
    mdb_cursor_last d = Some (k, v) →
    mdb_get d k = Some v ∧
    ∀ k' v', mdb_get d k' = Some v' → mem_le (mem_repr k') (mem_repr k);
  mdb_next_none {K V} `{MdbKey K} (d : mdb K V) k :
    mdb_cursor_next d k = None →
    ∀ k' v', mdb_get d k' = Some v' → mem_le (mem_repr k') (mem_repr k);
  mdb_next_some {K V} `{MdbKey K} (d : mdb K V) k k' v' :
    mdb_cursor_next d k = Some (k', v') →
    mdb_get d k' = Some v' ∧ mem_lt (mem_repr k) (mem_repr k') ∧
    ∀ k'' v'', mdb_get d k'' = Some v'' → mem_lt (mem_repr k) (mem_repr k'') →
      mem_le (mem_repr k') (mem_repr k'');
  mdb_begin_blocks {S} (e : mdb_env S) :
    mdb_writer e = true → mdb_txn_begin e = None;
  mdb_begin_ok {S} (e : mdb_env S) :
    mdb_writer e = false →
    ∃ e', mdb_txn_begin e = Some (mdb_committed e, e') ∧
      mdb_committed e' = mdb_committed e ∧ mdb_writer e' = true;
  mdb_rdonly {S} (e : mdb_env S) : mdb_txn_begin_rdonly e = mdb_committed e;
  mdb_commit_committed {S} (e : mdb_env S) s :
    mdb_committed (mdb_txn_commit e s) = s;
  mdb_commit_writer {S} (e : mdb_env S) s :
    mdb_writer (mdb_txn_commit e s) = false;
  mdb_abort_committed {S} (e : mdb_env S) :
    mdb_committed (mdb_txn_abort e) = mdb_committed e;
  mdb_abort_writer {S} (e : mdb_env S) :
    mdb_writer (mdb_txn_abort e) = false;
}.

#[export] Instance mdb_key_u64 : MdbKey Z := {| mem_repr := le_bytes 8 |}.

(** ** Derived lookup lemmas *)

Create Rewrite HintDb mdb.

Section Derived.
Context `{LmdbLaws} {K V : Type} `{!MdbKey K}.
Implicit Types (d : mdb K V) (k : K) (v : V).

Lemma mdb_get_put_eq d k v : mdb_get (mdb_put d k v) k = Some v.
Proof. rewrite mdb_get_put. by rewrite decide_True. Qed.

Lemma mdb_get_put_ne d k k' v :
  k ≠ k' → mdb_get (mdb_put d k v) k' = mdb_get d k'.
Proof. intros. rewrite mdb_get_put. by rewrite decide_False. Qed.

Lemma mdb_del_Some_inv d d' k :
  mdb_del d k = Some d' →
  is_Some (mdb_get d k) ∧
  ∀ k', mdb_get d' k' = if decide (k = k') then None else mdb_get d k'.
Proof.
  intros E. destruct (mdb_get d k) as [v|] eqn:Hk.
  - destruct (mdb_del_found d k v Hk) as (d2 & E2 & Hd2).
    split; [eauto|]. by simplify_eq.
  - rewrite (mdb_del_notfound d k Hk) in E. done.
Qed.

Lemma mdb_get_del_eq d d' k : mdb_del d k = Some d' → mdb_get d' k = None.
Proof. intros [_ E]%mdb_del_Some_inv. by rewrite E, decide_True. Qed.

Lemma mdb_get_del_ne d d' k k' :
  mdb_del d k = Some d' → k ≠ k' → mdb_get d' k' = mdb_get d k'.
Proof. intros [_ E]%mdb_del_Some_inv ?. by rewrite E, decide_False. Qed.

(** A non-empty database has a last entry. *)
Lemma mdb_last_is_Some d k v :
  mdb_get d k = Some v → is_Some (mdb_cursor_last d).
Proof.
  intros Hk. destruct (mdb_cursor_last d) as [p|] eqn:E; [eauto|].
  by rewrite (mdb_last_none _ E) in Hk.
Qed.
End Derived.

#[export] Hint Rewrite @mdb_get_put_eq @mdb_get_empty
  @mdb_commit_committed @mdb_commit_writer @mdb_abort_committed
  @mdb_abort_writer @mdb_rdonly using typeclasses eauto : mdb.

(** ** A reference store

    An association list. Cursors scan the keys; the value of the key found is
    read back with [mdb_get]. *)
Module RefStore.
Section Store.
Context {K V : Type} `{MdbKey K}.

Fixpoint get (d : list (K * V)) (k : K) : option V :=
  match d with
  | [] => None
  | (k', v) :: d' => if decide (k = k') then Some v else get d' k
  end.

Fixpoint remove (d : list (K * V)) (k : K) : list (K * V) :=
  match d with
  | [] => []
  | (k', v) :: d' =>
      if decide (k = k') then remove d' k else (k', v) :: remove d' k
  end.

Definition put (d : list (K * V)) (k : K) (v : V) : list (K * V) :=
  (k, v) :: remove d k.

Definition del (d : list (K * V)) (k : K) : option (list (K * V)) :=
  match get d k with None => None | Some _ => Some (remove d k) end.

Fixpoint max_key (ks : list K) : option K :=
  match ks with
  | [] => None
  | k :: ks' =>
      match max_key ks' with
      | None => Some k
      | Some m => Some (if mem_lt (mem_repr m) (mem_repr k) then k else m)
      end
  end.

Fixpoint min_key (ks : list K) : option K :=
  match ks with
  | [] => None
  | k :: ks' =>
      match min_key ks' with
      | None => Some k
      | Some m => Some (if mem_lt (mem_repr k) (mem_repr m) then k else m)
      end
  end.

Definition with_value (d : list (K * V)) (ok : option K) : option (K * V) :=
  k ← ok; v ← get d k; Some (k, v).

Definition last (d : list (K * V)) : option (K * V) :=
  with_value d (max_key d.*1).

Definition above (k : K) (ks : list K) : list K :=
  List.filter (λ k', mem_lt (mem_repr k) (mem_repr k')) ks.

Definition next (d : list (K * V)) (k : K) : option (K * V) :=
  with_value d (min_key (above k d.*1)).

Lemma get_remove d k k' :
  get (remove d k) k' = if decide (k = k') then None else get d k'.
Proof.
  induction d as [|[k2 v2] d IH]; simpl; [by case_decide|].
  repeat (case_decide; simplify_eq; simpl); auto; congruence.
Qed.

Lemma get_put d k v k' :
  get (put d k v) k' = if decide (k = k') then Some v else get d k'.
Proof.
  unfold put. simpl. rewrite get_remove. repeat case_decide; congruence.
Qed.

Lemma get_elem d k v : get d k = Some v → k ∈ d.*1.
Proof.
  induction d as [|[k2 v2] d IH]; simpl; [done|].
  case_decide; intros; simplify_eq; rewrite elem_of_cons; auto.
Qed.

Lemma elem_get d k : k ∈ d.*1 → is_Some (get d k).
Proof.
  induction d as [|[k2 v2] d IH]; simpl; [by intros ?%elem_of_nil|].
  case_decide; [eauto|]. intros [->|?]%elem_of_cons; [done | auto].
Qed.

Lemma max_key_spec ks :
  match max_key ks with
  | None => ks = []
  | Some m => m ∈ ks ∧ ∀ k, k ∈ ks → mem_le (mem_repr k) (mem_repr m)
  end.
Proof.
  induction ks as [|k ks IH]; simpl; [done|].
  destruct (max_key ks) as [m|].
  - destruct IH as [Hm IH].
    destruct (mem_lt (mem_repr m) (mem_repr k)) eqn:E;
      (split; [rewrite elem_of_cons; auto|]);
      intros k' [->|Hk']%elem_of_cons; eauto with mem.
    + eapply mem_le_trans; [by apply IH|]. apply mem_le_lt_eq. left. by rewrite E.
    + apply mem_le_nlt. rewrite E. intros [].
  - subst. split; [by rewrite elem_of_cons; left|].
    intros k' [->|Hk']%elem_of_cons; [apply mem_le_refl | by apply elem_of_nil in Hk'].
Qed.

Lemma min_key_spec ks :
  match min_key ks with
  | None => ks = []
  | Some m => m ∈ ks ∧ ∀ k, k ∈ ks → mem_le (mem_repr m) (mem_repr k)
  end.
Proof.
  induction ks as [|k ks IH]; simpl; [done|].
  destruct (min_key ks) as [m|].
  - destruct IH as [Hm IH].
    destruct (mem_lt (mem_repr k) (mem_repr m)) eqn:E;
      (split; [rewrite elem_of_cons; auto|]);
      intros k' [->|Hk']%elem_of_cons; eauto with mem.
    + eapply mem_le_trans; [|by apply IH]. apply mem_le_lt_eq. left. by rewrite E.
    + apply mem_le_nlt. rewrite E. intros [].
  - subst. split; [by rewrite elem_of_cons; left|].
    intros k' [->|Hk']%elem_of_cons; [apply mem_le_refl | by apply elem_of_nil in Hk'].
Qed.

Lemma elem_of_above k k' ks :
  k' ∈ above k ks ↔ k' ∈ ks ∧ mem_lt (mem_repr k) (mem_repr k').
Proof.
  unfold above. rewrite !list_elem_of_In, filter_In, Is_true_true. done.
Qed.

Lemma with_value_Some d ok k v :
  with_value d ok = Some (k, v) → ok = Some k ∧ get d k = Some v.
Proof.
  unfold with_value. destruct ok as [k2|]; simpl; [|done].
  destruct (get d k2) eqn:E; simpl; naive_solver.
Qed.

Lemma with_value_None d ok :
  with_value d ok = None → (∀ k, ok = Some k → k ∈ d.*1) → ok = None.
Proof.
  unfold with_value. destruct ok as [k|]; simpl; [|done]. intros Hv Hin.
  destruct (elem_get d k (Hin k eq_refl)) as [v Hg].
  rewrite Hg in Hv. done.
Qed.
End Store.
End RefStore.

#[export] Instance RefLmdb : Lmdb := {|
  mdb := λ K V, list (K * V);
  mdb_empty K V := [];
  mdb_get K V _ := RefStore.get;
  mdb_put K V _ := RefStore.put;
  mdb_del K V _ := RefStore.del;
  mdb_cursor_last K V _ := RefStore.last;
  mdb_cursor_next K V _ := RefStore.next;
  mdb_read_after_put K V _ := λ d k v, from_option id v (RefStore.get d k);
  mdb_env := λ S, (S * bool)%type;
  mdb_txn_begin S := λ e, if e.2 then None else Some (e.1, (e.1, true));
  mdb_txn_begin_rdonly S := fst;
  mdb_txn_commit S := λ _ s, (s, false);
  mdb_txn_abort S := λ e, (e.1, false);
  mdb_committed S := fst;
  mdb_writer S := snd;
|}.

#[export] Instance RefLmdbLaws : @LmdbLaws RefLmdb.
Proof.
  split; simpl; try done.
  - intros. apply RefStore.get_put.
  - intros K V ? d k E. unfold RefStore.del. by rewrite E.
  - intros K V ? d k v E. unfold RefStore.del. rewrite E.
    eexists. split; [done|]. intros k'. apply RefStore.get_remove.
  - intros K V ? d E k. pose proof (RefStore.max_key_spec d.*1) as Hm.
    apply RefStore.with_value_None in E; [|intros ? Hk; rewrite Hk in Hm; naive_solver].
    rewrite E in Hm. destruct (RefStore.get d k) eqn:Hg; [|done].
    apply RefStore.get_elem in Hg. rewrite Hm in Hg. by apply elem_of_nil in Hg.
  - intros K V ? d k v [E Hg]%RefStore.with_value_Some. split; [done|].
    pose proof (RefStore.max_key_spec d.*1) as Hm. rewrite E in Hm.
    intros k' v' Hg'. apply Hm. by eapply RefStore.get_elem.
  - intros K V ? d k E k' v' Hg%RefStore.get_elem.
    pose proof (RefStore.min_key_spec (RefStore.above k d.*1)) as Hm.
    apply RefStore.with_value_None in E; [|intros k2 Hk; rewrite Hk in Hm;
      destruct Hm as [[? ?]%RefStore.elem_of_above ?]; done].
    rewrite E in Hm. apply mem_le_nlt. intros Hlt.
    assert (k' ∈ RefStore.above k d.*1) as Hin by (by apply RefStore.elem_of_above).
    rewrite Hm in Hin. by apply elem_of_nil in Hin.
  - intros K V ? d k k' v' [E Hg]%RefStore.with_value_Some. split; [done|].
    pose proof (RefStore.min_key_spec (RefStore.above k d.*1)) as Hm.
    rewrite E in Hm. destruct Hm as [[? ?]%RefStore.elem_of_above Hm].
    split; [done|]. intros k2 v2 Hg2 Hlt. apply Hm.
    apply RefStore.elem_of_above. split; [by eapply RefStore.get_elem | done].
  - intros S [s w] Hw. simpl in *. by rewrite Hw.
  - intros S [s w] Hw. simpl in *. rewrite Hw. eauto.
Qed.
