(* ===== verification/Structs.v ===== *)
(** * The structures of the metadata store

    The C structures of [metal-filesystem/include] and the four LMDB databases
    ([mdb_env_set_maxdbs(env, 4)]: inodes, extents, heap, meta) as one record,
    the contents a transaction works on. *)
From S2P Require Import Prelude Lmdb.

(** ** Return codes (metal.h) *)

Definition MTL_SUCCESS : Z := 0.
Definition MTL_COMPLETE : Z := 1.
Definition MTL_ERROR_NOENTRY : Z := 2.
Definition MTL_ERROR_EXISTS : Z := 17.
Definition MTL_ERROR_NOTDIRECTORY : Z := 20.
Definition MTL_ERROR_INVALID_ARGUMENT : Z := 22.
Definition MTL_ERROR_NOTEMPTY : Z := 39.

Definition MTL_MAX_EXTENTS : Z := 512.

(** ** heap.h, extent.c, storage.h, inode.h *)

Record mtl_heap_node_id := NodeId { node_k : Z; node_v : Z }.

Definition INVALID_NODE : mtl_heap_node_id := NodeId 0 0.

Inductive mtl_extent_status := MTL_FREE | MTL_RESERVED | MTL_COMMITTED.

Record mtl_extent := Extent {
  ext_length : Z;
  ext_status : mtl_extent_status;
  ext_pq_node : mtl_heap_node_id;
}.

Record mtl_file_extent := FileExtent { fe_offset : Z; fe_length : Z }.

Record mtl_storage_metadata := StorageMetadata {
  num_blocks : Z;
  block_size : Z;
}.

Inductive MTL_inode_type := MTL_FILE | MTL_DIRECTORY.

Record mtl_inode := Inode {
  i_type : MTL_inode_type;
  i_length : Z;
  i_user : Z;
  i_group : Z;
  i_accessed : Z;
  i_modified : Z;
  i_created : Z;
  i_mode : Z;
}.

#[export] Instance node_id_eq_dec : EqDecision mtl_heap_node_id.
Proof. solve_decision. Defined.
#[export] Instance extent_status_eq_dec : EqDecision mtl_extent_status.
Proof. solve_decision. Defined.
#[export] Instance extent_eq_dec : EqDecision mtl_extent.
Proof. solve_decision. Defined.
#[export] Instance file_extent_eq_dec : EqDecision mtl_file_extent.
Proof. solve_decision. Defined.
#[export] Instance inode_type_eq_dec : EqDecision MTL_inode_type.
Proof. solve_decision. Defined.
#[export] Instance inode_eq_dec : EqDecision mtl_inode.
Proof. solve_decision. Defined.

(** ** Keys *)

(** A heap key is the structure itself: [k] then [v], eight bytes each. *)
#[export] Instance mdb_key_node : MdbKey mtl_heap_node_id :=
  {| mem_repr := λ id, le_bytes 8 (node_k id) ++ le_bytes 8 (node_v id) |}.

(** A meta key is a character array with its terminating zero. *)
#[export] Instance mdb_key_string : MdbKey string :=
  {| mem_repr := λ s, str s ++ [0] |}.

(** ** The contents of a transaction *)

Record txn `{Lmdb} := Txn {
  tx_heap : mdb mtl_heap_node_id Z;
  tx_extents : mdb Z mtl_extent;
  tx_inodes : mdb Z (mtl_inode * list Z);
  tx_meta : mdb string Z;
}.

Section Accessors.
Context `{Lmdb}.

Definition empty_txn : txn := Txn _ mdb_empty mdb_empty mdb_empty mdb_empty.

Definition set_heap (d : mdb mtl_heap_node_id Z) (t : txn) : txn :=
  Txn _ d (tx_extents t) (tx_inodes t) (tx_meta t).
Definition set_extents (d : mdb Z mtl_extent) (t : txn) : txn :=
  Txn _ (tx_heap t) d (tx_inodes t) (tx_meta t).
Definition set_inodes (d : mdb Z (mtl_inode * list Z)) (t : txn) : txn :=
  Txn _ (tx_heap t) (tx_extents t) d (tx_meta t).
Definition set_meta (d : mdb string Z) (t : txn) : txn :=
  Txn _ (tx_heap t) (tx_extents t) (tx_inodes t) d.
End Accessors.
