(* ===== verification/Heap.v ===== *)
(** * The priority queue of free extents (heap.c)

    A database ordered by LMDB stands for a heap: the key of a node is the
    pair of its priority and its value, its maximum is the last entry. *)
From S2P Require Import Prelude Lmdb Structs.

Module Heap.
Section Heap.
Context `{Lmdb}.

Definition mtl_heap_insert (key value : Z) : M txn (Z * mtl_heap_node_id) :=
  t ← m_get;
  let id := NodeId key value in
  _ ← m_put (set_heap (mdb_put (tx_heap t) id value) t);
  mret (MTL_SUCCESS, id).

Definition mtl_heap_delete (node_id : mtl_heap_node_id) : M txn Z :=
  t ← m_get;
  match mdb_del (tx_heap t) node_id with
  | None => mret MTL_ERROR_INVALID_ARGUMENT
  | Some d => _ ← m_put (set_heap d t); mret MTL_SUCCESS
  end.

(** The second component is [*max_value] after the call. *)
Definition mtl_heap_extract_max (max_value : Z) : M txn (Z * Z) :=
  t ← m_get;
  match mdb_cursor_last (tx_heap t) with
  | None => mret (MTL_ERROR_NOENTRY, max_value)
  | Some (key, value) =>
      res ← mtl_heap_delete key;
      mret (res, value)
  end.

(** [updated_node_id] is the old contents of the result parameter. *)
Definition mtl_heap_increase_key (node_id : mtl_heap_node_id) (key : Z)
    (updated_node_id : mtl_heap_node_id) : M txn (Z * mtl_heap_node_id) :=
  res ← mtl_heap_delete node_id;
  if negb (res =? MTL_SUCCESS) then mret (res, updated_node_id)
  else mtl_heap_insert key 0.
End Heap.

(** ** What the operations do to the database *)
Section Lemmas.
Context `{LmdbLaws}.
Implicit Types (t : txn) (id : mtl_heap_node_id).

(** The only database an operation of this component changes. *)
Definition heap_frame (t t' : txn) : Prop :=
  tx_extents t' = tx_extents t ∧ tx_inodes t' = tx_inodes t ∧
  tx_meta t' = tx_meta t.

Lemma insert_run key value t :
  mtl_heap_insert key value t
  = Ok ((MTL_SUCCESS, NodeId key value),
        set_heap (mdb_put (tx_heap t) (NodeId key value) value) t).
Proof. done. Qed.

Lemma delete_run id t :
  mtl_heap_delete id t
  = match mdb_del (tx_heap t) id with
    | None => Ok (MTL_ERROR_INVALID_ARGUMENT, t)
    | Some d => Ok (MTL_SUCCESS, set_heap d t)
    end.
Proof.
  unfold mtl_heap_delete, m_get, m_put, mbind, M_bind.
  by destruct (mdb_del _ _).
Qed.

(** Deleting a present node succeeds and removes exactly that node. *)
Lemma delete_ok id t v :
  mdb_get (tx_heap t) id = Some v →
  ∃ t', mtl_heap_delete id t = Ok (MTL_SUCCESS, t') ∧ heap_frame t t' ∧
    ∀ id', mdb_get (tx_heap t') id'
           = if decide (id = id') then None else mdb_get (tx_heap t) id'.
Proof.
  intros Hid. destruct (mdb_del_found _ _ _ Hid) as (d & Hd & Hget).
  exists (set_heap d t). rewrite delete_run, Hd. done.
Qed.

(** Taking the last node out of a non-empty heap succeeds. *)
Lemma extract_run t m id v :
  mdb_cursor_last (tx_heap t) = Some (id, v) →
  ∃ t', mtl_heap_extract_max m t = Ok ((MTL_SUCCESS, v), t') ∧
    heap_frame t t' ∧ mdb_get (tx_heap t) id = Some v ∧
    ∀ id', mdb_get (tx_heap t') id'
           = if decide (id = id') then None else mdb_get (tx_heap t) id'.
Proof.
  intros Hl. destruct (mdb_last_some _ _ _ Hl) as [Hid _].
  destruct (delete_ok _ _ _ Hid) as (t' & Hdel & Hf & Hget).
  exists t'. split; [|done].
  unfold mtl_heap_extract_max, m_get, mbind, M_bind. by rewrite Hl, Hdel.
Qed.

Lemma extract_empty t m :
  mdb_cursor_last (tx_heap t) = None →
  mtl_heap_extract_max m t = Ok ((MTL_ERROR_NOENTRY, m), t).
Proof.
  intros Hl. unfold mtl_heap_extract_max, m_get, mbind, M_bind. by rewrite Hl.
Qed.
End Lemmas.

End Heap.
