(* ===== verification/Extent.v ===== *)
(** * The extent allocator (extent.c)

    The extents database maps the first block of an extent to its length, its
    status and, when it is free, its node of the heap. The operations are
    computations over the open transaction. A pointer returned by
    [mtl_load_extent] is the optional extent: [None] is the null pointer. *)
From S2P Require Import Prelude Tiling Lmdb Structs Heap.

Module ExtentDb.
Section Operations.
Context `{Lmdb}.

Definition mtl_load_extent (offset : Z) : M txn (Z * option mtl_extent) :=
  t ← m_get;
  match mdb_get (tx_extents t) offset with
  | None => mret (MTL_ERROR_NOENTRY, None)
  | Some extent => mret (MTL_SUCCESS, Some extent)
  end.

Definition mtl_put_extent (offset : Z) (extent : mtl_extent) : M txn Z :=
  t ← m_get;
  _ ← m_put (set_extents (mdb_put (tx_extents t) offset extent) t);
  mret MTL_SUCCESS.

(** [mdb_del] of an extent; [false] for [MDB_NOTFOUND]. *)
Definition del_extent (offset : Z) : M txn bool :=
  t ← m_get;
  match mdb_del (tx_extents t) offset with
  | None => mret false
  | Some d => _ ← m_put (set_extents d t); mret true
  end.

Definition mtl_initialize_extents (blocks : Z) : M txn Z :=
  '(res, _) ← mtl_load_extent 0;
  if res =? MTL_ERROR_NOENTRY then
    '(_, pq_node) ← Heap.mtl_heap_insert blocks 0;
    _ ← mtl_put_extent 0 (Extent blocks MTL_FREE pq_node);
    mret MTL_SUCCESS
  else mret MTL_SUCCESS.

(** What [mtl_reserve_extent] works on: the extent found and its offset, the
    length appended to it and its length before that. *)
Record candidate := Candidate {
  cand_offset : Z;
  cand_extent : mtl_extent;
  cand_append : Z;     (* append_extent_length *)
  cand_original : Z;   (* original_extent_length *)
}.

(** Extends the last extent of the file if the extent after it is free. *)
Definition reserve_append (last_extent : option mtl_file_extent) :
    M txn (option candidate) :=
  match last_extent with
  | None => mret None
  | Some last =>
      let next_extent_offset := fe_offset last +ᵤ fe_length last in
      '(res, next_extent) ← mtl_load_extent next_extent_offset;
      if negb (res =? MTL_SUCCESS) then mret None
      else
        next ← c_deref next_extent;
        if decide (ext_status next = MTL_FREE) then
          res ← Heap.mtl_heap_delete (ext_pq_node next);
          _ ← c_assert (res =? MTL_SUCCESS);
          deleted ← del_extent next_extent_offset;
          _ ← c_assert deleted;
          '(res, extent) ← mtl_load_extent (fe_offset last);
          _ ← c_assert (res =? MTL_SUCCESS);
          extent ← c_deref extent;
          mret (Some (Candidate (fe_offset last) extent (ext_length next)
                                (ext_length extent)))
        else mret None
  end.

(** Pops the last node of the heap; [None] when the heap is empty. *)
Definition reserve_pop : M txn (option candidate) :=
  '(res, extent_offset) ← Heap.mtl_heap_extract_max 0;
  if res =? MTL_ERROR_NOENTRY then mret None
  else
    '(res, extent) ← mtl_load_extent extent_offset;
    _ ← c_assert (res =? MTL_SUCCESS);
    extent ← c_deref extent;
    mret (Some (Candidate extent_offset extent 0 0)).

(** Cuts off what is not needed, marks the rest as allocated. *)
Definition reserve_finish (size : Z) (commit : bool) (c : candidate) :
    M txn (Z * Z) :=
  let extent_length := ext_length (cand_extent c) +ᵤ cand_append c in
  let total_needed_size := cand_original c +ᵤ size in
  let status := if commit then MTL_COMMITTED else MTL_RESERVED in
  if total_needed_size <? extent_length then
    let remaining_extent_offset := cand_offset c +ᵤ total_needed_size in
    let remaining_extent_length := extent_length -ᵤ total_needed_size in
    '(_, pq_node) ← Heap.mtl_heap_insert remaining_extent_length
                                         remaining_extent_offset;
    _ ← mtl_put_extent remaining_extent_offset
          (Extent remaining_extent_length MTL_FREE pq_node);
    _ ← mtl_put_extent (cand_offset c)
          (Extent total_needed_size status (ext_pq_node (cand_extent c)));
    mret (total_needed_size -ᵤ cand_original c, cand_offset c)
  else
    _ ← mtl_put_extent (cand_offset c)
          (Extent (ext_length (cand_extent c)) status
                  (ext_pq_node (cand_extent c)));
    mret (extent_length -ᵤ cand_original c, cand_offset c).

(** Returns the number of newly allocated blocks and [*offset]; [offset] is
    its old contents. *)
Definition mtl_reserve_extent (size : Z) (last_extent : option mtl_file_extent)
    (offset : Z) (commit : bool) : M txn (Z * Z) :=
  appended ← reserve_append last_extent;
  found ← match appended with
          | Some c => mret (Some c)
          | None => reserve_pop
          end;
  match found with
  | None => mret (0, offset)
  | Some c => reserve_finish size commit c
  end.

(** "Check if the following extent is also free": the new size. *)
Definition free_merge_next (offset extent_size : Z) : M txn Z :=
  t ← m_get;
  match mdb_cursor_next (tx_extents t) offset with
  | Some (next_offset, next) =>
      if decide (ext_status next = MTL_FREE) then
        _ ← Heap.mtl_heap_delete (ext_pq_node next);
        _ ← del_extent next_offset;
        mret (extent_size +ᵤ ext_length next)
      else mret extent_size
  | None => mret extent_size
  end.

(** "Check if we can merge with the previous extent": the cursor is moved
    with [MDB_NEXT] here as well. Offset, size and heap node to go on with. *)
Definition free_merge_previous (offset extent_size : Z) :
    M txn (Z * Z * mtl_heap_node_id) :=
  t ← m_get;
  match mdb_cursor_next (tx_extents t) offset with
  | Some (previous_offset, previous) =>
      if decide (ext_status previous = MTL_FREE) then
        _ ← del_extent offset;
        mret (previous_offset, extent_size +ᵤ ext_length previous,
              ext_pq_node previous)
      else mret (offset, extent_size, INVALID_NODE)
  | None => mret (offset, extent_size, INVALID_NODE)
  end.

Definition mtl_free_extent (offset : Z) : M txn Z :=
  '(_, extent) ← mtl_load_extent offset;
  extent ← c_deref extent;
  extent_size ← free_merge_next offset (ext_length extent);
  '(extent_offset, extent_size, pq_node) ←
    free_merge_previous offset extent_size;
  '(_, pq_node) ←
    (if negb (bool_decide (pq_node = INVALID_NODE))
     then Heap.mtl_heap_increase_key pq_node extent_size pq_node
     else Heap.mtl_heap_insert extent_size extent_offset);
  _ ← mtl_put_extent extent_offset (Extent extent_size MTL_FREE pq_node);
  mret MTL_SUCCESS.

(** [extent] is read again after the [mtl_put_extent] of the same key. *)
Definition mtl_truncate_extent (offset len : Z) : M txn Z :=
  if len =? 0 then mtl_free_extent offset
  else
    '(_, extent) ← mtl_load_extent offset;
    extent ← c_deref extent;
    let updated_extent := Extent len MTL_COMMITTED (ext_pq_node extent) in
    t ← m_get;
    let reread := mdb_read_after_put (tx_extents t) offset updated_extent in
    _ ← mtl_put_extent offset updated_extent;
    if len <? ext_length reread then
      _ ← mtl_put_extent (offset +ᵤ len)
            (Extent (ext_length reread -ᵤ len) MTL_RESERVED INVALID_NODE);
      mtl_free_extent (offset +ᵤ len)
    else mret MTL_SUCCESS.
End Operations.
End ExtentDb.
