(* ===== verification/ExtentInv.v ===== *)
(** * The allocator's invariant and its abstract state

    [alloc_inv N E Hp]: the extents [E] tile the blocks [0, N), and the heap
    [Hp] holds exactly one node per free extent, whose key is the length and
    the start of the extent. Both are lookup functions, so that the lemmas do
    not depend on how LMDB stores them. [AllocSpec] is what the component
    promises: a set of free blocks that a reservation shrinks by one range and
    a release grows by one. *)
From S2P Require Import Prelude Tiling Lmdb Structs Heap Extent.

Abbreviation extents := (Z → option mtl_extent).
Abbreviation heap := (mtl_heap_node_id → option Z).

Definition is_free (e : mtl_extent) : Prop := ext_status e = MTL_FREE.
Definition node_of (o : Z) (e : mtl_extent) : mtl_heap_node_id :=
  NodeId (ext_length e) o.

#[export] Instance is_free_dec e : Decision (is_free e).
Proof. unfold is_free. apply _. Defined.

Section Invariant.
Implicit Types (E : extents) (Hp : heap) (e : mtl_extent) (o b : Z).

Record heap_matches E Hp : Prop := HeapMatches {
  hm_node : ∀ o e, E o = Some e → is_free e → ext_pq_node e = node_of o e;
  hm_in : ∀ o e, E o = Some e → is_free e → Hp (node_of o e) = Some o;
  hm_out : ∀ id v, Hp id = Some v →
    ∃ e, E v = Some e ∧ is_free e ∧ id = node_of v e;
}.

Record alloc_inv (N : Z) E Hp : Prop := AllocInv {
  ai_bound : 0 < N < 2 ^ 63;
  ai_tiles : tiles ext_length N E;
  ai_heap : heap_matches E Hp;
}.

#[export] Instance heap_matches_proper :
  Proper (pointwise_relation Z (=) ==> pointwise_relation _ (=) ==> iff)
    heap_matches.
Proof.
  assert (∀ E1 E2 H1 H2, pointwise_relation Z (=) E1 E2 →
    pointwise_relation _ (=) H1 H2 → heap_matches E1 H1 → heap_matches E2 H2) as Himp.
  { intros E1 E2 H1 H2 HE HH [Hn Hi Ho]. unfold pointwise_relation in *. split.
    - intros o e. rewrite <-HE. apply Hn.
    - intros o e. rewrite <-HE, <-HH. apply Hi.
    - intros id v. rewrite <-HH. intros Hid. destruct (Ho _ _ Hid) as (e & ? & ?).
      exists e. by rewrite <-HE. }
  intros E1 E2 HE H1 H2 HH. split; apply Himp; (done || by symmetry).
Qed.

#[export] Instance alloc_inv_proper N :
  Proper (pointwise_relation Z (=) ==> pointwise_relation _ (=) ==> iff)
    (alloc_inv N).
Proof.
  intros E1 E2 HE H1 H2 HH. split; intros [? Ht Hm]; split; try done.
  - by rewrite <-HE.
  - by rewrite <-HE, <-HH.
  - by rewrite HE.
  - by rewrite HE, HH.
Qed.

(** *** Heap and extents change together *)

Lemma matches_remove_free E Hp o e :
  heap_matches E Hp → E o = Some e → is_free e →
  heap_matches (upd E o None) (upd Hp (node_of o e) None).
Proof.
  intros [Hn Hi Ho] He Hf. split.
  - intros o' e' He' Hf'. upd_cases; [done|]. by apply Hn.
  - intros o' e' He' Hf'. upd_cases; [done|].
    rewrite upd_ne by (unfold node_of; congruence). by apply Hi.
  - intros id v Hid. upd_cases; [done|].
    destruct (Ho _ _ Hid) as (e' & He' & Hf' & ->). exists e'.
    rewrite upd_ne; [done|]. intros ->. naive_solver.
Qed.

Lemma matches_remove_used E Hp o e :
  heap_matches E Hp → E o = Some e → ¬ is_free e → heap_matches (upd E o None) Hp.
Proof.
  intros [Hn Hi Ho] He Hf. split.
  - intros o' e' He' Hf'. upd_cases; [done|]. by apply Hn.
  - intros o' e' He' Hf'. upd_cases; [done|]. by apply Hi.
  - intros id v Hid. destruct (Ho _ _ Hid) as (e' & He' & Hf' & ->). exists e'.
    rewrite upd_ne; [done|]. intros ->. naive_solver.
Qed.

Lemma matches_add_free E Hp o e :
  heap_matches E Hp → E o = None → is_free e → ext_pq_node e = node_of o e →
  heap_matches (upd E o (Some e)) (upd Hp (node_of o e) (Some o)).
Proof.
  intros [Hn Hi Ho] He Hf Hpq. split.
  - intros o' e' He' Hf'. upd_cases; [by simplify_eq|]. by apply Hn.
  - intros o' e' He' Hf'. upd_cases; [simplify_eq; by rewrite upd_eq|].
    rewrite upd_ne by (unfold node_of; congruence). by apply Hi.
  - intros id v Hid. upd_cases; [simplify_eq; exists e; by rewrite upd_eq|].
    destruct (Ho _ _ Hid) as (e' & He' & Hf' & ->). exists e'.
    rewrite upd_ne; [done|]. intros ->. naive_solver.
Qed.

Lemma matches_add_used E Hp o e :
  heap_matches E Hp → E o = None → ¬ is_free e →
  heap_matches (upd E o (Some e)) Hp.
Proof.
  intros [Hn Hi Ho] He Hf. split.
  - intros o' e' He' Hf'. upd_cases; [by simplify_eq|]. by apply Hn.
  - intros o' e' He' Hf'. upd_cases; [by simplify_eq|]. by apply Hi.
  - intros id v Hid. destruct (Ho _ _ Hid) as (e' & He' & Hf' & ->). exists e'.
    rewrite upd_ne; [done|]. intros ->. naive_solver.
Qed.

Lemma upd_upd {K A} `{EqDecision K} (E : K → option A) k x y :
  pointwise_relation K (=) (upd (upd E k x) k y) (upd E k y).
Proof. intros k'. unfold upd. by repeat case_decide. Qed.

Lemma upd_comm {K A} `{EqDecision K} (E : K → option A) k1 k2 x y :
  k1 ≠ k2 →
  pointwise_relation K (=) (upd (upd E k1 x) k2 y) (upd (upd E k2 y) k1 x).
Proof. intros Hne k'. unfold upd. repeat case_decide; congruence. Qed.

(** An allocated extent may change its length and status under the heap. *)
Lemma matches_replace_used E Hp o e e' :
  heap_matches E Hp → E o = Some e → ¬ is_free e → ¬ is_free e' →
  heap_matches (upd E o (Some e')) Hp.
Proof.
  intros Hm He Hf Hf'. rewrite <-(upd_upd E o None).
  apply matches_add_used; [by eapply matches_remove_used | by rewrite upd_eq | done].
Qed.

Lemma matches_take E Hp o e e' :
  heap_matches E Hp → E o = Some e → is_free e → ¬ is_free e' →
  heap_matches (upd E o (Some e')) (upd Hp (node_of o e) None).
Proof.
  intros Hm He Hf Hf'. rewrite <-(upd_upd E o None).
  apply matches_add_used; [by eapply matches_remove_free | by rewrite upd_eq | done].
Qed.

Lemma matches_release E Hp o e e' :
  heap_matches E Hp → E o = Some e → ¬ is_free e → is_free e' →
  ext_pq_node e' = node_of o e' →
  heap_matches (upd E o (Some e')) (upd Hp (node_of o e') (Some o)).
Proof.
  intros Hm He Hf Hf' Hn. rewrite <-(upd_upd E o None).
  apply matches_add_free; [by eapply matches_remove_used | by rewrite upd_eq | done..].
Qed.
End Invariant.

(** ** The abstract state: which blocks are free *)
Definition free_block (E : extents) (b : Z) : Prop :=
  ∃ o e, E o = Some e ∧ is_free e ∧ o ≤ b < o + ext_length e.

#[export] Instance free_block_proper :
  Proper (pointwise_relation Z (=) ==> (=) ==> iff) free_block.
Proof.
  intros E1 E2 HE b ? <-. unfold free_block, pointwise_relation in *.
  by setoid_rewrite HE.
Qed.

Lemma free_block_ext E1 E2 b :
  pointwise_relation Z (=) E1 E2 → free_block E1 b ↔ free_block E2 b.
Proof. intros HE. by apply free_block_proper. Qed.

Module AllocSpec.
(** [n] blocks from [start] on, all of them free, stop being free. *)
Definition reserves (free : Z → Prop) (start n : Z) (free' : Z → Prop) : Prop :=
  (∀ b, start ≤ b < start + n → free b) ∧
  ∀ b, free' b ↔ free b ∧ ¬ (start ≤ b < start + n).

(** [n] blocks from [start] on, none of them free, become free. *)
Definition releases (free : Z → Prop) (start n : Z) (free' : Z → Prop) : Prop :=
  (∀ b, start ≤ b < start + n → ¬ free b) ∧
  ∀ b, free' b ↔ free b ∨ start ≤ b < start + n.

(** Releasing what was reserved gives the free blocks back. *)
Lemma release_reserve free start n free' free'' :
  reserves free start n free' → releases free' start n free'' →
  ∀ b, free'' b ↔ free b.
Proof.
  intros [Hin Hr] [_ Hl] b. rewrite Hl, Hr. split; [naive_solver|].
  intros Hb. destruct (decide (start ≤ b < start + n)); tauto.
Qed.
End AllocSpec.

(** ** What splitting and merging do to the free blocks *)
Section FreeBlocks.
Context (N : Z) (E : extents) (Ht : tiles ext_length N E).
Implicit Types (o b : Z) (e : mtl_extent).

Lemma free_block_unique o e b :
  E o = Some e → o ≤ b < o + ext_length e → free_block E b ↔ is_free e.
Proof.
  intros He Hb. split.
  - intros (o' & e' & He' & Hf & Hb').
    pose proof (tile_unique _ _ _ _ _ _ _ _ Ht He He' Hb Hb'). by simplify_eq.
  - intros Hf. by exists o, e.
Qed.

(** Replacing an extent by an allocated one frees and takes nothing else. *)
Lemma free_block_take o e e' b :
  E o = Some e → ¬ is_free e' →
  free_block (upd E o (Some e')) b ↔
  free_block E b ∧ ¬ (o ≤ b < o + ext_length e).
Proof.
  intros He Hf. split.
  - intros (o2 & e2 & H2 & Hf2 & Hb). upd_cases; [by simplify_eq|].
    split; [by exists o2, e2|]. intros Hb'. apply Ek.
    by eapply (tile_unique _ _ _ _ _ _ _ _ Ht He H2).
  - intros [(o2 & e2 & H2 & Hf2 & Hb) Hn]. exists o2, e2.
    rewrite upd_ne; [done|]. intros ->. naive_solver.
Qed.

(** Replacing an allocated extent by a free one of the same length. *)
Lemma free_block_release o e e' b :
  E o = Some e → ¬ is_free e → is_free e' → ext_length e' = ext_length e →
  free_block (upd E o (Some e')) b ↔
  free_block E b ∨ o ≤ b < o + ext_length e.
Proof.
  intros He Hf Hf' Hlen. split.
  - intros (o2 & e2 & H2 & Hf2 & Hb). upd_cases.
    + simplify_eq. right. lia.
    + left. by exists o2, e2.
  - intros [(o2 & e2 & H2 & Hf2 & Hb)|Hb].
    + exists o2, e2. rewrite upd_ne; [done|]. intros ->. naive_solver.
    + exists o, e'. rewrite upd_eq, Hlen. done.
Qed.

(** Cutting an extent in two changes nothing if both parts keep its status. *)
Lemma free_block_split o e e1 e2 b :
  E o = Some e → 0 < ext_length e1 → 0 < ext_length e2 →
  ext_length e = ext_length e1 + ext_length e2 →
  (is_free e1 ↔ is_free e) → (is_free e2 ↔ is_free e) →
  free_block (upd (upd E (o + ext_length e1) (Some e2)) o (Some e1)) b ↔
  free_block E b.
Proof.
  intros He H1 H2 Hlen Hf1 Hf2. split.
  - intros (o' & e' & He' & Hf & Hb). upd_cases; simplify_eq.
    + exists o', e. repeat split; [done|naive_solver|lia|lia].
    + exists o, e. repeat split; [done|naive_solver|lia|lia].
    + by exists o', e'.
  - intros (o' & e' & He' & Hf & Hb). destruct (decide (o' = o)) as [->|Hne].
    + simplify_eq. destruct (decide (b < o + ext_length e1)).
      * exists o, e1. rewrite upd_eq. naive_solver lia.
      * exists (o + ext_length e1), e2. rewrite upd_ne by lia.
        rewrite upd_eq. naive_solver lia.
    + exists o', e'. rewrite upd_ne by done. rewrite upd_ne; [done|]. intros <-.
      by rewrite (tile_inside _ _ _ _ _ (o + ext_length e1) Ht He) in He' by lia.
Qed.

(** Merging two extents of the same kind changes nothing. *)
Lemma free_block_merge o e1 e2 e b :
  E o = Some e1 → E (o + ext_length e1) = Some e2 →
  ext_length e = ext_length e1 + ext_length e2 →
  (is_free e1 ↔ is_free e) → (is_free e2 ↔ is_free e) →
  free_block (upd (upd E (o + ext_length e1) None) o (Some e)) b ↔
  free_block E b.
Proof.
  intros He1 He2 Hlen Hf1 Hf2.
  pose proof (tile_range _ _ _ Ht _ _ He1). pose proof (tile_range _ _ _ Ht _ _ He2).
  split.
  - intros (o' & e' & He' & Hf & Hb). upd_cases; simplify_eq.
    + destruct (decide (b < o' + ext_length e1)).
      * exists o', e1. naive_solver lia.
      * exists (o' + ext_length e1), e2. naive_solver lia.
    + by exists o', e'.
  - intros (o' & e' & He' & Hf & Hb). destruct (decide (o' = o)) as [->|Hne].
    { exists o, e. rewrite upd_eq. simplify_eq. naive_solver lia. }
    destruct (decide (o' = o + ext_length e1)) as [->|Hne'].
    { exists o, e. rewrite upd_eq. simplify_eq. naive_solver lia. }
    exists o', e'. by rewrite !upd_ne.
Qed.
End FreeBlocks.

(** ** The allocator's steps on the lookup functions *)
Section Steps.
Context (N : Z) (E : extents) (Hp : heap) (Hinv : alloc_inv N E Hp).
Implicit Types (o : Z) (e : mtl_extent).

Lemma ai_extent_bounds o e :
  E o = Some e → 0 ≤ o ∧ 0 < ext_length e ∧ o + ext_length e ≤ N ∧ N < 2 ^ 63.
Proof.
  intros He. destruct Hinv as [? Ht _].
  pose proof (tile_range _ _ _ Ht _ _ He). lia.
Qed.

(** A free extent is allocated as a whole. *)
Lemma step_take o e e' E' Hp' :
  E o = Some e → is_free e → ¬ is_free e' → ext_length e' = ext_length e →
  pointwise_relation Z (=) E' (upd E o (Some e')) →
  pointwise_relation _ (=) Hp' (upd Hp (node_of o e) None) →
  alloc_inv N E' Hp' ∧
  AllocSpec.reserves (free_block E) o (ext_length e) (free_block E').
Proof.
  intros He Hf Hf' Hlen HE HH. destruct Hinv as [Hb Ht Hm]. split.
  - rewrite HE, HH. split; [done| |by apply matches_take]. by eapply tiles_replace.
  - split.
    + intros b Hin. by exists o, e.
    + intros b. rewrite (free_block_ext _ _ b HE). by rewrite (free_block_take N E Ht o e e').
Qed.

(** The first [n] blocks of a free extent are allocated. *)
Lemma step_take_split o e n e1 e2 E' Hp' :
  E o = Some e → is_free e → 0 < n < ext_length e →
  ¬ is_free e1 → ext_length e1 = n →
  is_free e2 → ext_length e2 = ext_length e - n → ext_pq_node e2 = node_of (o + n) e2 →
  pointwise_relation Z (=) E' (upd (upd E (o + n) (Some e2)) o (Some e1)) →
  pointwise_relation _ (=) Hp'
    (upd (upd Hp (node_of o e) None) (node_of (o + n) e2) (Some (o + n))) →
  alloc_inv N E' Hp' ∧ AllocSpec.reserves (free_block E) o n (free_block E').
Proof.
  intros He Hf Hn Hf1 Hl1 Hf2 Hl2 Hpq HE HH. destruct Hinv as [Hb Ht Hm].
  assert (E (o + n) = None) as Hnone
    by (eapply (tile_inside _ _ _ _ _ _ Ht He); lia).
  split; [rewrite HE, HH; split; [done| |]|split].
  - subst n. apply (tiles_split _ _ _ _ e); (done || lia).
  - rewrite upd_comm by lia.
    apply matches_add_free; [by apply matches_take| |done..].
    by rewrite upd_ne by lia.
  - intros b Hin. exists o, e. naive_solver lia.
  - intros b. rewrite (free_block_ext _ _ b HE). set (e1f := Extent n MTL_FREE INVALID_NODE).
    rewrite <-(upd_upd _ o (Some e1f)).
    assert (tiles ext_length N (upd (upd E (o + n) (Some e2)) o (Some e1f))) as Ht1.
    { apply (tiles_split _ _ _ _ e e1f e2 Ht He); simpl; lia. }
    rewrite (free_block_take _ _ Ht1 o e1f e1) by (done || by rewrite upd_eq).
    pose proof (free_block_split _ _ Ht o e e1f e2 b) as Hs. simpl in Hs.
    rewrite Hs by (done || lia). done.
Qed.

(** Two allocated neighbours become one extent. *)
Lemma step_merge_used o e1 e2 e E' :
  E o = Some e1 → E (o + ext_length e1) = Some e2 →
  ¬ is_free e1 → ¬ is_free e2 → ¬ is_free e →
  ext_length e = ext_length e1 + ext_length e2 →
  pointwise_relation Z (=) E'
    (upd (upd E (o + ext_length e1) None) o (Some e)) →
  alloc_inv N E' Hp ∧ ∀ b, free_block E' b ↔ free_block E b.
Proof.
  intros He1 He2 Hf1 Hf2 Hf Hlen HE. pose proof (ai_extent_bounds _ _ He1).
  destruct Hinv as [Hb Ht Hm]. split; [rewrite HE; split; [done| |]|].
  - by eapply tiles_merge.
  - eapply (matches_replace_used _ _ o e1); [|by rewrite upd_ne by lia|done..].
    by eapply matches_remove_used.
  - intros b. rewrite (free_block_ext _ _ b HE). by apply (free_block_merge N E Ht o e1 e2 e).
Qed.

(** An allocated extent is freed. *)
Lemma step_release o e e' E' Hp' :
  E o = Some e → ¬ is_free e → is_free e' → ext_length e' = ext_length e →
  ext_pq_node e' = node_of o e' →
  pointwise_relation Z (=) E' (upd E o (Some e')) →
  pointwise_relation _ (=) Hp' (upd Hp (node_of o e') (Some o)) →
  alloc_inv N E' Hp' ∧
  AllocSpec.releases (free_block E) o (ext_length e) (free_block E').
Proof.
  intros He Hf Hf' Hlen Hpq HE HH. destruct Hinv as [Hb Ht Hm].
  split; [rewrite HE, HH; split; [done| |]|split].
  - by eapply tiles_replace.
  - by eapply matches_release.
  - intros b Hin Hfree. by apply (free_block_unique _ _ Ht _ _ _ He Hin) in Hfree.
  - intros b. rewrite (free_block_ext _ _ b HE). by apply (free_block_release E o e e').
Qed.

(** An allocated extent is freed and merged with the free one after it. *)
Lemma step_release_merge o e1 e2 e E' Hp' :
  E o = Some e1 → E (o + ext_length e1) = Some e2 →
  ¬ is_free e1 → is_free e2 → is_free e →
  ext_length e = ext_length e1 + ext_length e2 → ext_pq_node e = node_of o e →
  pointwise_relation Z (=) E'
    (upd (upd E (o + ext_length e1) None) o (Some e)) →
  pointwise_relation _ (=) Hp'
    (upd (upd Hp (node_of (o + ext_length e1) e2) None) (node_of o e) (Some o)) →
  alloc_inv N E' Hp' ∧
  AllocSpec.releases (free_block E) o (ext_length e1) (free_block E').
Proof.
  intros He1 He2 Hf1 Hf2 Hf Hlen Hpq HE HH. pose proof (ai_extent_bounds _ _ He1).
  destruct Hinv as [Hb Ht Hm]. split; [rewrite HE, HH; split; [done| |]|split].
  - by eapply tiles_merge.
  - eapply (matches_release _ _ o e1); [|by rewrite upd_ne by lia|done..].
    by apply matches_remove_free.
  - intros b Hin Hfree. by apply (free_block_unique _ _ Ht _ _ _ He1 Hin) in Hfree.
  - set (e1f := Extent (ext_length e1) MTL_FREE INVALID_NODE). intros b. rewrite (free_block_ext _ _ b HE).
    rewrite <-(free_block_release E o e1 e1f) by done.
    assert (tiles ext_length N (upd E o (Some e1f))) as Ht1 by (by eapply tiles_replace).
    rewrite <-(free_block_merge _ _ Ht1 o e1f e2 e); simpl; try done.
    + rewrite (upd_comm _ o (o + ext_length e1)) by lia. by rewrite upd_upd.
    + by rewrite upd_eq.
    + by rewrite upd_ne by lia.
Qed.
(** Part of an allocated extent becomes an extent of its own. *)
Lemma step_split_used o e e1 e2 E' :
  E o = Some e → ¬ is_free e → ¬ is_free e1 → ¬ is_free e2 →
  0 < ext_length e1 → 0 < ext_length e2 →
  ext_length e = ext_length e1 + ext_length e2 →
  pointwise_relation Z (=) E'
    (upd (upd E (o + ext_length e1) (Some e2)) o (Some e1)) →
  alloc_inv N E' Hp ∧ ∀ b, free_block E' b ↔ free_block E b.
Proof.
  intros He Hf Hf1 Hf2 H1 H2 Hlen HE. destruct Hinv as [Hb Ht Hm].
  split; [rewrite HE; split; [done| |]|].
  - by eapply tiles_split.
  - apply (matches_replace_used _ _ o e); [|by rewrite upd_ne by lia|done..].
    apply matches_add_used; [done| |done].
    apply (tile_inside _ _ _ _ _ _ Ht He). lia.
  - intros b. rewrite (free_block_ext _ _ b HE). by apply (free_block_split N E Ht o e e1 e2).
Qed.
End Steps.
