(* ===== verification/AllocProofs.v ===== *)
(** * The allocator keeps its invariant

    The operations of [Extent.v] against the invariant and the specification
    of [ExtentInv.v]: initialisation, reservation (fresh and appending) and
    release, with the cases in which the code does not keep its promise. *)
From S2P Require Import Prelude Tiling Lmdb Structs Heap Extent ExtentInv.

Module Alloc.
Section Alloc.
Context `{LmdbLaws}.
Implicit Types (t : txn) (o b n : Z) (e : mtl_extent).

(** The lookup functions of a transaction. *)
Definition ext_of t : extents := λ o, mdb_get (tx_extents t) o.
Definition heap_of t : heap := λ id, mdb_get (tx_heap t) id.

Definition inv (N : Z) t : Prop := alloc_inv N (ext_of t) (heap_of t).
Definition free_in t : Z → Prop := free_block (ext_of t).

(** Two lookup functions agree at one key: computes both sides. *)
Ltac by_lookup :=
  unfold ext_of, heap_of, upd, node_of in *; simpl in *;
  rewrite ?mdb_get_put; repeat case_decide; first [reflexivity | congruence | exfalso; lia].

(** The databases the allocator never touches. *)
Definition alloc_frame t t' : Prop :=
  tx_inodes t' = tx_inodes t ∧ tx_meta t' = tx_meta t.

(** *** Each database operation as an update of a lookup function *)

Lemma ext_of_put t o e d :
  pointwise_relation Z (=)
    (ext_of (set_extents (mdb_put (tx_extents t) o e) d)) (upd (ext_of t) o (Some e)).
Proof. intros k. unfold ext_of, upd. simpl. rewrite mdb_get_put. by repeat case_decide. Qed.

Lemma heap_of_put t id v d :
  pointwise_relation _ (=)
    (heap_of (set_heap (mdb_put (tx_heap t) id v) d)) (upd (heap_of t) id (Some v)).
Proof. intros k. unfold heap_of, upd. simpl. rewrite mdb_get_put. by repeat case_decide. Qed.

Lemma load_run t o :
  ExtentDb.mtl_load_extent o t
  = Ok (match ext_of t o with
        | None => (MTL_ERROR_NOENTRY, None)
        | Some e => (MTL_SUCCESS, Some e)
        end, t).
Proof.
  unfold ExtentDb.mtl_load_extent, m_get, mbind, M_bind, ext_of.
  by destruct (mdb_get _ _).
Qed.

Lemma put_run t o e :
  ExtentDb.mtl_put_extent o e t
  = Ok (MTL_SUCCESS, set_extents (mdb_put (tx_extents t) o e) t).
Proof. done. Qed.

Lemma del_ok t o e :
  ext_of t o = Some e →
  ∃ t', ExtentDb.del_extent o t = Ok (true, t') ∧ alloc_frame t t' ∧
    tx_heap t' = tx_heap t ∧
    pointwise_relation Z (=) (ext_of t') (upd (ext_of t) o None).
Proof.
  intros He. destruct (mdb_del_found _ _ _ He) as (d & Hd & Hget).
  exists (set_extents d t).
  unfold ExtentDb.del_extent, m_get, m_put, mbind, M_bind. by rewrite Hd.
Qed.

Lemma heap_delete_ok t id v :
  heap_of t id = Some v →
  ∃ t', Heap.mtl_heap_delete id t = Ok (MTL_SUCCESS, t') ∧ alloc_frame t t' ∧
    tx_extents t' = tx_extents t ∧
    pointwise_relation _ (=) (heap_of t') (upd (heap_of t) id None).
Proof.
  intros Hid. destruct (Heap.delete_ok _ _ _ Hid) as (t' & ? & (? & ? & ?) & Hg).
  by exists t'.
Qed.

(** Under the invariant every extent is in range. *)
Lemma inv_range N t o e :
  inv N t → ext_of t o = Some e →
  0 ≤ o ∧ 0 < ext_length e ∧ o + ext_length e ≤ N ∧ N < 2 ^ 63.
Proof.
  intros [? Ht _] He. pose proof (tile_range _ _ _ Ht _ _ He). lia.
Qed.

(** *** Initialisation *)

Lemma initialize_run N t :
  0 < N < 2 ^ 63 → (∀ o, ext_of t o = None) → (∀ id, heap_of t id = None) →
  ∃ t', ExtentDb.mtl_initialize_extents N t = Ok (MTL_SUCCESS, t') ∧
    inv N t' ∧ alloc_frame t t' ∧ ∀ b, free_in t' b ↔ 0 ≤ b < N.
Proof.
  intros HN HE HH. unfold ExtentDb.mtl_initialize_extents.
  run_step (load_run t 0). rewrite HE. cbn [Z.eqb].
  set (e := Extent N MTL_FREE (NodeId N 0)).
  set (t' := set_extents (mdb_put (tx_extents t) 0 e)
               (set_heap (mdb_put (tx_heap t) (NodeId N 0) 0) t)).
  exists t'. split; [done|].
  assert (pointwise_relation Z (=) (ext_of t') (upd (ext_of t) 0 (Some e))) as HE'
    by apply ext_of_put.
  assert (pointwise_relation _ (=) (heap_of t')
    (upd (heap_of t) (NodeId N 0) (Some 0))) as HH'
    by (intros k; apply (heap_of_put t)).
  split; [|split; [done|]].
  - unfold inv. rewrite HE', HH'. split; [done| |].
    + apply tiles_single; simpl; (lia || done).
    + apply (matches_add_free _ _ 0 e); [|done..]. split.
      * intros o e' He'. by rewrite HE in He'.
      * intros o e' He'. by rewrite HE in He'.
      * intros id v Hv. by rewrite HH in Hv.
  - intros b. unfold free_in. rewrite HE'. split.
    + intros (o & e' & He' & _ & Hb). upd_cases; simplify_eq; [simpl in Hb; lia|].
      by rewrite HE in He'.
    + intros Hb. exists 0, e. rewrite upd_eq. simpl. naive_solver lia.
Qed.

(** *** Reservation *)

Definition status_of (commit : bool) : mtl_extent_status :=
  if commit then MTL_COMMITTED else MTL_RESERVED.

(** [n] free blocks from [o] on have become allocated, as a part of the
    extent that starts at [start]; every other extent in use is unchanged. *)
Record reserved (N : Z) t (commit : bool) (start o n : Z) t' : Prop := Reserved {
  rs_inv : inv N t';
  rs_frame : alloc_frame t t';
  rs_free : AllocSpec.reserves (free_in t) o n (free_in t');
  rs_start : ∃ pq, ext_of t' start = Some (Extent (o + n - start) (status_of commit) pq);
  rs_others : ∀ o' e', ext_of t o' = Some e' → ¬ is_free e' → o' ≠ start →
    ext_of t' o' = Some e';
  rs_ends : ∀ o' e', ext_of t' o' = Some e' → is_free e' →
    ∃ o1 e1, ext_of t o1 = Some e1 ∧ is_free e1 ∧ o1 ≤ o' ∧
      o' + ext_length e' = o1 + ext_length e1;
}.

Lemma status_of_used n commit pq : ¬ is_free (Extent n (status_of commit) pq).
Proof. by destruct commit. Qed.

Lemma ext_of_same t t' :
  tx_extents t' = tx_extents t → pointwise_relation Z (=) (ext_of t') (ext_of t).
Proof. intros E o. unfold ext_of. by rewrite E. Qed.

Lemma heap_of_same t t' :
  tx_heap t' = tx_heap t → pointwise_relation _ (=) (heap_of t') (heap_of t).
Proof. intros E o. unfold heap_of. by rewrite E. Qed.

Lemma finish_fresh N size commit t0 t o e :
  inv N t0 → ext_of t0 o = Some e → is_free e → 0 < size < 2 ^ 63 →
  alloc_frame t0 t → tx_extents t = tx_extents t0 →
  pointwise_relation _ (=) (heap_of t) (upd (heap_of t0) (node_of o e) None) →
  ∃ t', ExtentDb.reserve_finish size commit (ExtentDb.Candidate o e 0 0) t
        = Ok ((Z.min size (ext_length e), o), t') ∧
    reserved N t0 commit o o (Z.min size (ext_length e)) t'.
Proof.
  intros Hi He Hf Hs Hfr Hx%ext_of_same Hh. pose proof (inv_range _ _ _ _ Hi He).
  unfold ExtentDb.reserve_finish. cbn [ExtentDb.cand_extent ExtentDb.cand_append
    ExtentDb.cand_original ExtentDb.cand_offset].
  rewrite Z.add_0_r, Z.add_0_l. u64_norm. fold (status_of commit).
  pose proof status_of_used as Hu.
  destruct (size <? ext_length e) eqn:Hlt; to_prop.
  - rewrite Z.min_l by lia.
    set (e2 := Extent (ext_length e - size) MTL_FREE
                      (NodeId (ext_length e - size) (o + size))).
    set (e1 := Extent size (status_of commit) (ext_pq_node e)).
    eexists. split; [rewrite Z.sub_0_r; u64_norm; reflexivity|].
    match goal with |- reserved _ _ _ _ _ _ ?t => set (t3 := t) end.
    assert (pointwise_relation Z (=) (ext_of t3)
      (upd (upd (ext_of t0) (o + size) (Some e2)) o (Some e1))) as HE.
    { intros k. specialize (Hx k). subst t3. by_lookup. }
    destruct (step_take_split N (ext_of t0) (heap_of t0) Hi o e size e1 e2
      (ext_of t3) (heap_of t3)) as [Hi' Hr]; try (done || apply Hu || (simpl; lia)).
    { intros k. specialize (Hh k). subst t3. by_lookup. }
    split; try done.
    + exists (ext_pq_node e). rewrite HE, upd_eq. by rewrite Z.add_simpl_l.
    + intros o' e' He' Hf' Hne. rewrite HE, upd_ne by done.
      rewrite upd_ne; [done|]. intros <-.
      by rewrite (tile_inside _ _ _ _ _ _ (ai_tiles _ _ _ Hi) He) in He' by lia.
    + intros o' e' He' Hf'. rewrite HE in He'. upd_cases; simplify_eq; [by destruct (Hu size commit (ext_pq_node e))| |by exists o', e'].
      exists o, e. simpl. split; [done|]. split; [done|]. lia.
  - rewrite Z.min_r by lia.
    set (e1 := Extent (ext_length e) (status_of commit) (ext_pq_node e)).
    eexists. split; [rewrite Z.sub_0_r; u64_norm; reflexivity|].
    match goal with |- reserved _ _ _ _ _ _ ?t => set (t1 := t) end.
    assert (pointwise_relation Z (=) (ext_of t1) (upd (ext_of t0) o (Some e1))) as HE
      by (intros k; specialize (Hx k); subst t1; by_lookup).
    destruct (step_take N (ext_of t0) (heap_of t0) Hi o e e1 (ext_of t1) (heap_of t1))
      as [Hi' Hr]; try (done || apply Hu).
    split; try done.
    + exists (ext_pq_node e). rewrite HE, upd_eq. by rewrite Z.add_simpl_l.
    + intros o' e' He' Hf' Hne. by rewrite HE, upd_ne by done.
    + intros o' e' He' Hf'. rewrite HE in He'. upd_cases; [|by exists o', e'].
      simplify_eq. by destruct (Hu (ext_length e) commit (ext_pq_node e)).
Qed.

Definition no_free t : Prop := ∀ b, ¬ free_in t b.

Lemma heap_last N t id v :
  inv N t → mdb_cursor_last (tx_heap t) = Some (id, v) →
  ∃ e, ext_of t v = Some e ∧ is_free e ∧ id = node_of v e.
Proof.
  intros [_ _ [_ _ Ho]] Hl. destruct (mdb_last_some _ _ _ Hl) as [Hg _].
  by apply (Ho id v).
Qed.

Lemma heap_empty N t :
  inv N t → mdb_cursor_last (tx_heap t) = None → no_free t.
Proof.
  intros [_ _ [_ Hi _]] Hl b (o & e & He & Hf & Hb).
  pose proof (mdb_last_none _ Hl (node_of o e)) as Hg.
  specialize (Hi _ _ He Hf). unfold heap_of in Hi. congruence.
Qed.

(** The extent popped is a free one, and its node leaves the heap. *)
Lemma reserve_pop_run N t :
  inv N t →
  (mdb_cursor_last (tx_heap t) = None ∧ no_free t ∧ ExtentDb.reserve_pop t = Ok (None, t)) ∨
  ∃ o e t', mdb_cursor_last (tx_heap t) = Some (node_of o e, o) ∧
    ext_of t o = Some e ∧ is_free e ∧
    ExtentDb.reserve_pop t = Ok (Some (ExtentDb.Candidate o e 0 0), t') ∧
    alloc_frame t t' ∧ tx_extents t' = tx_extents t ∧
    pointwise_relation _ (=) (heap_of t') (upd (heap_of t) (node_of o e) None).
Proof.
  intros Hi. unfold ExtentDb.reserve_pop.
  destruct (mdb_cursor_last (tx_heap t)) as [[id v]|] eqn:Hl.
  - right. destruct (heap_last _ _ _ _ Hi Hl) as (e & He & Hf & ->).
    destruct (Heap.extract_run t 0 _ _ Hl) as (t' & Hx & (He' & Hino & Hm) & _ & Hg).
    exists v, e, t'. repeat (split; [done|]). split; [|split; [done|split; [done|]]].
    + run_step Hx. cbn [Z.eqb MTL_SUCCESS MTL_ERROR_NOENTRY].
      run_step (load_run t' v). unfold ext_of. rewrite He'.
      unfold ext_of in He. by rewrite He.
    + intros k. specialize (Hg k). by_lookup.
  - left. split; [done|]. split; [by eapply heap_empty|].
    by run_step (Heap.extract_empty t 0 Hl).
Qed.

(** Reservation of a new extent: the free extent with the last key of the
    heap, or what is needed of it. *)
Lemma reserve_new_run N size commit t last offset :
  inv N t → 0 < size < 2 ^ 63 →
  ExtentDb.reserve_append last t = Ok (None, t) →
  (no_free t ∧ ExtentDb.mtl_reserve_extent size last offset commit t = Ok ((0, offset), t)) ∨
  ∃ o e t', mdb_cursor_last (tx_heap t) = Some (node_of o e, o) ∧
    ext_of t o = Some e ∧
    ExtentDb.mtl_reserve_extent size last offset commit t
    = Ok ((Z.min size (ext_length e), o), t') ∧
    reserved N t commit o o (Z.min size (ext_length e)) t'.
Proof.
  intros Hi Hs Ha. unfold ExtentDb.mtl_reserve_extent. run_step Ha.
  destruct (reserve_pop_run _ _ Hi)
    as [(Hl & Hn & Hp)|(o & e & t1 & Hl & He & Hf & Hp & Hfr & Hx & Hh)].
  - left. split; [done|]. by run_step Hp.
  - right. exists o, e. run_step Hp.
    destruct (finish_fresh N size commit t t1 o e Hi He Hf Hs Hfr Hx Hh) as (t' & ? & ?).
    by exists t'.
Qed.

(** No extent to append to: none given, or the next one is not free. *)
Lemma append_none t : ExtentDb.reserve_append None t = Ok (None, t).
Proof. done. Qed.

Lemma append_used t l :
  (∀ e, ext_of t (fe_offset l +ᵤ fe_length l) = Some e → ¬ is_free e) →
  ExtentDb.reserve_append (Some l) t = Ok (None, t).
Proof.
  intros Hu. unfold ExtentDb.reserve_append. run_step (load_run t (fe_offset l +ᵤ fe_length l)).
  destruct (ext_of t _) as [e|]; [|done]. specialize (Hu e eq_refl).
  unfold c_deref, mret, M_ret, mbind, M_bind. cbn [Z.eqb MTL_SUCCESS negb].
  by rewrite decide_False.
Qed.

(** *** Appending to the last extent of a file *)

Section Append.
Context (N : Z) (t : txn) (Hi : inv N t).
Context (l : mtl_file_extent) (e0 e1 : mtl_extent).
Let o0 := fe_offset l.
Let o1 := fe_offset l + fe_length l.
Context (He0 : ext_of t o0 = Some e0) (Hu0 : ¬ is_free e0).
Context (Hl0 : ext_length e0 = fe_length l).
Context (He1 : ext_of t o1 = Some e1) (Hf1 : is_free e1).

Lemma append_free_run :
  ∃ t', ExtentDb.reserve_append (Some l) t
        = Ok (Some (ExtentDb.Candidate o0 e0 (ext_length e1) (ext_length e0)), t') ∧
    alloc_frame t t' ∧
    pointwise_relation Z (=) (ext_of t') (upd (ext_of t) o1 None) ∧
    pointwise_relation _ (=) (heap_of t') (upd (heap_of t) (node_of o1 e1) None).
Proof using All.
  pose proof (inv_range _ _ _ _ Hi He0). pose proof (inv_range _ _ _ _ Hi He1).
  unfold ExtentDb.reserve_append. subst o0 o1. u64_norm.
  run_step (load_run t (fe_offset l + fe_length l)). rewrite He1.
  unfold c_deref at 1. cbn [Z.eqb MTL_SUCCESS negb].
  rewrite (bind_run _ _ _ _ _ (ret_run e1 t)). rewrite decide_True by done.
  pose proof (hm_in _ _ (ai_heap _ _ _ Hi) _ _ He1 Hf1) as Hnode.
  rewrite <-(hm_node _ _ (ai_heap _ _ _ Hi) _ _ He1 Hf1) in Hnode |- *.
  destruct (heap_delete_ok _ _ _ Hnode) as (t1 & Hd & Hfr & Hx%ext_of_same & Hh).
  run_step Hd. cbn [c_assert Z.eqb MTL_SUCCESS].
  rewrite (bind_run _ _ _ _ _ (ret_run tt t1)).
  destruct (del_ok t1 (fe_offset l + fe_length l) e1) as (t2 & Hdel & Hfr2 & Hhp & Hx2);
    [by rewrite Hx|].
  run_step Hdel. rewrite (bind_run _ _ _ _ _ (ret_run tt t2)).
  run_step (load_run t2 (fe_offset l)). rewrite Hx2, upd_ne by lia.
  rewrite Hx, He0. exists t2. split; [done|]. split; [|split].
  - destruct Hfr, Hfr2. split; congruence.
  - intros k. rewrite Hx2. unfold upd. by rewrite Hx.
  - intros k. rewrite <-Hh. by apply heap_of_same.
Qed.

(** More room than needed: the extent grows by [size] blocks. *)
Lemma append_grows size offset commit :
  0 < size < ext_length e1 →
  ∃ t', ExtentDb.mtl_reserve_extent size (Some l) offset commit t
        = Ok ((size, o0), t') ∧ reserved N t commit o0 o1 size t'.
Proof using All.
  intros Hs. pose proof (inv_range _ _ _ _ Hi He0). pose proof (inv_range _ _ _ _ Hi He1).
  destruct append_free_run as (t1 & Ha & Hfr & Hx & Hh).
  unfold ExtentDb.mtl_reserve_extent. run_step Ha.
  rewrite (bind_run _ _ _ _ _ (ret_run _ t1)).
  unfold ExtentDb.reserve_finish. cbn [ExtentDb.cand_extent ExtentDb.cand_append
    ExtentDb.cand_original ExtentDb.cand_offset].
  subst o0 o1. rewrite Hl0. u64_norm.
  rewrite (proj2 (Z.ltb_lt _ _)) by lia. fold (status_of commit).
  set (rem := Extent (ext_length e1 - size) MTL_FREE
                     (NodeId (ext_length e1 - size) (fe_offset l + fe_length l + size))).
  set (e01 := Extent (fe_length l + size) (status_of commit) (ext_pq_node e0)).
  set (mid := Extent size (status_of commit) INVALID_NODE).
  eexists. split; [u64_norm; rewrite Z.add_simpl_l; reflexivity|].
  match goal with |- reserved _ _ _ _ _ _ ?t => set (t3 := t) end.
  set (Em := upd (upd (ext_of t) (fe_offset l + fe_length l + size) (Some rem))
                 (fe_offset l + fe_length l) (Some mid)).
  assert (ext_length e1 + fe_length l - (fe_length l + size)
          = ext_length e1 - size) as Harith by lia.
  assert (pointwise_relation _ (=) (heap_of t3)
    (upd (upd (heap_of t) (node_of (fe_offset l + fe_length l) e1) None)
       (node_of (fe_offset l + fe_length l + size) rem)
       (Some (fe_offset l + fe_length l + size)))) as HH.
  { intros k. specialize (Hh k). subst t3.
    replace (fe_length l + ext_length e1 - (fe_length l + size))
      with (ext_length e1 - size) by lia.
    replace (fe_offset l + (fe_length l + size))
      with (fe_offset l + fe_length l + size) by lia. by_lookup. }
  destruct (step_take_split N _ _ Hi (fe_offset l + fe_length l) e1 size mid rem Em
    (heap_of t3) He1 Hf1 Hs (status_of_used _ _ _) eq_refl eq_refl eq_refl eq_refl)
    as [Him Hrm]; [done|done|].
  assert (pointwise_relation Z (=) (ext_of t3)
    (upd (upd Em (fe_offset l + ext_length e0) None) (fe_offset l) (Some e01))) as HE.
  { intros k. specialize (Hx k). subst t3 Em. rewrite Hl0.
    replace (fe_length l + ext_length e1 - (fe_length l + size))
      with (ext_length e1 - size) by lia.
    replace (fe_offset l + (fe_length l + size))
      with (fe_offset l + fe_length l + size) by lia.
    by_lookup. }
  destruct (step_merge_used N Em (heap_of t3) Him (fe_offset l) e0 mid e01 (ext_of t3))
    as [Hi3 Hr3]; try done.
  { subst Em. rewrite !upd_ne by lia. done. }
  { subst Em. rewrite Hl0, upd_eq. done. }
  { apply status_of_used. }
  { apply status_of_used. }
  { simpl. lia. }
  split; [done|done| | | |].
  - destruct Hrm as [? Hrm]. split; [done|]. intros b. unfold free_in.
    by rewrite Hr3, Hrm.
  - exists (ext_pq_node e0). rewrite HE, upd_eq. subst e01. do 3 f_equal. lia.
  - intros o' e' He' Hf' Hne. rewrite HE, upd_ne by done. rewrite Hl0.
    assert (fe_offset l + fe_length l ≠ o') by (intros <-; congruence).
    assert (fe_offset l + fe_length l + size ≠ o').
    { intros <-. rewrite (tile_inside _ _ _ _ _ _ (ai_tiles _ _ _ Hi) He1) in He'
        by lia. done. }
    subst Em. by rewrite !upd_ne by done.
  - intros o' e' He' Hf'. rewrite HE in He'.
    upd_cases; simplify_eq; [by destruct (status_of_used (fe_length l + size) commit (ext_pq_node e0))|].
    rewrite Hl0 in *. subst Em. upd_cases; simplify_eq; [|by exists o', e'].
    exists (fe_offset l + fe_length l), e1. simpl. split; [done|]. split; [done|]. lia.
Qed.

(** No more room than needed: the extent in the database keeps its length,
    and the blocks of the free extent belong to no extent any more. *)
Lemma append_exact_run size offset commit :
  ext_length e1 ≤ size < 2 ^ 62 →
  ∃ t', ExtentDb.mtl_reserve_extent size (Some l) offset commit t
        = Ok ((ext_length e1, o0), t') ∧
    ext_of t' o0 = Some (Extent (fe_length l) (status_of commit) (ext_pq_node e0)) ∧
    ∀ b, o1 ≤ b < o1 + ext_length e1 →
      ∀ o e, ext_of t' o = Some e → ¬ (o ≤ b < o + ext_length e).
Proof using All.
  intros Hs. pose proof (inv_range _ _ _ _ Hi He0). pose proof (inv_range _ _ _ _ Hi He1).
  destruct append_free_run as (t1 & Ha & Hfr & Hx & Hh).
  unfold ExtentDb.mtl_reserve_extent. run_step Ha.
  rewrite (bind_run _ _ _ _ _ (ret_run _ t1)).
  unfold ExtentDb.reserve_finish. cbn [ExtentDb.cand_extent ExtentDb.cand_append
    ExtentDb.cand_original ExtentDb.cand_offset].
  subst o0 o1. rewrite Hl0. u64_norm.
  rewrite (proj2 (Z.ltb_ge _ _)) by lia. fold (status_of commit).
  eexists. split; [u64_norm; rewrite Z.add_simpl_l; reflexivity|].
  match goal with |- ext_of ?t _ = _ ∧ _ => set (t3 := t) end.
  assert (pointwise_relation Z (=) (ext_of t3)
    (upd (upd (ext_of t) (fe_offset l + fe_length l) None) (fe_offset l)
       (Some (Extent (fe_length l) (status_of commit) (ext_pq_node e0))))) as HE.
  { intros k. specialize (Hx k). subst t3. by_lookup. }
  split; [by rewrite HE, upd_eq|]. intros b Hb o e. rewrite HE. intros Ho Hin.
  upd_cases; simplify_eq; [simpl in Hin; lia|].
  pose proof (tile_unique _ _ _ _ _ _ _ b (ai_tiles _ _ _ Hi) He1 Ho Hb Hin). lia.
Qed.
End Append.

(** *** Release *)

(** When the two look-ups of the next key find what the code takes them for:
    the extent after the freed one, if it is free, and after that no free one. *)
Definition free_safe t o e : Prop :=
  ∀ o1 e1, mdb_cursor_next (tx_extents t) o = Some (o1, e1) → is_free e1 →
    o1 = o + ext_length e ∧
    ∀ o2 e2, mdb_cursor_next (tx_extents t) o1 = Some (o2, e2) → ¬ is_free e2.

Lemma u64_key_inj x y :
  0 ≤ x < 2 ^ 64 → 0 ≤ y < 2 ^ 64 → mem_repr x = mem_repr y → x = y.
Proof. apply (le_bytes_inj 8). Qed.

(** Once the next extent is deleted, the one after it is next. *)
Lemma next_after_delete N t t' o o1 e1 o2 e2 :
  inv N t → mdb_cursor_next (tx_extents t) o = Some (o1, e1) →
  pointwise_relation Z (=) (ext_of t') (upd (ext_of t) o1 None) →
  mdb_cursor_next (tx_extents t') o = Some (o2, e2) →
  mdb_cursor_next (tx_extents t) o1 = Some (o2, e2).
Proof.
  intros Hi H1 HE H2.
  destruct (mdb_next_some _ _ _ _ H1) as (G1 & L1 & M1).
  destruct (mdb_next_some _ _ _ _ H2) as (G2 & L2 & M2).
  change (ext_of t' o2 = Some e2) in G2. rewrite HE in G2. upd_cases; [done|].
  pose proof (inv_range _ _ _ _ Hi G1). pose proof (inv_range _ _ _ _ Hi G2).
  assert (mem_lt (mem_repr o1) (mem_repr o2)) as L12.
  { destruct (proj1 (mem_le_lt_eq _ _) (M1 _ _ G2 L2)) as [?|Heq]; [done|].
    apply u64_key_inj in Heq; lia. }
  destruct (mdb_cursor_next (tx_extents t) o1) as [[o3 e3]|] eqn:Hc3.
  - destruct (mdb_next_some _ _ _ _ Hc3) as (G3 & L3 & M3).
    pose proof (inv_range _ _ _ _ Hi G3).
    assert (o3 ≠ o1) by (intros ->; by apply mem_lt_irrefl in L3).
    assert (mem_le (mem_repr o2) (mem_repr o3)) as Hle.
    { apply (M2 _ e3); [|exact (mem_lt_trans _ _ _ L1 L3)].
      change (ext_of t' o3 = Some e3). rewrite HE. by rewrite upd_ne by congruence. }
    specialize (M3 _ _ G2 L12).
    apply mem_le_lt_eq in Hle as [Hlt|Heq].
    + by apply mem_le_nlt in M3.
    + apply u64_key_inj in Heq; [|lia..]. unfold ext_of in G2. congruence.
  - pose proof (mdb_next_none _ _ Hc3 _ _ G2) as Hle. by apply mem_le_nlt in Hle.
Qed.

Lemma free_merge_next_skip t o n :
  (∀ o1 e1, mdb_cursor_next (tx_extents t) o = Some (o1, e1) → ¬ is_free e1) →
  ExtentDb.free_merge_next o n t = Ok (n, t).
Proof.
  intros Hn. unfold ExtentDb.free_merge_next, m_get, mbind, M_bind.
  destruct (mdb_cursor_next _ _) as [[o1 e1]|]; [|done].
  rewrite decide_False; [done|]. by apply (Hn o1).
Qed.

Lemma free_merge_previous_skip t o n :
  (∀ o1 e1, mdb_cursor_next (tx_extents t) o = Some (o1, e1) → ¬ is_free e1) →
  ExtentDb.free_merge_previous o n t = Ok ((o, n, INVALID_NODE), t).
Proof.
  intros Hn. unfold ExtentDb.free_merge_previous, m_get, mbind, M_bind.
  destruct (mdb_cursor_next _ _) as [[o1 e1]|]; [|done].
  rewrite decide_False; [done|]. by apply (Hn o1).
Qed.

Lemma free_merge_next_take N t o n o1 e1 :
  inv N t → mdb_cursor_next (tx_extents t) o = Some (o1, e1) → is_free e1 →
  ∃ t', ExtentDb.free_merge_next o n t = Ok (n +ᵤ ext_length e1, t') ∧
    alloc_frame t t' ∧
    pointwise_relation Z (=) (ext_of t') (upd (ext_of t) o1 None) ∧
    pointwise_relation _ (=) (heap_of t') (upd (heap_of t) (node_of o1 e1) None).
Proof.
  intros Hi Hn Hf. destruct (mdb_next_some _ _ _ _ Hn) as (G & _ & _).
  pose proof (hm_in _ _ (ai_heap _ _ _ Hi) _ _ G Hf) as Hnode.
  pose proof (hm_node _ _ (ai_heap _ _ _ Hi) _ _ G Hf) as Hid.
  rewrite <-Hid in Hnode |- *.
  destruct (heap_delete_ok _ _ _ Hnode) as (t1 & Hd & Hfr & Hx%ext_of_same & Hh).
  destruct (del_ok t1 o1 e1) as (t2 & Hdel & Hfr2 & Hhp%heap_of_same & Hx2);
    [by rewrite Hx|].
  exists t2. split; [|split; [|split]].
  - unfold ExtentDb.free_merge_next. rewrite (bind_run _ _ t t t) by done.
    rewrite Hn, decide_True by done. by run_step Hd; run_step Hdel.
  - destruct Hfr, Hfr2. split; congruence.
  - intros k. rewrite Hx2. unfold upd. by rewrite Hx.
  - intros k. by rewrite Hhp, Hh.
Qed.

(** On at most 256 blocks the order of the keys is the order of the blocks,
    so the cursor does find the extent that follows. *)
Lemma small_key_lt x y :
  0 ≤ x < 256 → 0 ≤ y < 256 → mem_lt (mem_repr x) (mem_repr y) ↔ x < y.
Proof.
  assert (∀ z, 0 ≤ z < 256 → mem_repr z = z :: le_bytes 7 0) as Hrep.
  { intros z Hz. cbn [mem_repr mdb_key_u64 le_bytes].
    by rewrite Z.mod_small, Z.div_small by lia. }
  intros Hx Hy. rewrite !Hrep by done. unfold mem_lt. cbn [memcmp].
  rewrite memcmp_refl. destruct (Z.compare_spec x y); split; (done || lia).
Qed.

Lemma next_is_adjacent N t o e o1 e1 :
  inv N t → N ≤ 256 → ext_of t o = Some e →
  mdb_cursor_next (tx_extents t) o = Some (o1, e1) → o1 = o + ext_length e.
Proof.
  intros Hi HN He Hn. destruct (mdb_next_some _ _ _ _ Hn) as (G & L & Hmin).
  pose proof (inv_range _ _ _ _ Hi He). pose proof (inv_range _ _ _ _ Hi G).
  rewrite small_key_lt in L by lia.
  pose proof (tile_disjoint _ _ _ (ai_tiles _ _ _ Hi) _ _ _ _ He G L).
  destruct (tile_next _ _ _ _ _ (ai_tiles _ _ _ Hi) He) as [?|[e2 He2]]; [lia|].
  pose proof (inv_range _ _ _ _ Hi He2).
  specialize (Hmin _ _ He2). rewrite small_key_lt in Hmin by lia.
  specialize (Hmin ltac:(lia)). apply mem_le_nlt in Hmin.
  rewrite small_key_lt in Hmin by lia. lia.
Qed.

Lemma next_of_small N t o e e1 :
  inv N t → N ≤ 256 → ext_of t o = Some e → ext_of t (o + ext_length e) = Some e1 →
  mdb_cursor_next (tx_extents t) o = Some (o + ext_length e, e1).
Proof.
  intros Hi HN He He1. pose proof (inv_range _ _ _ _ Hi He). pose proof (inv_range _ _ _ _ Hi He1).
  destruct (mdb_cursor_next (tx_extents t) o) as [[o2 e2]|] eqn:Hn.
  - pose proof (next_is_adjacent N t o e o2 e2 Hi HN He Hn) as ->.
    destruct (mdb_next_some _ _ _ _ Hn) as (G & _ & _). unfold ext_of in He1. congruence.
  - pose proof (mdb_next_none _ _ Hn _ _ He1) as Hle. apply mem_le_nlt in Hle.
    rewrite small_key_lt in Hle by lia. lia.
Qed.

(** What a release does, extent by extent: the others in use are kept, a free one
    starts there or started there before, and on a small volume the next one is
    never left free. *)
Record released (N : Z) t o e t' : Prop := Released {
  rl_inv : inv N t';
  rl_frame : alloc_frame t t';
  rl_free : AllocSpec.releases (free_in t) o (ext_length e) (free_in t');
  rl_used o' e' : ext_of t o' = Some e' → ¬ is_free e' → o' ≠ o → ext_of t' o' = Some e';
  rl_starts o' e' : ext_of t' o' = Some e' → is_free e' →
    o' = o ∨ ∃ e1, ext_of t o' = Some e1 ∧ is_free e1;
  rl_next e' : N ≤ 256 → ext_of t' (o + ext_length e) = Some e' → ¬ is_free e';
}.

Lemma free_released N t o e :
  inv N t → ext_of t o = Some e → ¬ is_free e → free_safe t o e →
  ∃ t', ExtentDb.mtl_free_extent o t = Ok (MTL_SUCCESS, t') ∧ released N t o e t'.
Proof.
  intros Hi He Hu Hs. pose proof (inv_range _ _ _ _ Hi He).
  unfold ExtentDb.mtl_free_extent. run_step (load_run t o). rewrite He.
  rewrite (bind_run _ _ _ _ _ (ret_run e t)).
  assert ((∀ o1 e1, mdb_cursor_next (tx_extents t) o = Some (o1, e1) → ¬ is_free e1) ∨
    ∃ o1 e1, mdb_cursor_next (tx_extents t) o = Some (o1, e1) ∧ is_free e1)
    as [Hno|(o1 & e1 & Hn & Hf1)].
  { destruct (mdb_cursor_next _ _) as [[o1 e1]|]; [|naive_solver].
    destruct (decide (is_free e1)); naive_solver. }
  - run_step (free_merge_next_skip t o (ext_length e) Hno).
    run_step (free_merge_previous_skip t o (ext_length e) Hno).
    eexists. split; [reflexivity|].
    match goal with |- released _ _ _ _ ?t => set (t2 := t) end.
    set (e' := Extent (ext_length e) MTL_FREE (NodeId (ext_length e) o)).
    assert (pointwise_relation Z (=) (ext_of t2) (upd (ext_of t) o (Some e'))) as HE
      by (intros k; subst t2; by_lookup).
    destruct (step_release N _ _ Hi o e
      e' (ext_of t2) (heap_of t2))
      as [Hi' Hr]; try done; [intros k; subst t2; by_lookup|].
    split; try done.
    + intros o' e1 He1 Hu1 Hne. by rewrite HE, upd_ne by done.
    + intros o' e1 He1 Hf1. rewrite HE in He1. upd_cases; [by left|right; by exists e1].
    + intros e1 HN He1. rewrite HE, upd_ne in He1 by lia. apply (Hno (o + ext_length e)).
      by apply (next_of_small N).
  - destruct (Hs _ _ Hn Hf1) as [-> Hno].
    destruct (mdb_next_some _ _ _ _ Hn) as (G & _ & _).
    pose proof (inv_range _ _ _ _ Hi G).
    destruct (free_merge_next_take N t o (ext_length e) _ _ Hi Hn Hf1)
      as (t1 & Hm & Hfr & Hx & Hh). run_step Hm. u64_norm.
    assert (∀ o2 e2, mdb_cursor_next (tx_extents t1) o = Some (o2, e2) → ¬ is_free e2)
      as Hno1.
    { intros o2 e2 Hn2. apply (Hno o2). by apply (next_after_delete N t t1 o _ e1). }
    run_step (free_merge_previous_skip t1 o (ext_length e + ext_length e1) Hno1).
    eexists. split; [reflexivity|].
    match goal with |- released _ _ _ _ ?t => set (t2 := t) end.
    set (e' := Extent (ext_length e + ext_length e1) MTL_FREE
                      (NodeId (ext_length e + ext_length e1) o)).
    assert (pointwise_relation Z (=) (ext_of t2)
      (upd (upd (ext_of t) (o + ext_length e) None) o (Some e'))) as HE
      by (intros k; specialize (Hx k); subst t2; by_lookup).
    destruct (step_release_merge N _ _ Hi o e e1 e' (ext_of t2) (heap_of t2))
      as [Hi' Hr]; try done; [intros k; specialize (Hh k); subst t2; by_lookup|].
    split; try done.
    + intros o' e2 He2 Hu2 Hne. rewrite HE, upd_ne by done.
      rewrite upd_ne; [done|]. intros <-.
      assert (e2 = e1) as -> by (unfold ext_of in *; congruence). done.
    + intros o' e2 He2 Hf2. rewrite HE in He2. upd_cases; [by left|done|right; by exists e2].
    + intros e2 _ He2. rewrite HE, upd_ne, upd_eq in He2 by lia. done.
Qed.

Lemma free_run N t o e :
  inv N t → ext_of t o = Some e → ¬ is_free e → free_safe t o e →
  ∃ t', ExtentDb.mtl_free_extent o t = Ok (MTL_SUCCESS, t') ∧
    inv N t' ∧ alloc_frame t t' ∧
    AllocSpec.releases (free_in t) o (ext_length e) (free_in t').
Proof.
  intros Hi He Hu Hs. destruct (free_released N t o e Hi He Hu Hs) as (t' & Hr & []). by exists t'.
Qed.

(** A pointer to nothing is dereferenced. *)
Lemma free_missing t o :
  ext_of t o = None → ExtentDb.mtl_free_extent o t = Fault NullDeref.
Proof.
  intros He. unfold ExtentDb.mtl_free_extent. run_step (load_run t o). by rewrite He.
Qed.

(** The two extents after this one are not both free. *)
Definition not_both_free t o e : Prop :=
  ∀ e1 e2, ext_of t (o + ext_length e) = Some e1 → is_free e1 →
    ext_of t (o + ext_length e + ext_length e1) = Some e2 → ¬ is_free e2.

Lemma free_safe_small N t o e :
  inv N t → N ≤ 256 → ext_of t o = Some e → not_both_free t o e → free_safe t o e.
Proof.
  intros Hi HN He Hb o1 e1 Hn Hf1.
  pose proof (next_is_adjacent _ _ _ _ _ _ Hi HN He Hn) as ->. split; [done|].
  destruct (mdb_next_some _ _ _ _ Hn) as (G & _ & _).
  intros o2 e2 Hn2. pose proof (next_is_adjacent _ _ _ _ _ _ Hi HN G Hn2) as ->.
  destruct (mdb_next_some _ _ _ _ Hn2) as (G2 & _ & _). by apply (Hb e1).
Qed.

(** Truncation to a shorter length: the tail becomes an extent of its own,
    which is then freed. [Hread] is what the pointer into the old record
    reads once the record has been overwritten. *)
Lemma truncate_released N t o e n :
  inv N t → N ≤ 256 → ext_of t o = Some e → ¬ is_free e →
  0 < n < ext_length e → not_both_free t o e →
  ∀ (Hread : ext_length (mdb_read_after_put (tx_extents t) o
               (Extent n MTL_COMMITTED (ext_pq_node e))) = ext_length e),
  let kept := Extent n MTL_COMMITTED (ext_pq_node e) in
  let tail := Extent (ext_length e - n) MTL_RESERVED INVALID_NODE in
  ∃ t2 t', ExtentDb.mtl_truncate_extent o n t = Ok (MTL_SUCCESS, t') ∧
    inv N t2 ∧ alloc_frame t t2 ∧ (∀ b, free_in t2 b ↔ free_in t b) ∧
    pointwise_relation Z (=) (ext_of t2) (upd (upd (ext_of t) (o + n) (Some tail)) o (Some kept)) ∧
    released N t2 (o + n) tail t'.
Proof.
  intros Hi HN He Hu Hn Hb Hread e1 e2. pose proof (inv_range _ _ _ _ Hi He).
  unfold ExtentDb.mtl_truncate_extent.
  rewrite (proj2 (Z.eqb_neq n 0)) by lia. run_step (load_run t o). rewrite He.
  rewrite (bind_run _ _ _ _ _ (ret_run e t)).
  rewrite (bind_run m_get _ t t t) by done.
  run_step (put_run t o e1). unfold e1 at 1.
  rewrite Hread, (proj2 (Z.ltb_lt _ _)) by lia. u64_norm. fold e1 e2.
  set (t1 := set_extents (mdb_put (tx_extents t) o e1) t).
  run_step (put_run t1 (o + n) e2).
  set (t2 := set_extents (mdb_put (tx_extents t1) (o + n) e2) t1).
  assert (pointwise_relation Z (=) (ext_of t2)
    (upd (upd (ext_of t) (o + ext_length e1) (Some e2)) o (Some e1))) as HE
    by (intros k; subst t2 t1 e1; by_lookup).
  destruct (step_split_used N (ext_of t) (heap_of t) Hi o e e1 e2 (ext_of t2))
    as [Hi2 Hfree2]; try done; try (simpl; lia).
  assert (ext_of t2 (o + n) = Some e2) as He2
    by (rewrite HE, upd_ne by (simpl; lia); apply upd_eq).
  assert (free_safe t2 (o + n) e2) as Hsafe.
  { apply (free_safe_small N); [done..|]. intros e3 e4 He3 Hf3 He4.
    simpl in He3, He4.
    replace (o + n + (ext_length e - n)) with (o + ext_length e) in He3, He4 by lia.
    rewrite HE in He3, He4. simpl in He3, He4.
    rewrite !upd_ne in He3 by lia.
    pose proof (inv_range _ _ _ _ Hi He3). rewrite !upd_ne in He4 by lia.
    by apply (Hb e3). }
  destruct (free_released N t2 (o + n) e2 Hi2 He2) as (t' & Hrun & Hrl); [done|done|].
  by exists t2, t'.
Qed.

Lemma truncate_run N t o e n :
  inv N t → N ≤ 256 → ext_of t o = Some e → ¬ is_free e →
  0 < n < ext_length e → not_both_free t o e →
  ∀ (Hread : ext_length (mdb_read_after_put (tx_extents t) o
               (Extent n MTL_COMMITTED (ext_pq_node e))) = ext_length e),
  ∃ t', ExtentDb.mtl_truncate_extent o n t = Ok (MTL_SUCCESS, t') ∧
    inv N t' ∧ alloc_frame t t' ∧
    AllocSpec.releases (free_in t) (o + n) (ext_length e - n) (free_in t').
Proof.
  intros Hi HN He Hu Hn Hb Hread.
  destruct (truncate_released N t o e n Hi HN He Hu Hn Hb Hread)
    as (t2 & t' & Hrun & _ & [Hf1 Hf2] & Hfree2 & _ & [Hi' [Hg1 Hg2] [Hout Hrel] _ _ _]).
  exists t'. split; [done|]. split; [done|]. split; [split; congruence|]. split.
  - intros b Hbl Hfb. apply (Hout b Hbl). by apply Hfree2.
  - intros b. by rewrite Hrel, Hfree2.
Qed.

(** Truncation to the length there is: the extent is committed. *)
Lemma truncate_nothing N t o e :
  inv N t → ext_of t o = Some e → ¬ is_free e →
  let kept := Extent (ext_length e) MTL_COMMITTED (ext_pq_node e) in
  ext_length (mdb_read_after_put (tx_extents t) o kept) = ext_length e →
  ∃ t', ExtentDb.mtl_truncate_extent o (ext_length e) t = Ok (MTL_SUCCESS, t') ∧
    inv N t' ∧ alloc_frame t t' ∧ (∀ b, free_in t' b ↔ free_in t b) ∧
    pointwise_relation Z (=) (ext_of t') (upd (ext_of t) o (Some kept)).
Proof.
  intros Hi He Hu kept Hread. pose proof (inv_range _ _ _ _ Hi He).
  unfold ExtentDb.mtl_truncate_extent.
  rewrite (proj2 (Z.eqb_neq _ 0)) by lia. run_step (load_run t o). rewrite He.
  rewrite (bind_run _ _ _ _ _ (ret_run e t)).
  rewrite (bind_run m_get _ t t t) by done.
  run_step (put_run t o kept). fold kept.
  rewrite Hread, Z.ltb_irrefl.
  set (t1 := set_extents (mdb_put (tx_extents t) o kept) t).
  assert (pointwise_relation Z (=) (ext_of t1) (upd (ext_of t) o (Some kept))) as HE
    by (intros k; subst t1 kept; by_lookup).
  exists t1. split; [done|]. split; [|split; [done|split; [|done]]].
  - destruct Hi as [Hb Ht Hm]. split; [done| |].
    + rewrite HE. by apply (tiles_replace _ _ _ _ e).
    + rewrite HE. by apply (matches_replace_used _ _ o e).
  - intros b. unfold free_in. rewrite (free_block_ext _ _ b HE). split.
    + intros (o' & e' & He' & Hf' & Hin). upd_cases; [by simplify_eq|]. by exists o', e'.
    + intros (o' & e' & He' & Hf' & Hin). exists o', e'. rewrite upd_ne; [done|]. intros ->. congruence.
Qed.
End Alloc.
End Alloc.

(** ** The properties *)
Section Claims.
Context `{LmdbLaws}.
Import Alloc.

(** Initialising an empty database over [N] blocks establishes the
    allocator's invariant (the extents tile the volume, the heap holds one
    node per free extent) with every block free and nothing else touched. *)
Theorem initialize_establishes_inv (N : Z) (t : txn) :
  0 < N < 2 ^ 63 → (∀ o, ext_of t o = None) → (∀ id, heap_of t id = None) →
  ∃ t', ExtentDb.mtl_initialize_extents N t = Ok (MTL_SUCCESS, t') ∧
    inv N t' ∧ alloc_frame t t' ∧ ∀ b, free_in t' b ↔ 0 ≤ b < N.
Proof. apply initialize_run. Qed.

(** C10: A reservation that cannot append always returns, refines the
    specification's [reserves] and keeps the invariant: it fails with 0 blocks
    exactly when no block is free; otherwise it takes [min(size, length)]
    blocks, at least one, from the front of the free extent whose heap node
    comes last, records them as one extent with the status asked for, and
    leaves every other extent in use as it was. *)
Theorem reserve_refines (N size : Z) (last : option mtl_file_extent)
    (offset : Z) (commit : bool) (t : txn) :
  inv N t → 0 < size < 2 ^ 63 →
  (∀ l e, last = Some l → ext_of t (fe_offset l +ᵤ fe_length l) = Some e → ¬ is_free e) →
  (no_free t ∧ ExtentDb.mtl_reserve_extent size last offset commit t = Ok ((0, offset), t)) ∨
  ∃ n o e t', ExtentDb.mtl_reserve_extent size last offset commit t = Ok ((n, o), t') ∧
    mdb_cursor_last (tx_heap t) = Some (node_of o e, o) ∧ ext_of t o = Some e ∧
    n = Z.min size (ext_length e) ∧ 0 < n ∧ reserved N t commit o o n t'.
Proof.
  intros Hi Hs Hl.
  assert (ExtentDb.reserve_append last t = Ok (None, t)) as Ha.
  { destruct last as [l|]; [|done]. apply append_used. eauto. }
  destruct (reserve_new_run N size commit t last offset Hi Hs Ha)
    as [?|(o & e & t' & Hcur & He & Hr & Hres)]; [by left|right].
  pose proof (inv_range _ _ _ _ Hi He). exists (Z.min size (ext_length e)), o, e, t'.
  repeat (split; [done || lia|]). done.
Qed.

(** A reservation whose last extent is followed by a free extent with
    more blocks than needed grows that last extent by exactly [size] blocks,
    taken from the front of the free one, and keeps the invariant. *)
Theorem reserve_appends (N : Z) (t : txn) (l : mtl_file_extent) (e0 e1 : mtl_extent)
    (size offset : Z) (commit : bool) :
  inv N t →
  ext_of t (fe_offset l) = Some e0 → ¬ is_free e0 → ext_length e0 = fe_length l →
  ext_of t (fe_offset l + fe_length l) = Some e1 → is_free e1 →
  0 < size < ext_length e1 →
  ∃ t', ExtentDb.mtl_reserve_extent size (Some l) offset commit t
        = Ok ((size, fe_offset l), t') ∧
    reserved N t commit (fe_offset l) (fe_offset l + fe_length l) size t'.
Proof. intros. by eapply append_grows. Qed.

(** When the free extent after the last one has no more blocks than
    needed, the reservation reports all of them as appended, but the last
    extent keeps its length in the database and the blocks of the free extent
    belong to no extent afterwards: the tiling is lost, for good. *)
Theorem reserve_append_loses_blocks (N : Z) (t : txn) (l : mtl_file_extent)
    (e0 e1 : mtl_extent) (size offset : Z) (commit : bool) :
  inv N t →
  ext_of t (fe_offset l) = Some e0 → ¬ is_free e0 → ext_length e0 = fe_length l →
  ext_of t (fe_offset l + fe_length l) = Some e1 → is_free e1 →
  ext_length e1 ≤ size < 2 ^ 62 →
  ∃ t', ExtentDb.mtl_reserve_extent size (Some l) offset commit t
        = Ok ((ext_length e1, fe_offset l), t') ∧
    ¬ inv N t' ∧
    ∀ b, fe_offset l + fe_length l ≤ b < fe_offset l + fe_length l + ext_length e1 →
      ∀ o e, ext_of t' o = Some e → ¬ (o ≤ b < o + ext_length e).
Proof.
  intros Hi He0 Hu Hl He1 Hf Hs. pose proof (inv_range _ _ _ _ Hi He1).
  destruct (append_exact_run N t Hi l e0 e1 He0 Hu Hl He1 Hf size offset commit Hs)
    as (t' & Hrun & _ & Hlost).
  exists t'. split; [done|]. split; [|done]. intros Hi'.
  destruct (tile_cover _ _ _ (ai_tiles _ _ _ Hi') (fe_offset l + fe_length l))
    as (o & e & Ho & Hin); [lia|].
  by apply (Hlost (fe_offset l + fe_length l) ltac:(lia) o e).
Qed.

(** C16: On a volume of at most 256 blocks, where the order of the keys is
    the order of the blocks, freeing an allocated extent succeeds, makes
    exactly its blocks free and keeps the invariant, merging with a free
    successor if there is one, provided the two extents after it are not both
    free. *)
Theorem free_refines (N : Z) (t : txn) (o : Z) (e : mtl_extent) :
  inv N t → N ≤ 256 → ext_of t o = Some e → ¬ is_free e → not_both_free t o e →
  ∃ t', ExtentDb.mtl_free_extent o t = Ok (MTL_SUCCESS, t') ∧
    inv N t' ∧ alloc_frame t t' ∧
    AllocSpec.releases (free_in t) o (ext_length e) (free_in t').
Proof. intros Hi HN He Hu Hb. eapply free_run; eauto using free_safe_small. Qed.

(** Truncating an allocated extent to [n] blocks frees exactly the
    blocks after the first [n] and keeps the invariant, as long as the
    pointer into the overwritten record still reads the old length. *)
Theorem truncate_refines (N : Z) (t : txn) (o : Z) (e : mtl_extent) (n : Z) :
  inv N t → N ≤ 256 → ext_of t o = Some e → ¬ is_free e →
  0 < n < ext_length e → not_both_free t o e →
  ∀ (Hread : ext_length (mdb_read_after_put (tx_extents t) o
               (Extent n MTL_COMMITTED (ext_pq_node e))) = ext_length e),
  ∃ t', ExtentDb.mtl_truncate_extent o n t = Ok (MTL_SUCCESS, t') ∧
    inv N t' ∧ alloc_frame t t' ∧
    AllocSpec.releases (free_in t) (o + n) (ext_length e - n) (free_in t').
Proof. apply truncate_run. Qed.

(** Increasing the key of a queued node removes that node and inserts
    one with the new priority but the value 0 instead of the node's own
    value. *)
Theorem increase_key_drops_value (t : txn) (k v key : Z) (out : mtl_heap_node_id) (x : Z) :
  heap_of t (NodeId k v) = Some x →
  ∃ t', Heap.mtl_heap_increase_key (NodeId k v) key out t
        = Ok ((MTL_SUCCESS, NodeId key 0), t') ∧
    heap_of t' (NodeId key 0) = Some 0 ∧
    (NodeId k v ≠ NodeId key 0 → heap_of t' (NodeId k v) = None).
Proof.
  intros Hx. destruct (heap_delete_ok _ _ _ Hx) as (t1 & Hd & _ & _ & Hh).
  unfold Heap.mtl_heap_increase_key. run_step Hd.
  cbn [negb Z.eqb MTL_SUCCESS]. rewrite Heap.insert_run.
  eexists. split; [reflexivity|]. unfold heap_of. simpl. split.
  - apply mdb_get_put_eq.
  - intros Hne. rewrite mdb_get_put_ne by done. specialize (Hh (NodeId k v)).
    unfold heap_of in Hh. by rewrite Hh, upd_eq.
Qed.
End Claims.

(** ** Runs on the reference store *)
Module Demo.
Import Alloc.

Definition final {A} (m : M txn A) (t : txn) : txn :=
  match m t with Ok (_, t') => t' | Fault _ => t end.

Definition answer {A} (m : M txn A) (t : txn) : option A :=
  match m t with Ok (a, _) => Some a | Fault _ => None end.

(** A run is evaluated for its answer only. *)
Lemma run_final {A} (m : M txn A) t a : answer m t = Some a → m t = Ok (a, final m t).
Proof. unfold answer, final. destruct (m t) as [[??]|]; naive_solver. Qed.

(** A fresh volume of 12 blocks; three files of 4 blocks; the last one freed. *)
Definition fresh : txn := final (ExtentDb.mtl_initialize_extents 12) empty_txn.
Definition one_file : txn := final (ExtentDb.mtl_reserve_extent 4 None 0 true) fresh.

Lemma fresh_inv : inv 12 fresh.
Proof.
  destruct (initialize_run 12 empty_txn) as (t' & Hr & Hi & _); [lia|done|done|].
  unfold fresh, final. by rewrite Hr.
Qed.

Lemma one_file_inv : inv 12 one_file.
Proof.
  destruct (reserve_new_run 12 4 true fresh None 0 fresh_inv)
    as [[? Hr]|(o & e & t' & _ & _ & Hr & Hres)]; [lia|done|..].
  - vm_compute in Hr. discriminate.
  - unfold one_file, final. rewrite Hr. by destruct Hres.
Qed.

Definition used4 : mtl_extent := Extent 4 MTL_COMMITTED (NodeId 12 0).
Definition free8 : mtl_extent := Extent 8 MTL_FREE (NodeId 8 4).

Lemma one_file_used : ext_of one_file 0 = Some used4.
Proof. vm_compute. reflexivity. Qed.
Lemma one_file_rest : ext_of one_file 4 = Some free8.
Proof. vm_compute. reflexivity. Qed.
Lemma used4_used : ¬ is_free used4.
Proof. done. Qed.
Lemma one_file_not_both : not_both_free one_file 0 used4.
Proof.
  intros e1 e2 H1 _ H2. vm_compute in H1. injection H1 as <-. by vm_compute in H2.
Qed.
End Demo.

Lemma initialize_establishes_inv_witness :
  ∃ t', ExtentDb.mtl_initialize_extents 12 empty_txn = Ok (MTL_SUCCESS, t') ∧
    Alloc.inv 12 t' ∧ Alloc.alloc_frame empty_txn t' ∧
    ∀ b, Alloc.free_in t' b ↔ 0 ≤ b < 12.
Proof. apply (initialize_establishes_inv 12 empty_txn); [lia|reflexivity..]. Defined.

Lemma reserve_refines_witness :
  (Alloc.no_free Demo.fresh ∧ ExtentDb.mtl_reserve_extent 4 None 7 true Demo.fresh
                              = Ok ((0, 7), Demo.fresh)) ∨
  ∃ n o e t', ExtentDb.mtl_reserve_extent 4 None 7 true Demo.fresh = Ok ((n, o), t') ∧
    mdb_cursor_last (tx_heap Demo.fresh) = Some (node_of o e, o) ∧
    Alloc.ext_of Demo.fresh o = Some e ∧ n = Z.min 4 (ext_length e) ∧ 0 < n ∧
    Alloc.reserved 12 Demo.fresh true o o n t'.
Proof.
  apply (reserve_refines 12 4 None 7 true Demo.fresh Demo.fresh_inv); [lia|].
  intros l e Hl. discriminate Hl.
Defined.

Lemma reserve_appends_witness :
  ∃ t', ExtentDb.mtl_reserve_extent 3 (Some (FileExtent 0 4)) 7 true Demo.one_file
        = Ok ((3, 0), t') ∧
    Alloc.reserved 12 Demo.one_file true 0 4 3 t'.
Proof.
  apply (reserve_appends 12 Demo.one_file (FileExtent 0 4) Demo.used4 Demo.free8 3 7 true
    Demo.one_file_inv Demo.one_file_used Demo.used4_used eq_refl Demo.one_file_rest eq_refl).
  simpl. lia.
Defined.

Lemma reserve_append_loses_blocks_witness :
  ∃ t', ExtentDb.mtl_reserve_extent 8 (Some (FileExtent 0 4)) 7 true Demo.one_file
        = Ok ((8, 0), t') ∧ ¬ Alloc.inv 12 t' ∧
    ∀ b, 4 ≤ b < 4 + 8 → ∀ o e, Alloc.ext_of t' o = Some e → ¬ (o ≤ b < o + ext_length e).
Proof.
  apply (reserve_append_loses_blocks 12 Demo.one_file (FileExtent 0 4) Demo.used4 Demo.free8
    8 7 true Demo.one_file_inv Demo.one_file_used Demo.used4_used eq_refl
    Demo.one_file_rest eq_refl).
  simpl. lia.
Defined.

Lemma free_refines_witness :
  ∃ t', ExtentDb.mtl_free_extent 0 Demo.one_file = Ok (MTL_SUCCESS, t') ∧
    Alloc.inv 12 t' ∧ Alloc.alloc_frame Demo.one_file t' ∧
    AllocSpec.releases (Alloc.free_in Demo.one_file) 0 4 (Alloc.free_in t').
Proof.
  apply (free_refines 12 Demo.one_file 0 Demo.used4 Demo.one_file_inv ltac:(lia)
    Demo.one_file_used Demo.used4_used Demo.one_file_not_both).
Defined.

Lemma truncate_refines_witness :
  ∃ t', ExtentDb.mtl_truncate_extent 0 1 Demo.one_file = Ok (MTL_SUCCESS, t') ∧
    Alloc.inv 12 t' ∧ Alloc.alloc_frame Demo.one_file t' ∧
    AllocSpec.releases (Alloc.free_in Demo.one_file) (0 + 1) (4 - 1) (Alloc.free_in t').
Proof.
  apply (truncate_refines 12 Demo.one_file 0 Demo.used4 1 Demo.one_file_inv ltac:(lia)
    Demo.one_file_used Demo.used4_used); [simpl; lia | apply Demo.one_file_not_both |].
  vm_compute. reflexivity.
Defined.

Lemma increase_key_drops_value_witness :
  ∃ t', Heap.mtl_heap_increase_key (NodeId 8 4) 9 INVALID_NODE Demo.one_file
        = Ok ((MTL_SUCCESS, NodeId 9 0), t') ∧
    Alloc.heap_of t' (NodeId 9 0) = Some 0 ∧
    (NodeId 8 4 ≠ NodeId 9 0 → Alloc.heap_of t' (NodeId 8 4) = None).
Proof.
  apply (increase_key_drops_value Demo.one_file 8 4 9 INVALID_NODE 4).
  vm_compute. reflexivity.
Defined.

(** Three files are reserved on a volume of 12 blocks and then freed, the
    second, the third and the first: the step that means to merge with the
    previous extent takes the next one instead, and the only extent left starts
    at block 8, is 12 blocks long and ends beyond the volume, so the first
    blocks belong to no extent. *)
Theorem free_three_corrupts :
  let run := (_ ← ExtentDb.mtl_initialize_extents 12;
              _ ← ExtentDb.mtl_reserve_extent 4 None 0 true;
              _ ← ExtentDb.mtl_reserve_extent 4 None 0 true;
              _ ← ExtentDb.mtl_reserve_extent 4 None 0 true;
              _ ← ExtentDb.mtl_free_extent 4;
              _ ← ExtentDb.mtl_free_extent 8;
              ExtentDb.mtl_free_extent 0) : M txn Z in
  ∃ t, run empty_txn = Ok (MTL_SUCCESS, t) ∧
    Alloc.ext_of t 8 = Some (Extent 12 MTL_FREE (NodeId 12 0)) ∧
    Alloc.ext_of t 0 = None ∧ Alloc.ext_of t 4 = None ∧ ¬ Alloc.inv 12 t.
Proof.
  intros run. exists (Demo.final run empty_txn).
  split; [apply Demo.run_final; vm_compute; reflexivity|].
  split; [vm_compute; reflexivity|].
  split; [vm_compute; reflexivity|]. split; [vm_compute; reflexivity|].
  intros Hi. pose proof (Alloc.inv_range _ _ 8 (Extent 12 MTL_FREE (NodeId 12 0)) Hi) as Hr.
  destruct Hr as (_ & _ & Hr & _); [vm_compute; reflexivity | simpl in Hr; lia].
Qed.

(** The heap does not extract the maximum: of two free extents of 1 and
    256 blocks it returns the one of 1 block, because keys are compared as
    little-endian byte strings. *)
Theorem extract_max_not_max :
  let run := (_ ← Heap.mtl_heap_insert 256 100;
              _ ← Heap.mtl_heap_insert 1 200;
              Heap.mtl_heap_extract_max 0) : M txn (Z * Z) in
  ∃ t, run empty_txn = Ok ((MTL_SUCCESS, 200), t) ∧
    Alloc.heap_of t (NodeId 256 100) = Some 100.
Proof.
  intros run. exists (Demo.final run empty_txn).
  split; [apply Demo.run_final|]; vm_compute; reflexivity.
Qed.
