(* ===== verification/Dirent.v ===== *)
(** * Directory data and file extents as bytes

    The data section of an inode is a byte string. In a directory it holds
    packed entries, a head of 16 bytes ([mtl_directory_entry_head]: the inode
    id, the length of the name in one byte, seven bytes of padding) followed by
    the name without a terminator; in a file it holds [mtl_file_extent]s of 16
    bytes. This file has the accessors the loops of inode.c are made of, and
    the encodings they read. *)
From S2P Require Import Prelude Structs.

(** ** Reading memory *)

Definition sizeof_entry_head : Z := 16.
Definition sizeof_file_extent : Z := 16.
Definition sizeof_inode : Z := 40.

(** [n] bytes at offset [o] of an object. *)
Definition read_bytes (data : list Z) (o n : Z) : result (list Z) :=
  if (0 <=? o) && (0 <=? n) && (o + n <=? Z.of_nat (length data))
  then Ok (take (Z.to_nat n) (drop (Z.to_nat o) data))
  else Fault OutOfBounds.

Definition read_uint (n : nat) (data : list Z) (o : Z) : result Z :=
  b ← read_bytes data o (Z.of_nat n); mret (le_val b).

(** [strncmp(a, b, n) == 0]; past its end a string reads as its terminator. *)
Fixpoint strncmp_eq (n : nat) (a b : list Z) : bool :=
  match n with
  | O => true
  | S n' =>
      let x := default 0 (head a) in
      let y := default 0 (head b) in
      if x =? y then (if x =? 0 then true else strncmp_eq n' (tail a) (tail b))
      else false
  end.

(** [strlen]. *)
Definition strlen (s : cstr) : Z := Z.of_nat (length s).

(** ** mtl_directory_entry_head *)

Definition entry_inode_id (data : list Z) (entry : Z) : result Z :=
  read_uint 8 data entry.
Definition entry_name_len (data : list Z) (entry : Z) : result Z :=
  read_uint 1 data (entry + 8).
Definition entry_filename (data : list Z) (entry name_len : Z) : result (list Z) :=
  read_bytes data (entry + sizeof_entry_head) name_len.

(** The offset of the entry after [entry], or of the first one for a null
    [entry]; [None] is the null pointer. The name follows its head. *)
Definition mtl_load_next_directory_entry (dir_data : list Z) (dir_data_length : Z)
    (entry : option Z) : result (option Z) :=
  res ← match entry with
        | None => mret 0
        | Some e => name_len ← entry_name_len dir_data e;
                    mret (e + sizeof_entry_head + name_len)
        end;
  if dir_data_length <? res + sizeof_entry_head then mret None
  else mret (Some res).

(** ** Encodings *)

Record dirent := Dirent { de_id : Z; de_pad : list Z; de_name : cstr }.

Definition dirent_bytes (e : dirent) : list Z :=
  le_bytes 8 (de_id e) ++ le_bytes 1 (Z.of_nat (length (de_name e)))
    ++ de_pad e ++ de_name e.

Definition dir_bytes (es : list dirent) : list Z := es ≫= dirent_bytes.

Definition no_nul (s : cstr) : Prop := Forall (λ c, c ≠ 0) s.

Record dirent_ok (e : dirent) : Prop := DirentOk {
  deo_id : 0 ≤ de_id e < 2 ^ 64;
  deo_pad : length (de_pad e) = 7%nat;
  deo_len : (length (de_name e) < 256)%nat;
  deo_nul : no_nul (de_name e);
}.

Definition file_extent_bytes (x : mtl_file_extent) : list Z :=
  le_bytes 8 (fe_offset x) ++ le_bytes 8 (fe_length x).

Definition extents_bytes (xs : list mtl_file_extent) : list Z :=
  xs ≫= file_extent_bytes.

(** The extents a pointer to the data gives access to. *)
Fixpoint read_extents (n : nat) (data : list Z) : list mtl_file_extent :=
  match n with
  | O => []
  | S n' =>
      FileExtent (le_val (take 8 data)) (le_val (take 8 (drop 8 data)))
        :: read_extents n' (drop 16 data)
  end.

Definition file_extent_ok (x : mtl_file_extent) : Prop :=
  0 ≤ fe_offset x < 2 ^ 64 ∧ 0 ≤ fe_length x < 2 ^ 64.

(** ** Lemmas *)

Lemma length_dirent_bytes e :
  length (de_pad e) = 7%nat → length (dirent_bytes e) = (16 + length (de_name e))%nat.
Proof.
  intros Hp. unfold dirent_bytes. rewrite !length_app, !length_le_bytes, Hp. lia.
Qed.

Lemma dir_bytes_app es1 es2 : dir_bytes (es1 ++ es2) = dir_bytes es1 ++ dir_bytes es2.
Proof. apply bind_app. Qed.

Lemma dir_bytes_cons e es : dir_bytes (e :: es) = dirent_bytes e ++ dir_bytes es.
Proof. done. Qed.

Lemma read_bytes_mid pre mid post :
  read_bytes (pre ++ mid ++ post) (Z.of_nat (length pre)) (Z.of_nat (length mid)) = Ok mid.
Proof.
  unfold read_bytes. rewrite !length_app.
  rewrite (proj2 (Z.leb_le 0 _)) by lia. rewrite (proj2 (Z.leb_le 0 _)) by lia.
  rewrite (proj2 (Z.leb_le (_ + _) _)) by lia. simpl.
  by rewrite !Nat2Z.id, drop_app_length, take_app_length.
Qed.

Lemma read_bytes_at pre mid post o n :
  o = Z.of_nat (length pre) → n = Z.of_nat (length mid) →
  read_bytes (pre ++ mid ++ post) o n = Ok mid.
Proof. intros -> ->. apply read_bytes_mid. Qed.

Lemma read_bytes_prefix data post :
  read_bytes (data ++ post) 0 (Z.of_nat (length data)) = Ok data.
Proof. by apply (read_bytes_at []). Qed.

Lemma read_bytes_all data : read_bytes data 0 (Z.of_nat (length data)) = Ok data.
Proof. pose proof (read_bytes_prefix data []) as Hr. by rewrite app_nil_r in Hr. Qed.

Section AtEntry.
Context (pre post : list Z) (e : dirent) (He : dirent_ok e).
Let data := pre ++ dirent_bytes e ++ post.
Let o := Z.of_nat (length pre).

Lemma entry_inode_id_at : entry_inode_id data o = Ok (de_id e).
Proof using He.
  unfold entry_inode_id, read_uint, data, dirent_bytes. rewrite <-app_assoc.
  rewrite (read_bytes_at pre (le_bytes 8 (de_id e))) by (done || by rewrite length_le_bytes).
  unfold mbind, result_bind, mret, result_ret.
  rewrite le_val_bytes_small; [done|]. apply He.
Qed.

Lemma entry_name_len_at : entry_name_len data o = Ok (Z.of_nat (length (de_name e))).
Proof using He.
  unfold entry_name_len, read_uint, data, dirent_bytes.
  rewrite <-!app_assoc, (app_assoc pre).
  rewrite (read_bytes_at _ (le_bytes 1 _))
    by (rewrite ?length_app, ?length_le_bytes; lia).
  unfold mbind, result_bind, mret, result_ret.
  rewrite le_val_bytes_small; [done|]. pose proof (deo_len _ He). simpl. lia.
Qed.

Lemma entry_filename_at :
  entry_filename data o (Z.of_nat (length (de_name e))) = Ok (de_name e).
Proof using He.
  unfold entry_filename, data, dirent_bytes.
  rewrite <-!app_assoc, (app_assoc pre), (app_assoc _ (le_bytes 1 _)),
    (app_assoc _ (de_pad e)).
  apply read_bytes_at; [|done]. rewrite !length_app, !length_le_bytes, (deo_pad _ He).
  unfold sizeof_entry_head. lia.
Qed.
End AtEntry.

(** The iteration visits the encoded entries one after the other. *)
Lemma load_first es :
  Forall dirent_ok es →
  mtl_load_next_directory_entry (dir_bytes es) (Z.of_nat (length (dir_bytes es))) None
  = Ok (match es with [] => None | _ :: _ => Some 0 end).
Proof.
  intros Hes. unfold mtl_load_next_directory_entry, mbind, result_bind, mret, result_ret.
  destruct es as [|e es]; [done|]. rewrite dir_bytes_cons, length_app.
  apply Forall_cons in Hes as [He _]. rewrite length_dirent_bytes by apply He.
  by rewrite (proj2 (Z.ltb_ge _ _)) by (unfold sizeof_entry_head; lia).
Qed.

Lemma load_next es1 e es2 :
  Forall dirent_ok (es1 ++ e :: es2) →
  let data := dir_bytes (es1 ++ e :: es2) in
  mtl_load_next_directory_entry data (Z.of_nat (length data))
    (Some (Z.of_nat (length (dir_bytes es1))))
  = Ok (match es2 with
        | [] => None
        | _ :: _ => Some (Z.of_nat (length (dir_bytes (es1 ++ [e]))))
        end).
Proof.
  intros [Hes1 [He Hes2]%Forall_cons]%Forall_app data. subst data.
  unfold mtl_load_next_directory_entry.
  rewrite !dir_bytes_app, dir_bytes_cons, entry_name_len_at by done.
  unfold mbind, result_bind, mret, result_ret.
  rewrite dir_bytes_cons, app_nil_r, !length_app, (length_dirent_bytes e) by apply He.
  unfold sizeof_entry_head. destruct es2 as [|e2 es2].
  - simpl length. by rewrite (proj2 (Z.ltb_lt _ _)) by lia.
  - rewrite dir_bytes_cons, length_app. apply Forall_cons in Hes2 as [He2 _].
    rewrite length_dirent_bytes by apply He2.
    rewrite (proj2 (Z.ltb_ge _ _)) by lia. do 2 f_equal. lia.
Qed.

Lemma strncmp_eq_spec a b :
  no_nul b → length a = length b → strncmp_eq (length a) a b = bool_decide (a = b).
Proof.
  intros Hb. revert a. induction Hb as [|y b Hy Hb IH]; intros [|x a]; simpl; try done.
  intros [= Hlen]. destruct (Z.eqb_spec x y) as [->|Hne].
  - rewrite (proj2 (Z.eqb_neq y 0)) by done. rewrite IH by done.
    apply bool_decide_ext. naive_solver.
  - symmetry. apply bool_decide_eq_false. naive_solver.
Qed.

Lemma length_extents_bytes xs : length (extents_bytes xs) = (16 * length xs)%nat.
Proof.
  induction xs as [|x xs IH]; [done|]. cbn [extents_bytes mbind list_bind].
  fold (extents_bytes xs). rewrite length_app.
  change (list_bind mtl_file_extent Z file_extent_bytes xs) with (extents_bytes xs).
  rewrite IH. simpl. lia.
Qed.

Lemma extents_bytes_app xs ys :
  extents_bytes (xs ++ ys) = extents_bytes xs ++ extents_bytes ys.
Proof. apply bind_app. Qed.

(** Decoding the encoded extents gives them back. *)
Lemma read_extents_bytes xs post :
  Forall file_extent_ok xs → read_extents (length xs) (extents_bytes xs ++ post) = xs.
Proof.
  intros Hxs. induction Hxs as [|x xs [Hx1 Hx2] _ IH]; [done|].
  change (extents_bytes (x :: xs)) with (file_extent_bytes x ++ extents_bytes xs).
  unfold file_extent_bytes. rewrite <-!app_assoc. cbn [length read_extents].
  rewrite take_app_length' by done. rewrite drop_app_length' by done.
  rewrite take_app_length' by done.
  rewrite !le_val_bytes_small by done.
  rewrite app_assoc, drop_app_length' by done. rewrite IH. by destruct x.
Qed.

(** The encoding of a directory determines its entries. *)
Lemma dirent_bytes_inj e1 e2 r1 r2 :
  dirent_ok e1 → dirent_ok e2 →
  dirent_bytes e1 ++ r1 = dirent_bytes e2 ++ r2 → e1 = e2 ∧ r1 = r2.
Proof.
  intros [Hi1 Hp1 Hl1 _] [Hi2 Hp2 Hl2 _]. unfold dirent_bytes. rewrite <-!app_assoc.
  intros [E1 E]%app_inj_1; [|by rewrite !length_le_bytes].
  apply app_inj_1 in E as [E2 E]; [|by rewrite !length_le_bytes].
  apply app_inj_1 in E as [E3 E]; [|by rewrite Hp1, Hp2].
  apply le_bytes_inj in E1; [|done..]. apply le_bytes_inj in E2; [|lia..].
  apply app_inj_1 in E as [E4 E]; [|lia].
  split; [|done]. destruct e1, e2; simpl in *. by subst.
Qed.

Lemma dir_bytes_inj es1 es2 :
  Forall dirent_ok es1 → Forall dirent_ok es2 → dir_bytes es1 = dir_bytes es2 → es1 = es2.
Proof.
  intros H1. revert es2. induction H1 as [|e1 es1 He1 H1 IH]; intros [|e2 es2] H2 E; try done.
  apply Forall_cons in H2 as [He2 H2]. rewrite !dir_bytes_cons in E.
  apply dirent_bytes_inj in E as [-> E]; [|done..]. f_equal. by apply IH.
Qed.
