(* ===== verification/Inode.v ===== *)
(** * Inodes, directories and inode numbers (inode.c, meta.c)

    Every operation is a computation over the open transaction. A pointer to
    an inode and its data is an option, [None] when the variable was left null
    or uninitialised. The C variable-length arrays are checked against the
    stack ([vla]), and what the code reads without having written it comes from
    [Machine]. *)
From S2P Require Import Prelude Lmdb Structs Dirent.

(** What the C program observes of the machine it runs on. *)
Class Machine := {
  stack_limit : Z;             (** the bytes of arrays the stack can hold *)
  garbage : nat → Z;           (** bytes of an uninitialised array *)
  uninit : string → Z;         (** an uninitialised variable *)
}.

Definition S_IFDIR : Z := 16384.
Definition S_IFREG : Z := 32768.

Definition next_inode_id_key : string := "next_inode".

Definition with_length (i : mtl_inode) (l : Z) : mtl_inode :=
  Inode (i_type i) l (i_user i) (i_group i) (i_accessed i) (i_modified i)
        (i_created i) (i_mode i).

Module InodeDb.
Section Operations.
Context `{Lmdb} `{Machine}.

(** [char a[n]] on the stack, on which the arrays of the callers take [used] bytes. *)
Definition vla {S} (used n : Z) : M S unit :=
  if used + n <=? stack_limit then mret tt else m_fault StackOverflow.

(** *** meta.c *)

Definition mtl_next_id (key : string) : M txn Z :=
  t ← m_get;
  let result := match mdb_get (tx_meta t) key with None => 1 | Some v => v end in
  let result := result +ᵤ 1 in
  _ ← m_put (set_meta (mdb_put (tx_meta t) key result) t);
  mret (result -ᵤ 1).

Definition mtl_next_inode_id : M txn Z := mtl_next_id next_inode_id_key.

(** *** Loading and storing *)

Definition mtl_load_inode (inode_id : Z) : M txn (Z * option (mtl_inode * list Z)) :=
  t ← m_get;
  match mdb_get (tx_inodes t) inode_id with
  | None => mret (MTL_ERROR_NOENTRY, None)
  | Some v => mret (MTL_SUCCESS, Some v)
  end.

Definition mtl_load_directory (inode_id : Z) : M txn (Z * option (mtl_inode * list Z)) :=
  mtl_load_inode inode_id.

(** The last component is [*extents_length]. *)
Definition mtl_load_file (inode_id : Z) :
    M txn (Z * option (mtl_inode * list Z) * Z) :=
  '(res, p) ← mtl_load_inode inode_id;
  let data_length := match p with None => 0 | Some (_, data) => Z.of_nat (length data) end in
  mret (res, p, data_length / sizeof_file_extent).

(** The array of the caller, if it has one, takes [used] bytes of the stack. *)
Definition mtl_put_inode (used inode_id : Z) (inode : mtl_inode) (data : list Z) : M txn Z :=
  _ ← vla used (sizeof_inode +ᵤ Z.of_nat (length data));
  t ← m_get;
  _ ← m_put (set_inodes (mdb_put (tx_inodes t) inode_id (inode, data)) t);
  mret MTL_SUCCESS.

Definition mtl_delete_inode (inode_id : Z) : M txn Z :=
  t ← m_get;
  match mdb_del (tx_inodes t) inode_id with
  | None => mret MTL_SUCCESS
  | Some d => _ ← m_put (set_inodes d t); mret MTL_SUCCESS
  end.

(** *** The extents of a file *)

Definition mtl_add_extent_to_file (inode_id : Z) (new_extent : mtl_file_extent)
    (new_length : Z) : M txn Z :=
  '(_, p, extents_length) ← mtl_load_file inode_id;
  '(inode, extents) ← c_deref p;
  let updated_inode := with_length inode new_length in
  let sizeof_extent_data := (extents_length +ᵤ 1) *ᵤ sizeof_file_extent in
  _ ← vla 0 sizeof_extent_data;
  old ← m_lift (read_bytes extents 0 (extents_length *ᵤ sizeof_file_extent));
  mtl_put_inode sizeof_extent_data inode_id updated_inode (old ++ file_extent_bytes new_extent).

Definition mtl_extend_last_extent_in_file (inode_id : Z) (new_extent : mtl_file_extent)
    (new_length : Z) : M txn Z :=
  '(_, p, extents_length) ← mtl_load_file inode_id;
  '(inode, extents) ← c_deref p;
  let updated_inode := with_length inode new_length in
  let sizeof_extent_data := extents_length *ᵤ sizeof_file_extent in
  _ ← vla 0 sizeof_extent_data;
  (* the array element before the first one *)
  _ ← (if extents_length =? 0 then m_fault OutOfBounds else mret tt);
  old ← m_lift (read_bytes extents 0 ((extents_length -ᵤ 1) *ᵤ sizeof_file_extent));
  mtl_put_inode sizeof_extent_data inode_id updated_inode (old ++ file_extent_bytes new_extent).

(** [update_last_extent_length]: the length to store, [None] for null. *)
Definition mtl_truncate_file_extents (inode_id new_file_length extents_length : Z)
    (update_last_extent_length : option Z) : M txn Z :=
  '(_, p, _) ← mtl_load_file inode_id;
  '(inode, extents) ← c_deref p;
  let updated_inode := with_length inode new_file_length in
  let sizeof_extent_data := extents_length *ᵤ sizeof_file_extent in
  _ ← vla 0 sizeof_extent_data;
  extent_data ← m_lift (read_bytes extents 0 (extents_length *ᵤ sizeof_file_extent));
  extent_data ← match update_last_extent_length with
                | None => mret extent_data
                | Some l =>
                    if extents_length =? 0 then m_fault OutOfBounds
                    else mret (take (Z.to_nat (extents_length * sizeof_file_extent - 8))
                                 extent_data ++ le_bytes 8 l)
                end;
  mtl_put_inode sizeof_extent_data inode_id updated_inode extent_data.

(** *** Directories *)

(** The test of the loops below: the lengths, then [strncmp]. *)
Definition entry_matches (dir_data : list Z) (entry name_len : Z) (filename : cstr) :
    result bool :=
  if negb (strlen filename =? name_len) then mret false
  else
    current_filename ← entry_filename dir_data entry name_len;
    mret (strncmp_eq (Z.to_nat name_len) current_filename filename).

(** The loop that [mtl_resolve_inode_in_directory] and
    [mtl_append_inode_id_to_directory] run: the first entry with the name. *)
Fixpoint find_entry (fuel : nat) (dir_data : list Z) (dir_length : Z)
    (filename : cstr) (current_entry : option Z) : result (option Z) :=
  match fuel with
  | O => Fault OutOfFuel
  | S fuel' =>
      current_entry ← mtl_load_next_directory_entry dir_data dir_length current_entry;
      match current_entry with
      | None => mret None
      | Some entry =>
          name_len ← entry_name_len dir_data entry;
          found ← entry_matches dir_data entry name_len filename;
          if (found : bool) then mret (Some entry)
          else find_entry fuel' dir_data dir_length filename (Some entry)
      end
  end.

(** An entry has at least one byte, so this many iterations are enough. *)
Definition dir_fuel (dir_data : list Z) : nat := S (length dir_data).

Definition mtl_resolve_inode_in_directory (dir_inode_id : Z) (filename : cstr)
    (file_inode_id : Z) : M txn (Z * Z) :=
  '(_, p) ← mtl_load_inode dir_inode_id;
  '(dir_inode, dir_data) ← c_deref p;
  if negb (bool_decide (i_type dir_inode = MTL_DIRECTORY))
  then mret (MTL_ERROR_NOTDIRECTORY, file_inode_id)
  else
    found ← m_lift (find_entry (dir_fuel dir_data) dir_data (i_length dir_inode)
                      filename None);
    match found with
    | Some entry => id ← m_lift (entry_inode_id dir_data entry);
                    mret (MTL_SUCCESS, id)
    | None => mret (MTL_ERROR_NOENTRY, file_inode_id)
    end.

(** The padding of a head built on the stack. *)
Definition head_padding : list Z := garbage <$> seq 9 7.

Definition mtl_append_inode_id_to_directory (dir_inode_id : Z) (filename : cstr)
    (inode_id : Z) : M txn Z :=
  let filename_length := strlen filename in
  '(_, p) ← mtl_load_inode dir_inode_id;
  '(dir_inode, dir_inode_data) ← c_deref p;
  if negb (bool_decide (i_type dir_inode = MTL_DIRECTORY))
  then mret MTL_ERROR_NOTDIRECTORY
  else
    found ← m_lift (find_entry (dir_fuel dir_inode_data) dir_inode_data
                      (i_length dir_inode) filename None);
    match found with
    | Some _ => mret MTL_ERROR_EXISTS
    | None =>
        let new_data_length :=
          i_length dir_inode +ᵤ sizeof_entry_head +ᵤ filename_length in
        let new_dir_inode := with_length dir_inode new_data_length in
        _ ← vla 0 new_data_length;
        old ← m_lift (read_bytes dir_inode_data 0 (i_length dir_inode));
        mtl_put_inode new_data_length dir_inode_id new_dir_inode
          (old ++ le_bytes 8 inode_id ++ le_bytes 1 filename_length
               ++ head_padding ++ filename)
    end.

(** The copying loop of [mtl_remove_entry_from_directory]: the bytes written
    and [*inode_id] when the entries are exhausted, [None] for the early
    return. *)
Fixpoint remove_loop (fuel : nat) (dir_data : list Z) (dir_length : Z)
    (filename : cstr) (new_data_length : Z) (current_entry : option Z)
    (written : list Z) (inode_id : Z) : result (option (list Z) * Z) :=
  match fuel with
  | O => Fault OutOfFuel
  | S fuel' =>
      current_entry ← mtl_load_next_directory_entry dir_data dir_length current_entry;
      match current_entry with
      | None => mret (Some written, inode_id)
      | Some entry =>
          name_len ← entry_name_len dir_data entry;
          found ← entry_matches dir_data entry name_len filename;
          if (found : bool) then
            id ← entry_inode_id dir_data entry;
            remove_loop fuel' dir_data dir_length filename new_data_length
              (Some entry) written id
          else if new_data_length <?
                    Z.of_nat (length written) +ᵤ name_len +ᵤ sizeof_entry_head
          then mret (None, inode_id)
          else
            head ← read_bytes dir_data entry sizeof_entry_head;
            current_filename ← entry_filename dir_data entry name_len;
            remove_loop fuel' dir_data dir_length filename new_data_length
              (Some entry) (written ++ head ++ current_filename) inode_id
      end
  end.

(** [inode_id] is the old contents of the result parameter. *)
Definition mtl_remove_entry_from_directory (dir_inode_id : Z) (filename : cstr)
    (inode_id : Z) : M txn (Z * Z) :=
  '(_, p) ← mtl_load_inode dir_inode_id;
  '(dir_inode, dir_inode_data) ← c_deref p;
  if negb (bool_decide (i_type dir_inode = MTL_DIRECTORY))
  then mret (MTL_ERROR_NOTDIRECTORY, inode_id)
  else
    let new_data_length :=
      i_length dir_inode -ᵤ (sizeof_entry_head + strlen filename) in
    let new_dir_inode := with_length dir_inode new_data_length in
    _ ← vla 0 new_data_length;
    '(out, inode_id) ← m_lift (remove_loop (dir_fuel dir_inode_data) dir_inode_data
                         (i_length dir_inode) filename new_data_length None [] inode_id);
    match out with
    | None => mret (MTL_ERROR_NOENTRY, inode_id)
    | Some written =>
        (* the rest of the array was never written *)
        let rest := garbage <$> seq (length written)
                                 (Z.to_nat new_data_length - length written) in
        res ← mtl_put_inode new_data_length dir_inode_id new_dir_inode (written ++ rest);
        mret (res, inode_id)
    end.

(** The check of [mtl_remove_directory]: no entry but [.] and [..]. *)
Fixpoint only_dots (fuel : nat) (dir_data : list Z) (dir_length : Z)
    (current_entry : option Z) : result bool :=
  match fuel with
  | O => Fault OutOfFuel
  | S fuel' =>
      current_entry ← mtl_load_next_directory_entry dir_data dir_length current_entry;
      match current_entry with
      | None => mret true
      | Some entry =>
          name_len ← entry_name_len dir_data entry;
          dot ← entry_matches dir_data entry name_len (str ".");
          if (dot : bool) then only_dots fuel' dir_data dir_length (Some entry)
          else
            dotdot ← entry_matches dir_data entry name_len (str "..");
            if (dotdot : bool) then only_dots fuel' dir_data dir_length (Some entry)
            else mret false
      end
  end.

Definition mtl_remove_directory (dir_inode_id : Z) : M txn Z :=
  '(_, p) ← mtl_load_directory dir_inode_id;
  '(dir_inode, dir_entries) ← c_deref p;
  if negb (bool_decide (i_type dir_inode = MTL_DIRECTORY))
  then mret MTL_ERROR_NOTDIRECTORY
  else
    empty ← m_lift (only_dots (dir_fuel dir_entries) dir_entries (i_length dir_inode) None);
    if negb empty then mret MTL_ERROR_NOTEMPTY
    else mtl_delete_inode dir_inode_id.

Definition fresh_inode (type : MTL_inode_type) (now mode : Z) : mtl_inode :=
  Inode type 0 0 0 now now now mode.

Definition mtl_create_root_directory (now : Z) : M txn Z :=
  t ← m_get;
  match mdb_get (tx_inodes t) 0 with
  | Some _ => mret MTL_SUCCESS
  | None =>
      _ ← mtl_put_inode 0 0 (fresh_inode MTL_DIRECTORY now (Z.lor 493 S_IFDIR)) [];
      _ ← mtl_append_inode_id_to_directory 0 (str ".") 0;
      _ ← mtl_append_inode_id_to_directory 0 (str "..") 0;
      mret MTL_SUCCESS
  end.

Definition mtl_create_directory_in_directory (now : Z) (dir_inode_id : Z)
    (filename : cstr) (mode : Z) : M txn (Z * Z) :=
  id ← mtl_next_inode_id;
  res ← mtl_append_inode_id_to_directory dir_inode_id filename id;
  if negb (res =? MTL_SUCCESS) then mret (res, id)
  else
    res ← mtl_put_inode 0 id (fresh_inode MTL_DIRECTORY now (Z.lor mode S_IFDIR)) [];
    if negb (res =? MTL_SUCCESS) then mret (res, id)
    else
      res ← mtl_append_inode_id_to_directory id (str ".") id;
      if negb (res =? MTL_SUCCESS) then mret (res, id)
      else
        res ← mtl_append_inode_id_to_directory id (str "..") dir_inode_id;
        if negb (res =? MTL_SUCCESS) then mret (res, id)
        else mret (MTL_SUCCESS, id).

Definition mtl_create_file_in_directory (now : Z) (dir_inode_id : Z)
    (filename : cstr) (mode : Z) : M txn (Z * Z) :=
  id ← mtl_next_inode_id;
  res ← mtl_append_inode_id_to_directory dir_inode_id filename id;
  if negb (res =? MTL_SUCCESS) then mret (res, id)
  else
    res ← mtl_put_inode 0 id (fresh_inode MTL_FILE now (Z.lor mode S_IFREG)) [];
    mret (res, id).
End Operations.
End InodeDb.
