(* ===== verification/InodeProofs.v ===== *)
(** * Directories as lists of entries

    The loops of [Inode.v] over the bytes of a well-formed directory are
    look-up, append and removal on the list of its entries. *)
From S2P Require Import Prelude Lmdb Structs Dirent Inode.

Module Dir.

(** ** The loops on encoded entries *)

Definition has_name (filename : cstr) (e : dirent) : Prop := de_name e = filename.
#[export] Instance has_name_dec filename e : Decision (has_name filename e).
Proof. unfold has_name. apply _. Defined.

Fixpoint lookup_name (filename : cstr) (es : list dirent) : option dirent :=
  match es with
  | [] => None
  | e :: es' => if decide (has_name filename e) then Some e else lookup_name filename es'
  end.

Lemma lookup_name_Some filename es e :
  lookup_name filename es = Some e → e ∈ es ∧ de_name e = filename.
Proof.
  induction es as [|e' es IH]; simpl; [done|]. case_decide; intros.
  - simplify_eq. split; [by left|done].
  - destruct IH; [done|]. split; [by right|done].
Qed.

Lemma lookup_name_None filename es :
  lookup_name filename es = None ↔ filename ∉ (de_name <$> es).
Proof.
  induction es as [|e' es IH]; simpl; [split; [intros _; apply not_elem_of_nil|done]|].
  rewrite not_elem_of_cons. unfold has_name. case_decide; naive_solver.
Qed.

Lemma length_dir_bytes_ge es :
  Forall dirent_ok es → (16 * length es ≤ length (dir_bytes es))%nat.
Proof.
  induction 1 as [|e es He Hes IH]; [done|]. rewrite dir_bytes_cons, length_app.
  rewrite length_dirent_bytes by apply He. simpl. lia.
Qed.

Lemma dir_fuel_enough es :
  Forall dirent_ok es → (length es < InodeDb.dir_fuel (dir_bytes es))%nat.
Proof. intros Hes%length_dir_bytes_ge. unfold InodeDb.dir_fuel. lia. Qed.

Section Loops.
Context (es : list dirent) (Hes : Forall dirent_ok es).
Let data := dir_bytes es.
Let len := Z.of_nat (length data).

(** The cursor stands before [es2], after [es1]. *)
Definition cursor_at (cur : option Z) (es1 es2 : list dirent) : Prop :=
  es = es1 ++ es2 ∧
  mtl_load_next_directory_entry data len cur
  = Ok (match es2 with [] => None | _ :: _ => Some (Z.of_nat (length (dir_bytes es1))) end).

Lemma cursor_start : cursor_at None [] es.
Proof using Hes. split; [done|]. subst data len. rewrite load_first by done. by destruct es. Qed.

Lemma cursor_step es1 e es2 :
  es = es1 ++ e :: es2 →
  cursor_at (Some (Z.of_nat (length (dir_bytes es1)))) (es1 ++ [e]) es2.
Proof using Hes.
  intros E. split; [by rewrite <-app_assoc|]. subst data len.
  pose proof Hes as Hes'. rewrite E in Hes' |- *. by apply load_next.
Qed.

Lemma entry_ok es1 e es2 : es = es1 ++ e :: es2 → dirent_ok e.
Proof using Hes.
  intros E. pose proof Hes as Hes'. rewrite E in Hes'.
  by apply Forall_app in Hes' as [_ [? _]%Forall_cons].
Qed.

Lemma data_at es1 e es2 :
  es = es1 ++ e :: es2 → data = dir_bytes es1 ++ dirent_bytes e ++ dir_bytes es2.
Proof. intros E. unfold data. by rewrite E, dir_bytes_app, dir_bytes_cons. Qed.

Lemma name_len_run es1 e es2 :
  es = es1 ++ e :: es2 →
  entry_name_len data (Z.of_nat (length (dir_bytes es1))) = Ok (Z.of_nat (length (de_name e))).
Proof using Hes.
  intros E. rewrite (data_at _ _ _ E). apply entry_name_len_at. by eapply entry_ok.
Qed.

Lemma filename_run es1 e es2 :
  es = es1 ++ e :: es2 →
  entry_filename data (Z.of_nat (length (dir_bytes es1))) (Z.of_nat (length (de_name e)))
  = Ok (de_name e).
Proof using Hes.
  intros E. rewrite (data_at _ _ _ E). apply entry_filename_at. by eapply entry_ok.
Qed.

Lemma inode_id_run es1 e es2 :
  es = es1 ++ e :: es2 →
  entry_inode_id data (Z.of_nat (length (dir_bytes es1))) = Ok (de_id e).
Proof using Hes.
  intros E. rewrite (data_at _ _ _ E). apply entry_inode_id_at. by eapply entry_ok.
Qed.

Lemma matches_run filename es1 e es2 :
  no_nul filename → es = es1 ++ e :: es2 →
  InodeDb.entry_matches data (Z.of_nat (length (dir_bytes es1)))
    (Z.of_nat (length (de_name e))) filename
  = Ok (bool_decide (has_name filename e)).
Proof using Hes.
  intros Hn E. unfold InodeDb.entry_matches, strlen.
  destruct (Z.eqb_spec (Z.of_nat (length filename)) (Z.of_nat (length (de_name e))))
    as [Hlen|Hne]; simpl.
  - rewrite (filename_run _ _ _ E). unfold mbind, result_bind, mret, result_ret.
    rewrite Nat2Z.id. by rewrite strncmp_eq_spec by (done || lia).
  - rewrite bool_decide_eq_false_2; [done|]. unfold has_name. naive_solver.
Qed.

Lemma find_entry_run filename es2 : ∀ fuel cur es1,
  no_nul filename → cursor_at cur es1 es2 → (length es2 < fuel)%nat →
  match lookup_name filename es2 with
  | None => InodeDb.find_entry fuel data len filename cur = Ok None
  | Some e => ∃ l1 l2, es = l1 ++ e :: l2 ∧
      InodeDb.find_entry fuel data len filename cur
      = Ok (Some (Z.of_nat (length (dir_bytes l1))))
  end.
Proof using Hes.
  induction es2 as [|e es2 IH]; intros [|fuel] cur es1 Hn [E Hcur] Hf; simpl in Hf; try lia.
  - simpl. by rewrite Hcur.
  - assert (InodeDb.find_entry (S fuel) data len filename cur
      = if bool_decide (has_name filename e)
        then Ok (Some (Z.of_nat (length (dir_bytes es1))))
        else InodeDb.find_entry fuel data len filename
               (Some (Z.of_nat (length (dir_bytes es1))))) as ->.
    { cbn [InodeDb.find_entry]. rewrite Hcur.
      unfold mbind at 1 2 3, result_bind at 1 2 3.
      by rewrite (name_len_run _ _ _ E), (matches_run _ _ _ _ Hn E). }
    cbn [lookup_name]. case_decide as Hname.
    + rewrite bool_decide_eq_true_2 by done. by exists es1, es2.
    + rewrite bool_decide_eq_false_2 by done.
      apply (IH fuel _ (es1 ++ [e])); [done| |lia]. by apply cursor_step.
Qed.

(** The copy of the entries without those of the name, as long as it fits. *)
Lemma remove_loop_run filename new_len es2 : ∀ fuel cur es1 kept id,
  no_nul filename → cursor_at cur es1 es2 → (length es2 < fuel)%nat →
  len < 2 ^ 63 →
  kept = filter (λ e, ¬ has_name filename e) es1 →
  let out := filter (λ e, ¬ has_name filename e) es in
  Z.of_nat (length (dir_bytes out)) ≤ new_len →
  InodeDb.remove_loop fuel data len filename new_len cur (dir_bytes kept) id
  = Ok (Some (dir_bytes out),
        foldl (λ i e, if decide (has_name filename e) then de_id e else i) id es2).
Proof using Hes.
  induction es2 as [|e es2 IH]; intros [|fuel] cur es1 kept id Hn [E Hcur] Hf Hb Hk out Hout;
    simpl in Hf; try lia.
  - cbn [InodeDb.remove_loop]. rewrite Hcur. unfold mbind, result_bind, mret, result_ret.
    subst out kept. by rewrite E, app_nil_r.
  - cbn [InodeDb.remove_loop foldl]. rewrite Hcur.
    unfold mbind at 1 2 3, result_bind at 1 2 3.
    rewrite (name_len_run _ _ _ E), (matches_run _ _ _ _ Hn E).
    case_decide as Hname.
    + rewrite bool_decide_eq_true_2 by done. rewrite (inode_id_run _ _ _ E).
      unfold mbind at 1, result_bind at 1.
      apply (IH fuel _ (es1 ++ [e])); try done; [by apply cursor_step|lia|].
      subst kept. rewrite filter_app, filter_cons_False by tauto. by rewrite app_nil_r.
    + rewrite bool_decide_eq_false_2 by done.
      assert (out = kept ++ e :: filter (λ e, ¬ has_name filename e) es2) as Ho.
      { subst out kept. by rewrite E, filter_app, filter_cons_True. }
      assert (dirent_ok e) as He by by eapply entry_ok.
      rewrite Ho, dir_bytes_app, dir_bytes_cons, !length_app in Hout.
      rewrite length_dirent_bytes in Hout by apply He.
      assert (Z.of_nat (length (dir_bytes kept)) + 16 + Z.of_nat (length (de_name e)) ≤ len).
      { assert (length (dir_bytes kept) ≤ length (dir_bytes es1))%nat as Hle.
        { subst kept. clear. induction es1 as [|e1 es1 IH]; [done|].
          rewrite dir_bytes_cons, length_app. destruct (decide (¬ has_name filename e1)).
          - rewrite filter_cons_True by done. rewrite dir_bytes_cons, length_app. lia.
          - rewrite filter_cons_False by done. lia. }
        unfold len. rewrite (data_at _ _ _ E), !length_app.
        rewrite length_dirent_bytes by apply He. lia. }
      unfold sizeof_entry_head. u64_norm. rewrite (proj2 (Z.ltb_ge _ _)) by lia.
      set (hd := le_bytes 8 (de_id e) ++ le_bytes 1 (Z.of_nat (length (de_name e))) ++ de_pad e).
      assert (dirent_bytes e = hd ++ de_name e) as Hsplit
        by (unfold hd, dirent_bytes; by rewrite <-!app_assoc).
      assert (read_bytes data (Z.of_nat (length (dir_bytes es1))) 16 = Ok hd) as Hhd.
      { rewrite (data_at _ _ _ E), Hsplit, <-app_assoc. apply read_bytes_at; [done|].
        unfold hd. rewrite !length_app, !length_le_bytes, (deo_pad _ He). done. }
      rewrite Hhd. unfold mbind at 1, result_bind at 1. rewrite (filename_run _ _ _ E).
      unfold mbind at 1, result_bind at 1. rewrite <-Hsplit.
      replace (dir_bytes kept ++ dirent_bytes e) with (dir_bytes (kept ++ [e]))
        by (by rewrite dir_bytes_app, dir_bytes_cons, app_nil_r).
      apply (IH fuel _ (es1 ++ [e])); try done; [by apply cursor_step|lia| |].
      * subst kept. by rewrite filter_app, filter_cons_True.
      * subst out. rewrite Ho, dir_bytes_app, dir_bytes_cons, !length_app.
        rewrite length_dirent_bytes by apply He. done.
Qed.

(** Without an entry of the name the copy does not fit: early return. *)
Lemma remove_loop_absent filename new_len es2 : ∀ fuel cur es1 id,
  no_nul filename → cursor_at cur es1 es2 → (length es2 < fuel)%nat →
  len < 2 ^ 63 → lookup_name filename es = None →
  Z.of_nat (length (dir_bytes es1)) ≤ new_len < len →
  InodeDb.remove_loop fuel data len filename new_len cur (dir_bytes es1) id = Ok (None, id).
Proof using Hes.
  induction es2 as [|e es2 IH]; intros [|fuel] cur es1 id Hn [E Hcur] Hf Hb Hab Hlt;
    simpl in Hf; try lia.
  - exfalso. rewrite app_nil_r in E. unfold len, data in Hlt. rewrite E in Hlt. lia.
  - cbn [InodeDb.remove_loop]. rewrite Hcur.
    unfold mbind at 1 2 3, result_bind at 1 2 3.
    rewrite (name_len_run _ _ _ E), (matches_run _ _ _ _ Hn E).
    assert (dirent_ok e) as He by by eapply entry_ok.
    rewrite bool_decide_eq_false_2.
    2: { intros Hname. apply lookup_name_None in Hab. apply Hab. rewrite E.
         rewrite fmap_app. apply elem_of_app. right.
         apply elem_of_cons. by left. }
    assert (Z.of_nat (length (dir_bytes es1)) + 16 + Z.of_nat (length (de_name e)) ≤ len).
    { unfold len. rewrite (data_at _ _ _ E), !length_app.
      rewrite length_dirent_bytes by apply He. lia. }
    unfold sizeof_entry_head. u64_norm. destruct (_ <? _) eqn:Hfit; to_prop; [done|].
    set (hd := le_bytes 8 (de_id e) ++ le_bytes 1 (Z.of_nat (length (de_name e))) ++ de_pad e).
    assert (dirent_bytes e = hd ++ de_name e) as Hsplit
      by (unfold hd, dirent_bytes; by rewrite <-!app_assoc).
    assert (read_bytes data (Z.of_nat (length (dir_bytes es1))) 16 = Ok hd) as Hhd.
    { rewrite (data_at _ _ _ E), Hsplit, <-app_assoc. apply read_bytes_at; [done|].
      unfold hd. rewrite !length_app, !length_le_bytes, (deo_pad _ He). done. }
    rewrite Hhd. unfold mbind at 1, result_bind at 1. rewrite (filename_run _ _ _ E).
    unfold mbind at 1, result_bind at 1. rewrite <-Hsplit.
    replace (dir_bytes es1 ++ dirent_bytes e) with (dir_bytes (es1 ++ [e]))
      by (by rewrite dir_bytes_app, dir_bytes_cons, app_nil_r).
    apply (IH fuel _ (es1 ++ [e])); try done; [by apply cursor_step|lia|].
    rewrite dir_bytes_app, dir_bytes_cons, !length_app.
    rewrite length_dirent_bytes by apply He. simpl. lia.
Qed.

Definition is_dots (e : dirent) : Prop := de_name e = str "." ∨ de_name e = str "..".

Lemma only_dots_run es2 : ∀ fuel cur es1,
  cursor_at cur es1 es2 → (length es2 < fuel)%nat →
  ∃ b : bool, InodeDb.only_dots fuel data len cur = Ok b ∧ (b ↔ Forall is_dots es2).
Proof using Hes.
  assert (no_nul (str ".") ∧ no_nul (str "..")) as [Hd Hdd]
    by (split; repeat constructor; done).
  induction es2 as [|e es2 IH]; intros [|fuel] cur es1 [E Hcur] Hf; simpl in Hf; try lia.
  - exists true. cbn [InodeDb.only_dots]. rewrite Hcur. done.
  - assert (InodeDb.only_dots (S fuel) data len cur
      = if bool_decide (has_name (str ".") e) || bool_decide (has_name (str "..") e)
        then InodeDb.only_dots fuel data len (Some (Z.of_nat (length (dir_bytes es1))))
        else Ok false) as ->.
    { cbn [InodeDb.only_dots]. rewrite Hcur.
      unfold mbind at 1 2 3, result_bind at 1 2 3.
      rewrite (name_len_run _ _ _ E), (matches_run _ _ _ _ Hd E).
      destruct (bool_decide (has_name (str ".") e)); [done|].
      unfold mbind at 1, result_bind at 1. by rewrite (matches_run _ _ _ _ Hdd E). }
    destruct (_ || _) eqn:Hdots.
    + destruct (IH fuel (Some (Z.of_nat (length (dir_bytes es1)))) (es1 ++ [e]))
        as (b & Hb & Hiff); [by apply cursor_step|lia|].
      exists b. split; [done|]. rewrite Hiff, Forall_cons.
      apply orb_true_iff in Hdots. rewrite !bool_decide_eq_true in Hdots. naive_solver.
    + exists false. split; [done|]. split; [done|]. rewrite Forall_cons. intros [He _].
      apply orb_false_iff in Hdots. rewrite !bool_decide_eq_false in Hdots.
      unfold is_dots, has_name in *. tauto.
Qed.
End Loops.

(** ** The operations on a directory *)

Section Operations.
Context `{LmdbLaws} `{Machine}.
Implicit Types (t : txn) (id : Z) (es : list dirent).

(** Inode [id] is a directory with the entries [es]. *)
Record dir_at t id (ino : mtl_inode) es : Prop := DirAt {
  da_get : mdb_get (tx_inodes t) id = Some (ino, dir_bytes es);
  da_type : i_type ino = MTL_DIRECTORY;
  da_len : i_length ino = Z.of_nat (length (dir_bytes es));
  da_ok : Forall dirent_ok es;
  da_nodup : NoDup (de_name <$> es);
}.

(** The data of the inode and one more entry fit on the stack, twice: in the array of
    the function that changes them and in that of mtl_put_inode. *)
Definition fits (ino : mtl_inode) : Prop :=
  2 * i_length ino + 640 ≤ stack_limit < 2 ^ 62.

Definition inodes_frame t t' : Prop :=
  tx_heap t' = tx_heap t ∧ tx_extents t' = tx_extents t.

Lemma load_inode_run t id :
  InodeDb.mtl_load_inode id t
  = Ok (match mdb_get (tx_inodes t) id with
        | None => (MTL_ERROR_NOENTRY, None)
        | Some v => (MTL_SUCCESS, Some v)
        end, t).
Proof.
  unfold InodeDb.mtl_load_inode, m_get, mbind, M_bind. by destruct (mdb_get _ _).
Qed.

Lemma vla_run {S} used n (s : S) : used + n ≤ stack_limit → InodeDb.vla used n s = Ok (tt, s).
Proof. intros Hn. unfold InodeDb.vla. by rewrite (proj2 (Z.leb_le _ _)). Qed.

Lemma vla_bind {S A} used n (k : unit → M S A) (s : S) :
  used + n ≤ stack_limit → (u ← InodeDb.vla used n; k u) s = k tt s.
Proof. intros Hn. by rewrite (bind_run _ _ _ _ _ (vla_run used n s Hn)). Qed.

Lemma vla_overflow {S} used n (s : S) :
  stack_limit < used + n → InodeDb.vla used n s = Fault StackOverflow.
Proof. intros Hn. unfold InodeDb.vla. by rewrite (proj2 (Z.leb_gt _ _)). Qed.

Lemma put_inode_run used t id ino data :
  0 ≤ used → used + sizeof_inode + Z.of_nat (length data) ≤ stack_limit < 2 ^ 62 →
  InodeDb.mtl_put_inode used id ino data t
  = Ok (MTL_SUCCESS, set_inodes (mdb_put (tx_inodes t) id (ino, data)) t).
Proof.
  unfold sizeof_inode. intros Hu Hs. unfold InodeDb.mtl_put_inode, sizeof_inode. u64_norm.
  by rewrite vla_bind by lia.
Qed.

Lemma put_inode_bind {A} used t id ino data (k : Z → M txn A) :
  0 ≤ used → used + sizeof_inode + Z.of_nat (length data) ≤ stack_limit < 2 ^ 62 →
  (r ← InodeDb.mtl_put_inode used id ino data; k r) t
  = k MTL_SUCCESS (set_inodes (mdb_put (tx_inodes t) id (ino, data)) t).
Proof. intros Hu Hs. by rewrite (bind_run _ _ _ _ _ (put_inode_run used t id ino data Hu Hs)). Qed.

(** The beginning of every directory operation. *)
Lemma dir_case {A} t id ino es (k : mtl_inode → list Z → M txn A) x :
  dir_at t id ino es →
  ('(_, p) ← InodeDb.mtl_load_inode id;
   '(dir_inode, dir_data) ← c_deref p;
   if negb (bool_decide (i_type dir_inode = MTL_DIRECTORY)) then x
   else k dir_inode dir_data) t = k ino (dir_bytes es) t.
Proof.
  intros [Hg Ht _ _ _]. rewrite (bind_run _ _ _ _ _ (load_inode_run t id)), Hg.
  unfold c_deref, mbind, M_bind, mret, M_ret. by rewrite bool_decide_eq_true_2.
Qed.

Lemma dir_missing {A} t id (k : mtl_inode → list Z → M txn A) :
  mdb_get (tx_inodes t) id = None →
  ('(_, p) ← InodeDb.mtl_load_inode id;
   '(dir_inode, dir_data) ← c_deref p; k dir_inode dir_data) t = Fault NullDeref.
Proof. intros Hg. by rewrite (bind_run _ _ _ _ _ (load_inode_run t id)), Hg. Qed.

Lemma lift_run {S A} (a : A) (s : S) : m_lift (Ok a) s = Ok (a, s).
Proof. done. Qed.

Lemma find_run t id ino es filename :
  dir_at t id ino es → no_nul filename →
  match lookup_name filename es with
  | None => InodeDb.find_entry (InodeDb.dir_fuel (dir_bytes es)) (dir_bytes es)
              (i_length ino) filename None = Ok None
  | Some e => ∃ l1 l2, es = l1 ++ e :: l2 ∧
      InodeDb.find_entry (InodeDb.dir_fuel (dir_bytes es)) (dir_bytes es)
        (i_length ino) filename None = Ok (Some (Z.of_nat (length (dir_bytes l1))))
  end.
Proof.
  intros [Hg Ht Hl Hok _] Hn. rewrite Hl.
  apply (find_entry_run es Hok filename es _ None []); [done| |].
  - by apply cursor_start.
  - by apply dir_fuel_enough.
Qed.

Lemma resolve_in_directory_run t id ino es filename x :
  dir_at t id ino es → no_nul filename →
  InodeDb.mtl_resolve_inode_in_directory id filename x t
  = Ok (match lookup_name filename es with
        | Some e => (MTL_SUCCESS, de_id e)
        | None => (MTL_ERROR_NOENTRY, x)
        end, t).
Proof.
  intros Hd Hn. unfold InodeDb.mtl_resolve_inode_in_directory.
  rewrite (dir_case _ _ _ _ _ _ Hd). pose proof (find_run _ _ _ _ _ Hd Hn) as Hf.
  destruct (lookup_name filename es) as [e|].
  - destruct Hf as (l1 & l2 & E & ->). rewrite (bind_run _ _ _ _ _ (lift_run _ t)).
    by rewrite (inode_id_run es (da_ok _ _ _ _ Hd) _ _ _ E).
  - by rewrite Hf.
Qed.

(** The new entry, with whatever the stack held in the padding. *)
Definition new_dirent (id : Z) (filename : cstr) : dirent :=
  Dirent id InodeDb.head_padding filename.

Lemma new_dirent_ok id filename :
  0 ≤ id < 2 ^ 64 → no_nul filename → (length filename < 256)%nat →
  dirent_ok (new_dirent id filename).
Proof. done. Qed.

Lemma append_run t id ino es filename new_id :
  dir_at t id ino es → fits ino → no_nul filename → (length filename < 256)%nat →
  0 ≤ new_id < 2 ^ 64 →
  ∃ t', InodeDb.mtl_append_inode_id_to_directory id filename new_id t
        = Ok (if decide (filename ∈ (de_name <$> es)) then MTL_ERROR_EXISTS
              else MTL_SUCCESS, t') ∧
    if decide (filename ∈ (de_name <$> es)) then t' = t
    else
      let es' := es ++ [new_dirent new_id filename] in
      let ino' := with_length ino (Z.of_nat (length (dir_bytes es'))) in
      t' = set_inodes (mdb_put (tx_inodes t) id (ino', dir_bytes es')) t ∧
      dir_at t' id ino' es'.
Proof.
  intros Hd Hs Hn Hlen Hid. pose proof (find_run _ _ _ _ _ Hd Hn) as Hf.
  unfold InodeDb.mtl_append_inode_id_to_directory. rewrite (dir_case _ _ _ _ _ _ Hd).
  destruct (decide (filename ∈ (de_name <$> es))) as [Hin|Hin].
  - destruct (lookup_name filename es) as [e|] eqn:Hlk;
      [|by apply lookup_name_None in Hlk].
    destruct Hf as (l1 & l2 & E & ->). exists t. by rewrite (bind_run _ _ _ _ _ (lift_run _ t)).
  - apply lookup_name_None in Hin as Hlk. rewrite Hlk in Hf. rewrite Hf.
    rewrite (bind_run _ _ _ _ _ (lift_run _ t)).
    destruct Hd as [Hg Ht Hl Hok Hnd]. unfold fits in Hs. rewrite Hl in *.
    unfold sizeof_entry_head, strlen. u64_norm.
    rewrite vla_bind by lia.
    rewrite read_bytes_all.
    rewrite (bind_run _ _ _ _ _ (lift_run _ t)).
    set (es' := es ++ [new_dirent new_id filename]).
    assert (dir_bytes es ++ le_bytes 8 new_id ++ le_bytes 1 (Z.of_nat (length filename))
            ++ InodeDb.head_padding ++ filename = dir_bytes es') as Hes'.
    { subst es'. rewrite dir_bytes_app, dir_bytes_cons, app_nil_r. done. }
    rewrite Hes'.
    assert (Z.of_nat (length (dir_bytes es)) + 16 + Z.of_nat (length filename)
            = Z.of_nat (length (dir_bytes es'))) as Hlen'.
    { subst es'. rewrite dir_bytes_app, dir_bytes_cons, app_nil_r, length_app.
      rewrite length_dirent_bytes by done. cbn [new_dirent de_name]. lia. }
    rewrite Hlen'. rewrite put_inode_run by (unfold sizeof_inode; lia).
    eexists. split; [done|]. split; [done|]. split.
    + simpl. by rewrite mdb_get_put_eq.
    + done.
    + done.
    + apply Forall_app. split; [done|]. apply Forall_singleton.
      by apply new_dirent_ok.
    + subst es'. rewrite fmap_app. apply NoDup_app. split; [done|]. split.
      * intros n Hn1 Hn2. simpl in Hn2. apply list_elem_of_singleton in Hn2. by subst.
      * simpl. apply NoDup_singleton.
Qed.

(** *** Removal *)

Definition without (filename : cstr) es : list dirent :=
  filter (λ e, ¬ has_name filename e) es.

Lemma without_split filename l1 e l2 :
  NoDup (de_name <$> l1 ++ e :: l2) → de_name e = filename →
  without filename (l1 ++ e :: l2) = l1 ++ l2 ∧
  ∀ x, foldl (λ i e, if decide (has_name filename e) then de_id e else i) x
         (l1 ++ e :: l2) = de_id e.
Proof.
  intros Hnd He. rewrite fmap_app in Hnd.
  apply NoDup_app in Hnd as (Hnd1 & Hdis & Hnd2). simpl in Hnd2.
  apply NoDup_cons in Hnd2 as [Hnin2 Hnd2].
  assert (∀ l, filename ∉ (de_name <$> l) →
    without filename l = l ∧
    ∀ x, foldl (λ i e, if decide (has_name filename e) then de_id e else i) x l = x)
    as Hnone.
  { induction l as [|e' l IH]; [done|]. simpl. rewrite not_elem_of_cons. intros [Hn1 Hn2].
    destruct (IH Hn2) as [IH1 IH2]. unfold without, has_name in *. split.
    - rewrite filter_cons_True by congruence. by rewrite IH1.
    - intros x. rewrite decide_False by congruence. apply IH2. }
  destruct (Hnone l1) as [H1a H1b].
  { intros Hin. apply (Hdis _ Hin). simpl. rewrite He. by left. }
  destruct (Hnone l2) as [H2a H2b]; [by rewrite <-He|]. unfold without in *. split.
  - rewrite filter_app, filter_cons_False by (unfold has_name; tauto).
    by rewrite H1a, H2a.
  - intros x. rewrite foldl_app, H1b. simpl. rewrite decide_True by done. apply H2b.
Qed.

Lemma length_without filename es e :
  Forall dirent_ok es → NoDup (de_name <$> es) → lookup_name filename es = Some e →
  (length (dir_bytes (without filename es)) + 16 + length filename
   = length (dir_bytes es))%nat.
Proof.
  intros Hok Hnd [Hin He]%lookup_name_Some.
  apply list_elem_of_split in Hin as (l1 & l2 & ->).
  destruct (without_split filename l1 e l2 Hnd He) as [-> _].
  apply Forall_app in Hok as [_ [Hek _]%Forall_cons].
  rewrite !dir_bytes_app, dir_bytes_cons, !length_app.
  rewrite length_dirent_bytes by apply Hek. rewrite He. lia.
Qed.

Lemma remove_run t id ino es filename e x :
  dir_at t id ino es → fits ino → no_nul filename → lookup_name filename es = Some e →
  let es' := without filename es in
  let ino' := with_length ino (Z.of_nat (length (dir_bytes es'))) in
  let t' := set_inodes (mdb_put (tx_inodes t) id (ino', dir_bytes es')) t in
  InodeDb.mtl_remove_entry_from_directory id filename x t
  = Ok ((MTL_SUCCESS, de_id e), t') ∧ dir_at t' id ino' es'.
Proof.
  intros Hd Hs Hn Hlk es' ino' t'. pose proof Hd as [Hg Ht Hl Hok Hnd].
  pose proof (length_without _ _ _ Hok Hnd Hlk) as Hlen. fold es' in Hlen.
  unfold fits in Hs. rewrite Hl in Hs. split.
  - unfold InodeDb.mtl_remove_entry_from_directory. rewrite (dir_case _ _ _ _ _ _ Hd).
    rewrite Hl. unfold strlen, sizeof_entry_head. u64_norm.
    replace (Z.of_nat (length (dir_bytes es)) - (16 + Z.of_nat (length filename)))
      with (Z.of_nat (length (dir_bytes es'))) by lia.
    rewrite vla_bind by lia.
    change (@nil Z) with (dir_bytes []).
    rewrite (remove_loop_run es Hok filename _ es _ None [] []); try done; try lia.
    2: by apply cursor_start.
    2: by apply dir_fuel_enough.
    rewrite (bind_run _ _ _ _ _ (lift_run _ t)).
    fold (without filename es). fold es'.
    rewrite Nat2Z.id, Nat.sub_diag. simpl seq. rewrite fmap_nil, app_nil_r.
    rewrite put_inode_bind by (unfold sizeof_inode; lia).
    unfold mret, M_ret. do 3 f_equal.
    apply lookup_name_Some in Hlk as [Hin He].
    apply list_elem_of_split in Hin as (l1 & l2 & E).
    rewrite E in Hnd |- *. by destruct (without_split filename l1 e l2 Hnd He).
  - split.
    + simpl. by rewrite mdb_get_put_eq.
    + done.
    + done.
    + apply Forall_forall. intros d [_ Hd']%list_elem_of_filter.
      by apply (proj1 (Forall_forall _ _) Hok).
    + refine (sublist_NoDup _ _ Hnd _). apply fmap_sublist, sublist_filter.
Qed.

Lemma remove_absent t id ino es filename x :
  dir_at t id ino es → fits ino → no_nul filename → lookup_name filename es = None →
  16 + strlen filename ≤ i_length ino →
  InodeDb.mtl_remove_entry_from_directory id filename x t = Ok ((MTL_ERROR_NOENTRY, x), t).
Proof.
  intros Hd Hs Hn Hlk Hfit. pose proof Hd as [Hg Ht Hl Hok Hnd].
  unfold fits in Hs. rewrite Hl in Hs, Hfit. unfold strlen in Hfit.
  unfold InodeDb.mtl_remove_entry_from_directory. rewrite (dir_case _ _ _ _ _ _ Hd).
  rewrite Hl. unfold strlen, sizeof_entry_head. u64_norm. rewrite vla_bind by lia.
  change (@nil Z) with (dir_bytes []).
  rewrite (remove_loop_absent es Hok filename _ es _ None []); try done; try lia.
  - by apply cursor_start.
  - by apply dir_fuel_enough.
  - simpl. lia.
Qed.

(** The size of the copy is computed before the entry is looked for. *)
Lemma remove_underflow t id ino es filename x :
  dir_at t id ino es → fits ino → strlen filename < 2 ^ 62 →
  i_length ino < 16 + strlen filename →
  InodeDb.mtl_remove_entry_from_directory id filename x t = Fault StackOverflow.
Proof.
  intros Hd Hs Hn Hlt. pose proof Hd as [Hg Ht Hl Hok Hnd]. unfold fits in Hs.
  unfold InodeDb.mtl_remove_entry_from_directory. rewrite (dir_case _ _ _ _ _ _ Hd).
  unfold sizeof_entry_head.
  assert (i_length ino -ᵤ (16 + strlen filename)
          = i_length ino - (16 + strlen filename) + 2 ^ 64) as ->.
  { unfold u64, wrap. rewrite <-(Z.mod_add _ 1) by lia. apply Z.mod_small. unfold strlen in *. lia. }
  apply bind_fault, vla_overflow. unfold strlen in *. lia.
Qed.

(** *** Removing a directory *)

Lemma delete_inode_run t id :
  ∃ t', InodeDb.mtl_delete_inode id t = Ok (MTL_SUCCESS, t') ∧ inodes_frame t t' ∧
    tx_meta t' = tx_meta t ∧
    ∀ id', mdb_get (tx_inodes t') id'
           = if decide (id = id') then None else mdb_get (tx_inodes t) id'.
Proof.
  unfold InodeDb.mtl_delete_inode, m_get, m_put, mbind, M_bind.
  destruct (mdb_del (tx_inodes t) id) as [d|] eqn:Hd.
  - exists (set_inodes d t). repeat (split; [done|]). intros id'.
    destruct (mdb_del_Some_inv _ _ _ Hd) as [_ Hget]. simpl. rewrite Hget.
    by repeat case_decide.
  - exists t. repeat (split; [done|]). intros id'. case_decide; [subst|done].
    destruct (mdb_get (tx_inodes t) id') as [v|] eqn:Hg; [|done].
    destruct (mdb_del_found _ _ _ Hg) as (d' & ? & _). congruence.
Qed.

Lemma remove_directory_run t id ino es :
  dir_at t id ino es →
  (¬ Forall is_dots es ∧ InodeDb.mtl_remove_directory id t = Ok (MTL_ERROR_NOTEMPTY, t)) ∨
  (Forall is_dots es ∧ ∃ t', InodeDb.mtl_remove_directory id t = Ok (MTL_SUCCESS, t') ∧
    inodes_frame t t' ∧ tx_meta t' = tx_meta t ∧
    ∀ id', mdb_get (tx_inodes t') id'
           = if decide (id = id') then None else mdb_get (tx_inodes t) id').
Proof.
  intros Hd. pose proof Hd as [Hg Ht Hl Hok Hnd].
  unfold InodeDb.mtl_remove_directory, InodeDb.mtl_load_directory.
  rewrite (dir_case _ _ _ _ _ _ Hd).
  destruct (only_dots_run es Hok es (InodeDb.dir_fuel (dir_bytes es)) None [])
    as (b & Hb & Hiff); [by apply cursor_start|by apply dir_fuel_enough|].
  rewrite Hl, Hb. rewrite (bind_run _ _ _ _ _ (lift_run _ t)). destruct b; simpl.
  - right. split; [by apply Hiff|]. apply delete_inode_run.
  - left. split; [|done]. intros Hall. by apply Hiff in Hall.
Qed.
End Operations.
End Dir.
