(* ===== verification/Path.v ===== *)
(** * Paths: dirname and basename

    [dirname] and [basename] of libgen.h as glibc implements them, which is
    what metal.c walks its paths with. *)
From S2P Require Import Prelude.

Definition slash : Z := 47.

Fixpoint drop_while (p : Z → bool) (l : list Z) : list Z :=
  match l with
  | [] => []
  | c :: l' => if p c then drop_while p l' else l
  end.

Fixpoint take_while (p : Z → bool) (l : list Z) : list Z :=
  match l with
  | [] => []
  | c :: l' => if p c then c :: take_while p l' else []
  end.

Definition is_slash (c : Z) : bool := c =? slash.
Definition not_slash (c : Z) : bool := negb (c =? slash).

(** Without its trailing slashes, but for a string of slashes only. *)
Definition strip_trailing (r : list Z) : list Z :=
  match drop_while is_slash r with [] => r | r' => r' end.

Definition basename (path : cstr) : cstr :=
  match path with
  | [] => str "."
  | _ =>
      match drop_while is_slash (reverse path) with
      | [] => str "/"
      | r => reverse (take_while not_slash r)
      end
  end.

Definition dirname (path : cstr) : cstr :=
  match drop_while not_slash (strip_trailing (reverse path)) with
  | [] => str "."
  | _ :: before =>
      match drop_while is_slash before with
      | [] => if Nat.eqb (length before) 1 then str "//" else str "/"
      | r => reverse r
      end
  end.

Example dirname_examples :
  dirname <$> [str "/a/b"; str "/a"; str "/"; str "a"; str "."; str "//a"; str "//";
               str "/a/b/"; str "a/"; str "///"; str "/a//b"; str ""]
  = [str "/a"; str "/"; str "/"; str "."; str "."; str "//"; str "//";
     str "/a"; str "."; str "/"; str "/a"; str "."].
Proof. vm_compute. reflexivity. Qed.

Example basename_examples :
  basename <$> [str "/a/b"; str "/a"; str "/"; str "a"; str "/a/b/"; str "//"; str ""]
  = [str "b"; str "a"; str "/"; str "a"; str "b"; str "/"; str "."].
Proof. vm_compute. reflexivity. Qed.

(** ** Canonical absolute paths

    A path is a list of components; the root is the empty list. *)

Record comp_ok (c : cstr) : Prop := CompOk {
  co_nonempty : c ≠ [];
  co_slash : Forall (λ x, x ≠ slash) c;
}.

Definition path_of (cs : list cstr) : cstr := cs ≫= λ c, slash :: c.

Definition abs_path (cs : list cstr) : cstr :=
  match cs with [] => str "/" | _ => path_of cs end.

Lemma drop_while_app_stop p l1 x l2 :
  Forall (λ c, p c = true) l1 → p x = false → drop_while p (l1 ++ x :: l2) = x :: l2.
Proof.
  intros Hl Hx. induction Hl as [|c l1 Hc Hl IH]; cbn [app drop_while];
    [by rewrite Hx | by rewrite Hc].
Qed.

Lemma take_while_app_stop p l1 x l2 :
  Forall (λ c, p c = true) l1 → p x = false → take_while p (l1 ++ x :: l2) = l1.
Proof.
  intros Hl Hx. induction Hl as [|c l1 Hc Hl IH]; cbn [app take_while];
    [by rewrite Hx | rewrite Hc; by f_equal].
Qed.

(** The reverse of a component begins with something else than a slash. *)
Lemma drop_slash_comp c l :
  comp_ok c → drop_while is_slash (reverse c ++ l) = reverse c ++ l.
Proof.
  intros [Hne Hs]. destruct (reverse c) as [|x r] eqn:E.
  - apply (f_equal reverse) in E. rewrite reverse_involutive in E. done.
  - cbn [app drop_while]. unfold is_slash. rewrite (proj2 (Z.eqb_neq _ _)); [done|].
    apply (proj1 (Forall_forall _ _) Hs). apply elem_of_reverse. rewrite E. by left.
Qed.

Lemma not_slash_comp c : comp_ok c → Forall (λ x, not_slash x = true) (reverse c).
Proof.
  intros [_ Hs]. apply Forall_reverse. eapply Forall_impl; [done|].
  intros x Hx. unfold not_slash. by rewrite (proj2 (Z.eqb_neq _ _)).
Qed.

Lemma path_of_snoc cs c : path_of (cs ++ [c]) = path_of cs ++ slash :: c.
Proof. unfold path_of. rewrite bind_app. simpl. by rewrite app_nil_r. Qed.

Lemma abs_path_snoc cs c : abs_path (cs ++ [c]) = path_of cs ++ slash :: c.
Proof. rewrite <-path_of_snoc. by destruct cs. Qed.

Lemma reverse_snoc_path cs c :
  reverse (abs_path (cs ++ [c])) = reverse c ++ slash :: reverse (path_of cs).
Proof. rewrite abs_path_snoc, reverse_app, reverse_cons, <-app_assoc. done. Qed.

Lemma basename_abs_path cs c : comp_ok c → basename (abs_path (cs ++ [c])) = c.
Proof.
  intros Hc. unfold basename. rewrite reverse_snoc_path, drop_slash_comp by done.
  destruct (abs_path (cs ++ [c])) eqn:Ea.
  { rewrite abs_path_snoc in Ea. by destruct (path_of cs). }
  destruct (reverse c ++ slash :: reverse (path_of cs)) as [|x r] eqn:E;
    [by destruct (reverse c)|]. rewrite <-E.
  rewrite take_while_app_stop by (done || by apply not_slash_comp).
  by rewrite reverse_involutive.
Qed.

Lemma dirname_abs_path cs c :
  comp_ok c → Forall comp_ok cs → dirname (abs_path (cs ++ [c])) = abs_path cs.
Proof.
  intros Hc Hcs. unfold dirname, strip_trailing.
  rewrite reverse_snoc_path, drop_slash_comp by done.
  destruct (reverse c ++ slash :: reverse (path_of cs)) as [|x r] eqn:E;
    [by destruct (reverse c)|]. rewrite <-E.
  rewrite drop_while_app_stop by (done || by apply not_slash_comp).
  destruct cs as [|c' cs' _] using rev_ind; [done|].
  apply Forall_app in Hcs as [_ [Hc' _]%Forall_cons].
  rewrite path_of_snoc, reverse_app, reverse_cons, <-app_assoc, drop_slash_comp by done.
  destruct (reverse c' ++ _) eqn:E2; [by destruct (reverse c')|]. rewrite <-E2.
  rewrite abs_path_snoc, reverse_app, reverse_app, !reverse_involutive.
  rewrite <-app_assoc. done.
Qed.

Lemma abs_path_root cs c : comp_ok c → abs_path (cs ++ [c]) ≠ str "/".
Proof.
  intros [Hne Hs] E. rewrite abs_path_snoc in E. apply (f_equal length) in E as El.
  rewrite length_app in El. simpl in El. destruct c; [done|]. simpl in El. lia.
Qed.

Lemma comp_not_root c : comp_ok c → c ≠ str "/".
Proof. intros [_ Hs] ->. apply Forall_cons in Hs as [Hs _]. by apply Hs. Qed.

(** A path has fewer components than bytes. *)
Lemma length_path_of cs : (length cs ≤ length (path_of cs))%nat.
Proof.
  induction cs as [|c cs IH]; [done|]. unfold path_of in *. cbn [mbind list_bind].
  rewrite length_app. simpl. lia.
Qed.

Lemma length_abs_path cs : (length cs ≤ length (abs_path cs))%nat.
Proof. destruct cs; [simpl; lia|]. apply length_path_of. Qed.
