(* ===== verification/Metal.v ===== *)
(** * The file system's interface (metal.c)

    Every function of metal.h as a computation over the world: the LMDB
    environment, the metadata of the context and the state of the storage
    backend. A write transaction is begun, worked on and committed or aborted
    exactly where the code does it, so that a path that forgets to end its
    transaction leaves the writer lock taken. *)
From S2P Require Import Prelude Lmdb Structs Extent Dirent Inode Path.

(** storage.h: the operations of a backend with state [B]. [st_write] and
    [st_read] call back into the metadata ([mtl_load_extent_list]), so they see
    the environment; [st_read] gives the bytes copied to the buffer. *)
Record mtl_storage_backend `{Lmdb} (B : Type) := StorageBackend {
  st_initialize : M B Z;
  st_deinitialize : M B Z;
  st_get_metadata : M B (Z * mtl_storage_metadata);
  st_write : mdb_env txn → (* inode_id offset *) Z → Z → (* buffer *) list Z →
             (* length *) Z → M B Z;
  st_read : mdb_env txn → (* inode_id offset length *) Z → Z → Z → M B (Z * list Z);
}.
Arguments st_initialize {_ B}.
Arguments st_deinitialize {_ B}.
Arguments st_get_metadata {_ B}.
Arguments st_write {_ B}.
Arguments st_read {_ B}.

Module Metal.
Section Metal.
Context `{Lmdb} `{Machine} {B : Type} (storage : mtl_storage_backend B).

(** [mtl_context]; [storage] is the section's. *)
Record world := World {
  w_env : mdb_env txn;
  w_metadata : mtl_storage_metadata;
  w_store : B;
}.

Definition set_env (e : mdb_env txn) (w : world) : world :=
  World e (w_metadata w) (w_store w).

(** *** Transactions *)

Definition txn_begin : M world txn :=
  w ← m_get;
  match mdb_txn_begin (w_env w) with
  | None => m_fault WouldBlock
  | Some (t, e) => _ ← m_put (set_env e w); mret t
  end.

Definition txn_begin_rdonly : M world txn :=
  w ← m_get; mret (mdb_txn_begin_rdonly (w_env w)).

Definition txn_commit (t : txn) : M world unit :=
  m_modify (λ w, set_env (mdb_txn_commit (w_env w) t) w).

Definition txn_abort : M world unit :=
  m_modify (λ w, set_env (mdb_txn_abort (w_env w)) w).

(** A statement that works on the transaction [t]. *)
Definition in_txn {A} (t : txn) (m : M txn A) : M world (A * txn) := m_lift (m t).

Definition on_store {A} (m : M B A) : M world A := λ w,
  match m (w_store w) with
  | Ok (a, b) => Ok (a, World (w_env w) (w_metadata w) b)
  | Fault f => Fault f
  end.

(** *** Life cycle *)

(** [opened]: what [mdb_env_open] gives, [None] for [MDB_INVALID]; [b]: the
    storage. The context is returned on success. *)
Definition mtl_initialize (now : Z) (opened : option (mdb_env txn)) (b : B) :
    result (Z * option world) :=
  '(res, b) ← st_initialize storage b;
  if negb (res =? MTL_SUCCESS) then mret (MTL_ERROR_INVALID_ARGUMENT, None)
  else
    match opened with
    | None => mret (MTL_ERROR_INVALID_ARGUMENT, None)
    | Some env =>
        match mdb_txn_begin env with
        | None => Fault WouldBlock
        | Some (t, env) =>
            '(_, t) ← InodeDb.mtl_create_root_directory now t;
            '((_, metadata), b) ← st_get_metadata storage b;
            '(_, t) ← ExtentDb.mtl_initialize_extents (num_blocks metadata) t;
            mret (MTL_SUCCESS, Some (World (mdb_txn_commit env t) metadata b))
        end
    end.

Definition mtl_deinitialize : M world Z :=
  _ ← on_store (st_deinitialize storage);
  mret MTL_SUCCESS.

(** *** Path resolution *)

(** Each recursive call is on the directory of the path. *)
Fixpoint mtl_resolve_inode (fuel : nat) (path : cstr) (inode_id : Z) : M txn (Z * Z) :=
  match fuel with
  | O => m_fault OutOfFuel
  | S fuel' =>
      let dir := dirname path in
      let base := basename path in
      '(res, dir_inode_id) ←
        (if decide (dir = str "/") then mret (MTL_SUCCESS, 0)
         else mtl_resolve_inode fuel' dir (uninit "mtl_resolve_inode.dir_inode_id"));
      if negb (res =? MTL_SUCCESS) then mret (res, inode_id)
      else if decide (base = str "/") then mret (MTL_SUCCESS, 0)
      else InodeDb.mtl_resolve_inode_in_directory dir_inode_id base inode_id
  end.

(** A path has fewer components than bytes. *)
Definition path_fuel (path : cstr) : nat := S (length path).

Definition mtl_resolve_parent_dir_inode (path : cstr) (inode_id : Z) : M txn (Z * Z) :=
  let dir := dirname path in
  if decide (dir = str "/") then mret (MTL_SUCCESS, 0)
  else mtl_resolve_inode (path_fuel dir) dir inode_id.

(** *** Reading the metadata *)

Definition mtl_get_inode (path : cstr) : M world (Z * option mtl_inode) :=
  t ← txn_begin_rdonly;
  '((res, inode_id), t) ←
    in_txn t (mtl_resolve_inode (path_fuel path) path (uninit "mtl_get_inode.inode_id"));
  if negb (res =? MTL_SUCCESS) then mret (res, None)
  else
    '((res, db_inode), _) ← in_txn t (InodeDb.mtl_load_inode inode_id);
    mret (res, fst <$> db_inode).

(** The second component is [*inode_id]. *)
Definition mtl_open (filename : cstr) : M world (Z * Z) :=
  t ← txn_begin_rdonly;
  '((res, id), _) ←
    in_txn t (mtl_resolve_inode (path_fuel filename) filename (uninit "mtl_open.id"));
  mret (res, id).

(** [mtl_dir] with the copy of the entries it points into; [dir_next] is the
    offset of the next entry, [None] for null. *)
Record mtl_dir := MtlDir {
  dir_length : Z;
  dir_data : list Z;
  dir_next : option Z;
}.

(** The result of the path resolution is overwritten. *)
Definition mtl_opendir (filename : cstr) : M world (Z * mtl_dir) :=
  t ← txn_begin_rdonly;
  '((_, inode_id), t) ←
    in_txn t (mtl_resolve_inode (path_fuel filename) filename
                (uninit "mtl_opendir.inode_id"));
  '((res, p), _) ← in_txn t (InodeDb.mtl_load_directory inode_id);
  '(dir_inode, dir_entries) ← c_deref p;
  data ← m_lift (read_bytes dir_entries 0 (i_length dir_inode));
  mret (res, MtlDir (i_length dir_inode) data (Some 0)).

(** [strncpy(buffer, s, n)]: up to the terminator, then zeros. *)
Fixpoint strncpy (n : nat) (s : list Z) : list Z :=
  match n, s with
  | O, _ => []
  | S n', [] => 0 :: strncpy n' []
  | S n', c :: s' => if c =? 0 then repeat 0 n else c :: strncpy n' s'
  end.

(** Bytes stored at the beginning of a buffer. *)
Definition store_prefix (buffer l : list Z) : result (list Z) :=
  if (length l <=? length buffer)%nat then Ok (l ++ drop (length l) buffer)
  else Fault OutOfBounds.

Definition mtl_readdir (dir : mtl_dir) (buffer : list Z) (size : Z) :
    result (Z * list Z * mtl_dir) :=
  match dir_next dir with
  | Some next =>
      name_len ← entry_name_len (dir_data dir) next;
      let n := if size <? name_len then size else name_len in
      name ← read_bytes (dir_data dir) (next + sizeof_entry_head) n;
      let copied := strncpy (Z.to_nat n) name in
      buffer ← store_prefix buffer
                 (if name_len <? size then copied ++ [0] else copied);
      let after := next + sizeof_entry_head + name_len in
      let next := if dir_length dir <? after + sizeof_entry_head
                  then None else Some after in
      mret (MTL_SUCCESS, buffer, MtlDir (dir_length dir) (dir_data dir) next)
  | None => mret (MTL_COMPLETE, buffer, dir)
  end.

Definition mtl_closedir (dir : mtl_dir) : Z := MTL_SUCCESS.

(** [None]: the result parameters are not written. *)
Definition load_extent_list (env : mdb_env txn) (inode_id : Z) :
    result (Z * option (list mtl_file_extent * Z)) :=
  '((res, p, n), _) ← InodeDb.mtl_load_file inode_id (mdb_txn_begin_rdonly env);
  if negb (res =? MTL_SUCCESS) then mret (res, None)
  else if MTL_MAX_EXTENTS <? n then mret (MTL_ERROR_INVALID_ARGUMENT, None)
  else
    match p with
    | None => Fault NullDeref
    | Some (inode, data) =>
        mret (MTL_SUCCESS, Some (read_extents (Z.to_nat n) data, i_length inode))
    end.

Definition mtl_load_extent_list (inode_id : Z) :
    M world (Z * option (list mtl_file_extent * Z)) :=
  w ← m_get; m_lift (load_extent_list (w_env w) inode_id).

(** *** Changing the directory tree *)

Definition mtl_mkdir (now : Z) (filename : cstr) (mode : Z) : M world Z :=
  t ← txn_begin;
  '((res, parent_dir_inode_id), t) ←
    in_txn t (mtl_resolve_parent_dir_inode filename
                (uninit "mtl_mkdir.parent_dir_inode_id"));
  if negb (res =? MTL_SUCCESS) then _ ← txn_abort; mret res
  else
    let base := basename filename in
    '((res, _), t) ← in_txn t (InodeDb.mtl_create_directory_in_directory now
                                 parent_dir_inode_id base mode);
    if negb (res =? MTL_SUCCESS) then _ ← txn_abort; mret res
    else _ ← txn_commit t; mret MTL_SUCCESS.

Definition mtl_rmdir (filename : cstr) : M world Z :=
  t ← txn_begin;
  '((res, parent_dir_inode_id), t) ←
    in_txn t (mtl_resolve_parent_dir_inode filename
                (uninit "mtl_rmdir.parent_dir_inode_id"));
  if negb (res =? MTL_SUCCESS) then _ ← txn_abort; mret res
  else
    let base := basename filename in
    '((res, inode_id), t) ←
      in_txn t (InodeDb.mtl_remove_entry_from_directory parent_dir_inode_id base
                  (uninit "mtl_rmdir.inode_id"));
    if negb (res =? MTL_SUCCESS) then _ ← txn_abort; mret res
    else
      '(res, t) ← in_txn t (InodeDb.mtl_remove_directory inode_id);
      if negb (res =? MTL_SUCCESS) then _ ← txn_abort; mret res
      else _ ← txn_commit t; mret MTL_SUCCESS.

Definition with_owner (i : mtl_inode) (uid gid : Z) : mtl_inode :=
  Inode (i_type i) (i_length i) uid (if 0 <=? gid then gid else i_group i)
        (i_accessed i) (i_modified i) (i_created i) (i_mode i).

(** [gid] is an [int]. *)
Definition mtl_chown (path : cstr) (uid gid : Z) : M world Z :=
  t ← txn_begin;
  '((res, inode_id), t) ←
    in_txn t (mtl_resolve_inode (path_fuel path) path (uninit "mtl_chown.inode_id"));
  if negb (res =? MTL_SUCCESS) then _ ← txn_abort; mret (- res)
  else
    '((res, p), t) ← in_txn t (InodeDb.mtl_load_inode inode_id);
    if negb (res =? MTL_SUCCESS) then _ ← txn_abort; mret (- res)
    else
      '(old_inode, data) ← c_deref p;
      '(res, t) ← in_txn t (InodeDb.mtl_put_inode 0 inode_id
                              (with_owner old_inode uid gid) data);
      _ ← txn_commit t;
      mret res.

Definition mtl_rename (from_filename to_filename : cstr) : M world Z :=
  t ← txn_begin;
  '((res, from_parent), t) ←
    in_txn t (mtl_resolve_parent_dir_inode from_filename
                (uninit "mtl_rename.from_parent_dir_inode_id"));
  if negb (res =? MTL_SUCCESS) then _ ← txn_abort; mret res
  else
    '((res, to_parent), t) ←
      in_txn t (mtl_resolve_parent_dir_inode to_filename
                  (uninit "mtl_rename.to_parent_dir_inode_id"));
    if negb (res =? MTL_SUCCESS) then _ ← txn_abort; mret res
    else
      let from_base := basename from_filename in
      let to_base := basename to_filename in
      '((res, inode_id), t) ←
        in_txn t (InodeDb.mtl_remove_entry_from_directory from_parent from_base
                    (uninit "mtl_rename.inode_id"));
      if negb (res =? MTL_SUCCESS) then _ ← txn_abort; mret res
      else
        '(res, t) ← in_txn t (InodeDb.mtl_append_inode_id_to_directory to_parent
                                to_base inode_id);
        if negb (res =? MTL_SUCCESS) then _ ← txn_abort; mret res
        else _ ← txn_commit t; mret MTL_SUCCESS.

(** The second component is [*inode_id]: written on success only. *)
Definition mtl_create (now : Z) (filename : cstr) (mode : Z) : M world (Z * option Z) :=
  t ← txn_begin;
  '((res, parent_dir_inode_id), t) ←
    in_txn t (mtl_resolve_parent_dir_inode filename
                (uninit "mtl_create.parent_dir_inode_id"));
  if negb (res =? MTL_SUCCESS) then _ ← txn_abort; mret (res, None)
  else
    let base := basename filename in
    '((res, file_inode_id), t) ←
      in_txn t (InodeDb.mtl_create_file_in_directory now parent_dir_inode_id base mode);
    if negb (res =? MTL_SUCCESS) then _ ← txn_abort; mret (res, None)
    else _ ← txn_commit t; mret (MTL_SUCCESS, Some file_inode_id).
End Metal.
End Metal.
