(* ===== verification/File.v ===== *)
(** * File contents (metal.c)

    [mtl_expand_inode], [mtl_write], [mtl_read], [mtl_truncate] and
    [mtl_unlink]: the operations that allocate and free extents. *)
From S2P Require Import Prelude Lmdb Structs Extent Dirent Inode Path Metal.

Module File.
Section File.
Context `{Lmdb} `{Machine}.
Import Metal.

(** Integer division as the machine does it. *)
Definition c_div {S} (a b : Z) : M S Z :=
  if b =? 0 then m_fault DivByZero else mret (a / b).

(** The number of blocks that [bytes] bytes take. *)
Definition blocks_of {S} (bytes block_size : Z) : M S Z :=
  blocks ← c_div bytes block_size;
  mret (if negb (bytes mod block_size =? 0) then blocks +ᵤ 1 else blocks).

(** The loop of [mtl_expand_inode]. Each round reserves at least one block,
    or the assertion fails, so the missing blocks bound the rounds. *)
Fixpoint expand_loop (fuel : nat) (block_size inode_id write_end_bytes write_end_blocks : Z)
    (current_inode_length_blocks : Z) (last_extent : mtl_file_extent) : M txn unit :=
  if negb (current_inode_length_blocks <? write_end_blocks) then mret tt
  else
    match fuel with
    | O => m_fault OutOfFuel
    | S fuel' =>
        '(reserved, offset) ←
          ExtentDb.mtl_reserve_extent (write_end_blocks -ᵤ current_inode_length_blocks)
            (if negb (fe_length last_extent =? 0) then Some last_extent else None)
            (uninit "mtl_expand_inode.new_extent.offset") true;
        let new_extent := FileExtent offset reserved in
        let current := current_inode_length_blocks +ᵤ reserved in
        _ ← c_assert (negb (fe_length new_extent =? 0));
        let new_length :=
          if current *ᵤ block_size <? write_end_bytes
          then current *ᵤ block_size else write_end_bytes in
        if negb (fe_length last_extent =? 0) && (fe_offset last_extent =? fe_offset new_extent)
        then
          let last_extent := FileExtent (fe_offset last_extent)
                               (fe_length last_extent +ᵤ fe_length new_extent) in
          _ ← InodeDb.mtl_extend_last_extent_in_file inode_id last_extent new_length;
          expand_loop fuel' block_size inode_id write_end_bytes write_end_blocks
            current last_extent
        else
          _ ← InodeDb.mtl_add_extent_to_file inode_id new_extent new_length;
          expand_loop fuel' block_size inode_id write_end_bytes write_end_blocks
            current new_extent
    end.

Definition total_blocks (extents : list mtl_file_extent) : Z :=
  foldl (λ n x, n +ᵤ fe_length x) 0 extents.

Definition mtl_expand_inode (block_size inode_id : Z) (extents : list mtl_file_extent)
    (size : Z) : M txn Z :=
  let write_end_bytes := size in
  write_end_blocks ← blocks_of write_end_bytes block_size;
  let current_inode_length_blocks := total_blocks extents in
  let last_extent := default (FileExtent 0 0) (last extents) in
  _ ← expand_loop (Z.to_nat (write_end_blocks - current_inode_length_blocks))
        block_size inode_id write_end_bytes write_end_blocks
        current_inode_length_blocks last_extent;
  mret MTL_SUCCESS.

(** The extents a loaded file gives access to; none when nothing was loaded. *)
Definition loaded_extents (p : option (mtl_inode * list Z)) (extents_length : Z) :
    list mtl_file_extent :=
  match p with
  | None => []
  | Some (_, data) => read_extents (Z.to_nat extents_length) data
  end.

(** *** mtl_truncate *)

(** The extents through the pointer once the record has been replaced. *)
Definition reread_extents (t : txn) (inode_id : Z) (t' : txn) (n : Z) :
    list mtl_file_extent :=
  match mdb_get (tx_inodes t') inode_id with
  | None => []
  | Some v => read_extents (Z.to_nat n)
                (snd (mdb_read_after_put (tx_inodes t) inode_id v))
  end.

(** The loop over the extents, from extent [i] on: [n] extents, seen as
    [extents]. Freeing an extent changes other databases only; the pointer into the
    record of the inode is taken to lead to it still (see [free_extents]). *)
Fixpoint truncate_loop (fuel : nat) (block_size inode_id offset n : Z)
    (i previous_extent_end : Z) (extents : list mtl_file_extent) : M txn unit :=
  match fuel with
  | O => mret tt
  | S fuel' =>
      match extents !! Z.to_nat i with
      | None => m_fault OutOfBounds
      | Some x =>
          let extent_end := previous_extent_end +ᵤ (fe_length x *ᵤ block_size) in
          extents ←
            (if offset <? previous_extent_end then
               _ ← ExtentDb.mtl_free_extent (fe_offset x); mret extents
             else if offset <? extent_end then
               let new_extent_length_bytes := offset -ᵤ previous_extent_end in
               new_blocks ← blocks_of new_extent_length_bytes block_size;
               if negb (new_blocks =? 0) then
                 _ ← ExtentDb.mtl_truncate_extent (fe_offset x) new_blocks;
                 t ← m_get;
                 _ ← InodeDb.mtl_truncate_file_extents inode_id offset (i +ᵤ 1)
                       (Some new_blocks);
                 t' ← m_get;
                 mret (reread_extents t inode_id t' n)
               else
                 _ ← ExtentDb.mtl_free_extent (fe_offset x);
                 t ← m_get;
                 _ ← InodeDb.mtl_truncate_file_extents inode_id offset i None;
                 t' ← m_get;
                 mret (reread_extents t inode_id t' n)
             else mret extents);
          truncate_loop fuel' block_size inode_id offset n (i + 1) extent_end extents
      end
  end.

Definition truncate_txn (block_size inode_id offset : Z) : M txn Z :=
  '(_, p, extents_length) ← InodeDb.mtl_load_file inode_id;
  '(inode, data) ← c_deref p;
  let extents := read_extents (Z.to_nat extents_length) data in
  if i_length inode <=? offset then
    mtl_expand_inode block_size inode_id extents offset
  else
    _ ← truncate_loop (Z.to_nat extents_length) block_size inode_id offset
          extents_length 0 0 extents;
    mret MTL_SUCCESS.

(** *** The functions of the interface *)

Context {B : Type} (storage : mtl_storage_backend B).
Abbreviation world := (world (B := B)).

Definition mtl_write (inode_id : Z) (buffer : list Z) (size offset : Z) : M world Z :=
  t ← txn_begin;
  w ← m_get;
  '((_, p, extents_length), t) ← in_txn t (InodeDb.mtl_load_file inode_id);
  '(res, t) ← in_txn t (mtl_expand_inode (block_size (w_metadata w)) inode_id
                          (loaded_extents p extents_length) (offset +ᵤ size));
  if negb (res =? MTL_SUCCESS) then _ ← txn_abort; mret res
  else
    _ ← txn_commit t;
    w ← m_get;
    _ ← on_store (st_write storage (w_env w) inode_id offset buffer size);
    mret MTL_SUCCESS.

(** How much can be read: lines 513-517. *)
Definition read_length (file_length size offset : Z) : Z :=
  if file_length <? offset then 0
  else if file_length <? offset +ᵤ size then size -ᵤ (offset +ᵤ size -ᵤ file_length)
  else size.

(** The number of bytes read and the buffer. *)
Definition mtl_read (inode_id : Z) (buffer : list Z) (size offset : Z) :
    M world (Z * list Z) :=
  t ← txn_begin_rdonly;
  '((_, p, _), _) ← in_txn t (InodeDb.mtl_load_file inode_id);
  '(inode, _) ← c_deref p;
  let read_len := read_length (i_length inode) size offset in
  if 0 <? read_len then
    w ← m_get;
    '(_, bytes) ← on_store (st_read storage (w_env w) inode_id offset read_len);
    buffer ← m_lift (store_prefix buffer bytes);
    mret (read_len, buffer)
  else mret (read_len, buffer).

Definition mtl_truncate (inode_id offset : Z) : M world Z :=
  t ← txn_begin;
  w ← m_get;
  '(res, t) ← in_txn t (truncate_txn (block_size (w_metadata w)) inode_id offset);
  if negb (res =? MTL_SUCCESS) then _ ← txn_abort; mret res
  else _ ← txn_commit t; mret MTL_SUCCESS.

(** The extents are those that mtl_load_file gave. The source reads each of them through
    the pointer into the record, also after the updates that freeing those before it
    made; that the pointer still leads to the record then is an assumption of the model
    which the documentation of LMDB does not promise. *)
Fixpoint free_extents (extents : list mtl_file_extent) : M txn unit :=
  match extents with
  | [] => mret tt
  | x :: extents' =>
      _ ← ExtentDb.mtl_free_extent (fe_offset x); free_extents extents'
  end.

(** Neither the resolution of the parent nor the removal of the entry is
    checked, and the early return leaves the transaction open. *)
Definition mtl_unlink (filename : cstr) : M world Z :=
  t ← txn_begin;
  let base := basename filename in
  '((_, parent_dir_inode_id), t) ←
    in_txn t (mtl_resolve_parent_dir_inode filename
                (uninit "mtl_unlink.parent_dir_inode_id"));
  '((_, inode_id), t) ←
    in_txn t (InodeDb.mtl_remove_entry_from_directory parent_dir_inode_id base
                (uninit "mtl_unlink.inode_id"));
  '((res, p, extents_length), t) ← in_txn t (InodeDb.mtl_load_file inode_id);
  if res =? MTL_ERROR_NOENTRY then mret res
  else
    '(_, t) ← in_txn t (free_extents (loaded_extents p extents_length));
    '(_, t) ← in_txn t (InodeDb.mtl_delete_inode inode_id);
    _ ← txn_commit t;
    mret MTL_SUCCESS.
End File.
End File.
