(* ===== verification/Storage.v ===== *)
(** * The in-memory storage backend (storage_in_memory.c)

    The reference backend: one buffer of blocks, reached through the extent
    list of the file. The buffer is a function from byte addresses. *)
From S2P Require Import Prelude Tiling Lmdb Structs Dirent Inode Metal.

Module Storage.
Section Storage.
Context `{Lmdb} `{Machine}.

Definition NUM_BLOCKS : Z := 128 * 256.
Definition BLOCK_SIZE : Z := 4096.

(** [_storage], null or a buffer; [_extents] and [_extents_length] persist
    between calls. *)
Record store := Store {
  st_buffer : option (Z → Z);
  st_extents : list mtl_file_extent;
}.

(** What [malloc] returns holds anything. *)
Context (malloc : Z → Z).

Definition mtl_storage_initialize : M store Z :=
  _ ← m_modify (λ s, Store (Some malloc) (st_extents s)); mret MTL_SUCCESS.

Definition mtl_storage_deinitialize : M store Z :=
  _ ← m_modify (λ s, Store None (st_extents s)); mret MTL_SUCCESS.

Definition mtl_storage_get_metadata : M store (Z * mtl_storage_metadata) :=
  mret (MTL_SUCCESS, StorageMetadata NUM_BLOCKS BLOCK_SIZE).

(** The inner loop: the extent that holds [current_offset], and where it
    starts in the file. *)
Fixpoint seek_extent (fuel : nat) (extents : list mtl_file_extent) (current_offset : Z)
    (current_extent current_extent_offset : Z) : result (Z * Z * mtl_file_extent) :=
  match fuel with
  | O => Fault OutOfFuel
  | S fuel' =>
      match extents !! Z.to_nat current_extent with
      | None => Fault OutOfBounds
      | Some x =>
          if current_extent_offset +ᵤ (fe_length x *ᵤ BLOCK_SIZE) <=? current_offset then
            let current_extent_offset :=
              current_extent_offset +ᵤ (fe_length x *ᵤ BLOCK_SIZE) in
            let current_extent := current_extent + 1 in
            if current_extent <? Z.of_nat (length extents)
            then seek_extent fuel' extents current_offset current_extent
                   current_extent_offset
            else Fault AssertFail
          else mret (current_extent, current_extent_offset, x)
      end
  end.

(** The pieces the outer loop copies: offset in the file, address in the
    buffer, number of bytes. *)
Fixpoint segments (fuel : nat) (extents : list mtl_file_extent)
    (current_offset length_left : Z) (current_extent current_extent_offset : Z) :
    result (list (Z * Z * Z)) :=
  if length_left <=? 0 then mret []
  else
    match fuel with
    | O => Fault OutOfFuel
    | S fuel' =>
        '(current_extent, current_extent_offset, x) ←
          seek_extent (S (length extents)) extents current_offset
            current_extent current_extent_offset;
        let pos := current_offset -ᵤ current_extent_offset in
        let len := (fe_length x *ᵤ BLOCK_SIZE) -ᵤ pos in
        let len := if length_left <? len then length_left else len in
        rest ← segments fuel' extents (current_offset +ᵤ len) (length_left -ᵤ len)
                 current_extent current_extent_offset;
        mret ((current_offset, (fe_offset x *ᵤ BLOCK_SIZE) +ᵤ pos, len) :: rest)
    end.

(** [memcpy] into the buffer and out of it. *)
Definition mem_write (m : Z → Z) (addr : Z) (bytes : list Z) : Z → Z := λ a,
  if (addr <=? a) && (a <? addr + Z.of_nat (length bytes))
  then nth (Z.to_nat (a - addr)) bytes 0 else m a.

Definition mem_read (m : Z → Z) (addr n : Z) : list Z :=
  (λ i, m (addr + Z.of_nat i)) <$> seq 0 (Z.to_nat n).

Definition in_buffer (addr n : Z) : bool :=
  (0 <=? addr) && (addr + n <=? NUM_BLOCKS * BLOCK_SIZE).

Fixpoint write_segments (m : Z → Z) (buffer : list Z) (offset : Z)
    (segs : list (Z * Z * Z)) : result (Z → Z) :=
  match segs with
  | [] => mret m
  | (o, addr, n) :: segs' =>
      if in_buffer addr n then
        bytes ← read_bytes buffer (o - offset) n;
        write_segments (mem_write m addr bytes) buffer offset segs'
      else Fault OutOfBounds
  end.

Fixpoint read_segments (m : Z → Z) (segs : list (Z * Z * Z)) : result (list Z) :=
  match segs with
  | [] => mret []
  | (_, addr, n) :: segs' =>
      if in_buffer addr n then
        rest ← read_segments m segs'; mret (mem_read m addr n ++ rest)
      else Fault OutOfBounds
  end.

(** The list is allocated anew before it is loaded; when the file cannot be
    loaded, the old length goes with uninitialised entries. *)
Definition stale_extents (s : store) : list mtl_file_extent :=
  repeat (FileExtent (uninit "_extents.offset") (uninit "_extents.length"))
         (length (st_extents s)).

(** The beginning of both: allocate the buffer if need be, check the range,
    obtain the extent list. *)
Definition prepare (env : mdb_env txn) (inode_id offset len : Z) :
    M store (Z → Z) :=
  _ ← m_modify (λ s, match st_buffer s with
                     | None => Store (Some malloc) (st_extents s)
                     | Some _ => s
                     end);
  _ ← c_assert (offset +ᵤ len <? NUM_BLOCKS * BLOCK_SIZE);
  '(_, p) ← m_lift (Metal.load_extent_list env inode_id);
  _ ← m_modify (λ s, match p with
                     | None => Store (st_buffer s) (stale_extents s)
                     | Some (extents, _) => Store (st_buffer s) extents
                     end);
  s ← m_get;
  c_deref (st_buffer s).

Definition mtl_storage_write (env : mdb_env txn) (inode_id offset : Z)
    (buffer : list Z) (len : Z) : M store Z :=
  m ← prepare env inode_id offset len;
  s ← m_get;
  segs ← m_lift (segments (S (length (st_extents s))) (st_extents s) offset len 0 0);
  m ← m_lift (write_segments m buffer offset segs);
  _ ← m_put (Store (Some m) (st_extents s));
  mret MTL_SUCCESS.

Definition mtl_storage_read (env : mdb_env txn) (inode_id offset len : Z) :
    M store (Z * list Z) :=
  m ← prepare env inode_id offset len;
  s ← m_get;
  segs ← m_lift (segments (S (length (st_extents s))) (st_extents s) offset len 0 0);
  bytes ← m_lift (read_segments m segs);
  mret (MTL_SUCCESS, bytes).

Definition in_memory_storage : mtl_storage_backend store := {|
  st_initialize := mtl_storage_initialize;
  st_deinitialize := mtl_storage_deinitialize;
  st_get_metadata := mtl_storage_get_metadata;
  st_write := mtl_storage_write;
  st_read := mtl_storage_read;
|}.
End Storage.
End Storage.
