(* ===== verification/Namespace.v ===== *)
(** * The namespace: paths, creation, removal, transactions

    What the functions of metal.c that work on the directory tree do, stated on
    the decoded directories ([InodeProofs.Dir]): the resolution of a path is a
    walk through the tree, a failed operation leaves the committed tree as it
    was, and no operation but [mtl_unlink] keeps the writer lock. *)
From S2P Require Import Prelude Lmdb Structs Extent AllocProofs Dirent Inode InodeProofs Path Metal File Storage.

Module Ns.
Import Dir Metal.

(** ** Transactions *)

Section Transactions.
Context `{LmdbLaws} {B : Type}.
Abbreviation world := (world (B := B)).
Implicit Types w : world.

Definition committed w : txn := mdb_committed (w_env w).
Definition locked w : bool := mdb_writer (w_env w).

(** What no operation on the metadata changes. *)
Definition same_backend w w' : Prop :=
  w_metadata w' = w_metadata w ∧ w_store w' = w_store w.

Lemma begin_bind w :
  locked w = false →
  ∃ w1, committed w1 = committed w ∧ locked w1 = true ∧ same_backend w w1 ∧
    txn_begin w = Ok (committed w, w1).
Proof.
  intros Hl. destruct (mdb_begin_ok _ Hl) as (e & Hb & Hc & Hw).
  exists (set_env e w). unfold committed, locked. simpl. repeat split; try done.
  unfold txn_begin, m_get, m_put, mbind, M_bind. by rewrite Hb.
Qed.

Lemma begin_blocks w : locked w = true → txn_begin w = Fault WouldBlock.
Proof.
  intros Hl. unfold txn_begin, m_get, mbind, M_bind.
  by rewrite (mdb_begin_blocks _ Hl).
Qed.

Lemma begin_inv w t w1 :
  txn_begin w = Ok (t, w1) →
  t = committed w ∧ committed w1 = committed w ∧ same_backend w w1.
Proof.
  intros Hb. destruct (locked w) eqn:Hl; [by rewrite begin_blocks in Hb|].
  destruct (begin_bind w Hl) as (w2 & ? & ? & ? & Hb'). rewrite Hb' in Hb.
  by simplify_eq.
Qed.

Lemma rdonly_run w : txn_begin_rdonly w = Ok (committed w, w).
Proof.
  unfold txn_begin_rdonly, m_get, mbind, M_bind. by rewrite mdb_rdonly.
Qed.

Lemma in_txn_run {A} (m : M txn A) t a t' w :
  m t = Ok (a, t') → in_txn t m w = Ok ((a, t'), w).
Proof. unfold in_txn, m_lift. by intros ->. Qed.

Lemma in_txn_inv {A} (m : M txn A) t a t' w w' :
  in_txn t m w = Ok ((a, t'), w') → w' = w ∧ m t = Ok (a, t').
Proof. unfold in_txn, m_lift. destruct (m t) as [[]|]; naive_solver. Qed.

Lemma abort_run w :
  ∃ w', txn_abort w = Ok (tt, w') ∧ committed w' = committed w ∧
    locked w' = false ∧ same_backend w w'.
Proof.
  eexists. split; [done|]. unfold committed, locked. simpl.
  by rewrite mdb_abort_committed, mdb_abort_writer.
Qed.

Lemma commit_run t w :
  ∃ w', txn_commit t w = Ok (tt, w') ∧ committed w' = t ∧
    locked w' = false ∧ same_backend w w'.
Proof.
  eexists. split; [done|]. unfold committed, locked. simpl.
  by rewrite mdb_commit_committed, mdb_commit_writer.
Qed.

(** The two ways an operation ends its transaction. *)
Lemma abort_end {A} (a : A) w r w' :
  (_ ← txn_abort; mret a) w = Ok (r, w') →
  r = a ∧ committed w' = committed w ∧ locked w' = false ∧ same_backend w w'.
Proof.
  destruct (abort_run w) as (w1 & Hr & ?). rewrite (bind_run _ _ _ _ _ Hr).
  intros [= <- <-]. done.
Qed.

Lemma commit_end {A} (a : A) t w r w' :
  (_ ← txn_commit t; mret a) w = Ok (r, w') →
  r = a ∧ committed w' = t ∧ locked w' = false ∧ same_backend w w'.
Proof.
  destruct (commit_run t w) as (w1 & Hr & ?). rewrite (bind_run _ _ _ _ _ Hr).
  intros [= <- <-]. done.
Qed.
End Transactions.
(** ** Path resolution is a walk through the tree *)

Section Resolution.
Context `{LmdbLaws} `{Machine}.
Implicit Types (t : txn) (c : cstr) (cs : list cstr) (d id : Z).

Inductive outcome := Found (id : Z) | Failed (code : Z).

Definition outcome_code (o : outcome) : Z :=
  match o with Found _ => MTL_SUCCESS | Failed code => code end.

(** Where the components lead, seen on the decoded directories. *)
Inductive walk t : list cstr → outcome → Prop :=
  | walk_root : walk t [] (Found 0)
  | walk_entry cs c d ino es e :
      walk t cs (Found d) → dir_at t d ino es → lookup_name c es = Some e →
      walk t (cs ++ [c]) (Found (de_id e))
  | walk_missing cs c d ino es :
      walk t cs (Found d) → dir_at t d ino es → lookup_name c es = None →
      walk t (cs ++ [c]) (Failed MTL_ERROR_NOENTRY)
  | walk_file cs c d ino data :
      walk t cs (Found d) → mdb_get (tx_inodes t) d = Some (ino, data) →
      i_type ino = MTL_FILE →
      walk t (cs ++ [c]) (Failed MTL_ERROR_NOTDIRECTORY)
  | walk_failed cs c code :
      walk t cs (Failed code) → code ≠ MTL_SUCCESS →
      walk t (cs ++ [c]) (Failed code).

(** A component is looked up: it holds no slash and no terminator. *)
Record name_ok c : Prop := NameOk {
  no_comp : comp_ok c;
  no_zero : no_nul c;
}.

Lemma names_comp cs : Forall name_ok cs → Forall comp_ok cs.
Proof. intros Hcs. eapply Forall_impl; [done|]. by intros c []. Qed.

Lemma walk_code t cs code : walk t cs (Failed code) → code ≠ MTL_SUCCESS.
Proof. by inversion 1. Qed.

Lemma resolve_file_run t d ino data c x :
  mdb_get (tx_inodes t) d = Some (ino, data) → i_type ino = MTL_FILE →
  InodeDb.mtl_resolve_inode_in_directory d c x t = Ok ((MTL_ERROR_NOTDIRECTORY, x), t).
Proof.
  intros Hg Ht. unfold InodeDb.mtl_resolve_inode_in_directory.
  rewrite (bind_run _ _ _ _ _ (load_inode_run t d)), Hg.
  unfold c_deref, mbind, M_bind, mret, M_ret. by rewrite Ht.
Qed.

(** One level of the recursion, on a path with a last component. *)
Lemma resolve_snoc fuel cs c x t r :
  comp_ok c → Forall comp_ok cs → (cs = [] → r = (MTL_SUCCESS, 0)) →
  (cs ≠ [] → ∀ y, ∃ z, mtl_resolve_inode fuel (abs_path cs) y t = Ok ((fst r, z), t) ∧
                       (fst r = MTL_SUCCESS → z = snd r)) →
  mtl_resolve_inode (S fuel) (abs_path (cs ++ [c])) x t
  = if fst r =? MTL_SUCCESS then InodeDb.mtl_resolve_inode_in_directory (snd r) c x t
    else Ok ((fst r, x), t).
Proof.
  intros Hc Hcs Hroot Hrec. cbn [mtl_resolve_inode].
  rewrite dirname_abs_path, basename_abs_path by done.
  destruct cs as [|c1 cs1].
  - rewrite decide_True by done. rewrite (Hroot eq_refl).
    rewrite (bind_run _ _ _ _ _ (ret_run _ t)).
    cbn [negb Z.eqb MTL_SUCCESS fst snd].
    rewrite decide_False by by apply comp_not_root. done.
  - rewrite decide_False.
    2: { destruct (@exists_last _ (c1 :: cs1)) as (cs2 & c2 & E); [done|].
         rewrite E in Hcs |- *. apply Forall_app in Hcs as [_ [? _]%Forall_cons].
         by apply abs_path_root. }
    destruct (Hrec ltac:(done) (uninit "mtl_resolve_inode.dir_inode_id")) as (z & Hz & Hzr).
    rewrite (bind_run _ _ _ _ _ Hz). destruct (Z.eqb_spec (fst r) MTL_SUCCESS) as [E|E].
    + rewrite E, (Hzr E). cbn [negb Z.eqb MTL_SUCCESS].
      rewrite decide_False by by apply comp_not_root. done.
    + done.
Qed.

Lemma resolve_walk_run t cs o :
  walk t cs o → Forall name_ok cs →
  ∀ fuel x, (length cs < fuel)%nat →
  ∃ id, mtl_resolve_inode fuel (abs_path cs) x t = Ok ((outcome_code o, id), t) ∧
    ∀ i, o = Found i → id = i.
Proof.
  assert (∀ cs c o,
    Forall name_ok (cs ++ [c]) →
    walk t cs o →
    (Forall name_ok cs → ∀ fuel x, (length cs < fuel)%nat →
      ∃ id, mtl_resolve_inode fuel (abs_path cs) x t = Ok ((outcome_code o, id), t) ∧
        ∀ i, o = Found i → id = i) →
    ∀ fuel x, (length (cs ++ [c]) < fuel)%nat →
    mtl_resolve_inode fuel (abs_path (cs ++ [c])) x t
    = match o with
      | Found d => InodeDb.mtl_resolve_inode_in_directory d c x t
      | Failed code => Ok ((code, x), t)
      end) as Hstep.
  { intros cs0 c o0 [Hcs [Hc _]%Forall_cons]%Forall_app Hw IH fuel x Hf.
    rewrite length_app in Hf. simpl in Hf. destruct fuel as [|fuel]; [lia|].
    rewrite (resolve_snoc fuel cs0 c x t
      (outcome_code o0, match o0 with Found d => d | Failed _ => 0 end)).
    - destruct o0 as [d|code]; cbn [outcome_code fst snd]; [done|].
      apply walk_code in Hw. by rewrite (proj2 (Z.eqb_neq _ _)).
    - by destruct Hc.
    - by apply names_comp.
    - intros ->. inversion Hw as [E| | | |]; subst; try done;
        by match goal with E : _ ++ [_] = [] |- _ => apply app_nil in E as [_ ?] end.
    - intros _ y. destruct (IH Hcs fuel y) as (id & Hr & Hi); [lia|].
      exists id. split; [done|]. destruct o0; [|intros E; by apply walk_code in Hw].
      intros _. by apply Hi. }
  induction 1 as [|cs c d ino es e Hw IH Hd Hlk|cs c d ino es Hw IH Hd Hlk
                 |cs c d ino data Hw IH Hg Ht|cs c code Hw IH Hne];
    intros Hcs fuel x Hf.
  - destruct fuel as [|fuel]; [simpl in Hf; lia|]. exists 0. split; [done|]. naive_solver.
  - rewrite (Hstep cs c (Found d)) by done.
    apply Forall_app in Hcs as [_ [[_ Hz] _]%Forall_cons].
    rewrite (resolve_in_directory_run _ _ _ _ _ _ Hd Hz), Hlk.
    exists (de_id e). split; [done|]. naive_solver.
  - rewrite (Hstep cs c (Found d)) by done.
    apply Forall_app in Hcs as [_ [[_ Hz] _]%Forall_cons].
    rewrite (resolve_in_directory_run _ _ _ _ _ _ Hd Hz), Hlk. by exists x.
  - rewrite (Hstep cs c (Found d)) by done.
    rewrite (resolve_file_run _ _ _ _ _ _ Hg Ht). by exists x.
  - rewrite (Hstep cs c (Failed code)) by done. by exists x.
Qed.
End Resolution.
(** ** Well-formed trees *)

Section Trees.
Context `{LmdbLaws} `{Machine}.
Implicit Types (t : txn) (c : cstr) (cs : list cstr) (d id : Z).

(** The inode number given out next. *)
Definition next_id t : Z := default 1 (mdb_get (tx_meta t) next_inode_id_key).

Definition is_inode t id : Prop := is_Some (mdb_get (tx_inodes t) id).

(** Every directory decodes and its entries lead to inodes, the root is a
    directory, and no inode has a number that is still to be given out. *)
Record tree_ok t : Prop := TreeOk {
  tk_root : ∃ ino es, dir_at t 0 ino es;
  tk_dir : ∀ id ino data, mdb_get (tx_inodes t) id = Some (ino, data) →
    i_type ino = MTL_DIRECTORY →
    ∃ es, dir_at t id ino es ∧ Forall (λ e, is_inode t (de_id e)) es;
  tk_ids : ∀ id, is_inode t id → 0 ≤ id < next_id t;
}.

Lemma dir_at_inj t d ino1 ino2 es1 es2 :
  dir_at t d ino1 es1 → dir_at t d ino2 es2 → ino1 = ino2 ∧ es1 = es2.
Proof.
  intros [Hg1 _ _ Ho1 _] [Hg2 _ _ Ho2 _]. rewrite Hg1 in Hg2.
  injection Hg2 as <- E. split; [done|]. by apply dir_bytes_inj.
Qed.

Lemma dir_at_frame t t' d ino es :
  mdb_get (tx_inodes t') d = mdb_get (tx_inodes t) d → dir_at t d ino es → dir_at t' d ino es.
Proof. intros E [Hg ????]. split; try done. by rewrite E. Qed.

Lemma tree_entries t d ino es :
  tree_ok t → dir_at t d ino es → Forall (λ e, is_inode t (de_id e)) es.
Proof.
  intros Hok Hd. destruct (tk_dir t Hok d ino _ (da_get _ _ _ _ Hd) (da_type _ _ _ _ Hd))
    as (es' & Hd' & Hall). by destruct (dir_at_inj _ _ _ _ _ _ Hd Hd') as [_ ->].
Qed.

Lemma walk_total t cs :
  tree_ok t →
  ∃ o, walk t cs o ∧ match o with Found i => is_inode t i | Failed code => code ≠ MTL_SUCCESS end.
Proof.
  intros Hok. induction cs as [|c cs (o & Hw & Ho)] using rev_ind.
  - exists (Found 0). split; [constructor|]. destruct (tk_root t Hok) as (ino & es & Hd).
    eexists. apply Hd.
  - destruct o as [d|code].
    + destruct Ho as [[ino data] Hg]. destruct (i_type ino) eqn:Ht.
      * exists (Failed MTL_ERROR_NOTDIRECTORY). split; [|done]. by eapply walk_file.
      * destruct (tk_dir t Hok _ _ _ Hg Ht) as (es & Hd & Hall).
        destruct (lookup_name c es) as [e|] eqn:Hlk.
        -- exists (Found (de_id e)). split; [by eapply walk_entry|].
           apply lookup_name_Some in Hlk as [Hin _].
           by apply (proj1 (Forall_forall _ _) Hall).
        -- exists (Failed MTL_ERROR_NOENTRY). split; [by eapply walk_missing|done].
    + exists (Failed code). split; [by apply walk_failed|done].
Qed.

Lemma walk_found_inode t cs id : tree_ok t → walk t cs (Found id) → is_inode t id.
Proof.
  intros Hok Hw. inversion Hw as [|cs' c d ino es e Hw' Hd Hlk| | |]; subst.
  - destruct (tk_root t Hok) as (ino & es & Hd). eexists. apply Hd.
  - pose proof (tree_entries _ _ _ _ Hok Hd) as Hall.
    apply lookup_name_Some in Hlk as [Hin _]. by apply (proj1 (Forall_forall _ _) Hall).
Qed.

(** *** Growing trees *)

(** Every directory keeps the entries it has. *)
Definition grows t t' : Prop := ∀ d ino es, dir_at t d ino es →
  ∃ ino' es', dir_at t' d ino' es' ∧
    ∀ c e, lookup_name c es = Some e → lookup_name c es' = Some e.

Lemma walk_grows t t' cs id : grows t t' → walk t cs (Found id) → walk t' cs (Found id).
Proof.
  intros Hg Hw. remember (Found id) as o eqn:E. revert id E.
  induction Hw as [|cs c d ino es e Hw IH Hd Hlk| | |]; intros id E; simplify_eq.
  - constructor.
  - destruct (Hg _ _ _ Hd) as (ino' & es' & Hd' & Hk).
    eapply walk_entry; [by apply (IH d)|done|by apply Hk].
Qed.

Lemma lookup_name_app c es1 es2 :
  lookup_name c (es1 ++ es2)
  = match lookup_name c es1 with Some e => Some e | None => lookup_name c es2 end.
Proof. induction es1 as [|e es1 IH]; simpl; [done|]. by case_decide. Qed.

Lemma next_id_run t :
  0 ≤ next_id t < 2 ^ 64 - 1 →
  ∃ t', InodeDb.mtl_next_inode_id t = Ok (next_id t, t') ∧
    next_id t' = next_id t + 1 ∧ inodes_frame t t' ∧ tx_inodes t' = tx_inodes t.
Proof.
  intros Hr. unfold next_id in Hr.
  exists (set_meta (mdb_put (tx_meta t) next_inode_id_key (next_id t + 1)) t).
  unfold InodeDb.mtl_next_inode_id, InodeDb.mtl_next_id, m_get, m_put, mbind, M_bind, mret, M_ret.
  unfold next_id. simpl. rewrite mdb_get_put_eq.
  destruct (mdb_get (tx_meta t) next_inode_id_key) as [v|]; simpl in *; u64_norm;
    (split; [do 2 f_equal; lia | done]).
Qed.

(** A directory [d] got an entry [c] that leads to the new inode [id]. *)
Record extended t t' d (ino : mtl_inode) es c id (v : mtl_inode * list Z) : Prop := Extended {
  xt_dir : dir_at t' d (with_length ino (Z.of_nat (length (dir_bytes (es ++ [new_dirent id c])))))
             (es ++ [new_dirent id c]);
  xt_new : mdb_get (tx_inodes t') id = Some v;
  xt_other : ∀ i, i ≠ d → i ≠ id → mdb_get (tx_inodes t') i = mdb_get (tx_inodes t) i;
  xt_next : next_id t' = next_id t + 1;
}.

Lemma extended_grows t t' d ino es c v :
  tree_ok t → dir_at t d ino es → extended t t' d ino es c (next_id t) v → grows t t'.
Proof.
  intros Hok Hd Hx i ino2 es2 Hi. destruct (decide (i = d)) as [->|Hne].
  - destruct (dir_at_inj _ _ _ _ _ _ Hd Hi) as [<- <-].
    do 2 eexists. split; [apply (xt_dir _ _ _ _ _ _ _ _ Hx)|].
    intros c' e Hlk. by rewrite lookup_name_app, Hlk.
  - exists ino2, es2. split; [|done]. eapply dir_at_frame; [|done].
    apply (xt_other _ _ _ _ _ _ _ _ Hx); [done|]. intros ->.
    pose proof (tk_ids t Hok (next_id t)) as Hids. destruct Hids; [|lia].
    eexists. apply Hi.
Qed.

Lemma extended_is_inode t t' d ino es c id v i :
  extended t t' d ino es c id v → is_inode t i → is_inode t' i.
Proof.
  intros [Hd Hn Ho _] Hi. unfold is_inode.
  destruct (decide (i = d)) as [->|]; [eexists; apply Hd|].
  destruct (decide (i = id)) as [->|]; [by rewrite Hn|]. by rewrite Ho.
Qed.

Lemma extended_tree_ok t t' d ino es c v :
  tree_ok t → dir_at t d ino es → extended t t' d ino es c (next_id t) v →
  (i_type (fst v) = MTL_DIRECTORY →
   ∃ es', dir_at t' (next_id t) (fst v) es' ∧ Forall (λ e, is_inode t' (de_id e)) es') →
  tree_ok t'.
Proof.
  intros Hok Hd Hx Hv. pose proof (extended_grows _ _ _ _ _ _ _ Hok Hd Hx) as Hgr.
  split.
  - destruct (tk_root t Hok) as (ino0 & es0 & Hd0).
    destruct (Hgr _ _ _ Hd0) as (ino' & es' & Hd' & _). eauto.
  - intros i ino' data Hg Ht. destruct (decide (i = d)) as [->|Hne].
    + pose proof (xt_dir _ _ _ _ _ _ _ _ Hx) as Hd'. pose proof (da_get _ _ _ _ Hd') as Hg'.
      rewrite Hg in Hg'. injection Hg' as -> ->. eexists. split; [done|].
      apply Forall_app. split.
      * eapply Forall_impl; [by apply (tree_entries t d ino es)|].
        intros e. by eapply extended_is_inode.
      * apply Forall_singleton. simpl. eexists. apply (xt_new _ _ _ _ _ _ _ _ Hx).
    + destruct (decide (i = next_id t)) as [->|Hne'].
      * rewrite (xt_new _ _ _ _ _ _ _ _ Hx) in Hg. injection Hg as ->. by apply Hv.
      * rewrite (xt_other _ _ _ _ _ _ _ _ Hx) in Hg by done.
        destruct (tk_dir t Hok _ _ _ Hg Ht) as (es' & Hd' & Hall).
        exists es'. split.
        -- eapply dir_at_frame; [|done]. by apply (xt_other _ _ _ _ _ _ _ _ Hx).
        -- eapply Forall_impl; [done|]. intros e. by eapply extended_is_inode.
  - intros i Hi. rewrite (xt_next _ _ _ _ _ _ _ _ Hx).
    destruct (decide (i = d)) as [->|Hne].
    { pose proof (tk_ids t Hok d) as Hids. destruct Hids; [eexists; apply Hd|lia]. }
    destruct (decide (i = next_id t)) as [->|Hne'].
    { destruct (tk_ids t Hok d); [eexists; apply Hd|lia]. }
    unfold is_inode in Hi. rewrite (xt_other _ _ _ _ _ _ _ _ Hx) in Hi by done.
    pose proof (tk_ids t Hok i Hi). lia.
Qed.
End Trees.
(** ** Creating files and directories *)

Section Creation.
Context `{LmdbLaws} `{Machine}.
Implicit Types (t : txn) (c : cstr) (cs : list cstr) (d id : Z).

Lemma resolve_run t cs o x :
  walk t cs o → Forall name_ok cs →
  ∃ id, mtl_resolve_inode (path_fuel (abs_path cs)) (abs_path cs) x t
        = Ok ((outcome_code o, id), t) ∧ ∀ i, o = Found i → id = i.
Proof.
  intros Hw Hcs. apply resolve_walk_run; [done..|].
  unfold path_fuel. pose proof (length_abs_path cs). lia.
Qed.

Lemma resolve_parent_run t cs c o x :
  walk t cs o → Forall name_ok cs → comp_ok c →
  ∃ id, mtl_resolve_parent_dir_inode (abs_path (cs ++ [c])) x t
        = Ok ((outcome_code o, id), t) ∧ ∀ i, o = Found i → id = i.
Proof.
  intros Hw Hcs Hc. unfold mtl_resolve_parent_dir_inode.
  rewrite dirname_abs_path by (done || by apply names_comp).
  case_decide as E; [|by apply resolve_run].
  destruct cs as [|c1 cs1 _] using rev_ind.
  - exists 0. inversion Hw as [Eo| | | |]; subst;
      [split; [done|naive_solver] | by match goal with E : _ ++ [_] = [] |- _ =>
        apply app_nil in E as [_ ?] end..].
  - apply Forall_app in Hcs as [_ [[Hc1 _] _]%Forall_cons].
    by apply abs_path_root in E.
Qed.

(** The name fits the one byte of its length. *)
Definition short_name c : Prop := name_ok c ∧ (length c < 256)%nat.

(** What both kinds of creation begin with. *)
Lemma create_begin t d ino es c :
  tree_ok t → dir_at t d ino es → fits ino → short_name c → next_id t < 2 ^ 64 - 1 →
  ∃ t1, InodeDb.mtl_next_inode_id t = Ok (next_id t, t1) ∧
    if decide (c ∈ (de_name <$> es))
    then InodeDb.mtl_append_inode_id_to_directory d c (next_id t) t1
         = Ok (MTL_ERROR_EXISTS, t1)
    else ∃ t2, InodeDb.mtl_append_inode_id_to_directory d c (next_id t) t1
         = Ok (MTL_SUCCESS, t2) ∧
      dir_at t2 d (with_length ino (Z.of_nat (length (dir_bytes (es ++ [new_dirent (next_id t) c])))))
        (es ++ [new_dirent (next_id t) c]) ∧
      (∀ i, i ≠ d → mdb_get (tx_inodes t2) i = mdb_get (tx_inodes t) i) ∧
      next_id t2 = next_id t + 1 ∧ d ≠ next_id t ∧ inodes_frame t t2.
Proof.
  intros Hok Hd Hf [[Hc Hz] Hl] Hn.
  assert (0 ≤ d < next_id t) as Hdr by (apply (tk_ids t Hok); eexists; apply Hd).
  destruct (next_id_run t) as (t1 & Hr & Hn1 & Hfr & Hi1); [lia|].
  exists t1. split; [done|].
  assert (dir_at t1 d ino es) as Hd1 by (eapply dir_at_frame; [|done]; by rewrite Hi1).
  destruct (append_run t1 d ino es c (next_id t) Hd1) as (t2 & Ha & Hrest); try done; [lia|].
  destruct (decide (c ∈ de_name <$> es)) as [Hin|Hin].
  - by rewrite Hrest in Ha.
  - destruct Hrest as [Ht2 Hd2]. exists t2. split; [done|]. split; [done|]. split.
    + intros i Hi. by rewrite Ht2; simpl; rewrite mdb_get_put_ne, Hi1.
    + rewrite Ht2. split; [done|]. split; [lia|done].
Qed.
Definition new_file (now mode : Z) : mtl_inode * list Z :=
  (InodeDb.fresh_inode MTL_FILE now (Z.lor mode S_IFREG), []).

Lemma create_file_run t d ino es c now mode :
  tree_ok t → dir_at t d ino es → fits ino → short_name c → next_id t < 2 ^ 64 - 1 →
  ∃ t', InodeDb.mtl_create_file_in_directory now d c mode t
        = Ok ((if decide (c ∈ (de_name <$> es)) then MTL_ERROR_EXISTS else MTL_SUCCESS,
               next_id t), t') ∧
    inodes_frame t t' ∧
    (c ∉ (de_name <$> es) → extended t t' d ino es c (next_id t) (new_file now mode)).
Proof.
  intros Hok Hd Hf Hc Hn.
  destruct (create_begin _ _ _ _ _ Hok Hd Hf Hc Hn) as (t1 & Hr & Hrest).
  unfold InodeDb.mtl_create_file_in_directory. run_step Hr.
  destruct (next_id_run t) as (t1' & Hr' & _ & Hfr & _).
  { destruct (tk_ids t Hok d); [eexists; apply Hd|lia]. }
  rewrite Hr in Hr'. injection Hr' as <-.
  destruct (decide (c ∈ _)) as [Hin|Hin].
  - run_step Hrest. cbn. by exists t1.
  - destruct Hrest as (t2 & Ha & Hd2 & Ho & Hn2 & Hne & Hfr2). run_step Ha.
    cbn [negb Z.eqb MTL_SUCCESS]. rewrite put_inode_bind; [|done|].
    2: { unfold fits in Hf. pose proof (da_len _ _ _ _ Hd). unfold sizeof_inode. simpl. lia. }
    eexists. split; [done|]. split; [done|]. intros _. split.
    + eapply dir_at_frame; [|done]. simpl. by rewrite mdb_get_put_ne.
    + simpl. by rewrite mdb_get_put_eq.
    + intros i Hi1 Hi2. simpl. rewrite mdb_get_put_ne by done. by apply Ho.
    + done.
Qed.

Definition new_dir_entries (d id : Z) : list dirent :=
  [new_dirent id (str "."); new_dirent d (str "..")].

Definition new_directory (now mode d id : Z) : mtl_inode * list Z :=
  (with_length (InodeDb.fresh_inode MTL_DIRECTORY now (Z.lor mode S_IFDIR)) 35,
   dir_bytes (new_dir_entries d id)).

(** The two entries a directory is created with. *)
Lemma append_dots t id d ino :
  mdb_get (tx_inodes t) id = Some (ino, []) → i_type ino = MTL_DIRECTORY → i_length ino = 0 →
  1024 ≤ stack_limit < 2 ^ 62 → 0 ≤ id < 2 ^ 64 → 0 ≤ d < 2 ^ 64 →
  ∃ t1 t2, InodeDb.mtl_append_inode_id_to_directory id (str ".") id t = Ok (MTL_SUCCESS, t1) ∧
    InodeDb.mtl_append_inode_id_to_directory id (str "..") d t1 = Ok (MTL_SUCCESS, t2) ∧
    t2 = set_inodes (mdb_put (tx_inodes t1) id (with_length ino 35, dir_bytes (new_dir_entries d id))) t1 ∧
    (∃ v1, t1 = set_inodes (mdb_put (tx_inodes t) id v1) t) ∧
    dir_at t2 id (with_length ino 35) (new_dir_entries d id).
Proof.
  intros Hg Ht Hl Hs Hid Hd.
  assert (dir_at t id ino []) as Hd0 by (split; [done|done|by rewrite Hl|done|constructor]).
  destruct (append_run t id ino [] (str ".") id Hd0) as (t1 & Ha1 & E1 & Hd1);
    [unfold fits; lia|repeat constructor; done|simpl; lia|done|].
  destruct (append_run t1 id _ _ (str "..") d Hd1) as (t2 & Ha2 & Hrest);
    [unfold fits; simpl; lia|repeat constructor; done|simpl; lia|done|].
  destruct (decide (str ".." ∈ _)) as [Hin|_];
    [by apply list_elem_of_singleton in Hin|].
  destruct Hrest as [E2 Hd2]. exists t1, t2. split; [done|]. split; [done|].
  split; [exact E2|]. split; [by eexists|]. exact Hd2.
Qed.

Lemma create_directory_run t d ino es c now mode :
  tree_ok t → dir_at t d ino es → fits ino → short_name c → next_id t < 2 ^ 64 - 1 →
  1024 ≤ stack_limit →
  ∃ t', InodeDb.mtl_create_directory_in_directory now d c mode t
        = Ok ((if decide (c ∈ (de_name <$> es)) then MTL_ERROR_EXISTS else MTL_SUCCESS,
               next_id t), t') ∧
    inodes_frame t t' ∧
    (c ∉ (de_name <$> es) →
     let v := new_directory now mode d (next_id t) in
     extended t t' d ino es c (next_id t) v ∧
     dir_at t' (next_id t) (fst v) (new_dir_entries d (next_id t))).
Proof.
  intros Hok Hd Hf Hc Hn Hstack.
  destruct (create_begin _ _ _ _ _ Hok Hd Hf Hc Hn) as (t1 & Hr & Hrest).
  unfold InodeDb.mtl_create_directory_in_directory. run_step Hr.
  assert (0 ≤ d < next_id t) as Hdr by (apply (tk_ids t Hok); eexists; apply Hd).
  destruct (next_id_run t) as (t1' & Hr' & _ & Hfr & _); [lia|].
  rewrite Hr in Hr'. injection Hr' as <-.
  destruct (decide (c ∈ _)) as [Hin|Hin].
  - run_step Hrest. cbn. by exists t1.
  - destruct Hrest as (t2 & Ha & Hd2 & Ho & Hn2 & Hne & Hfr2). run_step Ha.
    cbn [negb Z.eqb MTL_SUCCESS]. rewrite put_inode_bind; [|done|].
    2: { unfold fits in Hf. pose proof (da_len _ _ _ _ Hd). unfold sizeof_inode. simpl. lia. }
    cbn [negb Z.eqb MTL_SUCCESS].
    set (ino0 := InodeDb.fresh_inode _ _ _). set (t3 := set_inodes _ t2).
    destruct (append_dots t3 (next_id t) d ino0) as (t4 & t5 & H4 & H5 & E5 & [v4 E4] & Hd5);
      [unfold t3; simpl; by rewrite mdb_get_put_eq|done|done|unfold fits in Hf; lia|lia|lia|].
    run_step H4. cbn [negb Z.eqb MTL_SUCCESS]. run_step H5.
    cbn [negb Z.eqb MTL_SUCCESS].
    exists t5. split; [done|]. subst t4 t5. split; [done|].
    intros _. cbn zeta. split; [|done].
    assert (∀ i, i ≠ next_id t →
      mdb_get (mdb_put (mdb_put (mdb_put (tx_inodes t2) (next_id t) (ino0, [])) (next_id t) v4)
                 (next_id t) (with_length ino0 35, dir_bytes (new_dir_entries d (next_id t)))) i
      = mdb_get (tx_inodes t2) i) as Hother by (intros i Hi; by rewrite !mdb_get_put_ne by done).
    split.
    + eapply dir_at_frame; [|done]. by apply Hother.
    + simpl. by rewrite mdb_get_put_eq.
    + intros i Hi1 Hi2. etransitivity; [by apply Hother|]. by apply Ho.
    + done.
Qed.

End Creation.
(** ** Initialisation *)

Section Initialisation.
Context `{LmdbLaws} `{Machine} {B : Type}.
Implicit Types (t : txn).

Definition no_inodes t : Prop :=
  (∀ id, mdb_get (tx_inodes t) id = None) ∧ next_id t = 1.

Definition root_inode (now : Z) : mtl_inode :=
  with_length (InodeDb.fresh_inode MTL_DIRECTORY now (Z.lor 493 S_IFDIR)) 35.

Lemma create_root_run t now :
  no_inodes t → 1024 ≤ stack_limit < 2 ^ 62 →
  ∃ t', InodeDb.mtl_create_root_directory now t = Ok (MTL_SUCCESS, t') ∧
    tree_ok t' ∧ dir_at t' 0 (root_inode now) (new_dir_entries 0 0) ∧ next_id t' = 1 ∧
    inodes_frame t t' ∧ ∀ id, id ≠ 0 → mdb_get (tx_inodes t') id = None.
Proof.
  intros [Hno Hn] Hs. unfold InodeDb.mtl_create_root_directory, m_get.
  unfold mbind at 1, M_bind at 1. rewrite Hno.
  rewrite put_inode_bind by (unfold sizeof_inode; simpl; lia).
  set (ino0 := InodeDb.fresh_inode _ _ _). set (t1 := set_inodes _ t).
  destruct (append_dots t1 0 0 ino0) as (t2 & t3 & H2 & H3 & E3 & [v2 E2] & Hd);
    [unfold t1; simpl; by rewrite mdb_get_put_eq|done|done|done|done|done|].
  run_step H2. run_step H3. exists t3. split; [done|].
  assert (∀ id, id ≠ 0 → mdb_get (tx_inodes t3) id = None) as Hother.
  { intros id Hid. rewrite E3, E2. unfold t1. simpl. by rewrite !mdb_get_put_ne by done. }
  assert (next_id t3 = 1) as Hn3 by (by rewrite E3, E2).
  split; [|split; [done|split; [done|split; [by rewrite E3, E2|done]]]]. split.
  - by do 2 eexists.
  - intros id ino data Hg Ht. destruct (decide (id = 0)) as [->|Hne];
      [|by rewrite Hother in Hg].
    pose proof (da_get _ _ _ _ Hd) as Hg'. rewrite Hg in Hg'. injection Hg' as -> ->.
    eexists. split; [done|]. repeat constructor; eexists; apply Hd.
  - intros id [v Hv]. destruct (decide (id = 0)) as [->|Hne]; [lia|].
    by rewrite Hother in Hv.
Qed.

(** The databases before the file system is used for the first time. *)
Definition blank t : Prop :=
  no_inodes t ∧ (∀ o, Alloc.ext_of t o = None) ∧ (∀ id, Alloc.heap_of t id = None).


(** Over databases with a root and a first extent nothing is written. *)
Lemma initialize_again (storage : mtl_storage_backend B) now env b b1 b2 r md :
  let t := mdb_committed env in
  mdb_writer env = false → st_initialize storage b = Ok (MTL_SUCCESS, b1) →
  st_get_metadata storage b1 = Ok ((r, md), b2) →
  is_inode t 0 → is_Some (Alloc.ext_of t 0) →
  ∃ w, mtl_initialize storage now (Some env) b = Ok (MTL_SUCCESS, Some w) ∧
    locked w = false ∧ w_metadata w = md ∧ w_store w = b2 ∧ committed w = t.
Proof.
  intros t Hl Hinit Hmeta [v Hv] [e He]. unfold mtl_initialize. rewrite Hinit.
  unfold mbind at 1, result_bind at 1. cbn [negb Z.eqb MTL_SUCCESS].
  destruct (mdb_begin_ok env Hl) as (env' & -> & Hc & _). fold t.
  assert (InodeDb.mtl_create_root_directory now t = Ok (MTL_SUCCESS, t)) as ->.
  { unfold InodeDb.mtl_create_root_directory, m_get, mbind, M_bind. by rewrite Hv. }
  unfold mbind at 1, result_bind at 1. rewrite Hmeta. unfold mbind at 1, result_bind at 1.
  assert (ExtentDb.mtl_initialize_extents (num_blocks md) t = Ok (MTL_SUCCESS, t)) as ->.
  { unfold ExtentDb.mtl_initialize_extents. run_step (Alloc.load_run t 0). by rewrite He. }
  eexists. split; [done|]. unfold committed, locked. simpl.
  by rewrite mdb_commit_committed, mdb_commit_writer.
Qed.

(** C33: Initialising over an empty environment commits a well-formed tree
    whose only inode is the root, which holds "." and "..", and an allocator
    state in which every block of the backend is free, and frees the writer
    lock; initialising over an environment that has a root and a first extent
    commits exactly what it found. *)
Theorem initialize_world (storage : mtl_storage_backend B) now env b b1 b2 r md :
  let t := mdb_committed env in
  mdb_writer env = false → 1024 ≤ stack_limit < 2 ^ 62 →
  st_initialize storage b = Ok (MTL_SUCCESS, b1) →
  st_get_metadata storage b1 = Ok ((r, md), b2) → 0 < num_blocks md < 2 ^ 63 →
  blank t ∨ (is_inode t 0 ∧ is_Some (Alloc.ext_of t 0)) →
  ∃ w, mtl_initialize storage now (Some env) b = Ok (MTL_SUCCESS, Some w) ∧
    locked w = false ∧ w_metadata w = md ∧ w_store w = b2 ∧
    (is_inode t 0 → committed w = t) ∧
    (blank t →
      tree_ok (committed w) ∧
      dir_at (committed w) 0 (root_inode now) (new_dir_entries 0 0) ∧
      next_id (committed w) = 1 ∧
      (∀ id, id ≠ 0 → ¬ is_inode (committed w) id) ∧
      Alloc.inv (num_blocks md) (committed w) ∧
      ∀ x, Alloc.free_in (committed w) x ↔ 0 ≤ x < num_blocks md).
Proof.
  intros t Hl Hs Hinit Hmeta Hmd [Hb|[Hroot Hext]].
  - unfold mtl_initialize. rewrite Hinit.
    unfold mbind at 1, result_bind at 1. cbn [negb Z.eqb MTL_SUCCESS].
    destruct (mdb_begin_ok env Hl) as (env' & -> & Hc & _). fold t.
    pose proof Hb as (Hno & He & Hh).
    destruct (create_root_run t now Hno Hs) as (t1 & Hr1 & Hok & Hd & Hn1 & [Hfh Hfe] & Hoth).
    rewrite Hr1. unfold mbind at 1, result_bind at 1. rewrite Hmeta.
    unfold mbind at 1, result_bind at 1.
    destruct (Alloc.initialize_run (num_blocks md) t1) as (t2 & Hr2 & Hinv & [Hi Hm] & Hfree);
      [done|intros o; unfold Alloc.ext_of; rewrite Hfe; apply He
      |intros id; unfold Alloc.heap_of; rewrite Hfh; apply Hh|].
    rewrite Hr2. eexists. split; [done|]. unfold committed, locked. simpl.
    rewrite mdb_commit_committed, mdb_commit_writer. do 3 (split; [done|]). split.
    + intros [v Hv]. destruct Hno as [Hno _]. by rewrite Hno in Hv.
    + intros _.
      assert (∀ id, mdb_get (tx_inodes t2) id = mdb_get (tx_inodes t1) id) as Hsame
        by (intros id; by rewrite Hi).
      assert (next_id t2 = next_id t1) as Hsn by (unfold next_id; by rewrite Hm).
      split; [|split; [eapply dir_at_frame; [apply Hsame|done]|split; [congruence|split; [|done]]]].
      * destruct Hok as [(ino & es & Hr) Hdirs Hids]. split.
        -- exists ino, es. eapply dir_at_frame; [apply Hsame|done].
        -- intros id ino' data. rewrite Hsame. intros Hg Ht.
           destruct (Hdirs _ _ _ Hg Ht) as (es' & Hd' & Hall).
           exists es'. split; [eapply dir_at_frame; [apply Hsame|done]|].
           eapply Forall_impl; [done|]. intros e. unfold is_inode. by rewrite Hsame.
        -- intros id. unfold is_inode. rewrite Hsame, Hsn. apply Hids.
      * intros id Hid. unfold is_inode. rewrite Hsame, Hoth by done. by intros [? ?].
  - destruct (initialize_again storage now env b b1 b2 r md Hl Hinit Hmeta Hroot Hext)
      as (w & Hr & ? & ? & ? & Hc).
    exists w. do 4 (split; [done|]). split; [done|].
    intros (Hno & _). destruct Hroot as [v Hv], Hno as [Hno _]. by rewrite Hno in Hv.
Qed.
End Initialisation.

(** ** The properties of the interface *)

Section Interface.
Context `{LmdbLaws} `{Machine} {B : Type}.
Abbreviation world := (world (B := B)).
Implicit Types (w : world) (t : txn) (c : cstr) (cs : list cstr) (d id : Z).

Lemma in_txn_bind {A C} (m : M txn A) t a t' w (k : A * txn → M world C) :
  m t = Ok (a, t') → (r ← in_txn t m; k r) w = k (a, t') w.
Proof. intros Hm. by rewrite (bind_run _ _ _ _ _ (in_txn_run m t a t' w Hm)). Qed.

Lemma abort_bind {A} (a : A) w :
  ∃ w', (_ ← txn_abort; mret a) w = Ok (a, w') ∧ committed w' = committed w ∧
    locked w' = false ∧ same_backend w w'.
Proof.
  destruct (abort_run w) as (w' & Hr & ?). exists w'.
  by rewrite (bind_run _ _ _ _ _ Hr).
Qed.

Lemma commit_bind {A} (a : A) t w :
  ∃ w', (_ ← txn_commit t; mret a) w = Ok (a, w') ∧ committed w' = t ∧
    locked w' = false ∧ same_backend w w'.
Proof.
  destruct (commit_run t w) as (w' & Hr & ?). exists w'.
  by rewrite (bind_run _ _ _ _ _ Hr).
Qed.

(** [mtl_resolve_parent_dir_inode] on a path whose directory exists. *)
Lemma parent_found t cs c d x :
  walk t cs (Found d) → Forall name_ok cs → comp_ok c →
  mtl_resolve_parent_dir_inode (abs_path (cs ++ [c])) x t = Ok ((MTL_SUCCESS, d), t).
Proof.
  intros Hw Hcs Hc. destruct (resolve_parent_run t cs c _ x Hw Hcs Hc) as (id & Hr & Hi).
  by rewrite <-(Hi d eq_refl).
Qed.

Lemma open_run w cs o :
  walk (committed w) cs o → Forall name_ok cs →
  ∃ id, mtl_open (abs_path cs) w = Ok ((outcome_code o, id), w) ∧ ∀ i, o = Found i → id = i.
Proof.
  intros Hw Hcs.
  destruct (resolve_run _ cs o (uninit "mtl_open.id") Hw Hcs) as (id & Hr & Hi).
  exists id. split; [|done]. unfold mtl_open. run_step (rdonly_run w).
  by rewrite (in_txn_bind _ _ _ _ _ _ Hr).
Qed.

Lemma open_found w cs i :
  walk (committed w) cs (Found i) → Forall name_ok cs →
  mtl_open (abs_path cs) w = Ok ((MTL_SUCCESS, i), w).
Proof.
  intros Hw Hcs. destruct (open_run w cs _ Hw Hcs) as (id & Hr & Hi).
  by rewrite Hr, (Hi i eq_refl).
Qed.

Lemma names_snoc cs c : Forall name_ok cs → short_name c → Forall name_ok (cs ++ [c]).
Proof. intros Hcs [Hc _]. apply Forall_app. split; [done|]. by apply Forall_singleton. Qed.


Lemma resolve_no_slash t (path : cstr) x (fuel : nat) :
  Forall (λ b, b ≠ slash) path → mtl_resolve_inode fuel path x t = Fault OutOfFuel.
Proof.
  revert path x. induction fuel as [|fuel IH]; intros path x Hp; [done|].
  cbn [mtl_resolve_inode].
  assert (dirname path = str ".") as ->.
  { unfold dirname.
    assert (∀ l : list Z, Forall (λ b, b ≠ slash) l → drop_while not_slash l = []) as Hdw.
    { induction 1 as [|b l Hb Hl IHl]; [done|]. cbn [drop_while]. unfold not_slash.
      by rewrite (proj2 (Z.eqb_neq _ _)). }
    rewrite Hdw; [done|]. unfold strip_trailing.
    assert (∀ l : list Z, Forall (λ b, b ≠ slash) l → drop_while is_slash l = l) as Hds.
    { destruct 1 as [|b l Hb Hl]; [done|]. cbn [drop_while]. unfold is_slash.
      by rewrite (proj2 (Z.eqb_neq _ _)). }
    assert (Forall (λ b, b ≠ slash) (reverse path)) as Hr by (by apply Forall_reverse).
    rewrite Hds by done. by destruct (reverse path). }
  rewrite decide_False by done. apply bind_fault, IH. repeat constructor. done.
Qed.

(** The resolution of a path without a slash never ends, whatever the
    tree holds: the directory of such a path is "." and that of "." is "."
    again, so the recursion runs until the stack is exhausted. *)
Theorem resolve_relative_diverges t (path : cstr) x (fuel : nat) :
  Forall (λ b, b ≠ slash) path → mtl_resolve_inode fuel path x t = Fault OutOfFuel.
Proof. apply resolve_no_slash. Qed.

(** Creating a file leaves the databases of the allocator alone. *)
Lemma create_run w cs c d ino es now mode :
  let t := committed w in
  let path := abs_path (cs ++ [c]) in
  locked w = false → tree_ok t → Forall name_ok cs → short_name c →
  walk t cs (Found d) → dir_at t d ino es → fits ino → next_id t < 2 ^ 64 - 1 →
  ∃ w', locked w' = false ∧ same_backend w w' ∧
    if decide (c ∈ (de_name <$> es))
    then mtl_create now path mode w = Ok ((MTL_ERROR_EXISTS, None), w') ∧ committed w' = t
    else mtl_create now path mode w = Ok ((MTL_SUCCESS, Some (next_id t)), w') ∧
      tree_ok (committed w') ∧ walk (committed w') (cs ++ [c]) (Found (next_id t)) ∧
      extended t (committed w') d ino es c (next_id t) (new_file now mode) ∧
      (∀ cs' i, walk t cs' (Found i) → walk (committed w') cs' (Found i)) ∧
      mtl_open path w' = Ok ((MTL_SUCCESS, next_id t), w') ∧
      inodes_frame t (committed w').
Proof.
  intros t path Hl Hok Hcs Hc Hw Hd Hf Hn. pose proof Hc as [[Hcomp _] _].
  destruct (begin_bind w Hl) as (w1 & Hc1 & _ & Hb1 & Hbeg).
  unfold mtl_create. run_step Hbeg. fold t.
  rewrite (in_txn_bind _ _ _ _ _ _ (parent_found t cs c d _ Hw Hcs Hcomp)).
  cbn [negb Z.eqb MTL_SUCCESS]. unfold path. rewrite basename_abs_path by done.
  destruct (create_file_run t d ino es c now mode Hok Hd Hf Hc Hn) as (t' & Hr & Hfr & Hx).
  rewrite (in_txn_bind _ _ _ _ _ _ Hr).
  destruct (decide (c ∈ de_name <$> es)) as [Hin|Hin]; cbn [negb Z.eqb MTL_SUCCESS MTL_ERROR_EXISTS].
  - destruct (abort_bind (MTL_ERROR_EXISTS, @None Z) w1) as (w' & Hend & Hcw & Hlw & [Hm Hs]).
    destruct Hb1 as [Hm1 Hs1]. exists w'. split; [done|].
    split; [split; congruence|]. split; [done|]. by rewrite Hcw.
  - destruct (commit_bind (MTL_SUCCESS, Some (next_id t)) t' w1)
      as (w' & Hend & Hcw & Hlw & [Hm Hs]).
    destruct Hb1 as [Hm1 Hs1]. exists w'. split; [done|]. split; [split; congruence|].
    rewrite Hcw. split; [done|].
    pose proof (extended_grows _ _ _ _ _ _ _ Hok Hd (Hx Hin)) as Hg.
    assert (walk t' (cs ++ [c]) (Found (next_id t))) as Hnew.
    { eapply (walk_entry t' cs c d _ _ (new_dirent (next_id t) c)).
      - by eapply walk_grows.
      - apply (Hx Hin).
      - rewrite lookup_name_app. apply lookup_name_None in Hin as ->. simpl.
        by rewrite decide_True. }
    split; [eapply extended_tree_ok; [done|done|by apply Hx|done]|].
    split; [done|]. split; [by apply Hx|]. split; [intros cs' i; by apply walk_grows|].
    split; [|done]. apply open_found; [by rewrite Hcw|by apply names_snoc].
Qed.



(** *** Atomicity *)

(** The calls that change the tree, [mtl_unlink] apart. *)
Inductive tree_call :=
  | CallMkdir (now : Z) (filename : cstr) (mode : Z)
  | CallRmdir (filename : cstr)
  | CallRename (from_filename to_filename : cstr)
  | CallCreate (now : Z) (filename : cstr) (mode : Z)
  | CallChown (path : cstr) (uid gid : Z).

(** The status of the call. *)
Definition run_call (call : tree_call) : M world Z :=
  match call with
  | CallMkdir now filename mode => mtl_mkdir now filename mode
  | CallRmdir filename => mtl_rmdir filename
  | CallRename from_filename to_filename => mtl_rename from_filename to_filename
  | CallCreate now filename mode => '(r, _) ← mtl_create now filename mode; mret r
  | CallChown path uid gid => mtl_chown path uid gid
  end.

Lemma put_inode_inv used inode_id ino data t r t' :
  InodeDb.mtl_put_inode used inode_id ino data t = Ok (r, t') → r = MTL_SUCCESS.
Proof.
  unfold InodeDb.mtl_put_inode, InodeDb.vla. case_match; [|done].
  unfold m_get, m_put, mbind, M_bind, mret, M_ret. naive_solver.
Qed.

(** What a call leaves behind: the lock is free, and a call that reports an
    error has committed nothing. *)
Definition clean_end (w : world) (r : Z) (w' : world) : Prop :=
  locked w' = false ∧ same_backend w w' ∧ (r ≠ MTL_SUCCESS → committed w' = committed w).

(** Walks through the statements of a call that returned. *)
Ltac call_step H :=
  match type of H with
  | mbind _ (in_txn _ _) _ = Ok _ =>
      let E := fresh "E" in let a := fresh "a" in
      apply bind_Ok_inv in H as ([a ?] & ? & E & H);
      apply in_txn_inv in E as [-> E]; cbn beta iota in H
  | (let '(_, _) := ?a in _) _ = Ok _ => destruct a
  | (if ?b then _ else _) _ = Ok _ => destruct b eqn:?
  end.

Ltac call_end H Hc Hb :=
  first [ apply abort_end in H as (-> & ? & ? & []) | apply commit_end in H as (-> & ? & ? & []) ];
  destruct Hb; unfold clean_end, same_backend;
  split; [done|]; split; [split; congruence|]; intros; congruence.

Ltac call_begin H Hc Hb :=
  apply bind_Ok_inv in H as (? & ? & E & H);
  apply begin_inv in E as (-> & Hc & Hb).

Lemma mkdir_clean now filename mode w r w' :
  mtl_mkdir now filename mode w = Ok (r, w') → clean_end w r w'.
Proof.
  intros Hr. unfold mtl_mkdir in Hr. call_begin Hr Hc Hb. repeat call_step Hr; call_end Hr Hc Hb.
Qed.

Lemma rmdir_clean filename w r w' : mtl_rmdir filename w = Ok (r, w') → clean_end w r w'.
Proof.
  intros Hr. unfold mtl_rmdir in Hr. call_begin Hr Hc Hb. repeat call_step Hr; call_end Hr Hc Hb.
Qed.

Lemma rename_clean from_filename to_filename w r w' :
  mtl_rename from_filename to_filename w = Ok (r, w') → clean_end w r w'.
Proof.
  intros Hr. unfold mtl_rename in Hr. call_begin Hr Hc Hb. repeat call_step Hr; call_end Hr Hc Hb.
Qed.

Lemma create_clean now filename mode w r (id : option Z) w' :
  mtl_create now filename mode w = Ok ((r, id), w') → clean_end w r w'.
Proof.
  intros Hr. unfold mtl_create in Hr. call_begin Hr Hc Hb. repeat call_step Hr.
  - apply abort_end in Hr as ([= -> ->] & ? & ? & []). destruct Hb.
    split; [done|]; split; [split; congruence|]; intros; congruence.
  - apply abort_end in Hr as ([= -> ->] & ? & ? & []). destruct Hb.
    split; [done|]; split; [split; congruence|]; intros; congruence.
  - apply commit_end in Hr as ([= -> ->] & ? & ? & []). destruct Hb.
    split; [done|]; split; [split; congruence|]; intros; congruence.
Qed.

Lemma chown_clean path uid gid w r w' :
  mtl_chown path uid gid w = Ok (r, w') → clean_end w r w'.
Proof.
  intros Hr. unfold mtl_chown in Hr. call_begin Hr Hc Hb. repeat call_step Hr;
    [call_end Hr Hc Hb..|].
  apply bind_Ok_inv in Hr as ([ino data] & ? & Ed & Hr).
  match type of Ed with c_deref ?p _ = _ => destruct p; [|done] end.
  injection Ed as -> <-. repeat call_step Hr.
  match goal with Hp : InodeDb.mtl_put_inode _ _ _ _ _ = Ok _ |- _ =>
    apply put_inode_inv in Hp as -> end.
  call_end Hr Hc Hb.
Qed.

(** C7: Whatever the arguments and the contents of the databases, a call of
    mkdir, rmdir, rename, create or chown that returns leaves the writer lock
    free and the storage untouched, and when it returns an error the
    committed databases are exactly the ones it found. *)
Theorem tree_calls_atomic (call : tree_call) w r w' :
  run_call call w = Ok (r, w') → clean_end w r w'.
Proof.
  destruct call; cbn [run_call]; eauto using mkdir_clean, rmdir_clean, rename_clean, chown_clean.
  intros ([r' id] & s & Hr & Hm)%bind_Ok_inv. injection Hm as -> <-.
  by eapply create_clean.
Qed.

(** *** Removing and moving entries *)

Lemma remove_other t d v i :
  i ≠ d → mdb_get (tx_inodes (set_inodes (mdb_put (tx_inodes t) d v) t)) i
          = mdb_get (tx_inodes t) i.
Proof. intros Hi. simpl. by rewrite mdb_get_put_ne. Qed.

Lemma remove_directory_file t k ino data :
  mdb_get (tx_inodes t) k = Some (ino, data) → i_type ino = MTL_FILE →
  InodeDb.mtl_remove_directory k t = Ok (MTL_ERROR_NOTDIRECTORY, t).
Proof.
  intros Hg Ht. unfold InodeDb.mtl_remove_directory, InodeDb.mtl_load_directory.
  rewrite (bind_run _ _ _ _ _ (load_inode_run t k)), Hg.
  unfold c_deref, mbind, M_bind, mret, M_ret. by rewrite Ht.
Qed.

(** C24: Removing a directory that has no entries but "." and ".." succeeds,
    takes its entry out of the parent and its inode out of the database and
    changes nothing else; a directory with other entries answers NOTEMPTY, a
    file NOTDIRECTORY, and both leave the committed tree as it was, although
    the entry is taken out before the check. *)
Theorem rmdir_refines w cs c d ino es e (ino_k : mtl_inode) es_k :
  let t := committed w in
  let k := de_id e in
  locked w = false → Forall name_ok cs → name_ok c →
  walk t cs (Found d) → dir_at t d ino es → fits ino → lookup_name c es = Some e → k ≠ d →
  (∃ data, mdb_get (tx_inodes t) k = Some (ino_k, data)) →
  (i_type ino_k = MTL_DIRECTORY → dir_at t k ino_k es_k) →
  ∃ r w', mtl_rmdir (abs_path (cs ++ [c])) w = Ok (r, w') ∧ locked w' = false ∧
    same_backend w w' ∧
    (r = MTL_SUCCESS ↔ i_type ino_k = MTL_DIRECTORY ∧ Forall is_dots es_k) ∧
    (r = MTL_ERROR_NOTDIRECTORY ↔ i_type ino_k = MTL_FILE) ∧
    (r = MTL_ERROR_NOTEMPTY ↔ i_type ino_k = MTL_DIRECTORY ∧ ¬ Forall is_dots es_k) ∧
    (r ≠ MTL_SUCCESS → committed w' = t) ∧
    (r = MTL_SUCCESS →
      dir_at (committed w') d (with_length ino (Z.of_nat (length (dir_bytes (without c es)))))
        (without c es) ∧
      ∀ i, i ≠ d → mdb_get (tx_inodes (committed w')) i
                   = if decide (k = i) then None else mdb_get (tx_inodes t) i).
Proof.
  intros t k Hl Hcs [Hcomp Hz] Hw Hd Hf Hlk Hkd [data Hk] Hdk.
  destruct (begin_bind w Hl) as (w1 & Hc1 & _ & [Hm1 Hs1] & Hbeg).
  unfold mtl_rmdir. run_step Hbeg. fold t.
  rewrite (in_txn_bind _ _ _ _ _ _ (parent_found t cs c d _ Hw Hcs Hcomp)).
  cbn [negb Z.eqb MTL_SUCCESS]. rewrite basename_abs_path by done.
  destruct (remove_run t d ino es c e (uninit "mtl_rmdir.inode_id") Hd Hf Hz Hlk) as [Hr Hd'].
  rewrite (in_txn_bind _ _ _ _ _ _ Hr). cbn [negb Z.eqb MTL_SUCCESS]. fold k.
  set (t1 := set_inodes _ t) in *.
  assert (mdb_get (tx_inodes t1) k = mdb_get (tx_inodes t) k) as Hk1
    by (unfold t1; by rewrite remove_other).
  assert (∀ r, r ≠ MTL_SUCCESS → InodeDb.mtl_remove_directory k t1 = Ok (r, t1) →
    ∃ w', ('(res, t) ← in_txn t1 (InodeDb.mtl_remove_directory k);
           if negb (res =? MTL_SUCCESS) then _ ← txn_abort; mret res
           else _ ← txn_commit t; mret MTL_SUCCESS) w1 = Ok (r, w') ∧
      locked w' = false ∧ same_backend w w' ∧ committed w' = t) as Habort.
  { intros r Hne Hm. destruct (abort_bind r w1) as (w' & Hend & Hcw & Hlw & [Hm' Hs']).
    exists w'. rewrite (in_txn_bind _ _ _ _ _ _ Hm).
    rewrite (proj2 (Z.eqb_neq _ _)) by done. split; [done|]. split; [done|].
    split; [split; congruence|]. by rewrite Hcw. }
  destruct (i_type ino_k) eqn:Ht.
  - destruct (Habort MTL_ERROR_NOTDIRECTORY) as (w' & Hrun & ? & ? & ?); [done| |].
    { eapply remove_directory_file; [by rewrite Hk1|done]. }
    rewrite Hrun. do 2 eexists. repeat (split; [done || naive_solver|]). naive_solver.
  - specialize (Hdk eq_refl).
    assert (dir_at t1 k ino_k es_k) as Hdk1 by by eapply dir_at_frame.
    destruct (remove_directory_run t1 k ino_k es_k Hdk1) as [[Hnd Hm]|[Hdots Hm]].
    + destruct (Habort MTL_ERROR_NOTEMPTY) as (w' & Hrun & ? & ? & ?); [done|done|].
      rewrite Hrun. do 2 eexists. repeat (split; [done || naive_solver|]). naive_solver.
    + destruct Hm as (t2 & Hm & Hfr & _ & Hget). rewrite (in_txn_bind _ _ _ _ _ _ Hm).
      cbn [negb Z.eqb MTL_SUCCESS].
      destruct (commit_bind MTL_SUCCESS t2 w1) as (w' & Hend & Hcw & Hlw & [Hm' Hs']).
      rewrite Hend. do 2 eexists. split; [done|]. split; [done|].
      split; [split; congruence|]. do 3 (split; [naive_solver|]). split; [done|].
      intros _. rewrite Hcw. split.
      * eapply dir_at_frame; [|done]. by rewrite Hget, decide_False.
      * intros i Hi. rewrite Hget. unfold t1. by rewrite remove_other.
Qed.

(** Removing a missing name from a directory whose data is shorter than
    an entry of that name crashes instead of answering NOENTRY: the size of
    the copy is computed first, wraps around, and the array of that size
    overflows the stack. *)
Theorem rmdir_missing_overflows w cs c d ino es :
  locked w = false → Forall name_ok cs → name_ok c →
  walk (committed w) cs (Found d) → dir_at (committed w) d ino es → fits ino →
  lookup_name c es = None → i_length ino < 16 + strlen c < 2 ^ 62 →
  mtl_rmdir (abs_path (cs ++ [c])) w = Fault StackOverflow.
Proof.
  intros Hl Hcs [Hcomp Hz] Hw Hd Hf _ Hlt.
  destruct (begin_bind w Hl) as (w1 & Hc1 & _ & _ & Hbeg).
  unfold mtl_rmdir. run_step Hbeg.
  rewrite (in_txn_bind _ _ _ _ _ _ (parent_found _ cs c d _ Hw Hcs Hcomp)).
  cbn [negb Z.eqb MTL_SUCCESS]. rewrite basename_abs_path by done.
  apply bind_fault. unfold in_txn, m_lift.
  by rewrite (remove_underflow _ d ino es c _ Hd Hf) by lia.
Qed.

(** C38: Unlinking a name that an existing directory does not have answers NOENTRY but
    ends without closing its transaction, if the directory is at least as long as an
    entry of that name would be (16 bytes and the name; for a shorter one the length
    of the new record wraps around before the name is looked for) and no inode has the
    number it goes on with, which was never written. So the writer lock stays taken,
    and every later mkdir, rmdir, rename, create, chown, write, truncate and unlink
    blocks for ever. *)
Theorem unlink_missing_leaks_lock w cs c d ino es :
  let t := committed w in
  locked w = false → Forall name_ok cs → name_ok c →
  walk t cs (Found d) → dir_at t d ino es → fits ino → lookup_name c es = None →
  16 + strlen c ≤ i_length ino →
  mdb_get (tx_inodes t) (uninit "mtl_unlink.inode_id") = None →
  ∃ w', File.mtl_unlink (abs_path (cs ++ [c])) w = Ok (MTL_ERROR_NOENTRY, w') ∧
    committed w' = t ∧ locked w' = true ∧
    (∀ call : tree_call, run_call call w' = Fault WouldBlock) ∧
    (∀ storage id buffer size offset,
       File.mtl_write storage id buffer size offset w' = Fault WouldBlock) ∧
    (∀ id offset, File.mtl_truncate id offset w' = Fault WouldBlock) ∧
    ∀ filename, File.mtl_unlink filename w' = Fault WouldBlock.
Proof.
  intros t Hl Hcs [Hcomp Hz] Hw Hd Hf Hlk Hfit Hun.
  destruct (begin_bind w Hl) as (w1 & Hc1 & Hl1 & _ & Hbeg).
  exists w1. split; [|split; [done|split; [done|split; [|split; [|split]]]]].
  - unfold File.mtl_unlink. run_step Hbeg. fold t.
    rewrite (in_txn_bind _ _ _ _ _ _ (parent_found t cs c d _ Hw Hcs Hcomp)).
    rewrite basename_abs_path by done.
    rewrite (in_txn_bind _ _ _ _ _ _ (remove_absent t d ino es c _ Hd Hf Hz Hlk Hfit)).
    assert (InodeDb.mtl_load_file (uninit "mtl_unlink.inode_id") t
            = Ok ((MTL_ERROR_NOENTRY, None, 0), t)) as Hload.
    { unfold InodeDb.mtl_load_file.
      rewrite (bind_run _ _ _ _ _ (load_inode_run t _)), Hun. done. }
    by rewrite (in_txn_bind _ _ _ _ _ _ Hload).
  - intros [now f mode|f|f f'|now f mode|p uid gid]; cbn [run_call];
      first [ by apply (bind_fault _ _ _ _ (begin_blocks w1 Hl1))
            | apply bind_fault; by apply (bind_fault _ _ _ _ (begin_blocks w1 Hl1)) ].
  - intros storage id buffer size offset. by apply (bind_fault _ _ _ _ (begin_blocks w1 Hl1)).
  - intros id offset. by apply (bind_fault _ _ _ _ (begin_blocks w1 Hl1)).
  - intros filename. by apply (bind_fault _ _ _ _ (begin_blocks w1 Hl1)).
Qed.
End Interface.
(** ** Instances: a new volume, and the calls on it *)

Module Demo.
#[local] Instance machine : Machine :=
  {| stack_limit := 8388608; garbage := λ _, 170; uninit := λ _, 4711 |}.

Definition storage : mtl_storage_backend Storage.store := Storage.in_memory_storage (λ _, 0).
Definition no_store : Storage.store := Storage.Store None [].

Definition root_txn : txn :=
  AllocProofs.Demo.final (InodeDb.mtl_create_root_directory 7) empty_txn.

Definition new_volume : world := World (root_txn, false) (StorageMetadata 32768 4096) no_store.

Definition root_entries : list dirent := new_dir_entries 0 0.

Lemma root_facts :
  tree_ok root_txn ∧ dir_at root_txn 0 (root_inode 7) root_entries ∧ next_id root_txn = 1 ∧
  ∀ id, id ≠ 0 → mdb_get (tx_inodes root_txn) id = None.
Proof.
  destruct (create_root_run empty_txn 7) as (t & Hr & Ht & Hd & Hn & _ & Ho); [done|done|].
  unfold root_txn, AllocProofs.Demo.final. by rewrite Hr.
Qed.

Lemma root_ok : tree_ok (committed new_volume).
Proof. apply root_facts. Qed.
Lemma root_at : dir_at (committed new_volume) 0 (root_inode 7) root_entries.
Proof. apply root_facts. Qed.
Lemma root_next : next_id (committed new_volume) = 1.
Proof. apply root_facts. Qed.
Lemma root_fits : fits (root_inode 7).
Proof. unfold fits. simpl. lia. Qed.
Lemma short (s : string) : str s ≠ [] → forallb (λ x, negb (x =? slash) && negb (x =? 0)) (str s) = true →
  (length (str s) < 256)%nat → short_name (str s).
Proof.
  intros Hne Hall Hlen. rewrite forallb_forall in Hall.
  split; [split; [split; [done|]|]|done]; apply Forall_forall; intros x Hx;
    apply list_elem_of_In in Hx; specialize (Hall x Hx); to_prop; done.
Qed.
Lemma short_a : short_name (str "a").
Proof. apply short; [done|reflexivity|vm_compute; lia]. Qed.
(** A volume with the directory "/a", inode 1. *)
Definition with_a : txn :=
  AllocProofs.Demo.final (InodeDb.mtl_create_directory_in_directory 7 0 (str "a") 493) root_txn.
Definition volume_a : world := World (with_a, false) (StorageMetadata 32768 4096) no_store.
Definition entries_a : list dirent := root_entries ++ [new_dirent 1 (str "a")].
Definition root_inode_a : mtl_inode :=
  with_length (root_inode 7) (Z.of_nat (length (dir_bytes entries_a))).
Definition inode_a : mtl_inode := fst (new_directory 7 493 0 1).

Lemma a_facts :
  dir_at with_a 0 root_inode_a entries_a ∧ dir_at with_a 1 inode_a (new_dir_entries 0 1).
Proof.
  destruct root_facts as (Hok & Hd & Hn & Ho).
  destruct (create_directory_run root_txn 0 (root_inode 7) root_entries (str "a") 7 493)
    as (t' & Hr & _ & Hx); [done|done|apply root_fits|apply short_a|by rewrite Hn|done|].
  rewrite Hn in Hr, Hx. unfold with_a, AllocProofs.Demo.final. rewrite Hr.
  destruct Hx as [Hx Hnew]; [by apply lookup_name_None|].
  split; [apply Hx|done].
Qed.

Lemma a_root : dir_at (committed volume_a) 0 root_inode_a entries_a.
Proof. apply a_facts. Qed.
Lemma a_fits : fits root_inode_a.
Proof. unfold fits. vm_compute. split; congruence. Qed.
Lemma lookup_a : lookup_name (str "a") entries_a = Some (new_dirent 1 (str "a")).
Proof. vm_compute. reflexivity. Qed.
End Demo.
#[local] Existing Instance Demo.machine.


Lemma resolve_relative_diverges_witness :
  mtl_resolve_inode 1000 (str "a") 0 (committed Demo.new_volume) = Fault OutOfFuel.
Proof.
  apply (resolve_relative_diverges (committed Demo.new_volume) (str "a") 0 1000).
  repeat constructor. discriminate.
Defined.



Lemma tree_calls_atomic_witness :
  run_call (CallRmdir (str "/x")) Demo.new_volume
  = Ok (MTL_ERROR_NOENTRY, World (Demo.root_txn, false) (StorageMetadata 32768 4096) Demo.no_store) ∧
  clean_end Demo.new_volume MTL_ERROR_NOENTRY
    (World (Demo.root_txn, false) (StorageMetadata 32768 4096) Demo.no_store).
Proof.
  assert (run_call (CallRmdir (str "/x")) Demo.new_volume
    = Ok (MTL_ERROR_NOENTRY,
          World (Demo.root_txn, false) (StorageMetadata 32768 4096) Demo.no_store)) as Hr
    by (vm_compute; reflexivity).
  split; [exact Hr|]. exact (tree_calls_atomic _ _ _ _ Hr).
Defined.

Lemma rmdir_refines_witness :
  ∃ r w', mtl_rmdir (str "/a") Demo.volume_a = Ok (r, w') ∧ r = MTL_SUCCESS ∧ locked w' = false.
Proof.
  destruct (rmdir_refines Demo.volume_a [] (str "a") 0 Demo.root_inode_a Demo.entries_a
    (new_dirent 1 (str "a")) Demo.inode_a (new_dir_entries 0 1)
    eq_refl (List.Forall_nil _) (proj1 Demo.short_a) (walk_root _) Demo.a_root Demo.a_fits
    Demo.lookup_a) as (r & w' & Hr & Hl & _ & Hs & _).
  - discriminate.
  - eexists. apply (da_get _ _ _ _ (proj2 Demo.a_facts)).
  - intros _. apply Demo.a_facts.
  - exists r, w'. split; [exact Hr|]. split; [|exact Hl]. apply Hs. split; [reflexivity|].
    constructor; [by left|]. constructor; [by right|]. constructor.
Defined.


Lemma rmdir_missing_overflows_witness :
  mtl_rmdir (str "/a-name-of-20-letters") Demo.new_volume = Fault StackOverflow.
Proof.
  apply (rmdir_missing_overflows Demo.new_volume [] (str "a-name-of-20-letters") 0
    (root_inode 7) Demo.root_entries eq_refl (List.Forall_nil _)).
  - apply Demo.short; [done|reflexivity|vm_compute; lia].
  - apply walk_root.
  - apply Demo.root_at.
  - apply Demo.root_fits.
  - reflexivity.
  - vm_compute. split; reflexivity.
Defined.

Lemma unlink_missing_leaks_lock_witness :
  ∃ w', File.mtl_unlink (str "/x") Demo.new_volume = Ok (MTL_ERROR_NOENTRY, w') ∧
    (∀ call : tree_call, run_call call w' = Fault WouldBlock) ∧
    ∀ filename, File.mtl_unlink filename w' = Fault WouldBlock.
Proof.
  destruct (unlink_missing_leaks_lock Demo.new_volume [] (str "x") 0
    (root_inode 7) Demo.root_entries eq_refl (List.Forall_nil _)) as (w' & Hr & _ & _ & Hcalls & _ & _ & Hunlink).
  - apply Demo.short; [done|reflexivity|vm_compute; lia].
  - apply walk_root.
  - apply Demo.root_at.
  - apply Demo.root_fits.
  - reflexivity.
  - vm_compute. discriminate.
  - apply Demo.root_facts. discriminate.
  - by exists w'.
Defined.

Lemma initialize_world_witness :
  ∃ w, mtl_initialize Demo.storage 7 (Some (empty_txn, false)) Demo.no_store
       = Ok (MTL_SUCCESS, Some w) ∧ tree_ok (committed w).
Proof.
  assert (blank (empty_txn (H := RefLmdb))) as Hb by done.
  destruct (initialize_world Demo.storage 7 (empty_txn, false) Demo.no_store
    (Storage.Store (Some (λ _, 0)) []) (Storage.Store (Some (λ _, 0)) []) MTL_SUCCESS
    (StorageMetadata 32768 4096) eq_refl) as (w & Hr & _ & _ & _ & _ & Hw).
  - by vm_compute.
  - reflexivity.
  - reflexivity.
  - by vm_compute.
  - by left.
  - exists w. split; [exact Hr|]. by apply Hw.
Defined.
End Ns.
