(* ===== verification/StorageProofs.v ===== *)
(** * The in-memory backend refines a byte-addressed file

    [file_addr] is the reference translation of an offset in a file to an
    address of the buffer. The copying loops of storage_in_memory.c walk the
    extent list; what they read and write is what the translation says. *)
From S2P Require Import Prelude Lmdb Structs Dirent Inode Metal Storage.

Module Backend.
Import Storage.
Implicit Types (x : mtl_file_extent) (xs pre post : list mtl_file_extent).

Definition extent_bytes x : Z := fe_length x * BLOCK_SIZE.

Fixpoint file_bytes xs : Z :=
  match xs with [] => 0 | x :: xs' => extent_bytes x + file_bytes xs' end.

(** Where byte [i] of the file lies. *)
Fixpoint file_addr xs (i : Z) : option Z :=
  match xs with
  | [] => None
  | x :: xs' =>
      if decide (0 ≤ i < extent_bytes x) then Some (fe_offset x * BLOCK_SIZE + i)
      else if decide (i < 0) then None
      else file_addr xs' (i - extent_bytes x)
  end.

Definition extent_ok x : Prop :=
  0 ≤ fe_offset x ∧ 0 < fe_length x ∧ fe_offset x + fe_length x ≤ NUM_BLOCKS.

Definition apart x1 x2 : Prop :=
  fe_offset x1 + fe_length x1 ≤ fe_offset x2 ∨ fe_offset x2 + fe_length x2 ≤ fe_offset x1.

Fixpoint all_apart xs : Prop :=
  match xs with [] => True | x :: xs' => Forall (apart x) xs' ∧ all_apart xs' end.

Record layout_ok xs : Prop := LayoutOk {
  lo_extents : Forall extent_ok xs;
  lo_apart : all_apart xs;
  lo_total : file_bytes xs ≤ NUM_BLOCKS * BLOCK_SIZE;
}.

Lemma extent_bytes_bound x : extent_ok x → 0 < extent_bytes x ≤ NUM_BLOCKS * BLOCK_SIZE.
Proof. unfold extent_ok, extent_bytes, BLOCK_SIZE. lia. Qed.

Lemma file_bytes_app xs1 xs2 : file_bytes (xs1 ++ xs2) = file_bytes xs1 + file_bytes xs2.
Proof. induction xs1 as [|x xs1 IH]; simpl; [done|]. rewrite IH. lia. Qed.

Lemma file_bytes_nonneg xs : Forall extent_ok xs → 0 ≤ file_bytes xs.
Proof.
  induction 1 as [|x xs Hx _ IH]; simpl; [done|]. pose proof (extent_bytes_bound x Hx). lia.
Qed.

Lemma file_addr_app pre xs i :
  Forall extent_ok pre → 0 ≤ i → file_addr (pre ++ xs) (file_bytes pre + i) = file_addr xs i.
Proof.
  induction 1 as [|x pre Hx Hpre IH]; intros Hi; [done|]. cbn [app file_addr file_bytes].
  pose proof (extent_bytes_bound x Hx). pose proof (file_bytes_nonneg pre Hpre).
  rewrite decide_False by lia. rewrite decide_False by lia. rewrite <-(IH Hi). f_equal. lia.
Qed.

(** Addresses lie in an extent of the list. *)
Lemma file_addr_in xs i a :
  file_addr xs i = Some a →
  0 ≤ i ∧ ∃ x, x ∈ xs ∧ fe_offset x * BLOCK_SIZE ≤ a < (fe_offset x + fe_length x) * BLOCK_SIZE.
Proof.
  revert i. induction xs as [|x xs IH]; intros i; cbn [file_addr]; [done|].
  case_decide as H1; [|case_decide as H2; [done|]].
  - intros [= <-]. split; [lia|]. exists x. split; [by left|].
    unfold extent_bytes, BLOCK_SIZE in *. lia.
  - intros (_ & y & Hy & Ha)%IH. split; [lia|]. exists y. split; [by right|done].
Qed.

Lemma file_addr_range xs i a :
  Forall extent_ok xs → file_addr xs i = Some a → 0 ≤ a < NUM_BLOCKS * BLOCK_SIZE.
Proof.
  intros Hok (_ & x & Hx & Ha)%file_addr_in.
  pose proof (proj1 (Forall_forall _ _) Hok x Hx) as (H1 & H2 & H3).
  unfold BLOCK_SIZE, NUM_BLOCKS in *. lia.
Qed.

(** Distinct bytes of a file lie at distinct addresses. *)
Lemma file_addr_inj xs i j a :
  all_apart xs → file_addr xs i = Some a → file_addr xs j = Some a → i = j.
Proof.
  revert i j. induction xs as [|x xs IH]; intros i j; cbn [file_addr all_apart]; [done|].
  intros [Hx Hap].
  assert (∀ i', file_addr xs i' = Some a →
    ¬ (fe_offset x * BLOCK_SIZE ≤ a < fe_offset x * BLOCK_SIZE + extent_bytes x)) as Hno.
  { intros i' (_ & y & Hy & Ha)%file_addr_in.
    pose proof (proj1 (Forall_forall _ _) Hx y Hy) as Hxy.
    unfold apart, extent_bytes, BLOCK_SIZE in *. lia. }
  repeat (case_decide; try done); intros Hi Hj.
  - injection Hi as <-. injection Hj as Hj. lia.
  - injection Hi as <-. exfalso. eapply Hno; [done|]. lia.
  - injection Hj as <-. exfalso. eapply Hno; [done|]. lia.
  - pose proof (IH _ _ Hap Hi Hj). lia.
Qed.

(** The extent that holds a byte of the file. *)
Lemma file_split xs i :
  Forall extent_ok xs → 0 ≤ i < file_bytes xs →
  ∃ pre x post, xs = pre ++ x :: post ∧ file_bytes pre ≤ i < file_bytes pre + extent_bytes x.
Proof.
  intros Hok. revert i. induction Hok as [|x xs Hx Hok IH]; intros i Hi; simpl in Hi; [lia|].
  destruct (decide (i < extent_bytes x)) as [Hlt|Hge].
  - exists [], x, xs. simpl. split; [done|lia].
  - destruct (IH (i - extent_bytes x)) as (pre & y & post & -> & Hy); [lia|].
    exists (x :: pre), y, post. simpl. split; [done|lia].
Qed.

(** ** The copying loops *)

Section Loops.
Context (xs : list mtl_file_extent) (Hxs : layout_ok xs).

Let Hok : Forall extent_ok xs := lo_extents xs Hxs.

Lemma part_bound pre post : xs = pre ++ post → 0 ≤ file_bytes pre ≤ 2 ^ 27.
Proof using Hxs Hok.
  intros E. pose proof (lo_total xs Hxs) as Ht. pose proof Hok as Ho.
  rewrite E in Ht, Ho. rewrite file_bytes_app in Ht. apply Forall_app in Ho as [Hp Hq].
  pose proof (file_bytes_nonneg _ Hp). pose proof (file_bytes_nonneg _ Hq).
  unfold NUM_BLOCKS, BLOCK_SIZE in Ht. lia.
Qed.

Lemma one_ok pre x post : xs = pre ++ x :: post → extent_ok x.
Proof using Hok.
  intros E. pose proof Hok as Ho. rewrite E in Ho.
  by apply Forall_app in Ho as [_ [? _]%Forall_cons].
Qed.

Lemma seek_extent_run pre1 : ∀ fuel pre0 x post co,
  xs = pre0 ++ pre1 ++ x :: post → (length pre1 < fuel)%nat →
  file_bytes (pre0 ++ pre1) ≤ co < file_bytes (pre0 ++ pre1) + extent_bytes x →
  seek_extent fuel xs co (Z.of_nat (length pre0)) (file_bytes pre0)
  = Ok (Z.of_nat (length (pre0 ++ pre1)), file_bytes (pre0 ++ pre1), x).
Proof using Hxs Hok.
  induction pre1 as [|y pre1 IH]; intros [|fuel] pre0 x post co E Hf Hco; simpl in Hf; try lia.
  - rewrite app_nil_r in *. cbn [seek_extent]. rewrite Nat2Z.id.
    rewrite E at 1. simpl app. rewrite list_lookup_middle by done.
    pose proof (part_bound pre0 _ E). pose proof (one_ok pre0 x post E) as Hx.
    pose proof (extent_bytes_bound x Hx) as Hb. unfold extent_bytes in *.
    unfold NUM_BLOCKS, BLOCK_SIZE in *. u64_norm.
    by rewrite (proj2 (Z.leb_gt _ _)) by lia.
  - cbn [seek_extent]. rewrite Nat2Z.id. rewrite E at 1. simpl app.
    rewrite list_lookup_middle by done.
    pose proof (part_bound pre0 _ E). pose proof (one_ok pre0 y _ E) as Hy.
    pose proof (extent_bytes_bound y Hy) as Hb.
    assert (xs = (pre0 ++ [y]) ++ pre1 ++ x :: post) as E' by (by rewrite E, <-app_assoc).
    pose proof (part_bound _ _ E') as Hb'. rewrite file_bytes_app in Hb'. simpl in Hb'.
    assert (xs = (pre0 ++ [y] ++ pre1) ++ x :: post) as E2 by (by rewrite E, <-!app_assoc).
    assert (file_bytes (pre0 ++ y :: pre1) = file_bytes pre0 + extent_bytes y + file_bytes pre1)
      as Hsum by (rewrite file_bytes_app; simpl; lia).
    assert (0 ≤ file_bytes pre1) as Hp1.
    { apply file_bytes_nonneg. pose proof Hok as Ho. rewrite E' in Ho.
      by apply Forall_app in Ho as [_ [? _]%Forall_app]. }
    fold (extent_bytes y).
    assert (u64 (extent_bytes y) = extent_bytes y) as -> by (apply u64_small; unfold in_u64; lia).
    u64_norm. rewrite (proj2 (Z.leb_le _ _)) by lia.
    rewrite (proj2 (Z.ltb_lt _ _)).
    2: { rewrite E, !length_app. simpl. lia. }
    replace (Z.of_nat (length pre0) + 1) with (Z.of_nat (length (pre0 ++ [y])))
      by (rewrite length_app; simpl; lia).
    replace (file_bytes pre0 + extent_bytes y) with (file_bytes (pre0 ++ [y]))
      by (rewrite file_bytes_app; simpl; lia).
    rewrite (IH fuel (pre0 ++ [y]) x post co E') by (lia || by rewrite <-app_assoc).
    by rewrite <-app_assoc.
Qed.

(** The pieces cover [left] bytes from [co] on, each at its address. *)
Fixpoint covers (co left : Z) (segs : list (Z * Z * Z)) : Prop :=
  match segs with
  | [] => left = 0
  | (o, a, n) :: segs' =>
      o = co ∧ 0 < n ≤ left ∧
      (∀ j, 0 ≤ j < n → file_addr xs (co + j) = Some (a + j)) ∧
      covers (co + n) (left - n) segs'
  end.

(** Where a byte inside the extent [x] is. *)
Lemma address_inside pre x post co j : xs = pre ++ x :: post →
  file_bytes pre ≤ co → 0 ≤ j → co - file_bytes pre + j < extent_bytes x →
  file_addr xs (co + j) = Some (fe_offset x * BLOCK_SIZE + (co - file_bytes pre) + j).
Proof using Hok.
  intros E Hco Hj Hx. rewrite E. pose proof Hok as Ho. rewrite E in Ho.
  apply Forall_app in Ho as [Hp _].
  replace (co + j) with (file_bytes pre + (co - file_bytes pre + j)) by lia.
  rewrite file_addr_app by (done || lia). cbn [file_addr].
  rewrite decide_True by lia. f_equal. lia.
Qed.

Lemma segments_run : ∀ fuel pre0 pre1 x post co left,
  xs = pre0 ++ pre1 ++ x :: post → (length post < fuel)%nat →
  file_bytes (pre0 ++ pre1) ≤ co < file_bytes (pre0 ++ pre1) + extent_bytes x →
  0 < left → co + left ≤ file_bytes xs →
  ∃ segs, segments fuel xs co left (Z.of_nat (length pre0)) (file_bytes pre0) = Ok segs ∧
    covers co left segs.
Proof using Hxs Hok.
  induction fuel as [|fuel IH]; intros pre0 pre1 x post co left E Hf Hco Hl Ht; [lia|].
  cbn [segments]. rewrite (proj2 (Z.leb_gt _ _)) by lia.
  rewrite (seek_extent_run pre1 _ pre0 x post co E); [| |done].
  2: { rewrite E, !length_app. simpl. lia. }
  unfold mbind at 1, result_bind at 1.
  set (pre := pre0 ++ pre1) in *.
  assert (xs = pre ++ x :: post) as E' by (unfold pre; by rewrite <-app_assoc).
  pose proof (part_bound pre _ E') as Hpb. pose proof (one_ok pre x post E') as Hx.
  pose proof (extent_bytes_bound x Hx) as Hb.
  pose proof (lo_total xs Hxs) as Htot.
  assert (0 ≤ fe_offset x * BLOCK_SIZE ≤ 2 ^ 27) as Hoff.
  { destruct Hx as (? & ? & ?). unfold NUM_BLOCKS, BLOCK_SIZE in *. lia. }
  fold (extent_bytes x).
  assert (NUM_BLOCKS * BLOCK_SIZE = 2 ^ 27) as Hnum by done.
  assert (u64 (extent_bytes x) = extent_bytes x) as -> by (apply u64_small; unfold in_u64; lia).
  assert (u64 (fe_offset x * BLOCK_SIZE) = fe_offset x * BLOCK_SIZE) as ->
    by (apply u64_small; unfold in_u64; lia).
  rewrite (u64_small (co - _)) by (unfold in_u64; lia).
  rewrite (u64_small (extent_bytes x - _)) by (unfold in_u64; lia).
  rewrite (u64_small (fe_offset x * BLOCK_SIZE + _)) by (unfold in_u64; lia).
  set (len := if left <? _ then _ else _).
  assert (len = Z.min left (extent_bytes x - (co - file_bytes pre))) as Hlen.
  { unfold len. destruct (Z.ltb_spec left (extent_bytes x - (co - file_bytes pre))); lia. }
  rewrite (u64_small (co + _)) by (unfold in_u64; lia).
  rewrite (u64_small (left - _)) by (unfold in_u64; lia).
  assert (∀ j, 0 ≤ j < len →
    file_addr xs (co + j) = Some (fe_offset x * BLOCK_SIZE + (co - file_bytes pre) + j)) as Haddr
    by (intros j Hj; apply (address_inside pre x post co j E'); lia).
  destruct (decide (left = len)) as [El|Hne].
  - replace (left - len) with 0 by lia.
    destruct fuel; cbn [segments Z.leb]; (eexists; split; [done|]);
      cbn [covers]; (split; [done|split; [lia|split; [done|lia]]]).
  - destruct post as [|x2 post2].
    { exfalso. rewrite E', file_bytes_app in Ht. simpl in Ht. lia. }
    assert (co + len = file_bytes (pre ++ [x])) as Hnext
      by (rewrite file_bytes_app; simpl; lia).
    pose proof (one_ok (pre ++ [x]) x2 post2) as Hx2.
    destruct (IH pre [x] x2 post2 (co + len) (left - len)) as (segs & Hr & Hc).
    + by rewrite E'.
    + simpl in Hf. lia.
    + rewrite <-Hnext. pose proof (extent_bytes_bound x2).
      destruct Hx2 as (? & ? & ?); [by rewrite E', <-app_assoc|].
      unfold extent_bytes, BLOCK_SIZE. lia.
    + lia.
    + lia.
    + rewrite Hr. eexists. split; [done|]. cbn [covers].
      split; [done|split; [lia|split; [done|done]]].
Qed.

(** From the beginning of the extent list. *)
Lemma segments_start offset len :
  0 ≤ offset → 0 < len → offset + len ≤ file_bytes xs →
  ∃ segs, segments (S (length xs)) xs offset len 0 0 = Ok segs ∧ covers offset len segs.
Proof using Hxs Hok.
  intros Ho Hl Ht. destruct (file_split xs offset Hok) as (pre & x & post & E & Hx); [lia|].
  apply (segments_run (S (length xs)) [] pre x post); try done.
  rewrite E, length_app. simpl. lia.
Qed.
End Loops.

(** ** Reading and writing the pieces *)

Section Copies.
Context (xs : list mtl_file_extent) (Hxs : layout_ok xs).
Implicit Types (m : Z → Z) (segs : list (Z * Z * Z)).

Lemma piece_in_buffer co a n :
  0 < n → (∀ j, 0 ≤ j < n → file_addr xs (co + j) = Some (a + j)) → in_buffer a n = true.
Proof using Hxs.
  intros Hn Ha. pose proof (file_addr_range xs _ _ (lo_extents xs Hxs) (Ha 0 ltac:(lia))).
  pose proof (file_addr_range xs _ _ (lo_extents xs Hxs) (Ha (n - 1) ltac:(lia))).
  unfold in_buffer. rewrite (proj2 (Z.leb_le _ _)) by lia. simpl. apply Z.leb_le. lia.
Qed.

Lemma mem_write_at m a bytes j :
  0 ≤ j < Z.of_nat (length bytes) → mem_write m a bytes (a + j) = nth (Z.to_nat j) bytes 0.
Proof.
  intros Hj. unfold mem_write. rewrite (proj2 (Z.leb_le _ _)) by lia.
  rewrite (proj2 (Z.ltb_lt _ _)) by lia. simpl. f_equal. lia.
Qed.

Lemma mem_write_other m a bytes b :
  ¬ (a ≤ b < a + Z.of_nat (length bytes)) → mem_write m a bytes b = m b.
Proof.
  intros Hb. unfold mem_write. destruct (_ && _) eqn:E; [|done]. to_prop. lia.
Qed.

Lemma nth_slice (l : list Z) (o n j : Z) :
  0 ≤ o → 0 ≤ j < n → nth (Z.to_nat j) (take (Z.to_nat n) (drop (Z.to_nat o) l)) 0
                      = nth (Z.to_nat (o + j)) l 0.
Proof.
  intros Ho Hj. rewrite !nth_lookup. rewrite lookup_take_lt by lia. rewrite lookup_drop.
  do 2 f_equal. lia.
Qed.

Lemma write_segments_run buffer offset segs : ∀ m co left,
  covers xs co left segs → 0 ≤ offset ≤ co →
  co + left ≤ offset + Z.of_nat (length buffer) →
  ∃ m', write_segments m buffer offset segs = Ok m' ∧
    (∀ a, (∀ i, co ≤ i < co + left → file_addr xs i ≠ Some a) → m' a = m a) ∧
    (∀ i a, co ≤ i < co + left → file_addr xs i = Some a →
       m' a = nth (Z.to_nat (i - offset)) buffer 0).
Proof using Hxs.
  induction segs as [|[[o a] n] segs IH]; intros m co left Hc Ho Hl; cbn [covers] in Hc.
  - exists m. split; [done|]. split; [done|]. intros. lia.
  - destruct Hc as (-> & Hn & Ha & Hrest). cbn [write_segments].
    rewrite (piece_in_buffer co) by (done || lia).
    unfold read_bytes. rewrite (proj2 (Z.leb_le 0 _)) by lia.
    rewrite (proj2 (Z.leb_le 0 _)) by lia. rewrite (proj2 (Z.leb_le _ (Z.of_nat _))) by lia.
    unfold mbind at 1, result_bind at 1. cbn [andb].
    set (bytes := take _ _).
    assert (Z.of_nat (length bytes) = n) as Hlen.
    { unfold bytes. rewrite length_take, length_drop. lia. }
    destruct (IH (mem_write m a bytes) (co + n) (left - n)) as (m' & Hw & Hout & Hin);
      [done|lia|lia|].
    exists m'. split; [done|]. split.
    + intros b Hb. rewrite Hout by (intros i Hi; apply Hb; lia).
      apply mem_write_other. rewrite Hlen. intros Hab.
      apply (Hb (co + (b - a))); [lia|]. rewrite Ha by lia. f_equal. lia.
    + intros i b Hi Hib. destruct (decide (i < co + n)) as [Hlt|Hge].
      * rewrite Hout.
        2: { intros i2 Hi2 Hib2.
             pose proof (file_addr_inj xs _ _ _ (lo_apart xs Hxs) Hib Hib2). lia. }
        assert (b = a + (i - co)) as ->.
        { pose proof (Ha (i - co) ltac:(lia)) as Hai.
          replace (co + (i - co)) with i in Hai by lia. congruence. }
        rewrite mem_write_at by lia. unfold bytes. rewrite nth_slice by lia.
        do 2 f_equal. lia.
      * apply Hin; [lia|done].
Qed.

(** The bytes of the file from [co] on. *)
Definition file_read m (co : Z) (n : nat) : list Z :=
  (λ i, m (default 0 (file_addr xs (co + Z.of_nat i)))) <$> seq 0 n.

Lemma file_read_app m co n1 n2 :
  file_read m co (n1 + n2) = file_read m co n1 ++ file_read m (co + Z.of_nat n1) n2.
Proof.
  unfold file_read. rewrite seq_app, fmap_app. f_equal.
  replace (0 + n1)%nat with (n1 + 0)%nat by lia. rewrite <-(fmap_add_seq n1 0 n2), <-list_fmap_compose. apply list_fmap_ext.
  intros _ i _. simpl. do 3 f_equal. lia.
Qed.

Lemma read_segments_run m segs : ∀ co left,
  covers xs co left segs → 0 ≤ left →
  read_segments m segs = Ok (file_read m co (Z.to_nat left)).
Proof using Hxs.
  induction segs as [|[[o a] n] segs IH]; intros co left Hc Hl; cbn [covers] in Hc.
  - by subst.
  - destruct Hc as (-> & Hn & Ha & Hrest). cbn [read_segments].
    rewrite (piece_in_buffer co) by (done || lia).
    rewrite (IH _ _ Hrest) by lia. unfold mbind, result_bind, mret, result_ret. f_equal.
    replace (Z.to_nat left) with (Z.to_nat n + Z.to_nat (left - n))%nat by lia.
    rewrite file_read_app, Z2Nat.id by lia. f_equal. unfold mem_read, file_read.
    apply list_fmap_ext. intros ? i [-> Hi]%lookup_seq. cbn [Nat.add]. by rewrite Ha by lia.
Qed.
End Copies.

(** ** The backend's operations *)

Section Operations.
Context `{Lmdb} `{Machine} (malloc : Z → Z).
Implicit Types (s : store) (env : mdb_env txn).

(** The buffer the call works on: allocated on the first use. *)
Definition contents s : Z → Z := default malloc (st_buffer s).

Lemma prepare_run env inode_id offset len s xs file_length res :
  Metal.load_extent_list env inode_id = Ok (res, Some (xs, file_length)) →
  0 ≤ offset → 0 ≤ len → offset + len < NUM_BLOCKS * BLOCK_SIZE →
  prepare malloc env inode_id offset len s = Ok (contents s, Store (Some (contents s)) xs).
Proof.
  intros Hload Ho Hl Hr. unfold prepare.
  rewrite (u64_small (offset + len)) by (unfold in_u64, NUM_BLOCKS, BLOCK_SIZE in *; lia).
  rewrite (proj2 (Z.ltb_lt _ _)) by done.
  unfold mbind, M_bind, m_modify, c_assert, m_lift, m_get, mret, M_ret. rewrite Hload.
  unfold contents. by destruct s as [[m|] xs0].
Qed.

Lemma write_run env inode_id offset buffer size s xs file_length res :
  Metal.load_extent_list env inode_id = Ok (res, Some (xs, file_length)) → layout_ok xs →
  0 ≤ offset → 0 < size ≤ Z.of_nat (length buffer) →
  offset + size ≤ file_bytes xs → offset + size < NUM_BLOCKS * BLOCK_SIZE →
  ∃ m', mtl_storage_write malloc env inode_id offset buffer size s
        = Ok (MTL_SUCCESS, Store (Some m') xs) ∧
    (∀ a, (∀ i, offset ≤ i < offset + size → file_addr xs i ≠ Some a) → m' a = contents s a) ∧
    (∀ i a, offset ≤ i < offset + size → file_addr xs i = Some a →
       m' a = nth (Z.to_nat (i - offset)) buffer 0).
Proof.
  intros Hload Hxs Ho Hs Hf Hr. unfold mtl_storage_write.
  assert (0 ≤ size) as Hs0 by lia.
  rewrite (bind_run _ _ _ _ _ (prepare_run env inode_id offset size s xs _ _ Hload Ho Hs0 Hr)).
  destruct (segments_start xs Hxs offset size) as (segs & Hsegs & Hc); [lia..|].
  destruct (write_segments_run xs Hxs buffer offset segs (contents s) offset size)
    as (m' & Hw & Hout & Hin); [done|lia|lia|].
  exists m'. split; [|done].
  unfold mbind, M_bind, m_get, m_put, m_lift, mret, M_ret. cbn [st_extents].
  by rewrite Hsegs, Hw.
Qed.

Lemma read_run env inode_id offset size s xs file_length res :
  Metal.load_extent_list env inode_id = Ok (res, Some (xs, file_length)) → layout_ok xs →
  0 ≤ offset → 0 < size → offset + size ≤ file_bytes xs →
  offset + size < NUM_BLOCKS * BLOCK_SIZE →
  mtl_storage_read malloc env inode_id offset size s
  = Ok ((MTL_SUCCESS, file_read xs (contents s) offset (Z.to_nat size)),
        Store (Some (contents s)) xs).
Proof.
  intros Hload Hxs Ho Hs Hf Hr. unfold mtl_storage_read.
  assert (0 ≤ size) as Hs0 by lia.
  rewrite (bind_run _ _ _ _ _ (prepare_run env inode_id offset size s xs _ _ Hload Ho Hs0 Hr)).
  destruct (segments_start xs Hxs offset size) as (segs & Hsegs & Hc); [lia..|].
  unfold mbind, M_bind, m_get, m_lift, mret, M_ret. cbn [st_extents].
  by rewrite Hsegs, (read_segments_run xs Hxs _ segs offset size Hc Hs0).
Qed.

Lemma file_addr_total xs i : 0 ≤ i < file_bytes xs → is_Some (file_addr xs i).
Proof.
  revert i. induction xs as [|x xs IH]; intros i Hi; cbn [file_addr file_bytes] in *; [lia|].
  case_decide; [done|]. case_decide; [lia|]. apply IH. lia.
Qed.

Lemma file_read_written xs m' offset buffer (size o : Z) (n : nat) :
  (∀ i a, offset ≤ i < offset + size → file_addr xs i = Some a →
     m' a = nth (Z.to_nat (i - offset)) buffer 0) →
  0 ≤ offset ≤ o → o + Z.of_nat n ≤ offset + size → size ≤ Z.of_nat (length buffer) →
  offset + size ≤ file_bytes xs →
  file_read xs m' o n = take n (drop (Z.to_nat (o - offset)) buffer).
Proof.
  intros Hm Ho Hn Hs Hf. apply list_eq_same_length with n.
  - rewrite length_take, length_drop. lia.
  - unfold file_read. by rewrite length_fmap, length_seq.
  - intros j x y Hj. unfold file_read.
    rewrite list_lookup_fmap, lookup_seq_lt by lia. cbn [fmap option_fmap option_map].
    rewrite lookup_take_lt by lia. rewrite lookup_drop. intros [= <-] Hy.
    destruct (file_addr_total xs (o + Z.of_nat j)) as [a Ha]; [lia|].
    cbn [Nat.add]. rewrite Ha. cbn [default from_option id].
    rewrite (Hm (o + Z.of_nat j) a) by (done || lia).
    rewrite nth_lookup.
    replace (Z.to_nat (o + Z.of_nat j - offset)) with (Z.to_nat (o - offset) + j)%nat by lia.
    by rewrite Hy.
Qed.

Lemma file_read_length xs m o (n : nat) : length (file_read xs m o n) = n.
Proof. unfold file_read. by rewrite length_fmap, length_seq. Qed.

Lemma file_read_nth xs m o (n : nat) i : 0 ≤ i < Z.of_nat n →
  nth (Z.to_nat i) (file_read xs m o n) 0 = m (default 0 (file_addr xs (o + i))).
Proof.
  intros Hi. rewrite nth_lookup. unfold file_read. rewrite list_lookup_fmap, lookup_seq_lt by lia.
  cbn [fmap option_fmap option_map default from_option id Nat.add]. by rewrite Z2Nat.id by lia.
Qed.

(** What reading a range gives when the bytes of another one were replaced. *)
Lemma file_read_after xs m m' offset buffer (size o : Z) (n : nat) i :
  layout_ok xs →
  (∀ a, (∀ i, offset ≤ i < offset + size → file_addr xs i ≠ Some a) → m' a = m a) →
  (∀ i a, offset ≤ i < offset + size → file_addr xs i = Some a →
     m' a = nth (Z.to_nat (i - offset)) buffer 0) →
  0 ≤ o → o + Z.of_nat n ≤ file_bytes xs → 0 ≤ i < Z.of_nat n →
  nth (Z.to_nat i) (file_read xs m' o n) 0 =
    if decide (offset ≤ o + i < offset + size) then nth (Z.to_nat (o + i - offset)) buffer 0
    else nth (Z.to_nat i) (file_read xs m o n) 0.
Proof.
  intros Hxs Hout Hin Ho Hn Hi. rewrite !file_read_nth by done.
  destruct (file_addr_total xs (o + i)) as [a Ha]; [lia|]. rewrite Ha. cbn [default from_option id].
  case_decide as Hd; [by apply Hin|]. apply Hout. intros k Hk Hka.
  pose proof (file_addr_inj xs _ _ a (lo_apart _ Hxs) Ha Hka). lia.
Qed.
End Operations.

(** ** The properties of the backend *)

Section Claims.
Context `{Lmdb} `{Machine} (malloc : Z → Z).

(** Writing inside the blocks of a file, however many extents the range
    crosses, succeeds and is exactly the update of the file's bytes: every
    byte of the range holds the buffer's byte, every other byte of the file
    and of the volume is what it was. *)
Theorem storage_write_refines env inode_id offset buffer size s xs file_length res :
  Metal.load_extent_list env inode_id = Ok (res, Some (xs, file_length)) → layout_ok xs →
  0 ≤ offset → 0 < size ≤ Z.of_nat (length buffer) →
  offset + size ≤ file_bytes xs → offset + size < NUM_BLOCKS * BLOCK_SIZE →
  ∃ m', mtl_storage_write malloc env inode_id offset buffer size s
        = Ok (MTL_SUCCESS, Store (Some m') xs) ∧
    (∀ i a, file_addr xs i = Some a →
       m' a = if decide (offset ≤ i < offset + size)
              then nth (Z.to_nat (i - offset)) buffer 0 else contents malloc s a) ∧
    (∀ a, (∀ i, file_addr xs i ≠ Some a) → m' a = contents malloc s a).
Proof.
  intros Hload Hxs Ho Hs Hf Hr.
  destruct (write_run malloc env inode_id offset buffer size s xs _ _ Hload Hxs Ho Hs Hf Hr)
    as (m' & Hw & Hout & Hin).
  exists m'. split; [done|]. split; [|intros a Ha; apply Hout; naive_solver].
  intros i a Ha. case_decide as Hi; [by apply Hin|].
  apply Hout. intros j Hj Hja.
  pose proof (file_addr_inj xs i j a (lo_apart _ Hxs) Ha Hja) as ->. lia.
Qed.


(** The range check of the backend is one byte too strict: a transfer
    that ends exactly at the end of the volume fails the assertion. *)
Theorem storage_rejects_last_byte env inode_id offset buffer size s :
  0 ≤ offset → 0 ≤ size → offset + size = NUM_BLOCKS * BLOCK_SIZE →
  mtl_storage_write malloc env inode_id offset buffer size s = Fault AssertFail ∧
  mtl_storage_read malloc env inode_id offset size s = Fault AssertFail.
Proof.
  intros Ho Hs Ht.
  assert (prepare malloc env inode_id offset size s = Fault AssertFail) as Hp.
  { unfold prepare. rewrite Ht. rewrite (u64_small (NUM_BLOCKS * BLOCK_SIZE)) by done.
    rewrite Z.ltb_irrefl. done. }
  split; [unfold mtl_storage_write | unfold mtl_storage_read]; by apply bind_fault.
Qed.
End Claims.

(** ** A file of two extents *)

Module Demo.
#[local] Instance machine : Machine :=
  {| stack_limit := 8388608; garbage := λ _, 170; uninit := λ _, 4711 |}.

Definition two : list mtl_file_extent := [FileExtent 6 1; FileExtent 2 2].

Definition with_file : txn :=
  set_inodes (mdb_put mdb_empty 3 (InodeDb.fresh_inode MTL_FILE 7 33188, extents_bytes two))
    empty_txn.

Definition env : mdb_env txn := (with_file, false).

Lemma load_two : Metal.load_extent_list env 3 = Ok (MTL_SUCCESS, Some (two, 0)).
Proof. vm_compute. reflexivity. Qed.

Lemma two_ok : layout_ok two.
Proof.
  split; [| |vm_compute; congruence].
  - repeat constructor; vm_compute; congruence.
  - split; [|by split]. apply Forall_singleton. right. vm_compute. congruence.
Qed.

Definition five : list Z := [1; 2; 3; 4; 5].
End Demo.
#[local] Existing Instance Demo.machine.

(** The range crosses the border between the extents. *)
Lemma storage_write_refines_witness :
  ∃ m', mtl_storage_write (λ _, 0) Demo.env 3 4094 Demo.five 5 (Store None [])
        = Ok (MTL_SUCCESS, Store (Some m') Demo.two) ∧
    m' (6 * 4096 + 4095) = 2 ∧ m' (2 * 4096) = 3 ∧ m' 0 = 0.
Proof.
  destruct (storage_write_refines (λ _, 0) Demo.env 3 4094 Demo.five 5
    (Store None []) Demo.two 0 MTL_SUCCESS Demo.load_two Demo.two_ok)
    as (m' & Hw & Hin & Hout); [lia|simpl; lia|vm_compute; congruence|vm_compute; reflexivity|].
  exists m'. split; [exact Hw|]. split; [|split].
  - rewrite (Hin 4095 _) by (vm_compute; reflexivity). reflexivity.
  - rewrite (Hin 4096 _) by (vm_compute; reflexivity). reflexivity.
  - rewrite Hout; [reflexivity|]. intros i (_ & x & Hx & Ha)%file_addr_in.
    unfold Demo.two in Hx. rewrite !elem_of_cons in Hx. unfold BLOCK_SIZE in Ha.
    destruct Hx as [->|[->|[]%elem_of_nil]]; simpl in Ha; lia.
Defined.


Lemma storage_rejects_last_byte_witness :
  mtl_storage_write (λ _, 0) Demo.env 3 134217727 [1] 1 (Store None [])
  = Fault AssertFail ∧
  mtl_storage_read (λ _, 0) Demo.env 3 134217727 1 (Store None [])
  = Fault AssertFail.
Proof.
  apply (storage_rejects_last_byte (λ _, 0) Demo.env 3 134217727 [1] 1 (Store None []));
    [lia|lia|reflexivity].
Defined.
End Backend.
