(* ===== verification/FileProofs.v ===== *)
(** * File contents: growing, reading, truncating and removing files

    The operations of metal.c that combine the inodes with the allocator and
    the storage backend. *)
From S2P Require Import Prelude Lmdb Structs Extent ExtentInv AllocProofs Dirent Inode InodeProofs Path Metal File Storage Namespace StorageProofs.

Module Files.
Import Dir Metal File Ns.

(** ** Numbers of blocks *)

Definition blocks_up (bytes block_size : Z) : Z := (bytes + block_size - 1) / block_size.

Lemma blocks_up_spec bytes bs :
  0 ≤ bytes → 0 < bs →
  blocks_up bytes bs * bs - bs < bytes ≤ blocks_up bytes bs * bs ∧ 0 ≤ blocks_up bytes bs.
Proof.
  intros Hb Hbs. unfold blocks_up.
  pose proof (Z.div_mod (bytes + bs - 1) bs). pose proof (Z.mod_pos_bound (bytes + bs - 1) bs).
  split; [nia|]. apply Z.div_pos; lia.
Qed.

Lemma blocks_of_run {S} bytes bs (s : S) :
  0 ≤ bytes < 2 ^ 63 → 0 < bs → blocks_of bytes bs s = Ok (blocks_up bytes bs, s).
Proof.
  intros Hb Hbs. unfold blocks_of, c_div. rewrite (proj2 (Z.eqb_neq bs 0)) by lia.
  unfold mbind, M_bind, mret, M_ret. do 2 f_equal. unfold blocks_up.
  pose proof (Z.div_mod bytes bs ltac:(lia)) as Hd. pose proof (Z.mod_pos_bound bytes bs Hbs) as Hm.
  assert (0 ≤ bytes / bs) by (apply Z.div_pos; lia).
  assert (bytes / bs ≤ bytes) by (apply Z.div_le_upper_bound; nia).
  destruct (Z.eqb_spec (bytes mod bs) 0) as [E|E]; cbn [negb].
  - apply (Z.div_unique _ _ _ (bs - 1)); lia.
  - u64_norm. apply (Z.div_unique _ _ _ (bytes mod bs - 1)); lia.
Qed.

Lemma blocks_up_pos bytes bs : 0 < bytes → 0 < bs → 0 < blocks_up bytes bs.
Proof. intros Hb Hbs. destruct (blocks_up_spec bytes bs); nia. Qed.

Section Inodes.
Context `{LmdbLaws} `{Machine}.
Implicit Types (t : txn) (id : Z).

(** Inode [id] is a file with the extents [xs]. *)
Record file_at t id (ino : mtl_inode) (xs : list mtl_file_extent) : Prop := FileAt {
  fa_get : mdb_get (tx_inodes t) id = Some (ino, extents_bytes xs);
  fa_type : i_type ino = MTL_FILE;
  fa_ok : Forall file_extent_ok xs;
}.

Lemma extents_count xs :
  Z.of_nat (length (extents_bytes xs)) / sizeof_file_extent = Z.of_nat (length xs).
Proof.
  rewrite length_extents_bytes, Nat2Z.inj_mul. unfold sizeof_file_extent.
  rewrite Z.mul_comm. by apply Z.div_mul.
Qed.

Lemma load_file_run t id ino xs :
  file_at t id ino xs →
  InodeDb.mtl_load_file id t
  = Ok ((MTL_SUCCESS, Some (ino, extents_bytes xs), Z.of_nat (length xs)), t).
Proof.
  intros [Hg _ _]. unfold InodeDb.mtl_load_file. run_step (load_inode_run t id).
  rewrite Hg. unfold mret, M_ret. by rewrite extents_count.
Qed.

Lemma loaded_extents_run ino xs :
  Forall file_extent_ok xs →
  loaded_extents (Some (ino, extents_bytes xs)) (Z.of_nat (length xs)) = xs.
Proof.
  intros Hx. unfold loaded_extents. rewrite Nat2Z.id.
  rewrite <-(app_nil_r (extents_bytes xs)). by apply read_extents_bytes.
Qed.

Lemma read_all_extents xs :
  read_bytes (extents_bytes xs) 0 (Z.of_nat (length xs) * 16) = Ok (extents_bytes xs).
Proof.
  replace (Z.of_nat (length xs) * 16) with (Z.of_nat (length (extents_bytes xs)))
    by (rewrite length_extents_bytes; lia).
  apply read_bytes_all.
Qed.

(** Adding the first extent of a file. *)
Lemma add_extent_run t id ino xs x n :
  file_at t id ino xs → file_extent_ok x →
  sizeof_inode + 32 * (Z.of_nat (length xs) + 1) ≤ stack_limit < 2 ^ 40 →
  let t' := set_inodes (mdb_put (tx_inodes t) id (with_length ino n, extents_bytes (xs ++ [x]))) t in
  InodeDb.mtl_add_extent_to_file id x n t = Ok (MTL_SUCCESS, t') ∧
  file_at t' id (with_length ino n) (xs ++ [x]).
Proof.
  intros Hf Hx Hs t'. pose proof Hf as [Hg Ht Ho]. unfold sizeof_inode in Hs. split.
  - unfold InodeDb.mtl_add_extent_to_file. run_step (load_file_run t id ino xs Hf).
    unfold c_deref. rewrite (bind_run _ _ _ _ _ (ret_run _ t)).
    unfold sizeof_file_extent. u64_norm. rewrite vla_bind by lia.
    rewrite read_all_extents.
    rewrite (bind_run _ _ _ _ _ (lift_run _ t)).
    assert (extents_bytes xs ++ file_extent_bytes x = extents_bytes (xs ++ [x])) as ->
      by (rewrite extents_bytes_app; f_equal; symmetry; apply app_nil_r).
    apply put_inode_run; [lia|]. rewrite length_extents_bytes, length_app. unfold sizeof_inode. simpl. lia.
  - split; [simpl; by rewrite mdb_get_put_eq|done|]. apply Forall_app. split; [done|].
    by apply Forall_singleton.
Qed.
End Inodes.

(** ** Growing a file *)

Section Growing.
Context `{LmdbLaws} `{Machine}.
Implicit Types (t : txn) (id : Z).

Lemma expand_loop_done fuel bs id bytes blocks current last t :
  blocks ≤ current → expand_loop fuel bs id bytes blocks current last t = Ok (tt, t).
Proof. intros Hle. destruct fuel; cbn [expand_loop]; by rewrite (proj2 (Z.ltb_ge _ _)). Qed.

(** Enough blocks are allocated: nothing happens at all. *)
Lemma expand_noop bs id xs size t :
  0 ≤ size < 2 ^ 63 → 0 < bs → blocks_up size bs ≤ total_blocks xs →
  mtl_expand_inode bs id xs size t = Ok (MTL_SUCCESS, t).
Proof.
  intros Hs Hbs Hle. unfold mtl_expand_inode. run_step (blocks_of_run size bs t Hs Hbs).
  by run_step (expand_loop_done (Z.to_nat (blocks_up size bs - total_blocks xs)) bs id size _ _
    (default (FileExtent 0 0) (last xs)) t Hle).
Qed.

(** No block is free: the assertion that ends the process. *)
Lemma expand_full N bs id size t :
  Alloc.inv N t → Alloc.no_free t → 0 < size < 2 ^ 63 → 0 < bs →
  mtl_expand_inode bs id [] size t = Fault AssertFail.
Proof.
  intros Hi Hno Hs Hbs. unfold mtl_expand_inode.
  run_step (blocks_of_run size bs t ltac:(lia) Hbs).
  pose proof (blocks_up_pos size bs ltac:(lia) Hbs) as Hpos.
  destruct (blocks_up_spec size bs) as [Hb _]; [lia|lia|].
  assert (blocks_up size bs < 2 ^ 63 + 1) by nia.
  apply bind_fault. cbn [total_blocks foldl last default from_option].
  rewrite Z.sub_0_r.
  destruct (Z.to_nat (blocks_up size bs)) as [|fuel] eqn:Ef; [lia|]. cbn [expand_loop].
  rewrite (proj2 (Z.ltb_lt _ _)) by lia. cbn [negb fe_length Z.eqb].
  rewrite Z.sub_0_r, (u64_small (blocks_up size bs)) by (unfold in_u64; lia).
  destruct (Alloc.reserve_pop_run N t Hi) as [(Hl & _ & Hp)|(o & e & t' & Hl & He & Hf & _)].
  - unfold ExtentDb.mtl_reserve_extent.
    rewrite (bind_run _ _ t (0, uninit "mtl_expand_inode.new_extent.offset") t).
    + done.
    + rewrite (bind_run _ _ _ _ _ (Alloc.append_none t)). by run_step Hp.
  - exfalso. pose proof (Alloc.inv_range N t o e Hi He). apply (Hno o). exists o, e.
    split; [done|]. split; [done|]. lia.
Qed.

(** A file without extents gets one, when the free extent that the heap
    gives holds all its blocks. *)
Lemma expand_first N bs id ino size o e t :
  Alloc.inv N t → file_at t id ino [] →
  mdb_cursor_last (tx_heap t) = Some (node_of o e, o) → Alloc.ext_of t o = Some e →
  0 < size < 2 ^ 62 → 0 < bs → blocks_up size bs ≤ ext_length e →
  blocks_up size bs * bs < 2 ^ 64 → 1024 ≤ stack_limit < 2 ^ 40 →
  let blocks := blocks_up size bs in
  ∃ t', mtl_expand_inode bs id [] size t = Ok (MTL_SUCCESS, t') ∧
    Alloc.inv N t' ∧ AllocSpec.reserves (Alloc.free_in t) o blocks (Alloc.free_in t') ∧
    file_at t' id (with_length ino size) [FileExtent o blocks] ∧
    tx_meta t' = tx_meta t ∧
    ∀ i, i ≠ id → mdb_get (tx_inodes t') i = mdb_get (tx_inodes t) i.
Proof.
  intros Hi Hf Hl He Hs Hbs Hle Hov Hst blocks.
  pose proof (blocks_up_pos size bs ltac:(lia) Hbs) as Hpos. fold blocks in Hpos, Hle, Hov.
  destruct (blocks_up_spec size bs) as [Hb _]; [lia|lia|]. fold blocks in Hb.
  pose proof (Alloc.inv_range N t o e Hi He) as Hr.
  pose proof (ai_bound _ _ _ Hi) as HN.
  unfold mtl_expand_inode. run_step (blocks_of_run size bs t ltac:(lia) Hbs). fold blocks.
  cbn [total_blocks foldl last default from_option]. rewrite Z.sub_0_r.
  destruct (Alloc.reserve_new_run N blocks true t None
    (uninit "mtl_expand_inode.new_extent.offset") Hi ltac:(lia) (Alloc.append_none t))
    as [[Hno _]|(o' & e' & t1 & Hl' & He' & Hres & Hrd)].
  { exfalso. destruct (Alloc.heap_last N t _ _ Hi Hl) as (e2 & He2 & Hf2 & _).
    rewrite He in He2. injection He2 as <-. apply (Hno o). exists o, e.
    split; [done|]. split; [done|]. lia. }
  rewrite Hl in Hl'. injection Hl' as Hnode <-. rewrite He in He'. injection He' as <-.
  rewrite Z.min_l in Hres, Hrd by lia.
  destruct Hrd as [Hinv [Hino Hmeta] Hresv Hext Hoth].
  assert (file_at t1 id ino []) as Hf1 by (destruct Hf; split; [by rewrite Hino|done|done]).
  assert (file_extent_ok (FileExtent o blocks)) as Hx by (split; simpl; lia).
  destruct (add_extent_run t1 id ino [] (FileExtent o blocks) size Hf1 Hx) as [Hadd Hf2];
    [unfold sizeof_inode; simpl; lia|].
  cbn zeta in Hadd, Hf2. simpl app in Hadd, Hf2.
  match type of Hadd with _ = Ok (_, ?t2) => set (t2' := t2) in * end.
  exists t2'. split.
  - assert (expand_loop (Z.to_nat blocks) bs id size blocks 0 (FileExtent 0 0) t
            = Ok (tt, t2')) as Hloop; [|by run_step Hloop].
    destruct (Z.to_nat blocks) as [|fuel] eqn:Ef; [lia|]. cbn [expand_loop].
    rewrite (proj2 (Z.ltb_lt _ _)) by lia. cbn [negb fe_length Z.eqb].
    rewrite Z.sub_0_r, (u64_small blocks) by (unfold in_u64; lia). run_step Hres.
    cbn [fe_length fe_offset]. rewrite (proj2 (Z.eqb_neq blocks 0)) by lia.
    cbn [negb c_assert andb]. rewrite (bind_run _ _ _ _ _ (ret_run _ t1)).
    rewrite Z.add_0_l, (u64_small blocks) by (unfold in_u64; lia).
    rewrite (u64_small (blocks * bs)) by (unfold in_u64; lia).
    rewrite (proj2 (Z.ltb_ge _ _)) by lia. run_step Hadd.
    by apply expand_loop_done.
  - split; [done|]. split; [done|]. split; [done|]. split; [done|].
    intros i Hne. simpl. by rewrite mdb_get_put_ne, Hino.
Qed.
End Growing.

(** ** Reading and writing files *)

Lemma read_length_spec file_length size offset :
  0 ≤ file_length → 0 ≤ size → 0 ≤ offset → offset + size < 2 ^ 64 →
  read_length file_length size offset = Z.max 0 (Z.min size (file_length - offset)).
Proof.
  intros. unfold read_length. u64_norm.
  destruct (Z.ltb_spec file_length offset); [lia|].
  destruct (Z.ltb_spec file_length (offset + size)); [|lia]. u64_norm. lia.
Qed.

Section Calls.
Context `{LmdbLaws} `{Machine} {B : Type} (storage : mtl_storage_backend B).
Abbreviation world := (world (B := B)).
Implicit Types (w : world) (t : txn) (id : Z).

Lemma load_extent_list_run env id ino xs :
  file_at (mdb_committed env) id ino xs → (length xs ≤ 512)%nat →
  load_extent_list env id = Ok (MTL_SUCCESS, Some (xs, i_length ino)).
Proof.
  intros Hf Hl. unfold load_extent_list. rewrite mdb_rdonly, (load_file_run _ _ _ _ Hf).
  unfold mbind, result_bind, mret, result_ret. cbn [negb Z.eqb MTL_SUCCESS].
  unfold MTL_MAX_EXTENTS. rewrite (proj2 (Z.ltb_ge _ _)) by lia.
  pose proof (loaded_extents_run ino xs (fa_ok _ _ _ _ Hf)) as Hx.
  unfold loaded_extents in Hx. by rewrite Hx.
Qed.

(** A read returns the number of bytes between the offset and the end of
    the file, at most what was asked for and 0 beyond the end, and puts
    exactly the bytes the backend has there at the beginning of the buffer. *)
Theorem read_clamps w id ino xs buffer size offset :
  let n := Z.max 0 (Z.min size (i_length ino - offset)) in
  file_at (committed w) id ino xs → 0 ≤ i_length ino → 0 ≤ size → 0 ≤ offset →
  offset + size < 2 ^ 64 → size ≤ Z.of_nat (length buffer) →
  (n = 0 → mtl_read storage id buffer size offset w = Ok ((0, buffer), w)) ∧
  ∀ r bytes b, 0 < n →
    st_read storage (w_env w) id offset n (w_store w) = Ok ((r, bytes), b) →
    Z.of_nat (length bytes) = n →
    mtl_read storage id buffer size offset w
    = Ok ((n, bytes ++ drop (Z.to_nat n) buffer), World (w_env w) (w_metadata w) b).
Proof.
  intros n Hf Hl Hs Ho Hov Hbuf.
  assert (∀ k, mtl_read storage id buffer size offset w = k →
    (if 0 <? n then
       w ← m_get;
       '(_, bytes) ← on_store (st_read storage (w_env w) id offset n);
       buffer ← m_lift (store_prefix buffer bytes); mret (n, buffer)
     else mret (n, buffer) : M world (Z * list Z)) w = k) as Hrun.
  { intros k <-. unfold mtl_read. run_step (rdonly_run w).
    rewrite (in_txn_bind _ _ _ _ _ _ (load_file_run _ _ _ _ Hf)).
    unfold c_deref. rewrite (bind_run _ _ _ _ _ (ret_run _ w)).
    rewrite read_length_spec by done. done. }
  rewrite <-(Hrun _ eq_refl). split.
  - intros ->. done.
  - intros r bytes b Hn Hst Hlen. rewrite (proj2 (Z.ltb_lt _ _)) by lia.
    rewrite (bind_run m_get _ w w w) by done.
    rewrite (bind_run _ _ w (r, bytes) (World (w_env w) (w_metadata w) b))
      by (unfold on_store; by rewrite Hst).
    assert (store_prefix buffer bytes = Ok (bytes ++ drop (Z.to_nat n) buffer)) as ->.
    { unfold store_prefix. rewrite (proj2 (Nat.leb_le _ _)) by lia. do 2 f_equal. f_equal. lia. }
    done.
Qed.

(** Growing the file and closing the transaction. *)
Lemma file_write_run w id ino xs buffer size offset t' :
  locked w = false → file_at (committed w) id ino xs →
  mtl_expand_inode (block_size (w_metadata w)) id xs (offset +ᵤ size) (committed w)
  = Ok (MTL_SUCCESS, t') →
  ∃ w2, committed w2 = t' ∧ locked w2 = false ∧ same_backend w w2 ∧
    mtl_write storage id buffer size offset w
    = (_ ← on_store (st_write storage (w_env w2) id offset buffer size); mret MTL_SUCCESS) w2.
Proof.
  intros Hl Hf He. destruct (begin_bind w Hl) as (w1 & Hc1 & Hl1 & [Hm1 Hs1] & Hbeg).
  destruct (commit_run t' w1) as (w2 & Hend & Hc2 & Hl2 & [Hm2 Hs2]).
  exists w2. split; [done|]. split; [done|]. split; [split; congruence|].
  unfold mtl_write. run_step Hbeg. rewrite (bind_run m_get _ w1 w1 w1) by done.
  rewrite (in_txn_bind _ _ _ _ _ _ (load_file_run _ _ _ _ Hf)).
  rewrite loaded_extents_run by apply Hf. rewrite Hm1.
  rewrite (in_txn_bind _ _ _ _ _ _ He). cbn [negb Z.eqb MTL_SUCCESS].
  run_step Hend. by rewrite (bind_run m_get _ w2 w2 w2).
Qed.

Lemma write_fault w id ino xs buffer size offset f :
  locked w = false → file_at (committed w) id ino xs →
  mtl_expand_inode (block_size (w_metadata w)) id xs (offset +ᵤ size) (committed w) = Fault f →
  mtl_write storage id buffer size offset w = Fault f.
Proof.
  intros Hl Hf He. destruct (begin_bind w Hl) as (w1 & Hc1 & Hl1 & [Hm1 Hs1] & Hbeg).
  unfold mtl_write. run_step Hbeg. rewrite (bind_run m_get _ w1 w1 w1) by done.
  rewrite (in_txn_bind _ _ _ _ _ _ (load_file_run _ _ _ _ Hf)).
  rewrite loaded_extents_run by apply Hf. rewrite Hm1.
  apply bind_fault. unfold in_txn, m_lift. by rewrite He.
Qed.

(** Writing to an empty file of a volume without a free block does not
    report an error: the assertion that something was allocated fails and the
    process aborts. *)
Theorem write_full_volume_aborts N w id ino buffer size offset :
  locked w = false → file_at (committed w) id ino [] →
  Alloc.inv N (committed w) → Alloc.no_free (committed w) →
  0 < block_size (w_metadata w) → 0 ≤ offset → 0 < size → offset + size < 2 ^ 63 →
  mtl_write storage id buffer size offset w = Fault AssertFail.
Proof.
  intros Hl Hf Hi Hno Hbs Ho Hs Hov. eapply write_fault; [done..|].
  rewrite u64_small by (unfold in_u64; lia). apply (expand_full N); (done || lia).
Qed.

(** A write that ends inside the blocks a file already has, even beyond
    its end, reports success and hands the bytes to the backend but leaves
    the length of the file as it was, so a read at the old end of the file
    finds none of them. *)
Theorem write_in_block_keeps_length w id ino xs buffer out size r b :
  locked w = false → file_at (committed w) id ino xs →
  0 < block_size (w_metadata w) → 0 ≤ i_length ino → 0 < size ≤ Z.of_nat (length out) →
  i_length ino + size < 2 ^ 63 →
  blocks_up (i_length ino + size) (block_size (w_metadata w)) ≤ total_blocks xs →
  (∀ env, mdb_committed env = committed w →
     st_write storage env id (i_length ino) buffer size (w_store w) = Ok (r, b)) →
  ∃ w', mtl_write storage id buffer size (i_length ino) w = Ok (MTL_SUCCESS, w') ∧
    committed w' = committed w ∧ locked w' = false ∧
    mtl_read storage id out size (i_length ino) w' = Ok ((0, out), w').
Proof.
  intros Hl Hf Hbs Hlen Hs Hov Hle Hst.
  pose proof (expand_noop (block_size (w_metadata w)) id xs (i_length ino + size) (committed w)
    ltac:(lia) Hbs Hle) as He.
  rewrite <-(u64_small (i_length ino + size)) in He by (unfold in_u64; lia).
  destruct (file_write_run w id ino xs buffer size _ _ Hl Hf He) as (w2 & Hc2 & Hl2 & [Hm2 Hs2] & Hw).
  exists (World (w_env w2) (w_metadata w2) b). split; [|split; [done|split; [done|]]].
  - rewrite Hw. rewrite (bind_run _ _ w2 r (World (w_env w2) (w_metadata w2) b)); [done|].
    unfold on_store. rewrite Hs2. by rewrite Hst.
  - set (w3 := World _ _ _).
    assert (file_at (committed w3) id ino xs) as Hf3 by (unfold w3, committed in *; simpl; by rewrite Hc2).
    unfold mtl_read. run_step (rdonly_run w3).
    rewrite (in_txn_bind _ _ _ _ _ _ (load_file_run _ _ _ _ Hf3)).
    unfold c_deref. rewrite (bind_run _ _ _ _ _ (ret_run _ w3)).
    rewrite read_length_spec by lia. replace (Z.max 0 _) with 0 by lia. done.
Qed.
End Calls.

(** ** The layers together *)

Section InMemory.
Context `{LmdbLaws} `{Machine} (malloc : Z → Z).
Let storage := Storage.in_memory_storage malloc.
Abbreviation world := (world (B := Storage.store)).
Implicit Types (w : world).

Lemma one_extent_layout N o blocks :
  0 ≤ o → 0 < blocks → o + blocks ≤ N → N ≤ Storage.NUM_BLOCKS →
  Backend.layout_ok [FileExtent o blocks].
Proof.
  intros Ho Hb Hn HN. split.
  - apply Forall_singleton. unfold Backend.extent_ok. simpl. lia.
  - simpl. by split.
  - simpl. unfold Backend.extent_bytes, Storage.BLOCK_SIZE. simpl. lia.
Qed.

(** A range inside a file is read from the blocks of the file. *)
Lemma read_anywhere w id ino xs out o :
  let n := Z.of_nat (length out) in
  let m := Backend.contents malloc (w_store w) in
  file_at (committed w) id ino xs → Backend.layout_ok xs → (length xs ≤ 512)%nat →
  0 ≤ o → 0 < n → o + n ≤ i_length ino → i_length ino ≤ Backend.file_bytes xs →
  o + n < Storage.NUM_BLOCKS * Storage.BLOCK_SIZE →
  mtl_read storage id out n o w
  = Ok ((n, Backend.file_read xs m o (length out)), World (w_env w) (w_metadata w) (Storage.Store (Some m) xs)).
Proof.
  intros n m Hf Hlay Hn Ho Hpos Hlen Hbytes Hmax.
  pose proof (load_extent_list_run (w_env w) id ino xs Hf Hn) as Hload.
  unfold mtl_read. run_step (rdonly_run w).
  rewrite (in_txn_bind _ _ _ _ _ _ (load_file_run _ _ _ _ Hf)).
  unfold c_deref. rewrite (bind_run _ _ _ _ _ (ret_run _ w)).
  assert (Storage.NUM_BLOCKS = 2 ^ 15 ∧ Storage.BLOCK_SIZE = 2 ^ 12) as [HNB HBS] by done.
  rewrite read_length_spec by lia.
  replace (Z.max 0 _) with n by lia. rewrite (proj2 (Z.ltb_lt _ _)) by lia.
  rewrite (bind_run m_get _ w w w) by done.
  pose proof (Backend.read_run malloc (w_env w) id o n (w_store w) _ _ _ Hload Hlay
    ltac:(lia) ltac:(lia) ltac:(lia) ltac:(lia)) as Hsr.
  unfold n in Hsr. rewrite Nat2Z.id in Hsr. fold n m in Hsr.
  unfold on_store, mbind, M_bind. cbn [st_read storage Storage.in_memory_storage].
  assert (length (Backend.file_read xs m o (length out)) = length out) as Hl
    by (unfold Backend.file_read; by rewrite length_fmap, length_seq).
  rewrite Hsr. unfold m_lift, store_prefix.
  rewrite (proj2 (Nat.leb_le _ _)) by (simpl; lia).
  by rewrite drop_ge, app_nil_r by (simpl; lia).
Qed.

Lemma read_range w id ino xs out o m :
  let n := Z.of_nat (length out) in
  file_at (committed w) id ino xs → Backend.layout_ok xs → (length xs ≤ 512)%nat →
  0 ≤ o → 0 < n → o + n ≤ i_length ino → i_length ino ≤ Backend.file_bytes xs →
  o + n < Storage.NUM_BLOCKS * Storage.BLOCK_SIZE →
  w_store w = Storage.Store (Some m) xs →
  mtl_read storage id out n o w = Ok ((n, Backend.file_read xs m o (length out)), w).
Proof.
  intros n Hf Hlay Hn Ho Hpos Hlen Hbytes Hmax Hst. unfold n.
  rewrite (read_anywhere w id ino xs out o) by done. rewrite Hst. cbn [Backend.contents Storage.st_buffer default from_option].
  destruct w; simpl in *. by subst.
Qed.

(** A file whose bytes are those of [buffer] is read from its beginning. *)
Lemma read_back w id ino xs buffer out size m :
  file_at (committed w) id ino xs → Backend.layout_ok xs → (length xs ≤ 512)%nat →
  i_length ino = size → size = Z.of_nat (length buffer) → length out = length buffer →
  w_store w = Storage.Store (Some m) xs →
  0 < size ≤ Backend.file_bytes xs → size < Storage.NUM_BLOCKS * Storage.BLOCK_SIZE →
  (∀ i a, 0 ≤ i < 0 + size → Backend.file_addr xs i = Some a →
     m a = nth (Z.to_nat (i - 0)) buffer 0) →
  mtl_read storage id out size 0 w = Ok ((size, buffer), w).
Proof.
  intros Hf Hlay Hn Hlen -> Hout Hst Hs Hmax Hin. rewrite <-Hout in *.
  rewrite (read_range w id ino xs out 0 m) by (done || lia).
  rewrite (Backend.file_read_written xs m 0 buffer (Z.of_nat (length out))) by (done || lia).
  by rewrite Z.sub_0_r, drop_0, take_ge by lia.
Qed.

(** The layers together, on the in-memory backend: writing a buffer to an
    empty file, when the free extent that the heap gives holds it, succeeds,
    commits a file of exactly that length in one extent taken from the free
    blocks, keeps the allocator's invariant and every other inode, releases
    the writer lock, and reading the file afterwards returns the buffer. *)
Theorem write_new_file_reads_back N w id ino o e buffer size :
  let t := committed w in
  let blocks := blocks_up size Storage.BLOCK_SIZE in
  locked w = false → w_metadata w = StorageMetadata N Storage.BLOCK_SIZE →
  N ≤ Storage.NUM_BLOCKS → Alloc.inv N t → file_at t id ino [] →
  mdb_cursor_last (tx_heap t) = Some (node_of o e, o) → Alloc.ext_of t o = Some e →
  blocks ≤ ext_length e → 1024 ≤ stack_limit < 2 ^ 40 →
  0 < size < Storage.NUM_BLOCKS * Storage.BLOCK_SIZE → size = Z.of_nat (length buffer) →
  ∃ w', mtl_write storage id buffer size 0 w = Ok (MTL_SUCCESS, w') ∧
    locked w' = false ∧ Alloc.inv N (committed w') ∧
    AllocSpec.reserves (Alloc.free_in t) o blocks (Alloc.free_in (committed w')) ∧
    file_at (committed w') id (with_length ino size) [FileExtent o blocks] ∧
    (∀ i, i ≠ id → mdb_get (tx_inodes (committed w')) i = mdb_get (tx_inodes t) i) ∧
    ∀ out, length out = length buffer →
      mtl_read storage id out size 0 w' = Ok ((size, buffer), w').
Proof.
  intros t blocks Hl Hmd HN Hi Hf Hlast He Hle Hst Hs Hbuf.
  pose proof (Alloc.inv_range N t o e Hi He) as Hr.
  assert (Storage.NUM_BLOCKS = 2 ^ 15 ∧ Storage.BLOCK_SIZE = 2 ^ 12) as [HNB HBS] by done.
  pose proof (blocks_up_pos size Storage.BLOCK_SIZE ltac:(lia) ltac:(lia)) as Hpos.
  destruct (blocks_up_spec size Storage.BLOCK_SIZE) as [Hb _]; [lia|lia|].
  fold blocks in Hpos, Hb.
  destruct (expand_first N Storage.BLOCK_SIZE id ino size o e t Hi Hf Hlast He)
    as (t' & Hexp & Hinv & Hres & Hf' & _ & Hother); [lia|lia|done|fold blocks; lia|done|].
  fold blocks in Hres, Hf'.
  assert (0 +ᵤ size = size) as Hz by (apply u64_small; unfold in_u64; lia).
  rewrite <-Hz in Hexp. assert (block_size (w_metadata w) = Storage.BLOCK_SIZE) as Hbs by by rewrite Hmd.
  rewrite <-Hbs in Hexp at 1.
  destruct (file_write_run storage w id ino [] buffer size 0 t' Hl Hf Hexp)
    as (w2 & Hc2 & Hl2 & [Hm2 Hs2] & Hw).
  assert (file_at (committed w2) id (with_length ino size) [FileExtent o blocks]) as Hf2
    by by rewrite Hc2.
  pose proof (load_extent_list_run (w_env w2) id _ _ Hf2 ltac:(simpl; lia)) as Hload.
  pose proof (one_extent_layout N o blocks ltac:(lia) Hpos ltac:(lia) HN) as Hlay.
  assert (Backend.file_bytes [FileExtent o blocks] = blocks * Storage.BLOCK_SIZE) as Htot
    by (unfold Backend.file_bytes, Backend.extent_bytes; simpl; lia).
  destruct (Backend.write_run malloc (w_env w2) id 0 buffer size (w_store w2) _ _ _ Hload Hlay)
    as (m' & Hsw & _ & Hin); [lia|lia|lia|lia|].
  set (w' := World (w_env w2) (w_metadata w2)
               (Storage.Store (Some m') [FileExtent o blocks]) : world).
  exists w'. split; [|split; [done|]].
  { rewrite Hw. rewrite (bind_run _ _ w2 MTL_SUCCESS w'); [done|].
    unfold on_store. cbn [st_write storage Storage.in_memory_storage]. by rewrite Hsw. }
  assert (committed w' = t') as Hc' by done. rewrite Hc'. split; [done|]. split; [done|].
  split; [by rewrite <-Hc2|]. split; [done|].
  intros out Hout.
  apply (read_back w' id (with_length ino size) [FileExtent o blocks] buffer out size m');
    try done; [simpl; lia|lia|lia].
Qed.
End InMemory.

(** ** Removing and truncating files *)

Section Shrinking.
Context `{LmdbLaws} `{Machine} {B : Type}.
Abbreviation world := (world (B := B)).
Implicit Types (w : world) (t : txn) (id d : Z).

Lemma file_at_frame t t' id ino xs :
  mdb_get (tx_inodes t') id = mdb_get (tx_inodes t) id → file_at t id ino xs →
  file_at t' id ino xs.
Proof. intros E [Hg ? ?]. split; try done. by rewrite E. Qed.

(** The steps of [mtl_unlink], for what the release of the extents establishes
    in the allocator's databases. *)
Lemma unlink_run (P : txn → Prop) w cs c d dino es e ino xs :
  let t := committed w in
  let k := de_id e in
  (∀ t1 t2, tx_heap t2 = tx_heap t1 → tx_extents t2 = tx_extents t1 → P t1 → P t2) →
  locked w = false → Forall name_ok cs → name_ok c →
  walk t cs (Found d) → dir_at t d dino es → fits dino → lookup_name c es = Some e → k ≠ d →
  file_at t k ino xs →
  (∀ inodes, ∃ t2, free_extents xs (set_inodes inodes t) = Ok (tt, t2) ∧
     Alloc.alloc_frame (set_inodes inodes t) t2 ∧ P t2) →
  ∃ w', mtl_unlink (abs_path (cs ++ [c])) w = Ok (MTL_SUCCESS, w') ∧ locked w' = false ∧
    same_backend w w' ∧ P (committed w') ∧
    dir_at (committed w') d (with_length dino (Z.of_nat (length (dir_bytes (without c es)))))
      (without c es) ∧
    ∀ i, i ≠ d → mdb_get (tx_inodes (committed w')) i
                 = if decide (k = i) then None else mdb_get (tx_inodes t) i.
Proof.
  intros t k HP Hl Hcs [Hcomp Hz] Hw Hd Hfits Hlk Hkd Hf Hfree.
  destruct (begin_bind w Hl) as (w1 & Hc1 & _ & [Hm1 Hs1] & Hbeg).
  unfold mtl_unlink. run_step Hbeg. fold t.
  rewrite (in_txn_bind _ _ _ _ _ _ (parent_found t cs c d _ Hw Hcs Hcomp)).
  rewrite basename_abs_path by done.
  destruct (remove_run t d dino es c e (uninit "mtl_unlink.inode_id") Hd Hfits Hz Hlk)
    as [Hr Hd1].
  rewrite (in_txn_bind _ _ _ _ _ _ Hr). fold k. set (t1 := set_inodes _ t) in *.
  assert (file_at t1 k ino xs) as Hf1
    by (eapply file_at_frame; [|done]; by apply remove_other).
  rewrite (in_txn_bind _ _ _ _ _ _ (load_file_run _ _ _ _ Hf1)).
  cbn [Z.eqb MTL_SUCCESS MTL_ERROR_NOENTRY].
  rewrite loaded_extents_run by apply Hf.
  destruct (Hfree (tx_inodes t1)) as (t2 & Hfe & [Hino Hmeta] & Hp).
  change (free_extents xs t1 = Ok (tt, t2)) in Hfe. change (tx_inodes t2 = tx_inodes t1) in Hino.
  rewrite (in_txn_bind _ _ _ _ _ _ Hfe).
  destruct (delete_inode_run t2 k) as (t3 & Hdel & [Hh3 He3] & _ & Hget).
  rewrite (in_txn_bind _ _ _ _ _ _ Hdel).
  destruct (commit_bind MTL_SUCCESS t3 w1) as (w' & Hend & Hcw & Hlw & [Hm' Hs']).
  exists w'. rewrite Hcw. split; [done|]. split; [done|]. split; [split; congruence|].
  split; [by apply (HP t2)|split].
  - eapply dir_at_frame; [|done]. rewrite Hget, decide_False by done. by rewrite Hino.
  - intros i Hne. rewrite Hget, Hino. unfold t1. by rewrite remove_other.
Qed.

Lemma alloc_same N t t1 t2 o n :
  tx_heap t2 = tx_heap t1 → tx_extents t2 = tx_extents t1 →
  Alloc.inv N t1 ∧ AllocSpec.releases (Alloc.free_in t) o n (Alloc.free_in t1) →
  Alloc.inv N t2 ∧ AllocSpec.releases (Alloc.free_in t) o n (Alloc.free_in t2).
Proof.
  intros Hh He. unfold Alloc.inv, Alloc.free_in, Alloc.ext_of, Alloc.heap_of. by rewrite Hh, He.
Qed.

(** Unlinking a file of one extent takes the entry out of its directory
    and the inode out of the database, makes exactly the blocks of the extent
    free again, keeps the allocator's invariant and every other inode, and
    frees the writer lock. *)
Theorem unlink_frees N w cs c d dino es e ino x ex :
  let t := committed w in
  let k := de_id e in
  locked w = false → Forall name_ok cs → name_ok c →
  walk t cs (Found d) → dir_at t d dino es → fits dino → lookup_name c es = Some e → k ≠ d →
  file_at t k ino [x] → Alloc.inv N t → Alloc.ext_of t (fe_offset x) = Some ex →
  ¬ is_free ex → Alloc.free_safe t (fe_offset x) ex →
  ∃ w', mtl_unlink (abs_path (cs ++ [c])) w = Ok (MTL_SUCCESS, w') ∧ locked w' = false ∧
    same_backend w w' ∧ Alloc.inv N (committed w') ∧
    AllocSpec.releases (Alloc.free_in t) (fe_offset x) (ext_length ex)
      (Alloc.free_in (committed w')) ∧
    dir_at (committed w') d (with_length dino (Z.of_nat (length (dir_bytes (without c es)))))
      (without c es) ∧
    ∀ i, i ≠ d → mdb_get (tx_inodes (committed w')) i
                 = if decide (k = i) then None else mdb_get (tx_inodes t) i.
Proof.
  intros t k Hl Hcs Hc Hw Hd Hfits Hlk Hkd Hf Hi Hex Hu Hs.
  destruct (unlink_run (λ t', Alloc.inv N t' ∧
      AllocSpec.releases (Alloc.free_in t) (fe_offset x) (ext_length ex) (Alloc.free_in t'))
    w cs c d dino es e ino [x]) as (w' & Hrun & Hlk' & Hb & [Hi' Hr] & Hrest); try done.
  - intros t1 t2. apply alloc_same.
  - intros inodes.
    destruct (Alloc.free_run N (set_inodes inodes t) (fe_offset x) ex Hi Hex Hu Hs)
      as (t2 & Hfree & Hi2 & Hfr & Hrel).
    exists t2. split; [cbn [free_extents]; by rewrite (bind_run _ _ _ _ _ Hfree)|done].
  - by exists w'.
Qed.

Lemma truncate_file_extents_run t id ino x n len :
  file_at t id ino [x] → 0 ≤ n < 2 ^ 64 → 1024 ≤ stack_limit < 2 ^ 40 →
  ∃ t', InodeDb.mtl_truncate_file_extents id len 1 (Some n) t = Ok (MTL_SUCCESS, t') ∧
    file_at t' id (with_length ino len) [FileExtent (fe_offset x) n] ∧
    tx_heap t' = tx_heap t ∧ tx_extents t' = tx_extents t ∧
    ∀ i, i ≠ id → mdb_get (tx_inodes t') i = mdb_get (tx_inodes t) i.
Proof.
  intros Hf Hn Hst. unfold InodeDb.mtl_truncate_file_extents.
  run_step (load_file_run t id ino [x] Hf). unfold c_deref.
  rewrite (bind_run _ _ _ _ _ (ret_run _ t)).
  unfold sizeof_file_extent. rewrite (u64_small (1 * 16)) by done. rewrite vla_bind by lia.
  rewrite (read_all_extents [x] : read_bytes (extents_bytes [x]) 0 (1 * 16) = _).
  rewrite (bind_run _ _ _ _ _ (lift_run _ t)). cbn [Z.eqb].
  rewrite (bind_run _ _ _ _ _ (ret_run _ t)).
  assert (take (Z.to_nat (1 * 16 - 8)) (extents_bytes [x]) ++ le_bytes 8 n
          = extents_bytes [FileExtent (fe_offset x) n]) as ->.
  { unfold extents_bytes, file_extent_bytes. cbn [mbind list_bind fe_offset fe_length].
    rewrite !app_nil_r. change (Z.to_nat (1 * 16 - 8)) with 8%nat.
    by rewrite take_app_length' by (by rewrite length_le_bytes). }
  rewrite put_inode_run by (rewrite ?length_extents_bytes; unfold sizeof_inode; simpl; lia).
  eexists. split; [done|]. split; [|split; [done|split; [done|]]].
  - split; [simpl; by rewrite mdb_get_put_eq|apply Hf|].
    apply Forall_singleton. pose proof (fa_ok _ _ _ _ Hf) as [[? _] _]%Forall_cons.
    by split.
  - intros i Hne. simpl. by rewrite mdb_get_put_ne.
Qed.

(** The loop on a single extent that keeps some of its blocks. *)
Lemma truncate_loop_one t t1 t2 bs id offset x :
  let blocks := blocks_up offset bs in
  0 < bs < 2 ^ 32 → 0 < offset < fe_length x * bs → fe_length x * bs < 2 ^ 63 → 0 < blocks →
  ExtentDb.mtl_truncate_extent (fe_offset x) blocks t = Ok (MTL_SUCCESS, t1) →
  InodeDb.mtl_truncate_file_extents id offset 1 (Some blocks) t1 = Ok (MTL_SUCCESS, t2) →
  truncate_loop 1 bs id offset 1 0 0 [x] t = Ok (tt, t2).
Proof.
  intros blocks Hbs Ho Hb Hpos Ht1 Ht2. cbn [truncate_loop].
  change (Z.to_nat 0) with 0%nat. cbn [lookup list_lookup].
  rewrite (u64_small (fe_length x * bs)) by (unfold in_u64; lia).
  rewrite Z.add_0_l, u64_small by (unfold in_u64; lia).
  rewrite (proj2 (Z.ltb_ge offset 0)) by lia.
  rewrite (proj2 (Z.ltb_lt offset (fe_length x * bs))) by lia.
  rewrite Z.sub_0_r, (u64_small offset) by (unfold in_u64; lia).
  rewrite (bind_run _ _ t (reread_extents t1 id t2 1) t2); [done|].
  run_step (blocks_of_run offset bs t ltac:(lia) ltac:(lia)). fold blocks.
  rewrite (proj2 (Z.eqb_neq blocks 0)) by lia. cbn [negb]. run_step Ht1.
  rewrite (bind_run m_get _ t1 t1 t1) by done.
  rewrite (u64_small (0 + 1)) by done. by run_step Ht2.
Qed.

(** Truncating a file of one extent to a length that takes fewer blocks
    sets the length, shortens the extent to the blocks that are still needed,
    makes exactly the blocks after them free and keeps the allocator's
    invariant (on at most 256 blocks, where the order of the keys is that of
    the blocks, and while the pointer into the overwritten record still
    reads the old length). *)
Theorem truncate_one_extent N w id ino x ex offset :
  let t := committed w in
  let blocks := blocks_up offset (block_size (w_metadata w)) in
  locked w = false → file_at t id ino [x] → Alloc.inv N t → N ≤ 256 →
  Alloc.ext_of t (fe_offset x) = Some ex → ¬ is_free ex → ext_length ex = fe_length x →
  Alloc.not_both_free t (fe_offset x) ex →
  0 < block_size (w_metadata w) < 2 ^ 32 → 0 < offset < i_length ino →
  i_length ino ≤ fe_length x * block_size (w_metadata w) → blocks < fe_length x →
  1024 ≤ stack_limit < 2 ^ 40 →
  ∀ (Hread : ext_length (mdb_read_after_put (tx_extents t) (fe_offset x)
               (Extent blocks MTL_COMMITTED (ext_pq_node ex))) = ext_length ex),
  ∃ w', mtl_truncate id offset w = Ok (MTL_SUCCESS, w') ∧ locked w' = false ∧
    same_backend w w' ∧ Alloc.inv N (committed w') ∧
    file_at (committed w') id (with_length ino offset) [FileExtent (fe_offset x) blocks] ∧
    AllocSpec.releases (Alloc.free_in t) (fe_offset x + blocks) (fe_length x - blocks)
      (Alloc.free_in (committed w')) ∧
    ∀ i, i ≠ id → mdb_get (tx_inodes (committed w')) i = mdb_get (tx_inodes t) i.
Proof.
  intros t blocks Hl Hf Hi HN Hex Hu Hlen Hb Hbs Ho Hfl Hlt Hst Hread.
  set (bs := block_size (w_metadata w)) in *.
  pose proof (Alloc.inv_range N t _ _ Hi Hex) as Hr.
  pose proof (blocks_up_pos offset bs ltac:(lia) ltac:(lia)) as Hpos. fold blocks in Hpos.
  destruct (Alloc.truncate_run N t (fe_offset x) ex blocks Hi HN Hex Hu ltac:(lia) Hb Hread)
    as (t1 & Ht1 & Hi1 & [Hino Hmeta] & Hrel).
  assert (file_at t1 id ino [x]) as Hf1 by (eapply file_at_frame; [by rewrite Hino|done]).
  destruct (truncate_file_extents_run t1 id ino x blocks offset Hf1 ltac:(lia) Hst)
    as (t2 & Ht2 & Hf2 & Hh2 & He2 & Hoth).
  assert (truncate_txn bs id offset t = Ok (MTL_SUCCESS, t2)) as Htxn.
  { unfold truncate_txn. run_step (load_file_run t id ino [x] Hf). unfold c_deref.
    rewrite (bind_run _ _ _ _ _ (ret_run _ t)).
    pose proof (loaded_extents_run ino [x] (fa_ok _ _ _ _ Hf)) as Hx.
    unfold loaded_extents in Hx. cbn [length] in *. rewrite Hx.
    rewrite (proj2 (Z.leb_gt _ _)) by lia.
    change (Z.of_nat 1) with 1. change (Z.to_nat 1) with 1%nat.
    by run_step (truncate_loop_one t t1 t2 bs id offset x ltac:(lia) ltac:(lia) ltac:(nia) Hpos Ht1 Ht2). }
  destruct (begin_bind w Hl) as (w1 & Hc1 & _ & [Hm1 Hs1] & Hbeg).
  destruct (commit_bind MTL_SUCCESS t2 w1) as (w' & Hend & Hcw & Hlw & [Hm' Hs']).
  exists w'. rewrite Hcw. split.
  { unfold mtl_truncate. run_step Hbeg. rewrite (bind_run m_get _ w1 w1 w1) by done.
    rewrite Hm1. by rewrite (in_txn_bind _ _ _ _ _ _ Htxn). }
  split; [done|]. split; [split; congruence|]. split; [|split; [done|split]].
  - unfold Alloc.inv, Alloc.ext_of, Alloc.heap_of in *. by rewrite Hh2, He2.
  - unfold Alloc.free_in, Alloc.ext_of in *. rewrite He2. by rewrite <-Hlen.
  - intros i Hne. by rewrite Hoth, Hino.
Qed.
End Shrinking.

(** ** Instances: volumes of 12 blocks with one file, "/f", inode 1 *)

Module Demo.
#[local] Instance machine : Machine := Ns.Demo.machine.
Import AllocProofs.

(** A backend that stores nothing. *)
Definition zeros : mtl_storage_backend unit := {|
  st_initialize := mret MTL_SUCCESS;
  st_deinitialize := mret MTL_SUCCESS;
  st_get_metadata := mret (MTL_SUCCESS, StorageMetadata 12 4096);
  st_write := λ _ _ _ _ _, mret MTL_SUCCESS;
  st_read := λ _ _ _ n, mret (MTL_SUCCESS, repeat 0 (Z.to_nat n));
|}.

Definition tree : txn :=
  AllocProofs.Demo.final (InodeDb.mtl_create_file_in_directory 7 0 (str "f") 420)
    Ns.Demo.root_txn.

Definition file_inode (len : Z) : mtl_inode :=
  with_length (InodeDb.fresh_inode MTL_FILE 7 33188) len.

(** The tree with the file's extents and length, over an allocator state. *)
Definition with_extents (alloc : txn) (len : Z) (xs : list mtl_file_extent) : txn :=
  Txn _ (tx_heap alloc) (tx_extents alloc)
    (mdb_put (tx_inodes tree) 1 (file_inode len, extents_bytes xs)) (tx_meta tree).

Definition entries : list dirent := Ns.Demo.root_entries ++ [new_dirent 1 (str "f")].
Definition root_inode_f : mtl_inode :=
  with_length (root_inode 7) (Z.of_nat (length (dir_bytes entries))).

Lemma short_f : short_name (str "f").
Proof. apply Ns.Demo.short; [done|reflexivity|vm_compute; lia]. Qed.

Lemma volume_root_at alloc len xs : dir_at (with_extents alloc len xs) 0 root_inode_f entries.
Proof.
  destruct Ns.Demo.root_facts as (Hok & Hd & Hn & Ho).
  destruct (create_file_run Ns.Demo.root_txn 0 (root_inode 7) Ns.Demo.root_entries (str "f") 7 420)
    as (t' & Hr & _ & Hx); [done|done|apply Ns.Demo.root_fits|apply short_f|by rewrite Hn|].
  rewrite Hn in Hr, Hx. destruct Hx as [Hx _ _ _]; [by apply lookup_name_None|].
  eapply dir_at_frame; [|exact Hx].
  assert (tree = t') as <- by (unfold tree, AllocProofs.Demo.final; by rewrite Hr).
  by apply (mdb_get_put_ne (tx_inodes tree)).
Qed.

Lemma f_at alloc len xs :
  Forall file_extent_ok xs → file_at (with_extents alloc len xs) 1 (file_inode len) xs.
Proof. intros Hx. split; [apply (mdb_get_put_eq (tx_inodes tree))|done|done]. Qed.

Definition four : list mtl_file_extent := [FileExtent 0 4].
Lemma four_ok : Forall file_extent_ok four.
Proof. by repeat constructor. Qed.

Definition volume {B} (b : B) (t : txn) : Metal.world :=
  World (t, false) (StorageMetadata 12 4096) b.

(** One file of 4 blocks; an empty file on an empty volume; a full volume. *)
Definition one : txn := with_extents AllocProofs.Demo.one_file 16000 four.
Definition none : txn := with_extents AllocProofs.Demo.fresh 0 [].
Definition full_alloc : txn :=
  AllocProofs.Demo.final (ExtentDb.mtl_reserve_extent 12 None 0 true) AllocProofs.Demo.fresh.
Definition full : txn := with_extents full_alloc 0 [].

Lemma full_facts : Alloc.inv 12 full ∧ Alloc.no_free full.
Proof.
  destruct (Alloc.initialize_run 12 empty_txn) as (t0 & H0 & _ & _ & Hfree); [lia|done|done|].
  assert (AllocProofs.Demo.fresh = t0) as E
    by (unfold AllocProofs.Demo.fresh, AllocProofs.Demo.final; by rewrite H0).
  destruct (Alloc.reserve_new_run 12 12 true AllocProofs.Demo.fresh None 0
    AllocProofs.Demo.fresh_inv) as [[_ Hr]|(o & e & t' & Hl & He & Hr & Hres)]; [lia|done|..].
  { vm_compute in Hr. discriminate. }
  assert (o = 0 ∧ e = Extent 12 MTL_FREE (NodeId 12 0)) as [-> ->].
  { vm_compute in Hl. injection Hl as -> <-. vm_compute in He. by injection He as <-. }
  unfold full, full_alloc, AllocProofs.Demo.final. rewrite Hr. split; [apply Hres|].
  intros b Hb. apply Hres in Hb as [Hb Hn]. apply Hn. rewrite E in Hb.
  apply Hfree in Hb. simpl. lia.
Qed.
End Demo.
#[local] Existing Instance Demo.machine.

Lemma read_clamps_witness :
  mtl_read Demo.zeros 1 [1; 2; 3; 4] 4 15998 (Demo.volume tt Demo.one)
  = Ok ((2, [0; 0; 3; 4]), Demo.volume tt Demo.one).
Proof.
  destruct (read_clamps Demo.zeros (Demo.volume tt Demo.one) 1 (Demo.file_inode 16000) Demo.four
    [1; 2; 3; 4] 4 15998 (Demo.f_at _ _ _ Demo.four_ok)) as [_ Hr]; try (simpl; lia).
  refine (Hr MTL_SUCCESS [0; 0] tt _ eq_refl eq_refl). reflexivity.
Defined.

Lemma write_full_volume_aborts_witness :
  mtl_write Demo.zeros 1 [1] 1 0 (Demo.volume tt Demo.full) = Fault AssertFail.
Proof.
  apply (write_full_volume_aborts Demo.zeros 12 (Demo.volume tt Demo.full) 1 (Demo.file_inode 0)
    [1] 1 0 eq_refl (Demo.f_at _ _ [] (List.Forall_nil _)) (proj1 Demo.full_facts)
    (proj2 Demo.full_facts)); [reflexivity|lia|lia|lia].
Defined.

Lemma write_in_block_keeps_length_witness :
  ∃ w', mtl_write Demo.zeros 1 [1; 2; 3] 3 16000 (Demo.volume tt Demo.one) = Ok (MTL_SUCCESS, w') ∧
    mtl_read Demo.zeros 1 [7; 7; 7] 3 16000 w' = Ok ((0, [7; 7; 7]), w').
Proof.
  destruct (write_in_block_keeps_length Demo.zeros (Demo.volume tt Demo.one) 1
    (Demo.file_inode 16000) Demo.four [1; 2; 3] [7; 7; 7] 3 MTL_SUCCESS tt eq_refl
    (Demo.f_at _ _ _ Demo.four_ok)) as (w' & Hw & _ & _ & Hr);
    [reflexivity|simpl; lia|simpl; lia|simpl; lia|vm_compute; congruence|reflexivity|].
  exists w'. split; [exact Hw|exact Hr].
Defined.

Lemma write_new_file_reads_back_witness :
  ∃ w', mtl_write (Storage.in_memory_storage (λ _, 0)) 1 [1; 2; 3] 3 0
          (Demo.volume Ns.Demo.no_store Demo.none) = Ok (MTL_SUCCESS, w') ∧
    mtl_read (Storage.in_memory_storage (λ _, 0)) 1 [7; 7; 7] 3 0 w' = Ok ((3, [1; 2; 3]), w').
Proof.
  destruct (write_new_file_reads_back (λ _, 0) 12 (Demo.volume Ns.Demo.no_store Demo.none) 1
    (Demo.file_inode 0) 0 (Extent 12 MTL_FREE (NodeId 12 0)) [1; 2; 3] 3 eq_refl eq_refl)
    as (w' & Hw & _ & _ & _ & _ & _ & Hr).
  - vm_compute. congruence.
  - apply AllocProofs.Demo.fresh_inv.
  - by apply (Demo.f_at _ _ []).
  - vm_compute. reflexivity.
  - vm_compute. reflexivity.
  - vm_compute. congruence.
  - vm_compute. split; congruence.
  - vm_compute. split; congruence.
  - reflexivity.
  - exists w'. split; [exact Hw|]. by apply Hr.
Defined.

Lemma unlink_frees_witness :
  ∃ w', mtl_unlink (str "/f") (Demo.volume tt Demo.one) = Ok (MTL_SUCCESS, w') ∧
    Alloc.inv 12 (committed w').
Proof.
  destruct (unlink_frees 12 (Demo.volume tt Demo.one) [] (str "f") 0 Demo.root_inode_f Demo.entries
    (new_dirent 1 (str "f")) (Demo.file_inode 16000) (FileExtent 0 4) AllocProofs.Demo.used4
    eq_refl (List.Forall_nil _) (proj1 Demo.short_f) (walk_root _) (Demo.volume_root_at _ _ _))
    as (w' & Hw & _ & _ & Hi & _).
  - unfold fits. vm_compute. split; congruence.
  - reflexivity.
  - discriminate.
  - apply (Demo.f_at _ _ _ Demo.four_ok).
  - apply AllocProofs.Demo.one_file_inv.
  - apply AllocProofs.Demo.one_file_used.
  - apply AllocProofs.Demo.used4_used.
  - apply (Alloc.free_safe_small 12 AllocProofs.Demo.one_file);
      [apply AllocProofs.Demo.one_file_inv|lia|apply AllocProofs.Demo.one_file_used
      |apply AllocProofs.Demo.one_file_not_both].
  - exists w'. split; [exact Hw|exact Hi].
Defined.

Lemma truncate_one_extent_witness :
  ∃ w', mtl_truncate 1 5000 (Demo.volume tt Demo.one) = Ok (MTL_SUCCESS, w') ∧
    Alloc.inv 12 (committed w') ∧
    file_at (committed w') 1 (Demo.file_inode 5000) [FileExtent 0 2].
Proof.
  destruct (truncate_one_extent 12 (Demo.volume tt Demo.one) 1 (Demo.file_inode 16000)
    (FileExtent 0 4) AllocProofs.Demo.used4 5000 eq_refl (Demo.f_at _ _ _ Demo.four_ok)
    AllocProofs.Demo.one_file_inv) as (w' & Hw & _ & _ & Hi & Hf & _).
  - lia.
  - apply AllocProofs.Demo.one_file_used.
  - apply AllocProofs.Demo.used4_used.
  - reflexivity.
  - apply AllocProofs.Demo.one_file_not_both.
  - by vm_compute.
  - by vm_compute.
  - by vm_compute.
  - by vm_compute.
  - by vm_compute.
  - vm_compute. reflexivity.
  - exists w'. split; [exact Hw|]. split; [exact Hi|exact Hf].
Defined.
End Files.
