(* ===== verification/Growth.v ===== *)
(** * Files that grow over several free extents

    [FileProofs] writes to an empty file that fits in one free extent. Here a file
    is the sequence of its blocks: [mtl_write] appends free blocks to it, whatever
    free extents they come from, growing the last extent when the room is behind
    it, and the bytes written are read back at any offset. *)
From S2P Require Import Prelude Tiling Lmdb Structs Extent ExtentInv AllocProofs Dirent Inode InodeProofs Metal File Storage Namespace StorageProofs FileProofs.

Module Growth.
Import Dir Metal File Ns Files.

(** ** The blocks of a file *)

Definition blocks_in (xs : list mtl_file_extent) : list Z :=
  xs ≫= λ x, seqZ (fe_offset x) (fe_length x).

Lemma blocks_in_app xs ys : blocks_in (xs ++ ys) = blocks_in xs ++ blocks_in ys.
Proof. apply bind_app. Qed.

Lemma blocks_in_one x : blocks_in [x] = seqZ (fe_offset x) (fe_length x).
Proof. apply app_nil_r. Qed.

Lemma elem_of_blocks_in xs b :
  b ∈ blocks_in xs ↔ ∃ x, x ∈ xs ∧ fe_offset x ≤ b < fe_offset x + fe_length x.
Proof.
  unfold blocks_in. rewrite list_elem_of_bind. setoid_rewrite elem_of_seqZ. naive_solver.
Qed.

Lemma length_seqZ_Z o n : 0 ≤ n → Z.of_nat (length (seqZ o n)) = n.
Proof. intros Hn. rewrite length_seqZ. lia. Qed.

(** Blocks of a volume of [N] that are all different are at most [N]. *)
Lemma nodup_bounded N l :
  0 ≤ N → NoDup l → Forall (λ b, 0 ≤ b < N) l → Z.of_nat (length l) ≤ N.
Proof.
  intros HN Hd Hl. rewrite <-(length_seqZ_Z 0 N HN). apply inj_le, submseteq_length.
  apply NoDup_submseteq; [done|]. intros b Hb. apply elem_of_seqZ.
  pose proof (proj1 (Forall_forall _ _) Hl b Hb) as Hr. simpl in Hr. lia.
Qed.

(** Without the elements of another list, a list has lost at most as many. *)
Lemma nodup_outside (l k : list Z) :
  NoDup l → (length l ≤ length (filter (λ b, ¬ b ∈ k) l) + length k)%nat.
Proof.
  intros Hd. pose proof (filter_app_complement (λ b, b ∈ k) l) as Hp%Permutation_length.
  rewrite length_app in Hp.
  assert (length (filter (λ b, b ∈ k) l) ≤ length k)%nat as Hle.
  { apply submseteq_length, NoDup_submseteq; [by apply NoDup_filter|].
    by intros b [Hb _]%list_elem_of_filter. }
  lia.
Qed.

Section Growing.
Context `{LmdbLaws} `{Machine}.
Implicit Types (t : txn) (id b n o : Z) (xs : list mtl_file_extent).

(** The extents of a file are extents in use, each with its length. *)
Record stored t xs : Prop := Stored {
  so_nodup : NoDup (blocks_in xs);
  so_used x : x ∈ xs → ∃ e, Alloc.ext_of t (fe_offset x) = Some e ∧ ¬ is_free e ∧
    ext_length e = fe_length x;
}.

(** Behind a free extent no block is free. *)
Definition merged t : Prop :=
  ∀ o e, Alloc.ext_of t o = Some e → is_free e → ¬ Alloc.free_in t (o + ext_length e).

(** At least [n] blocks are free. *)
Definition enough t n : Prop :=
  ∃ l, NoDup l ∧ Forall (Alloc.free_in t) l ∧ n ≤ Z.of_nat (length l).

Lemma stored_range N t xs x :
  Alloc.inv N t → stored t xs → x ∈ xs →
  0 ≤ fe_offset x ∧ 0 < fe_length x ∧ fe_offset x + fe_length x ≤ N.
Proof.
  intros Hi [_ Hu] Hx. destruct (Hu x Hx) as (e & He & _ & Hl).
  pose proof (Alloc.inv_range N t _ _ Hi He). lia.
Qed.

Lemma stored_block_range N t xs b :
  Alloc.inv N t → stored t xs → b ∈ blocks_in xs → 0 ≤ b < N.
Proof.
  intros Hi Hs (x & Hx & Hb)%elem_of_blocks_in. pose proof (stored_range N t xs x Hi Hs Hx). lia.
Qed.

Lemma stored_not_free N t xs b :
  Alloc.inv N t → stored t xs → b ∈ blocks_in xs → ¬ Alloc.free_in t b.
Proof.
  intros Hi [_ Hu] (x & Hx & Hb)%elem_of_blocks_in. destruct (Hu x Hx) as (e & He & Hf & Hl).
  unfold Alloc.free_in. rewrite (free_block_unique N _ (ai_tiles _ _ _ Hi) _ _ b He) by lia. done.
Qed.

Lemma stored_total N t xs :
  Alloc.inv N t → stored t xs → Z.of_nat (length (blocks_in xs)) ≤ N.
Proof.
  intros Hi Hs. pose proof (ai_bound _ _ _ Hi). apply nodup_bounded; [lia|apply Hs|].
  apply Forall_forall. intros b. by apply stored_block_range with t.
Qed.

Lemma extents_at_most_blocks xs :
  (∀ x, x ∈ xs → 0 < fe_length x) → (length xs ≤ length (blocks_in xs))%nat.
Proof.
  induction xs as [|x xs IH]; intros Hp; [done|].
  change (blocks_in (x :: xs)) with (seqZ (fe_offset x) (fe_length x) ++ blocks_in xs).
  rewrite length_app, length_seqZ. specialize (Hp x ltac:(left)) as Hx.
  specialize (IH ltac:(intros y Hy; apply Hp; by right)). simpl. lia.
Qed.

Lemma total_blocks_length xs :
  (∀ x, x ∈ xs → 0 < fe_length x) → Z.of_nat (length (blocks_in xs)) < 2 ^ 64 →
  total_blocks xs = Z.of_nat (length (blocks_in xs)).
Proof.
  induction xs as [|x xs IH] using rev_ind; intros Hp Hb; [done|].
  assert (0 < fe_length x) as Hx by (apply Hp, elem_of_app; right; by left).
  rewrite blocks_in_app, length_app, blocks_in_one, length_seqZ in *.
  unfold total_blocks in *. rewrite foldl_app. cbn [foldl].
  rewrite IH; [|intros y Hy; apply Hp, elem_of_app; by left|lia]. rewrite u64_small; unfold in_u64; lia.
Qed.

Lemma stored_count N t xs :
  Alloc.inv N t → stored t xs →
  total_blocks xs = Z.of_nat (length (blocks_in xs)) ∧ Z.of_nat (length xs) ≤ N.
Proof.
  intros Hi Hs. pose proof (stored_total N t xs Hi Hs). pose proof (ai_bound _ _ _ Hi).
  assert (∀ x, x ∈ xs → 0 < fe_length x) as Hp
    by (intros x Hx; by apply (stored_range N t xs x Hi Hs)).
  pose proof (extents_at_most_blocks xs Hp). split; [apply total_blocks_length; [done|lia]|lia].
Qed.
(** *** Growing by free blocks *)

(** The file gets [n] more blocks, which were free, behind those it has. *)
Record grown N t t' xs n xs' : Prop := Grown {
  gr_inv : Alloc.inv N t';
  gr_meta : tx_meta t' = tx_meta t;
  gr_stored : stored t' xs';
  gr_blocks : ∃ new, blocks_in xs' = blocks_in xs ++ new ∧ Z.of_nat (length new) = n ∧
    Forall (Alloc.free_in t) new;
  gr_free b : Alloc.free_in t' b ↔ Alloc.free_in t b ∧ b ∉ blocks_in xs';
  gr_merged : merged t → merged t';
  gr_others ys : stored t ys → (∀ b, b ∈ blocks_in ys → b ∉ blocks_in xs) → stored t' ys;
}.

Lemma grown_trans N t1 t2 t3 xs1 xs2 xs3 n1 n2 :
  Alloc.inv N t1 →
  grown N t1 t2 xs1 n1 xs2 → grown N t2 t3 xs2 n2 xs3 → grown N t1 t3 xs1 (n1 + n2) xs3.
Proof.
  intros Hi [Hi2 Hm2 Hs2 (new1 & Hb1 & Hl1 & Hf1) Hfr1 Hmg1 Ho1] [Hi3 Hm3 Hs3 (new2 & Hb2 & Hl2 & Hf2) Hfr2 Hmg2 Ho2].
  split; try done.
  - congruence.
  - exists (new1 ++ new2). rewrite Hb2, Hb1, app_assoc, length_app. split; [done|]. split; [lia|].
    apply Forall_app. split; [done|]. eapply Forall_impl; [exact Hf2|]. intros b Hb. by apply Hfr1.
  - intros b. rewrite Hfr2, Hfr1, Hb2. rewrite elem_of_app. tauto.
  - tauto.
  - intros ys Hys Hd. apply Ho2; [by apply Ho1|]. intros b Hb. rewrite Hb1, elem_of_app.
    intros [Hx|Hn]; [by apply (Hd b)|]. apply (stored_not_free N t1 ys b Hi Hys Hb).
    by apply (proj1 (Forall_forall _ _) Hf1).
Qed.

Lemma rs_frame_inodes N t commit start o n t' :
  Alloc.reserved N t commit start o n t' → ∀ i, mdb_get (tx_inodes t') i = mdb_get (tx_inodes t) i.
Proof. intros [_ [Hino _] _ _ _ _] i. by rewrite Hino. Qed.

(** The rest of the free blocks is still free. *)
Lemma grown_enough N t t' xs n xs' m :
  Alloc.inv N t → stored t xs → grown N t t' xs n xs' → enough t m → enough t' (m - n).
Proof.
  intros Hi Hs Hg (l & Hd & Hl & Hm). destruct (gr_blocks _ _ _ _ _ _ Hg) as (new & Hb & Hn & _).
  exists (filter (λ b, ¬ b ∈ new) l). split; [by apply NoDup_filter|]. split.
  - apply Forall_forall. intros b [Hnew Hin]%list_elem_of_filter.
    pose proof (proj1 (Forall_forall _ _) Hl b Hin) as Hfree.
    apply (gr_free _ _ _ _ _ _ Hg). split; [done|]. rewrite Hb, elem_of_app.
    intros [Hx|Hx]; [|done]. by apply (stored_not_free N t xs b Hi Hs Hx).
  - pose proof (nodup_outside l new Hd). lia.
Qed.

(** What a reservation gives, seen from a file whose blocks it extends. *)
Lemma reserved_grown N t t' xs xs' start o n :
  Alloc.inv N t → stored t xs → Alloc.reserved N t true start o n t' → 0 ≤ n →
  blocks_in xs' = blocks_in xs ++ seqZ o n →
  (∀ x, x ∈ xs' → x ∈ xs ∧ fe_offset x ≠ start ∨ x = FileExtent start (o + n - start)) →
  (∀ ys, stored t ys → (∀ b, b ∈ blocks_in ys → b ∉ blocks_in xs) →
     ∀ y, y ∈ ys → fe_offset y ≠ start) →
  grown N t t' xs n xs'.
Proof.
  intros Hi Hs [Hi' [_ Hmeta] [Hfree Hfree'] [pq Hstart] Hothers Hends] Hn Hb Hxs Hys.
  assert (∀ ys, stored t ys → ∀ y, y ∈ ys → fe_offset y ≠ start →
    ∃ e, Alloc.ext_of t' (fe_offset y) = Some e ∧ ¬ is_free e ∧ ext_length e = fe_length y) as Hkeep.
  { intros ys [_ Hu] y Hy Hne. destruct (Hu y Hy) as (e & He & Hf & Hl). exists e.
    split; [|done]. by apply Hothers. }
  split; [done|done| | | | |].
  - split.
    + rewrite Hb. apply NoDup_app. split; [apply Hs|]. split; [|apply NoDup_seqZ].
      intros b Hx Hnew%elem_of_seqZ. by apply (stored_not_free N t xs b Hi Hs Hx), Hfree.
    + intros x [[Hx Hne]| ->]%Hxs; [by apply (Hkeep xs)|].
      eexists. split; [exact Hstart|]. split; [apply Alloc.status_of_used|done].
  - exists (seqZ o n). split; [done|]. split; [by apply length_seqZ_Z|].
    apply Forall_forall. intros b Hin%elem_of_seqZ. by apply Hfree.
  - intros b. rewrite Hfree', Hb, elem_of_app, elem_of_seqZ.
    pose proof (stored_not_free N t xs b Hi Hs). tauto.
  - intros Hm o' e' He' Hf'. destruct (Hends o' e' He' Hf') as (o1 & e1 & He1 & Hf1 & _ & ->).
    rewrite Hfree'. intros [Hc _]. by apply (Hm o1 e1).
  - intros ys Hst Hd. split; [apply Hst|]. intros y Hy.
    apply (Hkeep ys Hst y Hy). by apply (Hys ys).
Qed.

(** A new extent behind the others. *)
Lemma reserved_new N t t' xs o n :
  Alloc.inv N t → stored t xs → Alloc.reserved N t true o o n t' → 0 < n →
  grown N t t' xs n (xs ++ [FileExtent o n]).
Proof.
  intros Hi Hs Hr Hn.
  assert (∀ ys, stored t ys → ∀ y, y ∈ ys → fe_offset y ≠ o) as Hne.
  { intros ys Hst y Hy <-. pose proof (stored_range N t ys y Hi Hst Hy).
    apply (stored_not_free N t ys (fe_offset y) Hi Hst).
    - apply elem_of_blocks_in. exists y. split; [done|lia].
    - apply (proj1 (Alloc.rs_free _ _ _ _ _ _ _ Hr)). lia. }
  apply (reserved_grown N t t' xs _ o o n); try done; [lia| | |].
  - by rewrite blocks_in_app, blocks_in_one.
  - intros x [Hx|Hx]%elem_of_app; [left; split; [done|by apply (Hne xs)]|right].
    apply list_elem_of_singleton in Hx as ->. f_equal. lia.
  - intros ys Hst _. by apply Hne.
Qed.

(** More blocks behind the last extent. *)
Lemma reserved_last N t t' xs l n :
  Alloc.inv N t → stored t (xs ++ [l]) →
  Alloc.reserved N t true (fe_offset l) (fe_offset l + fe_length l) n t' → 0 ≤ n →
  grown N t t' (xs ++ [l]) n (xs ++ [FileExtent (fe_offset l) (fe_length l + n)]).
Proof.
  intros Hi Hs Hr Hn.
  pose proof (stored_range N t _ l Hi Hs ltac:(apply elem_of_app; right; by left)) as Hl.
  assert (fe_offset l ∈ seqZ (fe_offset l) (fe_length l)) as Hin by (apply elem_of_seqZ; lia).
  apply (reserved_grown N t t' _ _ (fe_offset l) (fe_offset l + fe_length l) n); try done.
  - rewrite !blocks_in_app, !blocks_in_one. cbn [fe_offset fe_length].
    by rewrite seqZ_app, app_assoc by lia.
  - intros x [Hx|Hx]%elem_of_app.
    + left. split; [apply elem_of_app; by left|]. intros He.
      pose proof (so_nodup _ _ Hs) as Hd. rewrite blocks_in_app, blocks_in_one in Hd.
      apply NoDup_app in Hd as (_ & Hd & _). apply (Hd (fe_offset l)); [|done].
      apply elem_of_blocks_in. exists x. split; [done|].
      pose proof (stored_range N t _ x Hi Hs ltac:(apply elem_of_app; by left)). lia.
    + right. apply list_elem_of_singleton in Hx as ->. f_equal. lia.
  - intros ys Hst Hd y Hy He. apply (Hd (fe_offset l)).
    + apply elem_of_blocks_in. exists y. pose proof (stored_range N t ys y Hi Hst Hy).
      split; [done|lia].
    + rewrite blocks_in_app, blocks_in_one. apply elem_of_app. by right.
Qed.

(** Only the databases of the allocator matter. *)
Lemma stored_inodes t d xs : stored t xs → stored (set_inodes d t) xs.
Proof. by intros [? ?]; split. Qed.

Lemma grown_inodes N t t' xs n xs' d :
  grown N t t' xs n xs' → grown N t (set_inodes d t') xs n xs'.
Proof.
  intros [Hi Hm Hs Hb Hf Hmg Ho]. split; try done; [by apply stored_inodes|].
  intros ys Hys Hd. by apply stored_inodes, Ho.
Qed.

Lemma grown_refl N t xs : Alloc.inv N t → stored t xs → grown N t t xs 0 xs.
Proof.
  intros Hi Hs. split; try done.
  - exists []. by rewrite app_nil_r.
  - intros b. pose proof (stored_not_free N t xs b Hi Hs). tauto.
Qed.

(** ** The loop of mtl_expand_inode *)

Lemma extend_last_run t id ino xs x y n :
  file_at t id ino (xs ++ [x]) → file_extent_ok y →
  sizeof_inode + 32 * (Z.of_nat (length xs) + 1) ≤ stack_limit < 2 ^ 40 →
  let t' := set_inodes (mdb_put (tx_inodes t) id (with_length ino n, extents_bytes (xs ++ [y]))) t in
  InodeDb.mtl_extend_last_extent_in_file id y n t = Ok (MTL_SUCCESS, t') ∧
  file_at t' id (with_length ino n) (xs ++ [y]).
Proof.
  intros Hf Hy Hst t'. pose proof Hf as [Hg Ht Ho]. unfold sizeof_inode in Hst. split.
  - unfold InodeDb.mtl_extend_last_extent_in_file. run_step (load_file_run t id ino _ Hf).
    unfold c_deref. rewrite (bind_run _ _ _ _ _ (ret_run _ t)).
    rewrite length_app. cbn [length]. unfold sizeof_file_extent. u64_norm. rewrite vla_bind by lia.
    rewrite (proj2 (Z.eqb_neq _ 0)) by lia. rewrite (bind_run _ _ _ _ _ (ret_run _ t)).
    replace ((Z.of_nat (length xs + 1) - 1) * 16) with (Z.of_nat (length (extents_bytes xs)))
      by (rewrite length_extents_bytes; lia).
    rewrite extents_bytes_app, read_bytes_prefix.
    rewrite (bind_run _ _ _ _ _ (lift_run _ t)).
    assert (extents_bytes xs ++ file_extent_bytes y = extents_bytes (xs ++ [y])) as ->
      by (rewrite extents_bytes_app; f_equal; symmetry; apply app_nil_r).
    apply put_inode_run; [lia|]. rewrite length_extents_bytes, length_app. unfold sizeof_inode. simpl. lia.
  - split; [simpl; by rewrite mdb_get_put_eq|done|].
    apply Forall_app in Ho as [Ho _]. apply Forall_app. split; [done|]. by apply Forall_singleton.
Qed.

Section Loop.
Context (N bs id bytes blocks : Z).
Context (Hst : sizeof_inode + 32 * (N + 1) ≤ stack_limit < 2 ^ 40).
Context (Hbs : 0 < bs) (Hbytes : bytes ≤ blocks * bs < 2 ^ 64) (Hblocks : blocks < 2 ^ 63).

Definition last_of xs : mtl_file_extent := default (FileExtent 0 0) (last xs).
Definition count xs : Z := Z.of_nat (length (blocks_in xs)).

(** The length that a round gives the file. *)
Definition round_length (current : Z) : Z :=
  if current * bs <? bytes then current * bs else bytes.

Lemma last_given t xs :
  Alloc.inv N t → stored t xs →
  (if negb (fe_length (last_of xs) =? 0) then Some (last_of xs) else None) = last xs.
Proof.
  intros Hi Hs. unfold last_of. destruct (last xs) as [l|] eqn:El; [|done].
  apply last_Some in El as [pre ->]. simpl default.
  pose proof (stored_range N t _ l Hi Hs ltac:(apply elem_of_app; right; by left)).
  by rewrite (proj2 (Z.eqb_neq (fe_length l) 0)) by lia.
Qed.

Lemma last_elsewhere t xs o e :
  Alloc.inv N t → stored t xs → Alloc.ext_of t o = Some e → is_free e →
  negb (fe_length (last_of xs) =? 0) && (fe_offset (last_of xs) =? o) = false.
Proof.
  intros Hi Hs He Hfe. unfold last_of. destruct (last xs) as [l|] eqn:El; [|done].
  apply last_Some in El as [pre ->]. simpl default. apply andb_false_iff. right.
  apply Z.eqb_neq. intros <-.
  destruct (so_used _ _ Hs l ltac:(apply elem_of_app; right; by left)) as (e' & He' & Hu & _).
  congruence.
Qed.

Lemma round_length_u64 current n :
  0 ≤ current → 0 ≤ n → current + n ≤ blocks →
  current +ᵤ n = current + n ∧
  (if (current + n) *ᵤ bs <? bytes then (current + n) *ᵤ bs else bytes) = round_length (current + n).
Proof using Hbs Hbytes Hblocks.
  intros Hc Hn Hle. rewrite (u64_small (current + n)) by (unfold in_u64; lia).
  rewrite (u64_small ((current + n) * bs)) by (unfold in_u64; nia). done.
Qed.

Definition inodes_kept t t' : Prop :=
  ∀ i, i ≠ id → mdb_get (tx_inodes t') i = mdb_get (tx_inodes t) i.

(** A round in which a new extent is taken from the heap. *)
Lemma round_new fuel ino xs t :
  Alloc.inv N t → file_at t id ino xs → stored t xs →
  (∀ l, last xs = Some l → ¬ Alloc.free_in t (fe_offset l + fe_length l)) →
  count xs < blocks → enough t (blocks - count xs) →
  ∃ t' o e n, grown N t t' xs n (xs ++ [FileExtent o n]) ∧ inodes_kept t t' ∧
    Alloc.ext_of t o = Some e ∧ is_free e ∧ n = Z.min (blocks - count xs) (ext_length e) ∧
    file_at t' id (with_length ino (round_length (count xs + n))) (xs ++ [FileExtent o n]) ∧
    expand_loop (S fuel) bs id bytes blocks (count xs) (last_of xs) t
    = expand_loop fuel bs id bytes blocks (count xs + n) (FileExtent o n) t'.
Proof.
  intros Hi Hf Hs Hlast Hlt (free & _ & Hfree & Hlen).
  assert (0 ≤ count xs) as Hc by (unfold count; lia). assert (blocks < 2 ^ 64) as Hbl by nia.
  pose proof (ai_bound _ _ _ Hi) as HN. pose proof (stored_count N t xs Hi Hs) as [_ Hxs].
  assert (ExtentDb.reserve_append (last xs) t = Ok (None, t)) as Ha.
  { destruct (last xs) as [l|] eqn:El; [|done]. apply Alloc.append_used. intros e He Hfe.
    apply last_Some in El as [pre ->].
    pose proof (stored_range N t _ l Hi Hs ltac:(apply elem_of_app; right; by left)).
    rewrite u64_small in He by (unfold in_u64; lia).
    pose proof (Alloc.inv_range N t _ e Hi He).
    apply (Hlast l eq_refl). exists (fe_offset l + fe_length l), e.
    split; [done|]. split; [done|]. lia. }
  destruct (Alloc.reserve_new_run N (blocks - count xs) true t (last xs)
    (uninit "mtl_expand_inode.new_extent.offset") Hi ltac:(lia) Ha)
    as [[Hno _]|(o & e & t1 & Hcur & He & Hres & Hrd)].
  { exfalso. destruct free as [|b free]; [simpl in Hlen; lia|].
    by apply Forall_cons in Hfree as [Hb%Hno _]. }
  destruct (Alloc.heap_last N t _ _ Hi Hcur) as (e2 & He2 & Hfe & _).
  rewrite He in He2. injection He2 as <-. pose proof (Alloc.inv_range N t o e Hi He).
  set (n := Z.min (blocks - count xs) (ext_length e)) in *. assert (0 < n) as Hn by lia.
  pose proof (rs_frame_inodes _ _ _ _ _ _ _ Hrd) as Hino.
  assert (file_at t1 id ino xs) as Hf1 by (by apply (file_at_frame t)).
  destruct (add_extent_run t1 id ino xs (FileExtent o n) (round_length (count xs + n)) Hf1)
    as [Hadd Hf2]; [split; simpl; lia|unfold sizeof_inode in *; lia|].
  set (t2 := set_inodes _ t1) in *. exists t2, o, e, n.
  pose proof (reserved_new N t t1 xs o n Hi Hs Hrd Hn) as Hg.
  split; [by apply grown_inodes|]. split; [|split; [done|split; [done|split; [done|split; [done|]]]]].
  { intros i Hne. simpl. by rewrite mdb_get_put_ne, Hino. }
  cbn [expand_loop]. rewrite (proj2 (Z.ltb_lt _ _)) by lia. cbn [negb].
  rewrite (last_given t xs Hi Hs), (u64_small (blocks - count xs)) by (unfold in_u64; lia).
  run_step Hres. cbn [fe_length fe_offset]. fold n. rewrite (proj2 (Z.eqb_neq n 0)) by lia.
  cbn [negb c_assert]. rewrite (bind_run _ _ _ _ _ (ret_run _ t1)).
  rewrite (last_elsewhere t xs o e Hi Hs He Hfe).
  destruct (round_length_u64 (count xs) n) as [-> ->]; [lia..|]. by run_step Hadd.
Qed.

(** The only round when there is more than enough room behind the last extent. *)
Lemma round_last fuel ino pre l e1 t :
  let xs := pre ++ [l] in
  let n := blocks - count xs in
  let l' := FileExtent (fe_offset l) (fe_length l + n) in
  Alloc.inv N t → file_at t id ino xs → stored t xs →
  Alloc.ext_of t (fe_offset l + fe_length l) = Some e1 → is_free e1 → 0 < n < ext_length e1 →
  ∃ t', grown N t t' xs n (pre ++ [l']) ∧ inodes_kept t t' ∧
    file_at t' id (with_length ino (round_length blocks)) (pre ++ [l']) ∧
    expand_loop (S fuel) bs id bytes blocks (count xs) (last_of xs) t
    = expand_loop fuel bs id bytes blocks blocks l' t'.
Proof.
  intros xs n l' Hi Hf Hs He1 Hf1 Hn.
  assert (l ∈ xs) as Hl by (apply elem_of_app; right; by left).
  assert (last_of xs = l) as Hlast by (unfold last_of, xs; by rewrite last_snoc).
  pose proof (stored_range N t xs l Hi Hs Hl) as Hlr. pose proof (Alloc.inv_range N t _ e1 Hi He1).
  assert (0 ≤ count xs) as Hc by (unfold count; lia).
  pose proof (stored_count N t xs Hi Hs) as [_ Hxs]. unfold xs in Hxs. rewrite length_app in Hxs.
  cbn [length] in Hxs.
  destruct (so_used _ _ Hs l Hl) as (e0 & He0 & Hu0 & Hl0).
  destruct (Alloc.append_grows N t Hi l e0 e1 He0 Hu0 Hl0 He1 Hf1 n
    (uninit "mtl_expand_inode.new_extent.offset") true Hn) as (t1 & Hres & Hrd).
  pose proof (rs_frame_inodes _ _ _ _ _ _ _ Hrd) as Hino.
  assert (file_at t1 id ino (pre ++ [l])) as Hfile by (by apply (file_at_frame t)).
  destruct (extend_last_run t1 id ino pre l l' (round_length blocks) Hfile)
    as [Hext Hf2]; [split; simpl; lia|unfold sizeof_inode in *; lia|].
  set (t2 := set_inodes _ t1) in *. exists t2.
  split; [apply grown_inodes; apply reserved_last; (done || lia)|].
  split; [|split; [done|]].
  { intros i Hne. simpl. by rewrite mdb_get_put_ne, Hino. }
  cbn [expand_loop]. rewrite (proj2 (Z.ltb_lt _ _)) by lia. cbn [negb].
  rewrite (last_given t xs Hi Hs), (u64_small (blocks - count xs)) by (unfold in_u64; lia).
  assert (last xs = Some l) as -> by apply last_snoc. fold n. run_step Hres.
  cbn [fe_length fe_offset]. rewrite (proj2 (Z.eqb_neq n 0)) by lia.
  cbn [negb c_assert]. rewrite (bind_run _ _ _ _ _ (ret_run _ t1)). rewrite Hlast.
  rewrite (proj2 (Z.eqb_neq (fe_length l) 0)), Z.eqb_refl by lia. cbn [negb andb].
  destruct (round_length_u64 (count xs) n) as [-> ->]; [lia..|].
  rewrite (u64_small (fe_length l + n)) by (unfold in_u64; lia).
  replace (count xs + n) with blocks by lia. by run_step Hext.
Qed.

(** Whatever room is free is taken, as many rounds as it has extents. *)
Lemma expand_loop_run : ∀ fuel ino xs t,
  Alloc.inv N t → file_at t id ino xs → stored t xs → merged t →
  count xs ≤ blocks → blocks - count xs ≤ Z.of_nat fuel → enough t (blocks - count xs) →
  (count xs < blocks → ∀ l, last xs = Some l → ¬ Alloc.free_in t (fe_offset l + fe_length l)) →
  ∃ t' xs', expand_loop fuel bs id bytes blocks (count xs) (last_of xs) t = Ok (tt, t') ∧
    grown N t t' xs (blocks - count xs) xs' ∧ inodes_kept t t' ∧
    file_at t' id (if decide (count xs < blocks) then with_length ino bytes else ino) xs'.
Proof.
  induction fuel as [|fuel IH]; intros ino xs t Hi Hf Hs Hm Hle Hfuel Hen Hlast.
  all: destruct (decide (count xs < blocks)) as [Hlt|Hge]; [|exists t, xs].
  - lia.
  - split; [by apply expand_loop_done; lia|]. replace (blocks - count xs) with 0 by lia.
    split; [by apply grown_refl|done].
  - destruct (round_new fuel ino xs t) as (t1 & o & e & n & Hg & Hk & He & Hfe & Hn & Hf1 & ->);
      [by auto..|].
    set (xs1 := xs ++ [FileExtent o n]) in *.
    assert (count xs1 = count xs + n) as Hc1.
    { unfold count. destruct (gr_blocks _ _ _ _ _ _ Hg) as (new & -> & <- & _).
      rewrite length_app. lia. }
    destruct (IH (with_length ino (round_length (count xs + n))) xs1 t1)
      as (t' & xs' & Hloop & Hg' & Hk' & Hf'); [by apply Hg|done|by apply Hg|by apply Hg|lia| | | |].
    + pose proof (Alloc.inv_range N t o e Hi He). lia.
    + replace (blocks - count xs1) with (blocks - count xs - n) by lia.
      by apply (grown_enough N t t1 xs n xs1).
    + intros Hlt1 l. unfold xs1. rewrite last_snoc. intros [= <-]. cbn [fe_offset fe_length].
      assert (n = ext_length e) as -> by lia. intros [Hc _]%(gr_free _ _ _ _ _ _ Hg).
      by apply (Hm o e).
    + exists t', xs'. rewrite Hc1 in *. unfold last_of in Hloop at 1. unfold xs1 in Hloop.
      rewrite last_snoc in Hloop. split; [exact Hloop|]. split.
      { replace (blocks - count xs) with (n + (blocks - (count xs + n))) by lia.
        by eapply grown_trans. }
      split; [intros i Hne; by rewrite Hk', Hk|].
      case_decide; [exact Hf'|]. unfold round_length in Hf'.
      rewrite (proj2 (Z.ltb_ge _ _)) in Hf' by nia. exact Hf'.
  - split; [by apply expand_loop_done; lia|]. replace (blocks - count xs) with 0 by lia.
    split; [by apply grown_refl|done].
Qed.
End Loop.

(** Behind the last extent nothing is free, or more than is needed. *)
Definition room t xs n : Prop :=
  ∀ l, last xs = Some l → ¬ Alloc.free_in t (fe_offset l + fe_length l) ∨
    ∃ e, Alloc.ext_of t (fe_offset l + fe_length l) = Some e ∧ is_free e ∧ n < ext_length e.

(** All of mtl_expand_inode: the file has the blocks for [bytes] bytes afterwards, and
    that length if it had to grow. *)
Lemma expand_run N bs id ino bytes xs t :
  let need := blocks_up bytes bs - count xs in
  Alloc.inv N t → file_at t id ino xs → stored t xs → merged t →
  0 < bytes < 2 ^ 62 → 0 < bs < 2 ^ 62 → sizeof_inode + 32 * (N + 1) ≤ stack_limit < 2 ^ 40 →
  enough t need → room t xs need →
  ∃ t' xs', mtl_expand_inode bs id xs bytes t = Ok (MTL_SUCCESS, t') ∧
    grown N t t' xs (Z.max 0 need) xs' ∧ inodes_kept id t t' ∧
    file_at t' id (if decide (0 < need) then with_length ino bytes else ino) xs'.
Proof.
  intros need Hi Hf Hs Hm Hbytes Hbs Hst Hen Hroom. subst need.
  set (blocks := blocks_up bytes bs) in *. set (need := blocks - count xs) in *.
  destruct (blocks_up_spec bytes bs) as [Hb Hb0]; [lia|lia|]. fold blocks in Hb, Hb0.
  assert (bytes ≤ blocks * bs < 2 ^ 64) as Hbb by lia. assert (blocks < 2 ^ 63) as Hbl by nia.
  destruct (stored_count N t xs Hi Hs) as [Htotal _]. fold (count xs) in Htotal.
  unfold mtl_expand_inode. rewrite Htotal. fold (last_of xs).
  rewrite (bind_run _ _ _ _ _ (blocks_of_run bytes bs t ltac:(lia) ltac:(lia))). fold blocks need.
  destruct (decide (0 < need)) as [Hpos|Hneg]; cycle 1.
  { exists t, xs. rewrite (bind_run _ _ _ _ _ (expand_loop_done _ bs id bytes blocks (count xs) _ t ltac:(lia))).
    replace (Z.max 0 need) with 0 by lia. split; [done|]. by split; [apply grown_refl|]. }
  rewrite Z.max_r by lia.
  assert (need ≤ Z.of_nat (Z.to_nat need)) as Hfuel by lia.
  assert (count xs < blocks → (∀ l, last xs = Some l → ¬ Alloc.free_in t (fe_offset l + fe_length l)) →
    ∃ t' xs', expand_loop (Z.to_nat need) bs id bytes blocks (count xs) (last_of xs) t = Ok (tt, t') ∧
      grown N t t' xs need xs' ∧ inodes_kept id t t' ∧ file_at t' id (with_length ino bytes) xs') as Hnew.
  { intros Hlt Hlast.
    destruct (expand_loop_run N bs id bytes blocks Hst ltac:(lia) Hbb Hbl (Z.to_nat need) ino xs t)
      as (t' & xs' & Hloop & Hg & Hk & Hf'); [done|done|done|done|lia|done|done|done|].
    rewrite decide_True in Hf' by done. by exists t', xs'. }
  assert (∃ t' xs', expand_loop (Z.to_nat need) bs id bytes blocks (count xs) (last_of xs) t = Ok (tt, t') ∧
      grown N t t' xs need xs' ∧ inodes_kept id t t' ∧ file_at t' id (with_length ino bytes) xs')
    as (t' & xs' & Hloop & Hrest); [|exists t', xs'; by rewrite (bind_run _ _ _ _ _ Hloop)].
  destruct (last xs) as [l|] eqn:El; [|apply Hnew; [lia|by intros]].
  destruct (Hroom l El) as [Hno|(e1 & He1 & Hf1 & Hlen)]; [apply Hnew; [lia|by intros ? [= <-]]|].
  pose proof El as [pre ->]%last_Some. destruct (Z.to_nat need) as [|fuel] eqn:Ef; [lia|].
  destruct (round_last N bs id bytes blocks Hst ltac:(lia) Hbb Hbl fuel ino pre l e1 t Hi Hf Hs He1 Hf1)
    as (t' & Hg & Hk & Hf' & Hloop); [unfold need in *; lia|].
  exists t', (pre ++ [FileExtent (fe_offset l) (fe_length l + (blocks - count (pre ++ [l])))]).
  rewrite Hloop. split; [by apply expand_loop_done|]. split; [exact Hg|]. split; [done|].
  unfold round_length in Hf'. by rewrite (proj2 (Z.ltb_ge _ _)) in Hf' by lia.
Qed.
End Growing.

(** ** Where the bytes of a file lie *)

(** Byte [i] of a file is byte [i mod BLOCK_SIZE] of its block [i / BLOCK_SIZE]. *)
Lemma file_addr_blocks xs : ∀ i,
  (∀ x, x ∈ xs → 0 < fe_length x) → 0 ≤ i →
  Backend.file_addr xs i
  = (λ b, b * Storage.BLOCK_SIZE + i mod Storage.BLOCK_SIZE)
      <$> (blocks_in xs !! Z.to_nat (i / Storage.BLOCK_SIZE)).
Proof.
  assert (0 < Storage.BLOCK_SIZE) as Hbs by done. set (bs := Storage.BLOCK_SIZE) in *.
  induction xs as [|x xs IH]; intros i Hp Hi; [done|].
  change (blocks_in (x :: xs)) with (seqZ (fe_offset x) (fe_length x) ++ blocks_in xs).
  cbn [Backend.file_addr]. unfold Backend.extent_bytes. fold bs.
  pose proof (Hp x ltac:(left)) as Hx.
  pose proof (Z.div_mod i bs ltac:(lia)) as Hd. pose proof (Z.mod_pos_bound i bs Hbs) as Hr.
  assert (0 ≤ i / bs) as Hq by (apply Z.div_pos; lia).
  case_decide as Hin.
  - rewrite lookup_app_l by (rewrite length_seqZ; nia).
    rewrite lookup_seqZ_lt by nia. cbn [fmap option_fmap option_map]. f_equal. nia.
  - rewrite decide_False by lia. rewrite lookup_app_r by (rewrite length_seqZ; nia).
    rewrite length_seqZ, IH by (lia || (intros y Hy; apply Hp; by right)).
    replace (i - fe_length x * bs) with (i + - fe_length x * bs) by lia.
    rewrite Z.div_add, Z.mod_add by lia. do 2 f_equal. lia.
Qed.

Lemma file_bytes_blocks xs :
  (∀ x, x ∈ xs → 0 < fe_length x) → Backend.file_bytes xs = count xs * Storage.BLOCK_SIZE.
Proof.
  induction xs as [|x xs IH]; intros Hp; [done|]. cbn [Backend.file_bytes].
  rewrite IH by (intros y Hy; apply Hp; by right). unfold count, Backend.extent_bytes.
  change (blocks_in (x :: xs)) with (seqZ (fe_offset x) (fe_length x) ++ blocks_in xs).
  pose proof (Hp x ltac:(left)). rewrite length_app, length_seqZ. lia.
Qed.

Section Layout.
Context `{LmdbLaws}.

Lemma stored_layout N t xs :
  Alloc.inv N t → N ≤ Storage.NUM_BLOCKS → stored t xs → Backend.layout_ok xs.
Proof.
  intros Hi HN Hs. pose proof (stored_range N t xs) as Hr.
  assert (∀ x, x ∈ xs → 0 ≤ fe_offset x ∧ 0 < fe_length x ∧ fe_offset x + fe_length x ≤ N)
    as Hrange by (intros x; by apply Hr).
  split.
  - apply Forall_forall. intros x Hx%Hrange. unfold Backend.extent_ok. lia.
  - pose proof (so_nodup _ _ Hs) as Hd. clear Hs Hr. induction xs as [|x xs IH]; [done|].
    change (blocks_in (x :: xs)) with (seqZ (fe_offset x) (fe_length x) ++ blocks_in xs) in Hd.
    apply NoDup_app in Hd as (_ & Hd & Hd').
    split; [|by apply IH; [intros y Hy; apply Hrange; by right|]].
    apply Forall_forall. intros y Hy. unfold Backend.apart.
    pose proof (Hrange x ltac:(left)). pose proof (Hrange y ltac:(by right)).
    destruct (decide (fe_offset x + fe_length x ≤ fe_offset y)); [by left|].
    destruct (decide (fe_offset y + fe_length y ≤ fe_offset x)); [by right|].
    exfalso. apply (Hd (Z.max (fe_offset x) (fe_offset y))); [apply elem_of_seqZ; lia|].
    apply elem_of_blocks_in. exists y. split; [done|lia].
  - rewrite file_bytes_blocks by (intros x Hx%Hrange; lia).
    pose proof (stored_total N t xs Hi Hs). unfold count, Storage.BLOCK_SIZE in *. lia.
Qed.

Lemma grown_bytes N t t' xs n xs' :
  grown N t t' xs n xs' → Backend.file_bytes xs' = (count xs + n) * Storage.BLOCK_SIZE.
Proof.
  intros Hg. rewrite file_bytes_blocks.
  - unfold count. destruct (gr_blocks _ _ _ _ _ _ Hg) as (new & -> & <- & _).
    rewrite length_app. lia.
  - intros x Hx. by apply (stored_range N t' xs'); [apply Hg|apply Hg|].
Qed.

(** Another file has no block in common with the file that has grown. *)
Lemma grown_disjoint N t t' xs n xs' ys b :
  Alloc.inv N t → grown N t t' xs n xs' → stored t ys →
  (∀ b, b ∈ blocks_in ys → b ∉ blocks_in xs) → b ∈ blocks_in ys → b ∉ blocks_in xs'.
Proof.
  intros Hi Hg Hys Hd Hb. destruct (gr_blocks _ _ _ _ _ _ Hg) as (new & -> & _ & Hnew).
  rewrite elem_of_app. intros [Hx|Hx]; [by apply (Hd b)|].
  apply (stored_not_free N t ys b Hi Hys Hb). by apply (proj1 (Forall_forall _ _) Hnew).
Qed.

(** The bytes a file had stay where they are. *)
Lemma grown_addr N t t' xs n xs' i :
  Alloc.inv N t → stored t xs → grown N t t' xs n xs' → 0 ≤ i < Backend.file_bytes xs →
  Backend.file_addr xs' i = Backend.file_addr xs i.
Proof.
  intros Hi Hs Hg Hin.
  assert (∀ x, x ∈ xs → 0 < fe_length x) as Hp by (intros x Hx; by apply (stored_range N t xs)).
  assert (∀ x, x ∈ xs' → 0 < fe_length x) as Hp'.
  { intros x Hx. by apply (stored_range N t' xs'); [apply Hg|apply Hg|]. }
  rewrite !file_addr_blocks by (done || lia). f_equal.
  destruct (gr_blocks _ _ _ _ _ _ Hg) as (new & -> & _). apply lookup_app_l.
  rewrite file_bytes_blocks in Hin by done. unfold count in Hin.
  assert (0 < Storage.BLOCK_SIZE) by done.
  assert (i / Storage.BLOCK_SIZE < Z.of_nat (length (blocks_in xs)))
    by (apply Z.div_lt_upper_bound; lia).
  assert (0 ≤ i / Storage.BLOCK_SIZE) by (apply Z.div_pos; lia). lia.
Qed.
End Layout.

(** ** Writing and reading *)

Section Writing.
Context `{LmdbLaws} `{Machine} (malloc : Z → Z).
Let storage := Storage.in_memory_storage malloc.
Abbreviation world := (world (B := Storage.store)).
Implicit Types (w : world) (xs : list mtl_file_extent).

(** Byte [i] of a file with the extents [xs] after a write at [offset], on what the
    storage held before. *)
Definition byte_after (m : Z → Z) xs (offset : Z) (buffer : list Z) (i : Z) : Z :=
  if decide (offset ≤ i < offset + Z.of_nat (length buffer))
  then nth (Z.to_nat (i - offset)) buffer 0
  else m (default 0 (Backend.file_addr xs i)).

Lemma read_after_write xs m m' offset buffer o (n : nat) :
  Backend.layout_ok xs → 0 ≤ offset → 0 ≤ o → o + Z.of_nat n ≤ Backend.file_bytes xs →
  (∀ a, (∀ i, offset ≤ i < offset + Z.of_nat (length buffer) → Backend.file_addr xs i ≠ Some a) →
     m' a = m a) →
  (∀ i a, offset ≤ i < offset + Z.of_nat (length buffer) → Backend.file_addr xs i = Some a →
     m' a = nth (Z.to_nat (i - offset)) buffer 0) →
  Backend.file_read xs m' o n = byte_after m xs offset buffer <$> seqZ o (Z.of_nat n).
Proof.
  intros Hlay Hoff Ho Hn Hout Hin. unfold Backend.file_read, seqZ.
  rewrite Nat2Z.id, <-list_fmap_compose. apply list_fmap_ext. intros j i [-> Hi]%lookup_seq.
  simpl. replace (Z.of_nat j + o) with (o + Z.of_nat j) by lia. unfold byte_after.
  destruct (Backend.file_addr_total xs (o + Z.of_nat j)) as [a Ha]; [lia|]. rewrite Ha. simpl.
  case_decide as Hd; [by apply Hin|]. apply Hout. intros k Hk Hka.
  pose proof (Backend.file_addr_inj xs _ _ a (Backend.lo_apart _ Hlay) Ha Hka). lia.
Qed.

(** Files of different blocks have no byte in common. *)
Lemma other_file_bytes xs ys i j a :
  (∀ b, b ∈ blocks_in ys → b ∉ blocks_in xs) →
  Backend.file_addr ys i = Some a → Backend.file_addr xs j ≠ Some a.
Proof.
  intros Hd (_ & y & Hy & Hya)%Backend.file_addr_in (_ & x & Hx & Hxa)%Backend.file_addr_in.
  assert (0 < Storage.BLOCK_SIZE) by done. set (bs := Storage.BLOCK_SIZE) in *.
  pose proof (Z.div_mod a bs ltac:(lia)). pose proof (Z.mod_pos_bound a bs ltac:(lia)).
  apply (Hd (a / bs)); apply elem_of_blocks_in; [exists y|exists x]; (split; [done|nia]).
Qed.

(** Once the file has its extents, a write hands the bytes to them and any range is
    read back. *)
Lemma write_expanded w id ino ino' xs xs' t' buffer offset :
  let size := Z.of_nat (length buffer) in
  let m := Backend.contents malloc (w_store w) in
  locked w = false → block_size (w_metadata w) = Storage.BLOCK_SIZE →
  file_at (committed w) id ino xs → file_at t' id ino' xs' →
  mtl_expand_inode Storage.BLOCK_SIZE id xs (offset + size) (committed w) = Ok (MTL_SUCCESS, t') →
  Backend.layout_ok xs' → (length xs' ≤ 512)%nat →
  0 ≤ offset → 0 < size → offset + size < Storage.NUM_BLOCKS * Storage.BLOCK_SIZE →
  offset + size ≤ Backend.file_bytes xs' → i_length ino' ≤ Backend.file_bytes xs' →
  i_length ino' < Storage.NUM_BLOCKS * Storage.BLOCK_SIZE →
  ∃ w', mtl_write storage id buffer size offset w = Ok (MTL_SUCCESS, w') ∧
    committed w' = t' ∧ locked w' = false ∧
    (∀ out o, 0 ≤ o → (0 < length out)%nat → o + Z.of_nat (length out) ≤ i_length ino' →
       mtl_read storage id out (Z.of_nat (length out)) o w'
       = Ok ((Z.of_nat (length out),
              byte_after m xs' offset buffer <$> seqZ o (Z.of_nat (length out))), w')) ∧
    ∀ a, (∀ i, offset ≤ i < offset + size → Backend.file_addr xs' i ≠ Some a) →
      Backend.contents malloc (w_store w') a = m a.
Proof.
  intros size m Hl Hbs Hf Hf' Hexp Hlay Hcount Ho Hsize Hend Hfit Hlen' Hmax'.
  assert (Storage.NUM_BLOCKS = 2 ^ 15 ∧ Storage.BLOCK_SIZE = 2 ^ 12) as [HNB HBS] by done.
  assert (offset +ᵤ size = offset + size) as Hu by (apply u64_small; unfold in_u64; lia).
  rewrite <-Hu in Hexp. rewrite <-Hbs in Hexp at 1.
  destruct (file_write_run storage w id ino xs buffer size offset t' Hl Hf Hexp)
    as (w2 & Hc2 & Hl2 & [Hm2 Hs2] & Hw).
  assert (file_at (committed w2) id ino' xs') as Hf2 by (by rewrite Hc2).
  pose proof (load_extent_list_run (w_env w2) id _ _ Hf2 Hcount) as Hload.
  destruct (Backend.write_run malloc (w_env w2) id offset buffer size (w_store w2) _ _ _ Hload Hlay)
    as (m' & Hsw & Hout & Hin); [lia..|].
  rewrite Hs2 in Hout. fold m in Hout.
  exists (World (w_env w2) (w_metadata w2) (Storage.Store (Some m') xs')).
  split; [|split; [done|split; [done|split; [|exact Hout]]]].
  - rewrite Hw. erewrite (bind_run _ _ w2); [done|].
    unfold on_store. cbn [st_write storage Storage.in_memory_storage]. by rewrite Hsw.
  - intros out o Ho' Hpos Hr. unfold storage.
    rewrite (read_range malloc _ id ino' xs' out o m') by (done || lia).
    by rewrite (read_after_write xs' m m' offset buffer) by (done || lia).
Qed.

(** All of mtl_write, on a volume with room for the missing blocks. *)
Lemma write_grows_run N w id ino xs buffer offset :
  let t := committed w in
  let size := Z.of_nat (length buffer) in
  let need := blocks_up (offset + size) Storage.BLOCK_SIZE - count xs in
  let ino' := if decide (0 < need) then with_length ino (offset + size) else ino in
  locked w = false → w_metadata w = StorageMetadata N Storage.BLOCK_SIZE →
  N ≤ Storage.NUM_BLOCKS → Alloc.inv N t → file_at t id ino xs → stored t xs → merged t →
  sizeof_inode + 32 * (N + 1) ≤ stack_limit < 2 ^ 40 →
  0 ≤ i_length ino ≤ Backend.file_bytes xs →
  i_length ino < Storage.NUM_BLOCKS * Storage.BLOCK_SIZE →
  0 ≤ offset → 0 < size → offset + size < Storage.NUM_BLOCKS * Storage.BLOCK_SIZE →
  enough t need → room t xs need →
  ∃ t' xs', grown N t t' xs (Z.max 0 need) xs' ∧ inodes_kept id t t' ∧ file_at t' id ino' xs' ∧
    (Z.of_nat (length xs') ≤ MTL_MAX_EXTENTS →
     ∃ w', mtl_write storage id buffer size offset w = Ok (MTL_SUCCESS, w') ∧
       committed w' = t' ∧ locked w' = false ∧
       (∀ out o, 0 ≤ o → (0 < length out)%nat → o + Z.of_nat (length out) ≤ i_length ino' →
          mtl_read storage id out (Z.of_nat (length out)) o w'
          = Ok ((Z.of_nat (length out),
                 byte_after (Backend.contents malloc (w_store w)) xs' offset buffer
                   <$> seqZ o (Z.of_nat (length out))), w')) ∧
       ∀ ys i a, stored t ys → (∀ b, b ∈ blocks_in ys → b ∉ blocks_in xs) →
         Backend.file_addr ys i = Some a →
         Backend.contents malloc (w_store w') a = Backend.contents malloc (w_store w) a).
Proof.
  intros t size need ino' Hl Hmd HN Hi Hf Hs Hm Hst Hlen Hmax Ho Hsize Hend Hen Hroom.
  assert (Storage.NUM_BLOCKS = 2 ^ 15 ∧ Storage.BLOCK_SIZE = 2 ^ 12) as [HNB HBS] by done.
  destruct (expand_run N Storage.BLOCK_SIZE id ino (offset + size) xs t Hi Hf Hs Hm)
    as (t' & xs' & Hexp & Hg & Hk & Hf'); [lia|lia|done|done|done|].
  fold need in Hg, Hf'. fold ino' in Hf'. exists t', xs'.
  split; [done|]. split; [done|]. split; [done|]. intros Hcount.
  pose proof (stored_layout N t' xs' (gr_inv _ _ _ _ _ _ Hg) HN (gr_stored _ _ _ _ _ _ Hg)) as Hlay.
  pose proof (grown_bytes _ _ _ _ _ _ Hg) as Hbytes.
  destruct (blocks_up_spec (offset + size) Storage.BLOCK_SIZE) as [Hup _]; [lia|lia|].
  assert (offset + size ≤ Backend.file_bytes xs' ∧ i_length ino' ≤ Backend.file_bytes xs' ∧
    i_length ino' < Storage.NUM_BLOCKS * Storage.BLOCK_SIZE) as (Hfit & Hlen' & Hmax').
  { rewrite Hbytes. rewrite file_bytes_blocks in Hlen by (intros x; by apply (stored_range N t xs)).
    unfold ino'. case_decide; simpl; split_and!; nia || lia. }
  unfold MTL_MAX_EXTENTS in Hcount.
  destruct (write_expanded w id ino ino' xs xs' t' buffer offset Hl ltac:(by rewrite Hmd) Hf Hf'
    Hexp Hlay ltac:(lia) Ho Hsize Hend Hfit Hlen' Hmax') as (w' & Hw & Hc & Hlk & Hread & Hout).
  exists w'. split; [done|]. split; [done|]. split; [done|]. split; [done|].
  intros ys i a Hys Hd Ha. apply Hout. intros j _.
  apply (other_file_bytes xs' ys i j a); [|done]. intros b Hb.
  by apply (grown_disjoint N t t' xs (Z.max 0 need) xs' ys b).
Qed.

(** C1: A write at any offset of a file, which grows as far as the write asks for over as
    many free extents as that takes: exactly the blocks that are missing are
    taken from the free ones, appended to the blocks of the file and recorded,
    with the length, in its inode; the allocator's invariant, every other inode
    and the bytes and extents of every other file are kept, and any range of the
    file is read back afterwards as the bytes written and, elsewhere, those it had.
    The write has to end before the last byte of the storage, the missing blocks have
    to be free, no two free extents may be neighbours ([merged]: mtl_free_extent
    merges an extent with the one behind it only, extent.c:232), and the extent behind
    the last one of the file must not be free or must be larger than what is missing
    ([room]: one that fits exactly or is too small is handed out but lost for the
    database, extent.c:130). The data are written if the file has at most 512 extents
    then. *)
Theorem write_grows_and_reads_back N w id ino xs buffer offset :
  let t := committed w in
  let size := Z.of_nat (length buffer) in
  let need := blocks_up (offset + size) Storage.BLOCK_SIZE - count xs in
  let ino' := if decide (0 < need) then with_length ino (offset + size) else ino in
  locked w = false → w_metadata w = StorageMetadata N Storage.BLOCK_SIZE →
  N ≤ Storage.NUM_BLOCKS → Alloc.inv N t → file_at t id ino xs → stored t xs → merged t →
  sizeof_inode + 32 * (N + 1) ≤ stack_limit < 2 ^ 40 →
  0 ≤ i_length ino ≤ Backend.file_bytes xs →
  i_length ino < Storage.NUM_BLOCKS * Storage.BLOCK_SIZE →
  0 ≤ offset → 0 < size → offset + size < Storage.NUM_BLOCKS * Storage.BLOCK_SIZE →
  enough t need → room t xs need →
  ∃ t' xs', grown N t t' xs (Z.max 0 need) xs' ∧ inodes_kept id t t' ∧ file_at t' id ino' xs' ∧
    (Z.of_nat (length xs') ≤ MTL_MAX_EXTENTS →
     ∃ w', mtl_write storage id buffer size offset w = Ok (MTL_SUCCESS, w') ∧
       committed w' = t' ∧ locked w' = false ∧
       (∀ out o, 0 ≤ o → (0 < length out)%nat → o + Z.of_nat (length out) ≤ i_length ino' →
          mtl_read storage id out (Z.of_nat (length out)) o w'
          = Ok ((Z.of_nat (length out),
                 byte_after (Backend.contents malloc (w_store w)) xs' offset buffer
                   <$> seqZ o (Z.of_nat (length out))), w')) ∧
       ∀ ys i a, stored t ys → (∀ b, b ∈ blocks_in ys → b ∉ blocks_in xs) →
         Backend.file_addr ys i = Some a →
         Backend.contents malloc (w_store w') a = Backend.contents malloc (w_store w) a).
Proof. apply write_grows_run. Qed.
End Writing.

(** ** A fragmented volume *)

Module Demo.
#[local] Instance machine : Machine := Ns.Demo.machine.
Import AllocProofs.Demo.

(** Of 12 blocks only 4 to 7 are in use. *)
Definition two_files : txn := final (ExtentDb.mtl_reserve_extent 4 None 0 true) one_file.
Definition holes : txn := final (ExtentDb.mtl_free_extent 0) two_files.

Lemma two_files_inv : Alloc.inv 12 two_files.
Proof.
  destruct (Alloc.reserve_new_run 12 4 true one_file None 0 one_file_inv)
    as [[? Hr]|(o & e & t' & _ & _ & Hr & Hres)]; [lia|done|..].
  - vm_compute in Hr. discriminate.
  - unfold two_files, final. rewrite Hr. by destruct Hres.
Qed.

Lemma holes_inv : Alloc.inv 12 holes.
Proof.
  destruct (Alloc.free_run 12 two_files 0 used4 two_files_inv) as (t' & Hr & Hi & _).
  - vm_compute. reflexivity.
  - done.
  - intros o1 e1 H1 Hf. vm_compute in H1. injection H1 as <- <-. by vm_compute in Hf.
  - unfold holes, final. by rewrite Hr.
Qed.

Definition hole1 : mtl_extent := Extent 4 MTL_FREE (NodeId 4 0).
Definition hole2 : mtl_extent := Extent 4 MTL_FREE (NodeId 4 8).

Lemma hole1_free : Alloc.ext_of holes 0 = Some hole1.
Proof. vm_compute. reflexivity. Qed.
Lemma hole2_free : Alloc.ext_of holes 8 = Some hole2.
Proof. vm_compute. reflexivity. Qed.

Lemma holes_enough : enough holes 5.
Proof.
  exists (seqZ 0 4 ++ seqZ 8 4). split; [|split; [|done]].
  - apply NoDup_app. split; [apply NoDup_seqZ|]. split; [|apply NoDup_seqZ].
    intros b H1%elem_of_seqZ H2%elem_of_seqZ. lia.
  - apply Forall_app. split; apply Forall_seqZ; intros b Hb.
    + exists 0, hole1. split; [apply hole1_free|]. split; [done|]. simpl. lia.
    + exists 8, hole2. split; [apply hole2_free|]. split; [done|]. simpl. lia.
Qed.

Lemma holes_extents o e : Alloc.ext_of holes o = Some e → is_free e →
  (o = 0 ∧ e = hole1) ∨ (o = 8 ∧ e = hole2).
Proof.
  intros He Hf. unfold Alloc.ext_of in He.
  let d := eval vm_compute in (tx_extents holes) in change (tx_extents holes) with d in He.
  cbn in He. repeat case_decide; simplify_eq; [..]; try (by right); try (by left); by destruct Hf.
Qed.

Lemma holes_merged : merged holes.
Proof.
  intros o e He Hf (o' & e' & He' & Hf' & Hb).
  destruct (holes_extents o e He Hf) as [[-> ->]|[-> ->]];
    destruct (holes_extents o' e' He' Hf') as [[-> ->]|[-> ->]]; simpl in Hb; lia.
Qed.

Definition volume : Metal.world := Files.Demo.volume Ns.Demo.no_store (Files.Demo.with_extents holes 0 []).
End Demo.

#[local] Existing Instance Demo.machine.

Lemma write_grows_and_reads_back_witness :
  ∃ w', mtl_write (Storage.in_memory_storage (λ _, 0)) 1 [1; 2; 3] 3 20000 Demo.volume
        = Ok (MTL_SUCCESS, w') ∧
    mtl_read (Storage.in_memory_storage (λ _, 0)) 1 [7; 7; 7; 7] 4 19999 w'
    = Ok ((4, [0; 1; 2; 3]), w').
Proof.
  destruct (write_grows_and_reads_back (λ _, 0) 12 Demo.volume 1 (Files.Demo.file_inode 0) []
    [1; 2; 3] 20000 eq_refl eq_refl) as (t' & xs' & Hg & _ & _ & Hrest).
  - vm_compute. congruence.
  - apply Demo.holes_inv.
  - by apply (Files.Demo.f_at _ _ []).
  - split; [constructor|]. by intros x ?%elem_of_nil.
  - apply Demo.holes_merged.
  - vm_compute. split; congruence.
  - vm_compute. split; congruence.
  - vm_compute. congruence.
  - lia.
  - done.
  - vm_compute. congruence.
  - apply Demo.holes_enough.
  - by intros l.
  - destruct (stored_count 12 t' xs' (gr_inv _ _ _ _ _ _ Hg) (gr_stored _ _ _ _ _ _ Hg)) as [_ Hn].
    destruct Hrest as (w' & Hw & _ & _ & Hr & _); [unfold MTL_MAX_EXTENTS; lia|].
    exists w'. split; [exact Hw|]. apply (Hr [7; 7; 7; 7] 19999); [lia|simpl; lia|].
    vm_compute. congruence.
Defined.

End Growth.
