(* ===== verification/Removal.v ===== *)
(** * Removing files of any number of extents

    What [mtl_unlink] does to a file with several extents, and when a release keeps
    free extents apart, which [Growth] asks of a volume on which files grow. *)
From S2P Require Import Prelude Tiling Lmdb Structs Extent ExtentInv AllocProofs Dirent Inode InodeProofs Path Metal File Storage Namespace StorageProofs FileProofs Growth.

Module Removal.
Import Dir Metal File Ns Files Growth.

Section Releasing.
Context `{LmdbLaws} `{Machine}.
Implicit Types (t : txn) (id b n o : Z) (x : mtl_file_extent) (xs : list mtl_file_extent).

(** Before each extent lies a block in use that is not of the file. *)
Definition isolated t xs : Prop :=
  ∀ x, x ∈ xs → ¬ Alloc.free_in t (fe_offset x - 1) ∧ fe_offset x - 1 ∉ blocks_in xs.

(** Behind the end of a free extent starts what lies there. *)
Lemma free_behind N t o e :
  Alloc.inv N t → Alloc.ext_of t o = Some e → Alloc.free_in t (o + ext_length e) →
  ∃ e2, Alloc.ext_of t (o + ext_length e) = Some e2 ∧ is_free e2.
Proof.
  intros Hi He (p & e2 & He2 & Hf2 & Hb). pose proof (Alloc.inv_range _ _ _ _ Hi He).
  destruct (Z.lt_trichotomy o p) as [Hlt|[->|Hlt]].
  - pose proof (tile_disjoint _ _ _ (ai_tiles _ _ _ Hi) _ _ _ _ He He2 Hlt).
    replace (o + ext_length e) with p by lia. by exists e2.
  - rewrite He in He2. injection He2 as <-. lia.
  - pose proof (tile_disjoint _ _ _ (ai_tiles _ _ _ Hi) _ _ _ _ He2 He Hlt). lia.
Qed.

(** A release keeps free extents apart if no free block lies before. *)
Lemma released_merged N t o e t' :
  N ≤ 256 → Alloc.inv N t → Alloc.ext_of t o = Some e → ¬ is_free e → merged t →
  ¬ Alloc.free_in t (o - 1) → Alloc.released N t o e t' → merged t'.
Proof.
  intros HN Hi He Hu Hm Hbefore [Hi' _ [_ Hfree] _ Hstarts Hnext] o' e' He' Hf' Hbehind.
  pose proof (Alloc.inv_range _ _ _ _ Hi' He') as Hr'.
  destruct (free_behind N t' o' e' Hi' He' Hbehind) as (e2 & He2 & Hf2).
  set (p := o' + ext_length e') in *.
  assert (Alloc.free_in t' (p - 1)) as Hlast by (exists o', e'; repeat split; try done; lia).
  pose proof (Alloc.inv_range _ _ _ _ Hi He) as Hr.
  apply Hfree in Hlast. destruct (Hstarts p e2 He2 Hf2) as [->|(e3 & He3 & Hf3)].
  { destruct Hlast as [?|?]; [done|lia]. }
  destruct Hlast as [(q & e4 & He4 & Hf4 & Hq)|Hin].
  - destruct (decide (q + ext_length e4 = p)) as [Hqp|Hne].
    + apply (Hm q e4 He4 Hf4). rewrite Hqp. pose proof (Alloc.inv_range _ _ _ _ Hi He3).
      exists p, e3. repeat split; try done; lia.
    + rewrite (tile_inside _ _ _ _ _ p (ai_tiles _ _ _ Hi) He4) in He3 by lia. done.
  - destruct (decide (p = o + ext_length e)) as [Hp|Hne].
    + rewrite Hp in He2. by apply (Hnext e2 HN He2).
    + rewrite (tile_inside _ _ _ _ _ p (ai_tiles _ _ _ Hi) He) in He3 by lia. done.
Qed.

(** *** Blocks that become free *)

(** The blocks [l] become free; files without such blocks are kept. *)
Record freed N t t' (l : list Z) : Prop := Freed {
  fd_inv : Alloc.inv N t';
  fd_merged : merged t';
  fd_free b : Alloc.free_in t' b ↔ Alloc.free_in t b ∨ b ∈ l;
  fd_others ys : stored t ys → (∀ b, b ∈ blocks_in ys → b ∉ l) → stored t' ys;
}.

Lemma freed_nothing N t : Alloc.inv N t → merged t → freed N t t [].
Proof. intros Hi Hm. split; try done. intros b. rewrite elem_of_nil. tauto. Qed.

Lemma freed_trans N t t1 t2 l1 l2 : freed N t t1 l1 → freed N t1 t2 l2 → freed N t t2 (l1 ++ l2).
Proof.
  intros [_ _ Hb1 Ho1] [Hi Hm Hb2 Ho2]. split; try done.
  - intros b. rewrite Hb2, Hb1, elem_of_app. tauto.
  - intros ys Hys Hd. apply Ho2; [apply Ho1; [done|]|]; intros b Hb Hl; apply (Hd b Hb), elem_of_app; tauto.
Qed.

(** What is freed does not depend on the inodes. *)
Lemma freed_same N t t1 t2 l :
  tx_heap t2 = tx_heap t1 → tx_extents t2 = tx_extents t1 → freed N t t1 l → freed N t t2 l.
Proof.
  intros Hh He [Hi Hm Hb Ho]. unfold Alloc.inv, merged, Alloc.free_in, Alloc.ext_of, Alloc.heap_of in *.
  rewrite <-Hh, <-He in Hi. rewrite <-He in Hm. split; try done.
  - unfold Alloc.free_in, Alloc.ext_of. by rewrite He.
  - intros ys Hys Hd. destruct (Ho ys Hys Hd) as [Hnd Hu]. split; [done|].
    unfold Alloc.ext_of in *. by rewrite He.
Qed.

(** One extent becomes free behind a block in use. *)
Lemma released_freed N t o e t' :
  N ≤ 256 → Alloc.inv N t → Alloc.ext_of t o = Some e → ¬ is_free e → merged t →
  ¬ Alloc.free_in t (o - 1) → Alloc.released N t o e t' → freed N t t' (seqZ o (ext_length e)).
Proof.
  intros HN Hi He Hu Hm Hbefore Hrl. pose proof (Alloc.inv_range _ _ _ _ Hi He).
  split; [apply Hrl|by eapply released_merged| |].
  - intros b. rewrite elem_of_seqZ. apply (Alloc.rl_free _ _ _ _ _ Hrl).
  - intros ys Hys Hd. split; [apply Hys|]. intros y Hy.
    destruct (so_used _ _ Hys y Hy) as (ey & Hey & Huy & Hly).
    exists ey. split; [|done]. apply (Alloc.rl_used _ _ _ _ _ Hrl); [done|done|]. intros Heq.
    pose proof (stored_range N t _ y Hi Hys Hy).
    apply (Hd (fe_offset y)); [|apply elem_of_seqZ; lia].
    apply elem_of_blocks_in. exists y. split; [done|lia].
Qed.

(** Two free extents behind each other do not occur where none are neighbours. *)
Lemma merged_not_both N t o e : Alloc.inv N t → merged t → Alloc.not_both_free t o e.
Proof.
  intros Hi Hm e1 e2 He1 Hf1 He2 Hf2. apply (Hm _ _ He1 Hf1).
  pose proof (Alloc.inv_range _ _ _ _ Hi He2).
  eexists _, e2. split; [exact He2|]. split; [done|lia].
Qed.

(** The extents that a file still has. *)
Lemma isolated_freed N t t' xs ys l :
  isolated t xs → freed N t t' l → (∀ b, b ∈ l → b ∈ blocks_in xs) → (∀ y, y ∈ ys → y ∈ xs) → isolated t' ys.
Proof.
  intros Hiso Hfd Hl Hys y Hy. destruct (Hiso y (Hys y Hy)) as [Hf Hb]. split.
  - rewrite (fd_free _ _ _ _ Hfd). intros [?|?%Hl]; done.
  - rewrite elem_of_blocks_in in Hb |- *. intros (x & Hx & Hin). apply Hb. exists x. split; [by apply Hys|done].
Qed.

(** One extent of a file. *)
Lemma free_one N t x :
  N ≤ 256 → Alloc.inv N t → stored t [x] → merged t → ¬ Alloc.free_in t (fe_offset x - 1) →
  ∃ t', ExtentDb.mtl_free_extent (fe_offset x) t = Ok (MTL_SUCCESS, t') ∧
    Alloc.alloc_frame t t' ∧ freed N t t' (blocks_in [x]).
Proof.
  intros HN Hi Hs Hm Hbefore. destruct (so_used _ _ Hs x ltac:(left)) as (e & He & Hu & Hlen).
  destruct (Alloc.free_released N t (fe_offset x) e Hi He Hu) as (t1 & Hrun & Hrl);
    [by apply (Alloc.free_safe_small N); [..|eapply merged_not_both]|].
  exists t1. split; [done|]. split; [apply Hrl|]. rewrite blocks_in_one, <-Hlen.
  by apply released_freed.
Qed.

Lemma stored_sub t xs ys : stored t xs → (∀ y, y ∈ ys → y ∈ xs) → NoDup (blocks_in ys) → stored t ys.
Proof. intros [_ Hu] Hys Hd. split; [done|]. intros y Hy. by apply Hu, Hys. Qed.

Lemma stored_app t xs ys : stored t xs → stored t ys → NoDup (blocks_in (xs ++ ys)) → stored t (xs ++ ys).
Proof. intros [_ Hu1] [_ Hu2] Hd. split; [done|]. intros y [Hy|Hy]%elem_of_app; [by apply Hu1|by apply Hu2]. Qed.

(** All extents of a file. *)
Lemma free_extents_run N : ∀ xs t,
  N ≤ 256 → Alloc.inv N t → stored t xs → merged t → isolated t xs →
  ∃ t', free_extents xs t = Ok (tt, t') ∧ Alloc.alloc_frame t t' ∧ freed N t t' (blocks_in xs).
Proof.
  induction xs as [|x xs IH]; intros t HN Hi Hs Hm Hiso;
    [exists t; split; [done|]; split; [done|by apply freed_nothing]|].
  change (x :: xs) with ([x] ++ xs) in *. pose proof (so_nodup _ _ Hs) as Hd.
  rewrite blocks_in_app in Hd |- *. apply NoDup_app in Hd as (Hd1 & Hd & Hd').
  assert (∀ y, y ∈ xs → y ∈ [x] ++ xs) as Hsub by (intros y Hy; by right).
  destruct (free_one N t x HN Hi) as (t1 & Hrun & [Hf1 Hg1] & Hfd); [|done|apply Hiso; left|].
  { apply (stored_sub t _ _ Hs); [|done]. intros y ->%list_elem_of_singleton. left. }
  destruct (IH t1 HN (fd_inv _ _ _ _ Hfd)) as (t' & Hrest & [Hf2 Hg2] & Hfd').
  - apply (fd_others _ _ _ _ Hfd); [by apply (stored_sub t _ _ Hs)|intros b Hb Hl; by apply (Hd b)].
  - apply Hfd.
  - apply (isolated_freed N t t1 ([x] ++ xs) xs _ Hiso Hfd); [|done].
    intros b Hb. rewrite blocks_in_app. apply elem_of_app. by left.
  - exists t'. cbn [app free_extents]. rewrite (bind_run _ _ _ _ _ Hrun). split; [done|].
    split; [split; congruence|by apply (freed_trans N t t1)].
Qed.
End Releasing.

Section Unlinking.
Context `{LmdbLaws} `{Machine} {B : Type}.
Abbreviation world := (world (B := B)).
Implicit Types (w : world) (xs : list mtl_file_extent).

End Unlinking.

(** ** A file in two extents *)

Module Demo.
#[local] Instance machine : Machine := Ns.Demo.machine.
Import AllocProofs.Demo.

(** On the volume with holes a file takes the second hole and half of the first. *)
Definition hole_filled : txn := final (ExtentDb.mtl_reserve_extent 4 None 0 true) Growth.Demo.holes.
Definition filled : txn := final (ExtentDb.mtl_reserve_extent 2 None 0 true) hole_filled.
Definition extents : list mtl_file_extent := [FileExtent 8 4; FileExtent 0 2].

Lemma reserve_inv n t :
  Alloc.inv 12 t → 0 < n < 100 → answer (ExtentDb.mtl_reserve_extent n None 0 true) t ≠ Some (0, 0) →
  Alloc.inv 12 (final (ExtentDb.mtl_reserve_extent n None 0 true) t).
Proof.
  intros Hi Hn Ha.
  destruct (Alloc.reserve_new_run 12 n true t None 0 Hi) as [[_ Hr]|(o & e & t' & _ & _ & Hr & Hres)];
    [lia|done|..].
  - unfold answer in Ha. by rewrite Hr in Ha.
  - unfold final. rewrite Hr. by destruct Hres.
Qed.

Lemma filled_inv : Alloc.inv 12 filled.
Proof.
  apply reserve_inv; [apply reserve_inv; [apply Growth.Demo.holes_inv|lia|]|lia|]; vm_compute; congruence.
Qed.

Definition rest : mtl_extent := Extent 2 MTL_FREE (NodeId 2 2).

Lemma filled_free o e : Alloc.ext_of filled o = Some e → is_free e → o = 2 ∧ e = rest.
Proof.
  intros He Hf. unfold Alloc.ext_of in He.
  let d := eval vm_compute in (tx_extents filled) in change (tx_extents filled) with d in He.
  cbn in He. repeat case_decide; simplify_eq; try done; by destruct Hf.
Qed.

Lemma filled_free_in b : Alloc.free_in filled b → 2 ≤ b < 4.
Proof. intros (o & e & He & Hf & Hb). destruct (filled_free o e He Hf) as [-> ->]. simpl in Hb. lia. Qed.

Lemma filled_merged : merged filled.
Proof. intros o e He Hf Hb%filled_free_in. destruct (filled_free o e He Hf) as [-> ->]. simpl in Hb. lia. Qed.

Lemma filled_stored : stored filled extents.
Proof.
  split.
  - change (blocks_in extents) with [8; 9; 10; 11; 0; 1].
    by apply (bool_decide_unpack _).
  - intros x [->|[->|?%elem_of_nil]%elem_of_cons]%elem_of_cons; [| |done].
    + eexists. split; [vm_compute; reflexivity|by split].
    + eexists. split; [vm_compute; reflexivity|by split].
Qed.

Lemma filled_isolated : isolated filled extents.
Proof.
  intros x [->|[->|?%elem_of_nil]%elem_of_cons]%elem_of_cons; [| |done].
  all: split; [intros Hb%filled_free_in; simpl in Hb; lia|].
  all: change (blocks_in extents) with [8; 9; 10; 11; 0; 1]; simpl.
  all: by apply (bool_decide_unpack _).
Qed.

Definition volume : Metal.world := Files.Demo.volume tt (Files.Demo.with_extents filled 24000 extents).
End Demo.

#[local] Existing Instance Demo.machine.

End Removal.
