(* ===== verification/Truncation.v ===== *)
(** * Truncating files of any number of extents

    The loop of [mtl_truncate] keeps the extents before the new end, shortens or
    drops the one it lies in and frees the others: a file is left with the first of
    its blocks, and the rest of them becomes free. *)
From S2P Require Import Prelude Tiling Lmdb Structs Extent ExtentInv AllocProofs Dirent Inode InodeProofs Path Metal File Storage Namespace StorageProofs FileProofs Growth Removal.

Module Truncation.
Import Dir Metal File Ns Files Growth Removal.

Section Truncating.
Context `{LmdbLaws} `{Machine}.
Implicit Types (t : txn) (id n : Z) (x : mtl_file_extent) (xs pre post : list mtl_file_extent).

(** ** The extent with the new end *)

Lemma tail_blocks x n : 0 ≤ n ≤ fe_length x →
  blocks_in [x] = blocks_in [FileExtent (fe_offset x) n] ++ seqZ (fe_offset x + n) (fe_length x - n).
Proof.
  intros Hn. rewrite !blocks_in_one. cbn [fe_offset fe_length].
  replace (fe_length x) with (n + (fe_length x - n)) at 1 by lia. by rewrite seqZ_app by lia.
Qed.

(** What is shortened still is an extent in use. *)
Lemma stored_one t x e : Alloc.ext_of t (fe_offset x) = Some e → ¬ is_free e →
  ext_length e = fe_length x → stored t [x].
Proof.
  intros He Hu Hl. split; [rewrite blocks_in_one; apply NoDup_seqZ|].
  intros y ->%list_elem_of_singleton. by exists e.
Qed.

(** The extent keeps [n] of its blocks. The record that is read through the pointer
    after the write is the old one. *)
Lemma shorten N t x n :
  N ≤ 256 → Alloc.inv N t → stored t [x] → merged t → 0 < n ≤ fe_length x →
  (∀ e v, Alloc.ext_of t (fe_offset x) = Some e → mdb_read_after_put (tx_extents t) (fe_offset x) v = e) →
  ∃ t', ExtentDb.mtl_truncate_extent (fe_offset x) n t = Ok (MTL_SUCCESS, t') ∧
    Alloc.alloc_frame t t' ∧ freed N t t' (seqZ (fe_offset x + n) (fe_length x - n)) ∧
    stored t' [FileExtent (fe_offset x) n].
Proof.
  intros HN Hi Hs Hm Hn Hread. destruct (so_used _ _ Hs x ltac:(left)) as (e & He & Hu & Hlen).
  pose proof (Alloc.inv_range _ _ _ _ Hi He) as Hr.
  assert (∀ k, ¬ is_free (Extent k MTL_COMMITTED (ext_pq_node e))) as Hused by done.
  destruct (decide (n = fe_length x)) as [->|Hne].
  - rewrite Z.sub_diag. cbn [seqZ]. change (seqZ (fe_offset x + fe_length x) 0) with (@nil Z).
    destruct (Alloc.truncate_nothing N t (fe_offset x) e Hi He Hu ltac:(by rewrite (Hread e)))
      as (t' & Hrun & Hi' & Hfr & Hfree & HE). rewrite Hlen in Hrun.
    exists t'. split; [done|]. split; [done|]. split.
    + split; [done| |intros b; rewrite Hfree, elem_of_nil; tauto|].
      * intros o' e' He' Hf' Hb. rewrite HE in He'. upd_cases; [by simplify_eq|].
        rewrite Hfree in Hb. by apply (Hm o' e').
      * intros ys Hys _. split; [apply Hys|]. intros y Hy.
        destruct (so_used _ _ Hys y Hy) as (ey & Hey & Huy & Hly). rewrite HE. unfold upd.
        case_decide as Heq; [|by exists ey]. eexists. split; [done|]. split; [apply Hused|].
        cbn [ext_length]. rewrite <-Heq in Hey. congruence.
    + eapply stored_one; [rewrite HE; apply upd_eq|apply Hused|]. done.
  - destruct (Alloc.truncate_released N t (fe_offset x) e n Hi HN He Hu ltac:(lia)
      ltac:(by eapply merged_not_both) ltac:(by rewrite (Hread e)))
      as (t2 & t' & Hrun & Hi2 & Hfr & Hfree & HE & Hrl).
    set (tail := Extent (ext_length e - n) MTL_RESERVED INVALID_NODE) in *.
    assert (Alloc.ext_of t2 (fe_offset x + n) = Some tail) as Htail by (rewrite HE, upd_ne by lia; apply upd_eq).
    pose proof (tile_inside _ _ _ _ _ (fe_offset x + n) (ai_tiles _ _ _ Hi) He ltac:(lia)) as Hnone.
    assert (merged t2) as Hm2.
    { intros o' e' He' Hf' Hb. rewrite HE in He'. upd_cases; [by simplify_eq..|].
      rewrite Hfree in Hb. by apply (Hm o' e'). }
    assert (¬ Alloc.free_in t2 (fe_offset x + n - 1)) as Hbefore.
    { rewrite Hfree. apply (stored_not_free N t [x] _ Hi Hs).
      rewrite blocks_in_one. apply elem_of_seqZ. lia. }
    pose proof (released_freed N t2 _ tail t' HN Hi2 Htail ltac:(done) Hm2 Hbefore Hrl) as Hfd.
    assert (seqZ (fe_offset x + n) (ext_length tail) = seqZ (fe_offset x + n) (fe_length x - n)) as Eseq
      by (cbn [ext_length tail]; by rewrite Hlen).
    rewrite Eseq in Hfd. destruct Hfr as [Hf2 Hg2]. pose proof (Alloc.rl_frame _ _ _ _ _ Hrl) as [Hf1 Hg1].
    exists t'. split; [done|]. split; [split; congruence|]. split.
    + destruct Hfd as [Hi' Hm' Hb' Ho']. split; try done.
      * intros b. by rewrite Hb', Hfree.
      * intros ys Hys Hd. apply Ho'; [|done]. split; [apply Hys|]. intros y Hy.
        destruct (so_used _ _ Hys y Hy) as (ey & Hey & Huy & Hly). exists ey. split; [|done].
        assert (fe_offset x ≠ fe_offset y) as Hx.
        { intros Heq. rewrite <-Heq in Hey. assert (ey = e) as -> by congruence.
          apply (Hd (fe_offset x + n)); [|apply elem_of_seqZ; lia].
          apply elem_of_blocks_in. exists y. split; [done|lia]. }
        assert (fe_offset x + n ≠ fe_offset y) as Hx'.
        { intros Heq. change (Alloc.ext_of t (fe_offset x + n) = None) in Hnone. congruence. }
        rewrite HE. by rewrite !upd_ne by done.
    + apply (fd_others _ _ _ _ Hfd).
      * eapply stored_one; [rewrite HE; apply upd_eq|apply Hused|done].
      * intros b. rewrite blocks_in_one. cbn [fe_offset fe_length]. rewrite !elem_of_seqZ. lia.
Qed.

(** What is left of an extent of which [n] blocks are kept. *)
Definition kept x n : list mtl_file_extent := if n =? 0 then [] else [FileExtent (fe_offset x) n].

Lemma blocks_kept x n : 0 ≤ n → blocks_in (kept x n) = seqZ (fe_offset x) n.
Proof.
  intros Hn. unfold kept. destruct (Z.eqb_spec n 0) as [->|]; [done|]. by rewrite blocks_in_one.
Qed.

Lemma cut_extent N t x n :
  N ≤ 256 → Alloc.inv N t → stored t [x] → merged t → ¬ Alloc.free_in t (fe_offset x - 1) →
  0 ≤ n ≤ fe_length x →
  (0 < n → ∀ e v, Alloc.ext_of t (fe_offset x) = Some e → mdb_read_after_put (tx_extents t) (fe_offset x) v = e) →
  ∃ t', (if negb (n =? 0) then ExtentDb.mtl_truncate_extent (fe_offset x) n
         else ExtentDb.mtl_free_extent (fe_offset x)) t = Ok (MTL_SUCCESS, t') ∧
    Alloc.alloc_frame t t' ∧ freed N t t' (seqZ (fe_offset x + n) (fe_length x - n)) ∧ stored t' (kept x n).
Proof.
  intros HN Hi Hs Hm Hbefore Hn Hread. unfold kept. destruct (Z.eqb_spec n 0) as [->|Hne]; cbn [negb].
  - destruct (free_one N t x HN Hi Hs Hm Hbefore) as (t' & Hrun & Hfr & Hfd). exists t'.
    rewrite Z.add_0_r, Z.sub_0_r. rewrite blocks_in_one in Hfd. split; [done|]. split; [done|]. split; [done|].
    split; [by apply NoDup_nil|by intros y ?%elem_of_nil].
  - apply shorten; try done; [lia|apply Hread; lia].
Qed.

(** ** The inode's record *)

(** The record keeps the extents [pre], of the last one only [n] blocks. *)
Lemma cut_run t id ino pre post len (last : option Z) new :
  file_at t id ino (pre ++ post) → sizeof_inode + 32 * Z.of_nat (length pre) ≤ stack_limit < 2 ^ 40 →
  match last with
  | None => new = pre
  | Some n => ∃ q x, pre = q ++ [x] ∧ new = q ++ [FileExtent (fe_offset x) n] ∧ 0 ≤ n < 2 ^ 64
  end →
  ∃ t', InodeDb.mtl_truncate_file_extents id len (Z.of_nat (length pre)) last t = Ok (MTL_SUCCESS, t') ∧
    file_at t' id (with_length ino len) new ∧
    tx_heap t' = tx_heap t ∧ tx_extents t' = tx_extents t ∧
    ∀ i, i ≠ id → mdb_get (tx_inodes t') i = mdb_get (tx_inodes t) i.
Proof.
  intros Hf Hst Hnew. unfold InodeDb.mtl_truncate_file_extents.
  run_step (load_file_run t id ino _ Hf). unfold c_deref. rewrite (bind_run _ _ _ _ _ (ret_run _ t)).
  unfold sizeof_file_extent. unfold sizeof_inode in Hst. rewrite u64_small by (unfold in_u64; lia).
  rewrite vla_bind by lia.
  assert (read_bytes (extents_bytes (pre ++ post)) 0 (Z.of_nat (length pre) * 16) = Ok (extents_bytes pre)) as ->.
  { replace (Z.of_nat (length pre) * 16) with (Z.of_nat (length (extents_bytes pre)))
      by (rewrite length_extents_bytes; lia).
    unfold extents_bytes. rewrite bind_app. apply read_bytes_prefix. }
  rewrite (bind_run _ _ _ _ _ (lift_run _ t)).
  assert (∃ data, match last with
      | None => mret (extents_bytes pre)
      | Some l => if Z.of_nat (length pre) =? 0 then m_fault OutOfBounds
          else mret (take (Z.to_nat (Z.of_nat (length pre) * 16 - 8)) (extents_bytes pre) ++ le_bytes 8 l)
      end t = Ok (data, t) ∧ data = extents_bytes new) as (data & Hdata & ->).
  { destruct last as [n|]; [|subst new; by eexists]. destruct Hnew as (q & x & -> & -> & _).
    eexists. rewrite length_app, (proj2 (Z.eqb_neq _ 0)) by (cbn; lia). split; [reflexivity|].
    unfold extents_bytes. rewrite !bind_app. cbn [mbind list_bind]. rewrite !app_nil_r.
    change (q ≫= file_extent_bytes) with (extents_bytes q). unfold file_extent_bytes.
    cbn [fe_offset fe_length]. rewrite !app_assoc. f_equal.
    rewrite take_app_length'; [done|].
    rewrite length_app, length_extents_bytes, length_le_bytes. cbn [length]. lia. }
  rewrite (bind_run _ _ _ _ _ Hdata).
  assert (length new = length pre) as Hlen.
  { destruct last; [|by subst]. destruct Hnew as (q & x & -> & -> & _). by rewrite !length_app. }
  rewrite put_inode_run by (rewrite ?length_extents_bytes, ?Hlen; unfold sizeof_inode; lia).
  eexists. split; [done|]. split; [|split; [done|split; [done|]]].
  - split; [simpl; by rewrite mdb_get_put_eq|apply Hf|].
    pose proof (fa_ok _ _ _ _ Hf) as [Hok _]%Forall_app.
    destruct last as [n|]; [|by subst]. destruct Hnew as (q & x & -> & -> & Hn).
    apply Forall_app in Hok as [Hq [[Hx _] _]%Forall_cons]. apply Forall_app. split; [done|].
    apply Forall_singleton. by split.
  - intros i Hne. simpl. by rewrite mdb_get_put_ne.
Qed.

(** ** The loop *)

Lemma count_snoc xs x : 0 ≤ fe_length x → count (xs ++ [x]) = count xs + fe_length x.
Proof. intros Hx. unfold count. rewrite blocks_in_app, length_app, blocks_in_one, length_seqZ. lia. Qed.

Lemma count_app xs ys : count (xs ++ ys) = count xs + count ys.
Proof. unfold count. rewrite blocks_in_app, length_app. lia. Qed.

Lemma count_nonneg xs : 0 ≤ count xs.
Proof. unfold count. lia. Qed.

Section Loop.
Context (bs id offset : Z) (xs : list mtl_file_extent).
Context (Hbs : 0 < bs) (Hoffset : 0 ≤ offset) (Hlen : ∀ x, x ∈ xs → 0 < fe_length x).
Context (Htotal : count xs * bs < 2 ^ 63).
Let loop fuel q := truncate_loop fuel bs id offset (Z.of_nat (length xs)) (Z.of_nat (length q)) (count q * bs).

(** The end of the extent behind [q]. *)
Lemma extent_end q x post : xs = q ++ x :: post →
  count q * bs +ᵤ (fe_length x *ᵤ bs) = count (q ++ [x]) * bs ∧ 0 < fe_length x ∧
  xs !! Z.to_nat (Z.of_nat (length q)) = Some x ∧ Z.of_nat (length q) + 1 = Z.of_nat (length (q ++ [x])).
Proof.
  intros E. assert (0 < fe_length x) as Hx by (apply Hlen; rewrite E; apply elem_of_app; right; left).
  rewrite count_snoc by lia. pose proof (count_nonneg q).
  assert (count q + fe_length x ≤ count xs) as Hle.
  { rewrite E. change (x :: post) with ([x] ++ post). rewrite app_assoc, count_app, count_snoc by lia.
    pose proof (count_nonneg post). lia. }
  rewrite (u64_small (fe_length x * bs)) by (unfold in_u64; nia). rewrite u64_small by (unfold in_u64; nia).
  split; [lia|]. split; [done|]. split; [|rewrite length_app; cbn; lia].
  rewrite Nat2Z.id, E. by apply list_lookup_middle.
Qed.

(** Extents before the new end are kept. *)
Lemma loop_keeps fuel t : ∀ pre q post, xs = q ++ pre ++ post → count (q ++ pre) * bs ≤ offset →
  loop (length pre + fuel) q xs t = loop fuel (q ++ pre) xs t.
Proof.
  induction pre as [|x pre IH]; intros q post E Hend; [by rewrite app_nil_r|].
  cbn [app] in E. destruct (extent_end q x (pre ++ post) E) as (He & Hx & Hl & Hi).
  assert (q ++ x :: pre = (q ++ [x]) ++ pre) as Eq by by rewrite <-app_assoc.
  assert (xs = (q ++ [x]) ++ pre ++ post) as E' by by rewrite <-app_assoc.
  rewrite Eq in Hend |- *. unfold loop at 1. cbn [length Nat.add truncate_loop]. rewrite Hl.
  rewrite count_app, count_snoc in Hend by lia. pose proof (count_nonneg pre). pose proof (count_nonneg q).
  rewrite (proj2 (Z.ltb_ge offset _)) by nia. rewrite He, count_snoc by lia.
  rewrite (proj2 (Z.ltb_ge offset _)) by nia.
  rewrite (bind_run _ _ _ _ _ (ret_run xs t)), Hi, <-(count_snoc q x) by lia.
  apply (IH (q ++ [x]) post E'). rewrite count_app, count_snoc by lia. nia.
Qed.

(** Extents behind it are freed. *)
Lemma loop_frees : ∀ post q t, xs = q ++ post → offset < count q * bs →
  loop (length post) q xs t = free_extents post t.
Proof.
  induction post as [|x post IH]; intros q t E Hend; [done|].
  destruct (extent_end q x post E) as (He & Hx & Hl & Hi).
  unfold loop. cbn [length truncate_loop free_extents]. rewrite Hl.
  rewrite (proj2 (Z.ltb_lt offset _)) by lia.
  unfold mbind, M_bind. destruct (ExtentDb.mtl_free_extent (fe_offset x) t) as [[u t1]|]; [|done].
  cbn [mret M_ret]. rewrite He, Hi. apply (IH (q ++ [x])); [by rewrite <-app_assoc|].
  rewrite count_snoc by lia. pose proof (count_nonneg q). nia.
Qed.

(** The first extent that reaches beyond the new end. *)
Lemma extent_of_offset : offset < count xs * bs →
  ∃ pre x post, xs = pre ++ x :: post ∧ count pre * bs ≤ offset < count (pre ++ [x]) * bs.
Proof.
  clear Htotal loop. induction xs as [|x ys IH] using rev_ind; [unfold count; cbn; lia|].
  intros Hend. destruct (decide (offset < count ys * bs)) as [Hin|Hout].
  - destruct IH as (pre & y & post & -> & Hr); [|done|].
    + intros y Hy. apply Hlen, elem_of_app. by left.
    + exists pre, y, (post ++ [x]). by rewrite <-app_assoc.
  - exists ys, x, []. split; [done|lia].
Qed.
End Loop.

(** ** The whole loop *)

(** The record of an inode and those of its extents are read through pointers that
    the first write of the transaction leaves intact: LMDB writes to a copy of the
    page. *)
Record copied_on_write t id (record : mtl_inode * list Z) : Prop := CopiedOnWrite {
  cw_extents o e v : Alloc.ext_of t o = Some e → mdb_read_after_put (tx_extents t) o v = e;
  cw_inodes v : mdb_read_after_put (tx_inodes t) id v = record;
}.

(** The extents that [mtl_truncate_file_extents] is told to keep. *)
Lemma cut_record t id ino pre x post n len :
  let xs := pre ++ x :: post in
  file_at t id ino xs → sizeof_inode + 32 * Z.of_nat (length xs) ≤ stack_limit < 2 ^ 40 → 0 ≤ n < 2 ^ 64 →
  ∃ t', (if negb (n =? 0)
         then InodeDb.mtl_truncate_file_extents id len (Z.of_nat (length pre) +ᵤ 1) (Some n)
         else InodeDb.mtl_truncate_file_extents id len (Z.of_nat (length pre)) None) t = Ok (MTL_SUCCESS, t') ∧
    file_at t' id (with_length ino len) (pre ++ kept x n) ∧
    tx_heap t' = tx_heap t ∧ tx_extents t' = tx_extents t ∧
    ∀ i, i ≠ id → mdb_get (tx_inodes t') i = mdb_get (tx_inodes t) i.
Proof.
  intros xs Hf Hst Hn. unfold kept. unfold xs in Hst. rewrite length_app in Hst. cbn [length] in Hst.
  destruct (n =? 0); cbn [negb].
  - rewrite app_nil_r. apply (cut_run t id ino pre (x :: post)); [done|lia|done].
  - assert (Z.of_nat (length pre) +ᵤ 1 = Z.of_nat (length (pre ++ [x]))) as ->.
    { rewrite length_app. cbn [length]. unfold sizeof_inode in Hst. rewrite u64_small by (unfold in_u64; lia). lia. }
    apply (cut_run t id ino (pre ++ [x]) post); [by rewrite <-app_assoc|rewrite length_app; cbn [length]; lia|].
    by exists pre, x.
Qed.

(** What becomes of the file and of the blocks when it is cut within an extent. *)
Lemma cut_file N t id ino pre x post n len :
  let xs := pre ++ x :: post in
  file_at t id ino xs → N ≤ 256 → Alloc.inv N t → stored t xs → merged t → isolated t xs → 0 ≤ n ≤ fe_length x →
  sizeof_inode + 32 * Z.of_nat (length xs) ≤ stack_limit < 2 ^ 40 →
  (0 < n → ∀ o e v, Alloc.ext_of t o = Some e → mdb_read_after_put (tx_extents t) o v = e) →
  ∃ t1 t2,
    (if negb (n =? 0) then ExtentDb.mtl_truncate_extent (fe_offset x) n
     else ExtentDb.mtl_free_extent (fe_offset x)) t = Ok (MTL_SUCCESS, t1) ∧ tx_inodes t1 = tx_inodes t ∧
    (if negb (n =? 0)
     then InodeDb.mtl_truncate_file_extents id len (Z.of_nat (length pre) +ᵤ 1) (Some n)
     else InodeDb.mtl_truncate_file_extents id len (Z.of_nat (length pre)) None) t1 = Ok (MTL_SUCCESS, t2) ∧
    file_at t2 id (with_length ino len) (pre ++ kept x n) ∧ stored t2 (pre ++ kept x n) ∧
    freed N t t2 (seqZ (fe_offset x + n) (fe_length x - n)) ∧
    ∀ i, i ≠ id → mdb_get (tx_inodes t2) i = mdb_get (tx_inodes t) i.
Proof.
  intros xs Hf HN Hi Hs Hm Hiso Hn Hst Hre.
  assert (x ∈ xs) as Hxin by (apply elem_of_app; right; left).
  pose proof (stored_range N t xs x Hi Hs Hxin). pose proof (so_nodup _ _ Hs) as Hnd.
  unfold xs in Hnd. change (x :: post) with ([x] ++ post) in Hnd.
  rewrite app_assoc, blocks_in_app in Hnd. apply NoDup_app in Hnd as (Hnd & _ & _).
  rewrite blocks_in_app in Hnd. pose proof Hnd as (Hd1 & Hd2 & Hd3)%NoDup_app.
  destruct (cut_extent N t x n HN Hi) as (t1 & Hrun & [Hf1 _] & Hfd & Hs1); try done.
  { apply (stored_sub t xs); [done| |done]. by intros y ->%list_elem_of_singleton. }
  { by apply Hiso. }
  { intros Hpos e v. by apply Hre. }
  destruct (cut_record t1 id ino pre x post n len) as (t2 & Hcut & Hf2 & Hh2 & He2 & Hoth); [|done|lia|].
  { eapply file_at_frame; [by rewrite Hf1|done]. }
  exists t1, t2. apply (freed_same N t t1 t2) in Hfd; [|done..].
  rewrite (tail_blocks x n) in Hd2, Hd3 by done. rewrite blocks_in_one in Hd2, Hd3. cbn [fe_offset fe_length] in Hd2, Hd3.
  repeat (split; [done|]). split; [|split; [done|intros i Hne; by rewrite Hoth, Hf1]].
  apply stored_app.
  - apply (fd_others _ _ _ _ Hfd).
    + apply (stored_sub t xs); [done| |done]. intros y Hy. apply elem_of_app. by left.
    + intros b Hb Hb'. apply (Hd2 b Hb), elem_of_app. by right.
  - destruct Hs1 as [? Hu]. split; [done|]. unfold Alloc.ext_of in *. by rewrite He2.
  - rewrite blocks_in_app, blocks_kept by lia. apply NoDup_app in Hd3 as (Hd3 & _).
    apply NoDup_app. split; [done|]. split; [|done]. intros b Hb Hb'. apply (Hd2 b Hb), elem_of_app. by left.
Qed.

(** The round of the extent in which the new end lies. *)
Lemma loop_cuts N t id ino bs offset pre x post :
  let xs := pre ++ x :: post in
  let n := blocks_up (offset - count pre * bs) bs in
  file_at t id ino xs → N ≤ 256 → Alloc.inv N t → stored t xs → merged t → isolated t xs →
  0 < bs → count pre * bs ≤ offset < count (pre ++ [x]) * bs → count xs * bs < 2 ^ 63 →
  sizeof_inode + 32 * Z.of_nat (length xs) ≤ stack_limit < 2 ^ 40 → copied_on_write t id (ino, extents_bytes xs) →
  ∃ t', (∀ fuel,
      truncate_loop (S fuel) bs id offset (Z.of_nat (length xs)) (Z.of_nat (length pre)) (count pre * bs) xs t
      = truncate_loop fuel bs id offset (Z.of_nat (length xs)) (Z.of_nat (length (pre ++ [x])))
          (count (pre ++ [x]) * bs) xs t') ∧
    0 ≤ n ≤ fe_length x ∧ file_at t' id (with_length ino offset) (pre ++ kept x n) ∧
    stored t' (pre ++ kept x n) ∧ freed N t t' (seqZ (fe_offset x + n) (fe_length x - n)) ∧
    ∀ i, i ≠ id → mdb_get (tx_inodes t') i = mdb_get (tx_inodes t) i.
Proof.
  intros xs n Hf HN Hi Hs Hm Hiso Hbs Ho Htotal Hst [Hre Hri].
  assert (∀ y, y ∈ xs → 0 < fe_length y) as Hlen by (intros y Hy; by apply (stored_range N t xs y Hi Hs)).
  destruct (extent_end bs xs Hbs Hlen Htotal pre x post eq_refl) as (Hend & Hx & Hl & Hidx).
  assert (count xs = count (pre ++ [x]) + count post) as Hsum.
  { rewrite <-count_app, <-app_assoc. done. }
  pose proof (count_nonneg pre). pose proof (count_nonneg post). rewrite count_snoc in Ho, Hsum by lia.
  destruct (blocks_up_spec (offset - count pre * bs) bs) as [Hup Hup0]; [lia|done|]. fold n in Hup, Hup0.
  assert (n ≤ fe_length x) as Hn by nia. assert (offset < 2 ^ 63) as Hoff by nia.
  destruct (cut_file N t id ino pre x post n offset)
    as (t1 & t2 & Hrun & Hf1 & Hcut & Hf2 & Hs2 & Hfd & Hoth); try done.
  rewrite Hidx in Hcut. exists t2. split; [|done]. intros fuel. cbn [truncate_loop]. rewrite Hl, (proj2 (Z.ltb_ge offset _)) by lia.
  rewrite Hend, Hidx, (proj2 (Z.ltb_lt offset _)) by (rewrite count_snoc; lia).
  assert (reread_extents t1 id t2 (Z.of_nat (length xs)) = xs) as Hrer.
  { unfold reread_extents. rewrite (fa_get _ _ _ _ Hf2), Hf1, Hri, Nat2Z.id. cbn [snd].
    rewrite <-(app_nil_r (extents_bytes xs)). apply read_extents_bytes, Hf. }
  rewrite (bind_run _ _ t xs t2); [done|].
  rewrite (u64_small (offset - _)) by (unfold in_u64; nia).
  run_step (blocks_of_run (offset - count pre * bs) bs t ltac:(nia) Hbs). fold n.
  destruct (n =? 0); cbn [negb] in *; run_step Hrun; rewrite (bind_run m_get _ t1 t1 t1) by done;
    run_step Hcut; rewrite (bind_run m_get _ t2 t2 t2) by done; by rewrite Hrer.
Qed.

Lemma blocks_up_shift bytes bs c : 0 < bs → blocks_up bytes bs = c + blocks_up (bytes - c * bs) bs.
Proof.
  intros Hbs. unfold blocks_up. replace (bytes + bs - 1) with (bytes - c * bs + bs - 1 + c * bs) by lia.
  rewrite Z.div_add by lia. lia.
Qed.

(** The blocks up to the cut and those behind it. *)
Lemma cut_blocks pre x post n :
  0 ≤ n ≤ fe_length x →
  let need := Z.to_nat (count pre + n) in
  take need (blocks_in (pre ++ x :: post)) = blocks_in (pre ++ kept x n) ∧
  drop need (blocks_in (pre ++ x :: post))
  = seqZ (fe_offset x + n) (fe_length x - n) ++ blocks_in post.
Proof.
  intros Hn need. change (x :: post) with ([x] ++ post).
  assert (blocks_in (pre ++ [x] ++ post)
    = blocks_in (pre ++ kept x n) ++ seqZ (fe_offset x + n) (fe_length x - n) ++ blocks_in post) as ->.
  { rewrite !blocks_in_app, (tail_blocks x n), blocks_kept, blocks_in_one by lia.
    cbn [fe_offset fe_length]. by rewrite <-!app_assoc. }
  assert (need = length (blocks_in (pre ++ kept x n))) as ->.
  { rewrite blocks_in_app, length_app, blocks_kept, length_seqZ by lia. unfold need, count. lia. }
  by rewrite take_app_length, drop_app_length.
Qed.

(** The file keeps [need] of its blocks, the others become free. *)
Record shrunk N t t' id ino xs (need : nat) xs' : Prop := Shrunk {
  sk_file : file_at t' id ino xs';
  sk_stored : stored t' xs';
  sk_blocks : blocks_in xs' = take need (blocks_in xs);
  sk_freed : freed N t t' (drop need (blocks_in xs));
  sk_inodes i : i ≠ id → mdb_get (tx_inodes t') i = mdb_get (tx_inodes t) i;
}.

Lemma truncate_loop_run N t id ino bs offset xs :
  file_at t id ino xs → N ≤ 256 → Alloc.inv N t → stored t xs → merged t → isolated t xs →
  0 < bs → 0 ≤ offset < count xs * bs → count xs * bs < 2 ^ 63 →
  sizeof_inode + 32 * Z.of_nat (length xs) ≤ stack_limit < 2 ^ 40 → copied_on_write t id (ino, extents_bytes xs) →
  ∃ t' xs', truncate_loop (length xs) bs id offset (Z.of_nat (length xs)) 0 0 xs t = Ok (tt, t') ∧
    shrunk N t t' id (with_length ino offset) xs (Z.to_nat (blocks_up offset bs)) xs'.
Proof.
  intros Hf HN Hi Hs Hm Hiso Hbs Ho Htotal Hst Hcw.
  assert (∀ y, y ∈ xs → 0 < fe_length y) as Hlen by (intros y Hy; by apply (stored_range N t xs y Hi Hs)).
  destruct (extent_of_offset bs offset xs ltac:(lia) Hlen ltac:(lia)) as (pre & x & post & E & Hin).
  subst xs.
  destruct (loop_cuts N t id ino bs offset pre x post Hf HN Hi Hs Hm Hiso Hbs Hin Htotal Hst Hcw)
    as (t2 & Hround & Hn & Hf2 & Hs2 & Hfd & Hoth).
  pose proof (blocks_up_shift offset bs (count pre) Hbs) as Hup.
  set (n := blocks_up (offset - count pre * bs) bs) in *. set (xs := pre ++ x :: post) in *.
  destruct (cut_blocks pre x post n Hn) as [Htake Hdrop]. fold xs in Htake, Hdrop. rewrite <-Hup in Htake, Hdrop.
  pose proof (so_nodup _ _ Hs) as Hnd. rewrite <-(take_drop (Z.to_nat (blocks_up offset bs)) (blocks_in xs)) in Hnd.
  rewrite Htake, Hdrop in Hnd. apply NoDup_app in Hnd as (Hd1 & Hd2 & (Hd3 & Hd4 & Hd5)%NoDup_app).
  assert (∀ y, y ∈ post → y ∈ xs) as Hsub by (intros y Hy; apply elem_of_app; right; by right).
  destruct (free_extents_run N post t2 HN (fd_inv _ _ _ _ Hfd)) as (t3 & Hfree & [Hf3 _] & Hfd3).
  { apply (fd_others _ _ _ _ Hfd); [by apply (stored_sub t xs)|]. intros b Hb Hb'. by apply (Hd4 b). }
  { apply Hfd. }
  { apply (isolated_freed N t t2 xs post _ Hiso Hfd); [|done]. intros b Hb.
    rewrite <-(take_drop (Z.to_nat (blocks_up offset bs)) (blocks_in xs)), Hdrop, !elem_of_app. tauto. }
  exists t3, (pre ++ kept x n). split; [|split].
  - assert (length xs = length pre + S (length post))%nat as Elen by (unfold xs; by rewrite length_app).
    pose proof (loop_keeps bs id offset xs Hbs Hlen Htotal (S (length post)) t pre [] (x :: post) eq_refl
      (proj1 Hin)) as Hkeep.
    pose proof (loop_frees bs id offset xs Hbs Hlen Htotal post (pre ++ [x]) t2
      ltac:(by rewrite <-app_assoc) ltac:(lia)) as Hfrees.
    cbv beta zeta in Hkeep, Hfrees. change (count []) with 0 in Hkeep.
    change (Z.of_nat (length [])) with 0 in Hkeep. rewrite Z.mul_0_l in Hkeep. cbn [app] in Hkeep.
    rewrite Elen at 1. by rewrite Hkeep, Hround, Hfrees.
  - eapply file_at_frame; [by rewrite Hf3|done].
  - apply (fd_others _ _ _ _ Hfd3); [done|]. intros b Hb Hb'. apply (Hd2 b Hb), elem_of_app. by right.
  - done.
  - rewrite Hdrop. by apply (freed_trans N t t2).
  - intros i Hne. by rewrite Hf3, Hoth.
Qed.
(** The last extent is dropped as a whole: no pointer is read after an update. *)
Lemma loop_drops_last N t id ino bs pre x :
  let xs := pre ++ [x] in
  let offset := count pre * bs in
  file_at t id ino xs → N ≤ 256 → Alloc.inv N t → stored t xs → merged t → isolated t xs →
  0 < bs → count xs * bs < 2 ^ 63 → sizeof_inode + 32 * Z.of_nat (length xs) ≤ stack_limit < 2 ^ 40 →
  ∃ t', truncate_loop (length xs) bs id offset (Z.of_nat (length xs)) 0 0 xs t = Ok (tt, t') ∧
    shrunk N t t' id (with_length ino offset) xs (Z.to_nat (blocks_up offset bs)) pre.
Proof.
  intros xs offset Hf HN Hi Hs Hm Hiso Hbs Htotal Hst.
  assert (∀ y, y ∈ xs → 0 < fe_length y) as Hlen by (intros y Hy; by apply (stored_range N t xs y Hi Hs)).
  destruct (extent_end bs xs Hbs Hlen Htotal pre x [] eq_refl) as (Hend & Hx & Hl & Hidx).
  pose proof (count_nonneg pre) as Hpre.
  assert (0 ≤ count pre * bs) by nia.
  assert (blocks_up offset bs = count pre) as Hup.
  { rewrite (blocks_up_shift offset bs (count pre) Hbs). unfold offset. rewrite Z.sub_diag.
    unfold blocks_up. rewrite Z.div_small by lia. lia. }
  destruct (cut_file N t id ino pre x [] 0 offset)
    as (t1 & t2 & Hrun & Hf1 & Hcut & Hf2 & Hs2 & Hfd & Hoth); try done; [lia|].
  destruct (cut_blocks pre x [] 0 ltac:(lia)) as [Htake Hdrop]. rewrite Z.add_0_r in Htake, Hdrop.
  unfold kept in *. cbn [negb Z.eqb] in *. rewrite ?app_nil_r in *. exists t2. rewrite Hup. split.
  - pose proof (loop_keeps bs id offset xs Hbs Hlen Htotal 1 t pre [] [x] eq_refl) as Hkeep.
    cbv beta zeta in Hkeep. change (count []) with 0 in Hkeep. change (Z.of_nat (length [])) with 0 in Hkeep.
    rewrite Z.mul_0_l in Hkeep. cbn [app] in Hkeep. unfold xs at 1. rewrite length_app. cbn [length].
    rewrite Hkeep by (unfold offset; lia). cbn [truncate_loop]. rewrite Hl.
    rewrite (proj2 (Z.ltb_ge offset _)) by (unfold offset; lia).
    assert (offset < count (pre ++ [x]) * bs) as Hin by (rewrite count_snoc by lia; unfold offset; nia).
    rewrite Hend, (proj2 (Z.ltb_lt offset _)) by done.
    assert (offset -ᵤ count pre * bs = 0) as -> by (unfold offset; by rewrite Z.sub_diag).
    rewrite (bind_run _ _ t (reread_extents t1 id t2 (Z.of_nat (length xs))) t2); [done|].
    run_step (blocks_of_run 0 bs t ltac:(lia) Hbs). unfold blocks_up. rewrite (Z.div_small (0 + bs - 1)) by lia.
    cbn [Z.eqb negb]. run_step Hrun. rewrite (bind_run m_get _ t1 t1 t1) by done.
    run_step Hcut. by rewrite (bind_run m_get _ t2 t2 t2) by done.
  - fold xs in Hdrop. split; [done|done|by symmetry|by rewrite Hdrop|done].
Qed.
End Truncating.

Section Shrinking.
Context `{LmdbLaws} `{Machine} (malloc : Z → Z).
Let storage := Storage.in_memory_storage malloc.
Abbreviation world := (world (B := Storage.store)).
Implicit Types (w : world) (xs : list mtl_file_extent).

(** The transaction of a truncation to fewer bytes. *)
Lemma truncate_txn_run N t id ino bs offset xs :
  file_at t id ino xs → N ≤ 256 → Alloc.inv N t → stored t xs → merged t → isolated t xs →
  0 < bs → 0 ≤ offset < i_length ino → i_length ino ≤ count xs * bs → count xs * bs < 2 ^ 63 →
  sizeof_inode + 32 * Z.of_nat (length xs) ≤ stack_limit < 2 ^ 40 → copied_on_write t id (ino, extents_bytes xs) →
  ∃ t' xs', truncate_txn bs id offset t = Ok (MTL_SUCCESS, t') ∧
    shrunk N t t' id (with_length ino offset) xs (Z.to_nat (blocks_up offset bs)) xs'.
Proof.
  intros Hf HN Hi Hs Hm Hiso Hbs Ho Hlen Htotal Hst Hcw.
  destruct (truncate_loop_run N t id ino bs offset xs) as (t' & xs' & Hloop & Hsk); try done; [lia|].
  exists t', xs'. split; [|done]. unfold truncate_txn. run_step (load_file_run t id ino xs Hf).
  unfold c_deref. rewrite (bind_run _ _ _ _ _ (ret_run _ t)).
  pose proof (loaded_extents_run ino xs (fa_ok _ _ _ _ Hf)) as Hx. unfold loaded_extents in Hx. rewrite Hx.
  rewrite (proj2 (Z.leb_gt _ _)) by lia. rewrite Nat2Z.id. by run_step Hloop.
Qed.

(** The bytes before the new end stay where they are. *)
Lemma shrunk_addr N t t' id ino xs offset xs' i :
  Alloc.inv N t → stored t xs →
  shrunk N t t' id ino xs (Z.to_nat (blocks_up offset Storage.BLOCK_SIZE)) xs' → 0 ≤ i < offset →
  Backend.file_addr xs' i = Backend.file_addr xs i.
Proof.
  intros Hi Hs Hsk Hin. assert (0 < Storage.BLOCK_SIZE) by done.
  rewrite !file_addr_blocks; [|intros x; by apply (stored_range N t)|lia| |lia].
  - f_equal. rewrite (sk_blocks _ _ _ _ _ _ _ _ Hsk). apply lookup_take_lt.
    destruct (blocks_up_spec offset Storage.BLOCK_SIZE) as [Hup _]; [lia|done|].
    assert (0 ≤ i / Storage.BLOCK_SIZE) by (apply Z.div_pos; lia).
    assert (i / Storage.BLOCK_SIZE < blocks_up offset Storage.BLOCK_SIZE) by (apply Z.div_lt_upper_bound; lia). lia.
  - intros x. apply (stored_range N t'); [apply (fd_inv _ _ _ _ (sk_freed _ _ _ _ _ _ _ _ Hsk))|apply Hsk].
Qed.

(** A range before the new end is read as before. *)
Lemma shrunk_reads N w w' id ino xs offset xs' out o :
  Alloc.inv N (committed w) → N ≤ 256 → file_at (committed w) id ino xs → stored (committed w) xs →
  shrunk N (committed w) (committed w') id (with_length ino offset) xs
    (Z.to_nat (blocks_up offset Storage.BLOCK_SIZE)) xs' → w_store w' = w_store w →
  0 ≤ offset < i_length ino → i_length ino ≤ Backend.file_bytes xs →
  0 ≤ o → (0 < length out)%nat → o + Z.of_nat (length out) ≤ offset →
  ∃ bytes w1 w2, mtl_read storage id out (Z.of_nat (length out)) o w = Ok ((Z.of_nat (length out), bytes), w1) ∧
    mtl_read storage id out (Z.of_nat (length out)) o w' = Ok ((Z.of_nat (length out), bytes), w2).
Proof.
  intros Hi HN Hf Hs Hsk Hstore Ho Hlen Ho' Hpos Hout.
  assert (Storage.NUM_BLOCKS = 2 ^ 15 ∧ Storage.BLOCK_SIZE = 2 ^ 12) as [HNB HBS] by done.
  pose proof (sk_file _ _ _ _ _ _ _ _ Hsk) as Hf'. pose proof (sk_stored _ _ _ _ _ _ _ _ Hsk) as Hs'.
  pose proof (sk_blocks _ _ _ _ _ _ _ _ Hsk) as Hb'.
  pose proof (fd_inv _ _ _ _ (sk_freed _ _ _ _ _ _ _ _ Hsk)) as Hi'.
  assert (∀ ys t, Alloc.inv N t → stored t ys → Backend.file_bytes ys = count ys * Storage.BLOCK_SIZE ∧
    count ys ≤ N ∧ (length ys ≤ 512)%nat ∧ Backend.layout_ok ys) as Hfacts.
  { intros ys t Hti Hts. pose proof (stored_total N t ys Hti Hts). pose proof (stored_count N t ys Hti Hts) as [_ ?].
    split; [apply file_bytes_blocks; intros x; by apply (stored_range N t)|]. split; [done|]. split; [lia|].
    eapply stored_layout; [exact Hti|lia|done]. }
  destruct (Hfacts xs _ Hi Hs) as (Hfb & Hc & Hn & Hlay). destruct (Hfacts xs' _ Hi' Hs') as (Hfb' & Hc' & Hn' & Hlay').
  destruct (blocks_up_spec offset Storage.BLOCK_SIZE) as [Hup Hup0]; [lia|lia|].
  assert (offset ≤ Backend.file_bytes xs') as Hfit.
  { rewrite Hfb'. unfold count. rewrite Hb', length_take. unfold count in *. nia. }
  eexists _, _, _. unfold storage. rewrite (read_anywhere malloc w id ino xs) by (done || lia). split; [reflexivity|].
  rewrite (read_anywhere malloc w' id (with_length ino offset) xs') by (done || cbn; lia).
  rewrite Hstore. do 3 f_equal. unfold Backend.file_read. apply list_fmap_ext. intros j k Hj.
  apply lookup_seq in Hj as [-> Hj]. do 2 f_equal.
  apply (shrunk_addr N (committed w) (committed w') id (with_length ino offset) xs offset xs'); [done|done|done|lia].
Qed.

(** The call commits what its transaction does. *)
Lemma truncate_commits w id offset t' :
  locked w = false → block_size (w_metadata w) = Storage.BLOCK_SIZE →
  truncate_txn Storage.BLOCK_SIZE id offset (committed w) = Ok (MTL_SUCCESS, t') →
  ∃ w', mtl_truncate id offset w = Ok (MTL_SUCCESS, w') ∧ committed w' = t' ∧
    locked w' = false ∧ same_backend w w'.
Proof.
  intros Hl Hbs Htxn. destruct (begin_bind w Hl) as (w1 & Hc1 & _ & [Hm1 Hs1] & Hbeg).
  destruct (commit_bind MTL_SUCCESS t' w1) as (w' & Hend & Hcw' & Hlw & [Hm' Hs']).
  exists w'. split; [|split; [done|split; [done|split; congruence]]].
  unfold mtl_truncate. run_step Hbeg. rewrite (bind_run m_get _ w1 w1 w1) by done.
  rewrite Hm1, Hbs. by rewrite (in_txn_bind _ _ _ _ _ _ Htxn).
Qed.

(** C26: Truncating a file whose records fit the stack, to a positive length that is at
    least its own, takes exactly the blocks that are missing from the free ones, as a
    write does (under the same conditions as there: so many blocks are free, no two
    free extents are neighbours, and the extent behind the last one of the file is not
    free or larger than what is missing), and sets the length if a block was missing;
    one to the start of its last extent drops exactly this extent, whose blocks become
    free (on volumes of at most 256 blocks where no block just before an extent of the
    file is free or the file's own), sets the length, and leaves every range before
    that as it was. Both keep the allocator's invariant, the other files' extents and
    the other inodes. *)
Theorem truncate_grows_or_drops N w id ino xs offset :
  let t := committed w in
  let need := blocks_up offset Storage.BLOCK_SIZE - count xs in
  locked w = false → block_size (w_metadata w) = Storage.BLOCK_SIZE →
  file_at t id ino xs → Alloc.inv N t → stored t xs → merged t →
  sizeof_inode + 32 * (N + 1) ≤ stack_limit < 2 ^ 40 →
  (i_length ino ≤ offset → 0 < offset < 2 ^ 62 → enough t need → room t xs need →
   ∃ w' xs', mtl_truncate id offset w = Ok (MTL_SUCCESS, w') ∧ locked w' = false ∧ same_backend w w' ∧
     file_at (committed w') id (if decide (0 < need) then with_length ino offset else ino) xs' ∧
     grown N t (committed w') xs (Z.max 0 need) xs' ∧ inodes_kept id t (committed w')) ∧
  (∀ pre x, xs = pre ++ [x] → offset = count pre * Storage.BLOCK_SIZE →
   offset < i_length ino ≤ Backend.file_bytes xs → N ≤ 256 → isolated t xs →
   ∃ w', mtl_truncate id offset w = Ok (MTL_SUCCESS, w') ∧ locked w' = false ∧ same_backend w w' ∧
     file_at (committed w') id (with_length ino offset) pre ∧ stored (committed w') pre ∧
     freed N t (committed w') (blocks_in [x]) ∧ inodes_kept id t (committed w') ∧
     ∀ out o, 0 ≤ o → (0 < length out)%nat → o + Z.of_nat (length out) ≤ offset →
       ∃ bytes w1 w2, mtl_read storage id out (Z.of_nat (length out)) o w = Ok ((Z.of_nat (length out), bytes), w1) ∧
         mtl_read storage id out (Z.of_nat (length out)) o w' = Ok ((Z.of_nat (length out), bytes), w2)).
Proof.
  intros t need Hl Hbs Hf Hi Hs Hm Hst. assert (Storage.BLOCK_SIZE = 2 ^ 12) as HBS by done. split.
  - intros Ho Hoff Hen Hroom.
    destruct (expand_run N Storage.BLOCK_SIZE id ino offset xs t Hi Hf Hs Hm) as (t' & xs' & Hexp & Hg & Hk & Hf');
      [lia|lia|done..|].
    destruct (truncate_commits w id offset t' Hl Hbs) as (w' & Hr & Hc & Hl' & Hsb); [|subst t'; by exists w', xs'].
    unfold truncate_txn. run_step (load_file_run t id ino xs Hf).
    unfold c_deref. rewrite (bind_run _ _ _ _ _ (ret_run _ t)).
    pose proof (loaded_extents_run ino xs (fa_ok _ _ _ _ Hf)) as Hx. unfold loaded_extents in Hx. rewrite Hx.
    by rewrite (proj2 (Z.leb_le _ _)) by lia.
  - intros pre x -> -> Ho HN Hiso. set (xs := pre ++ [x]) in *. set (offset := count pre * Storage.BLOCK_SIZE) in *.
    pose proof (stored_total N t xs Hi Hs) as Htotal. fold (count xs) in Htotal.
    pose proof (stored_count N t xs Hi Hs) as [_ Hcount].
    pose proof (extents_at_most_blocks xs ltac:(intros y Hy; by apply (stored_range N t xs y Hi Hs))) as Hmost.
    destruct (loop_drops_last N t id ino Storage.BLOCK_SIZE pre x) as (t' & Hloop & Hsk); try done; [fold xs; lia..|].
    fold xs offset in Hloop, Hsk.
    destruct (truncate_commits w id offset t' Hl Hbs) as (w' & Hr & Hc & Hl' & Hsb).
    { unfold truncate_txn. run_step (load_file_run t id ino xs Hf).
      unfold c_deref. rewrite (bind_run _ _ _ _ _ (ret_run _ t)).
      pose proof (loaded_extents_run ino xs (fa_ok _ _ _ _ Hf)) as Hx. unfold loaded_extents in Hx. rewrite Hx.
      rewrite (proj2 (Z.leb_gt _ _)) by lia. rewrite Nat2Z.id. by run_step Hloop. }
    subst t'. assert (0 ≤ offset) as Hpos by (unfold offset; pose proof (count_nonneg pre); lia).
    exists w'. do 3 (split; [done|]). split; [apply Hsk|]. split; [apply Hsk|]. split; [|split; [exact (sk_inodes _ _ _ _ _ _ _ _ Hsk)|]].
    + pose proof (sk_freed _ _ _ _ _ _ _ _ Hsk) as Hfd.
      assert (drop (Z.to_nat (blocks_up offset Storage.BLOCK_SIZE)) (blocks_in xs) = blocks_in [x]) as E; [|by rewrite E in Hfd].
      pose proof (sk_blocks _ _ _ _ _ _ _ _ Hsk) as Hb. set (k := Z.to_nat (blocks_up offset Storage.BLOCK_SIZE)) in *.
      pose proof (take_drop k (blocks_in xs)) as Htd. rewrite <-Hb in Htd. unfold xs in Htd at 2.
      rewrite blocks_in_app in Htd. by apply app_inv_head in Htd.
    + intros out o Ho' Hout Hend.
      apply (shrunk_reads N w w' id ino xs offset pre out o); try done; [apply Hsb|lia|lia].
Qed.

(** Truncating a file of any number of extents to fewer bytes leaves it with
    exactly the first of its blocks that this many bytes take, in the extents they
    were in, and with the new length; exactly its other blocks become free. The
    invariant of the allocator and the separation of free extents are kept, and so
    are the extents of every other file and every other inode; every range before
    the new end is read as before. This holds on volumes of at most 256 blocks where
    no two free extents are neighbours and before each extent of the file lies a
    block in use of something else, and while the pointers into records that the
    transaction has replaced read the old records. *)
Theorem truncate_frees_rest N w id ino xs offset :
  let t := committed w in
  let need := Z.to_nat (blocks_up offset Storage.BLOCK_SIZE) in
  locked w = false → block_size (w_metadata w) = Storage.BLOCK_SIZE →
  file_at t id ino xs → N ≤ 256 → Alloc.inv N t → stored t xs → merged t → isolated t xs →
  0 ≤ offset < i_length ino → i_length ino ≤ Backend.file_bytes xs →
  sizeof_inode + 32 * Z.of_nat (length xs) ≤ stack_limit < 2 ^ 40 → copied_on_write t id (ino, extents_bytes xs) →
  ∃ w' xs', mtl_truncate id offset w = Ok (MTL_SUCCESS, w') ∧ locked w' = false ∧ same_backend w w' ∧
    file_at (committed w') id (with_length ino offset) xs' ∧ stored (committed w') xs' ∧
    blocks_in xs' = take need (blocks_in xs) ∧
    Alloc.inv N (committed w') ∧ merged (committed w') ∧
    (∀ b, Alloc.free_in (committed w') b ↔ Alloc.free_in t b ∨ b ∈ drop need (blocks_in xs)) ∧
    (∀ ys, stored t ys → (∀ b, b ∈ blocks_in ys → b ∉ blocks_in xs) → stored (committed w') ys) ∧
    (∀ i, i ≠ id → mdb_get (tx_inodes (committed w')) i = mdb_get (tx_inodes t) i) ∧
    ∀ out o, 0 ≤ o → (0 < length out)%nat → o + Z.of_nat (length out) ≤ offset →
      ∃ bytes w1 w2, mtl_read storage id out (Z.of_nat (length out)) o w = Ok ((Z.of_nat (length out), bytes), w1) ∧
        mtl_read storage id out (Z.of_nat (length out)) o w' = Ok ((Z.of_nat (length out), bytes), w2).
Proof.
  intros t need Hl Hbs Hf HN Hi Hs Hm Hiso Ho Hlen Hst Hcw.
  assert (Storage.BLOCK_SIZE = 2 ^ 12) as HBS by done.
  pose proof (stored_total N t xs Hi Hs) as Htotal. fold (count xs) in Htotal.
  assert (Backend.file_bytes xs = count xs * Storage.BLOCK_SIZE) as Hfb
    by (apply file_bytes_blocks; intros x; by apply (stored_range N t)).
  destruct (truncate_txn_run N t id ino Storage.BLOCK_SIZE offset xs) as (t' & xs' & Htxn & Hsk); try done; [lia|lia|].
  destruct (truncate_commits w id offset t' Hl Hbs Htxn) as (w' & Hr & Hcw' & Hlw & [Hm' Hs']).
  exists w', xs'. split; [exact Hr|].
  rewrite <-Hcw' in Hsk. pose proof (λ out o, shrunk_reads N w w' id ino xs offset xs' out o Hi HN Hf Hs Hsk) as Hread.
  destruct Hsk as [Hf' Hst' Hb' [Hi' Hm2 Hfree Hothers] Hino].
  split; [done|]. split; [split; congruence|]. repeat (split; [done|]). split; [|split; [done|]].
  - intros ys Hys Hd. apply Hothers; [done|]. intros b Hb Hb'2. apply (Hd b Hb).
    rewrite <-(take_drop need (blocks_in xs)). apply elem_of_app. by right.
  - intros out o Ho' Hpos Hout. apply Hread; [congruence|done..].
Qed.
End Shrinking.

(** ** A file in two extents *)

Module Demo.
#[local] Instance machine : Machine := Ns.Demo.machine.

Definition volume : Metal.world :=
  Files.Demo.volume (Storage.Store None []) (Files.Demo.with_extents Removal.Demo.filled 24000 Removal.Demo.extents).

Lemma volume_copied :
  copied_on_write (committed volume) 1 (Files.Demo.file_inode 24000, extents_bytes Removal.Demo.extents).
Proof.
  split.
  - intros o e v He. unfold Alloc.ext_of in He.
    change (from_option id v (mdb_get (tx_extents (committed volume)) o) = e). by rewrite He.
  - intros v.
    pose proof (fa_get _ _ _ _ (Files.Demo.f_at Removal.Demo.filled 24000 Removal.Demo.extents
      ltac:(by repeat constructor))) as Hg.
    change (from_option id v (mdb_get (tx_inodes (committed volume)) 1)
      = (Files.Demo.file_inode 24000, extents_bytes Removal.Demo.extents)).
    change (mdb_get (tx_inodes (committed volume)) 1
      = Some (Files.Demo.file_inode 24000, extents_bytes Removal.Demo.extents)) in Hg.
    by rewrite Hg.
Qed.
End Demo.

#[local] Existing Instance Demo.machine.

(** Two blocks of the first extent are kept. *)
Lemma truncate_frees_rest_witness :
  ∃ w' xs', mtl_truncate 1 5000 Demo.volume = Ok (MTL_SUCCESS, w') ∧ blocks_in xs' = [8; 9] ∧
    file_at (committed w') 1 (Files.Demo.file_inode 5000) xs' ∧ Alloc.inv 12 (committed w') ∧
    Alloc.free_in (committed w') 10 ∧ Alloc.free_in (committed w') 1.
Proof.
  destruct (truncate_frees_rest (λ _, 0) 12 Demo.volume 1 (Files.Demo.file_inode 24000) Removal.Demo.extents 5000)
    as (w' & xs' & Hr & _ & _ & Hf & _ & Hb & Hi & _ & Hfree & _).
  - done.
  - done.
  - apply Files.Demo.f_at. by repeat constructor.
  - done.
  - apply Removal.Demo.filled_inv.
  - destruct Removal.Demo.filled_stored as [Hd Hu]. split; [exact Hd|exact Hu].
  - apply Removal.Demo.filled_merged.
  - apply Removal.Demo.filled_isolated.
  - vm_compute. split; congruence.
  - vm_compute. congruence.
  - vm_compute. split; congruence.
  - apply Demo.volume_copied.
  - exists w', xs'. split; [exact Hr|]. split; [rewrite Hb; by vm_compute|]. split; [exact Hf|].
    split; [exact Hi|]. split; apply Hfree; right; apply list_elem_of_In; vm_compute; tauto.
Defined.

Lemma grows_enough : enough (committed Demo.volume) 1.
Proof.
  exists [2]. split; [apply NoDup_singleton|]. split; [|done]. apply Forall_singleton.
  exists 2, Removal.Demo.rest. split; [vm_compute; reflexivity|]. split; [done|]. cbn. lia.
Qed.

Lemma grows_room : room (committed Demo.volume) Removal.Demo.extents 1.
Proof.
  intros l [= <-]. right. exists Removal.Demo.rest. split; [vm_compute; reflexivity|]. split; [done|]. cbn. lia.
Qed.

(** One more block for 28000 bytes; the first extent alone for 16384. *)
Lemma truncate_grows_or_drops_witness :
  (∃ w' xs', mtl_truncate 1 28000 Demo.volume = Ok (MTL_SUCCESS, w') ∧
     file_at (committed w') 1 (Files.Demo.file_inode 28000) xs' ∧ Alloc.inv 12 (committed w')) ∧
  ∃ w', mtl_truncate 1 16384 Demo.volume = Ok (MTL_SUCCESS, w') ∧
    file_at (committed w') 1 (Files.Demo.file_inode 16384) [FileExtent 8 4] ∧ Alloc.free_in (committed w') 1.
Proof.
  assert (stored (committed Demo.volume) Removal.Demo.extents) as Hst
    by (destruct Removal.Demo.filled_stored as [Hd Hu]; split; [exact Hd|exact Hu]).
  pose proof (λ offset, truncate_grows_or_drops (λ _, 0) 12 Demo.volume 1 (Files.Demo.file_inode 24000)
    Removal.Demo.extents offset eq_refl eq_refl (Files.Demo.f_at Removal.Demo.filled 24000 Removal.Demo.extents ltac:(by repeat constructor))
    Removal.Demo.filled_inv Hst Removal.Demo.filled_merged ltac:(vm_compute; split; congruence)) as H. split.
  - destruct (H 28000) as [Hgrow _].
    destruct Hgrow as (w' & xs' & Hr & _ & _ & Hf & Hg & _);
      [vm_compute; congruence|vm_compute; split; congruence|apply grows_enough|apply grows_room|].
    exists w', xs'. split; [exact Hr|]. split; [exact Hf|apply Hg].
  - destruct (H 16384) as [_ Hdrop].
    destruct (Hdrop [FileExtent 8 4] (FileExtent 0 2)) as (w' & Hr & _ & _ & Hf & _ & Hfd & _);
      [done|done|vm_compute; split; congruence|done|apply Removal.Demo.filled_isolated|].
    exists w'. split; [exact Hr|]. split; [exact Hf|]. apply (fd_free _ _ _ _ Hfd). right.
    apply list_elem_of_In. vm_compute. tauto.
Defined.
End Truncation.
