(* ===== verification/Fuse.v ===== *)
(** * The FUSE handlers (metal-driver)

    [fuse_handler] is the interface FuseHandler; the file system, operator and
    socket handlers implement it, and CombinedFuseHandler dispatches to one of
    them by the prefix of the path. Results that C++ writes through pointers
    are returned. *)
From S2P Require Import Prelude Lmdb Structs Dirent Inode Path Metal File.

Definition ENOENT : Z := 2.
Definition ENOSYS : Z := 38.
Definition S_IFLNK : Z := 40960.
Definition FILENAME_MAX : Z := 4096.

Definition s32 (x : Z) : Z := if u32 x <? 2 ^ 31 then u32 x else u32 x - 2 ^ 32.

Record stat := Stat {
  st_mode : Z; st_nlink : Z; st_uid : Z; st_gid : Z; st_size : Z; st_blocks : Z;
  st_atime : Z; st_mtime : Z; st_ctime : Z;
}.

Definition zero_stat : stat := Stat 0 0 0 0 0 0 0 0 0.

Definition set_mode_nlink (mode nlink : Z) (s : stat) : stat :=
  Stat mode nlink (st_uid s) (st_gid s) (st_size s) (st_blocks s)
       (st_atime s) (st_mtime s) (st_ctime s).

(** The handlers work on the state [W]. A [fuse_file_info] is its [fh] field;
    the buffer of [readdir] is the list of the names filled in. *)
Record fuse_handler (W : Type) := FuseHandler {
  fuse_chown : cstr → Z → Z → M W Z;
  fuse_create : (* now *) Z → cstr → Z → (* fh *) Z → M W (Z * Z);
  fuse_getattr : cstr → stat → M W (Z * stat);
  fuse_mkdir : (* now *) Z → cstr → Z → M W Z;
  fuse_open : cstr → Z → M W (Z * Z);
  fuse_read : cstr → (* buffer *) list Z → (* size offset fh *) Z → Z → Z → M W (Z * list Z);
  fuse_readdir : cstr → list cstr → M W (Z * list cstr);
  fuse_readlink : cstr → list Z → Z → M W (Z * list Z);
  fuse_release : cstr → Z → M W Z;
  fuse_rename : cstr → cstr → M W Z;
  fuse_rmdir : cstr → M W Z;
  fuse_truncate : cstr → Z → M W Z;
  fuse_unlink : cstr → M W Z;
  fuse_write : cstr → list Z → (* size offset fh *) Z → Z → Z → M W Z;
}.
Arguments FuseHandler {W}.
Arguments fuse_chown {W}. Arguments fuse_create {W}. Arguments fuse_getattr {W}.
Arguments fuse_mkdir {W}. Arguments fuse_open {W}. Arguments fuse_read {W}.
Arguments fuse_readdir {W}. Arguments fuse_readlink {W}. Arguments fuse_release {W}.
Arguments fuse_rename {W}. Arguments fuse_rmdir {W}. Arguments fuse_truncate {W}.
Arguments fuse_unlink {W}. Arguments fuse_write {W}.

(** ** filesystem_fuse_handler.cpp *)
Module FilesystemFuse.
Section Filesystem.
Context `{Lmdb} `{Machine} {B : Type} (storage : mtl_storage_backend B).
Abbreviation W := (Metal.world (B := B)).

Definition fs_chown (path : cstr) (uid gid : Z) : M W Z :=
  Metal.mtl_chown path (s32 uid) (s32 gid).

Definition stat_of_inode (inode : mtl_inode) : stat :=
  Stat (i_mode inode) 2 (i_user inode) (i_group inode) (i_length inode)
       (i_length inode / 512 + (if 0 <? i_length inode mod 512 then 1 else 0))
       (i_accessed inode) (i_modified inode) (i_created inode).

Definition fs_getattr (path : cstr) (stbuf : stat) : M W (Z * stat) :=
  let stbuf := zero_stat in
  if decide (path = []) then
    mret (0, set_mode_nlink (Z.lor S_IFDIR 493) 2 stbuf)
  else
    '(res, inode) ← Metal.mtl_get_inode path;
    if negb (res =? MTL_SUCCESS) then mret (- res, stbuf)
    else inode ← c_deref inode; mret (0, stat_of_inode inode).

(** The C string at the beginning of a buffer. *)
Definition c_string (buffer : list Z) : cstr := take_while (λ c, negb (c =? 0)) buffer.

(** The names [mtl_readdir] gives until it is complete. *)
Fixpoint readdir_loop (fuel : nat) (dir : Metal.mtl_dir) (buffer : list Z)
    (names : list cstr) : result (list cstr) :=
  match fuel with
  | O => Fault OutOfFuel
  | S fuel' =>
      '(status, buffer, dir) ← Metal.mtl_readdir dir buffer FILENAME_MAX;
      if status =? MTL_COMPLETE then mret names
      else readdir_loop fuel' dir buffer (names ++ [c_string buffer])
  end.

Definition fs_readdir (path : cstr) (names : list cstr) : M W (Z * list cstr) :=
  '(res, dir) ← Metal.mtl_opendir path;
  if negb (res =? MTL_SUCCESS) then mret (- res, names)
  else
    names ← m_lift (readdir_loop (2 + length (Metal.dir_data dir)) dir
                      (garbage <$> seq 0 (Z.to_nat FILENAME_MAX)) names);
    mret (0, names).

Definition fs_create (now : Z) (path : cstr) (mode fh : Z) : M W (Z * Z) :=
  '(res, inode_id) ← Metal.mtl_create now path mode;
  if negb (res =? MTL_SUCCESS) then mret (- res, fh)
  else mret (0, default (uninit "fuse_create.inode_id") inode_id).

Definition fs_readlink (path : cstr) (buf : list Z) (size : Z) : M W (Z * list Z) :=
  mret (- ENOENT, buf).

Definition fs_open (path : cstr) (fh : Z) : M W (Z * Z) :=
  '(res, inode_id) ← Metal.mtl_open path;
  if negb (res =? MTL_SUCCESS) then mret (- res, fh) else mret (0, inode_id).

Definition fs_read (path : cstr) (buf : list Z) (size offset fh : Z) :
    M W (Z * list Z) :=
  '(res, inode_id) ← Metal.mtl_open path;
  if negb (res =? MTL_SUCCESS) then mret (- res, buf)
  else
    '(n, buf) ← File.mtl_read storage inode_id buf size (u64 offset);
    mret (s32 n, buf).

Definition fs_release (path : cstr) (fh : Z) : M W Z := mret 0.

Definition fs_truncate (path : cstr) (size : Z) : M W Z :=
  '(res, inode_id) ← Metal.mtl_open path;
  if negb (res =? MTL_SUCCESS) then mret (- res)
  else
    res ← File.mtl_truncate inode_id (u64 size);
    if negb (res =? MTL_SUCCESS) then mret (- res) else mret 0.

Definition fs_write (path : cstr) (buf : list Z) (size offset fh : Z) : M W Z :=
  if negb (fh =? 0) then
    _ ← File.mtl_write storage fh buf size (u64 offset);
    mret (s32 size)
  else mret (- ENOSYS).

Definition fs_unlink (path : cstr) : M W Z :=
  res ← File.mtl_unlink path;
  if negb (res =? MTL_SUCCESS) then mret (- res) else mret 0.

Definition fs_mkdir (now : Z) (path : cstr) (mode : Z) : M W Z :=
  res ← Metal.mtl_mkdir now path mode;
  if negb (res =? MTL_SUCCESS) then mret (- res) else mret 0.

Definition fs_rmdir (path : cstr) : M W Z :=
  res ← Metal.mtl_rmdir path;
  if negb (res =? MTL_SUCCESS) then mret (- res) else mret 0.

Definition fs_rename (from_path to_path : cstr) : M W Z :=
  res ← Metal.mtl_rename from_path to_path;
  if negb (res =? MTL_SUCCESS) then mret (- res) else mret 0.

Definition FilesystemFuseHandler : fuse_handler W := {|
  fuse_chown := fs_chown; fuse_create := fs_create; fuse_getattr := fs_getattr;
  fuse_mkdir := fs_mkdir; fuse_open := fs_open; fuse_read := fs_read;
  fuse_readdir := fs_readdir; fuse_readlink := fs_readlink; fuse_release := fs_release;
  fuse_rename := fs_rename; fuse_rmdir := fs_rmdir; fuse_truncate := fs_truncate;
  fuse_unlink := fs_unlink; fuse_write := fs_write;
|}.
End Filesystem.
End FilesystemFuse.

(** ** operator_fuse_handler.cpp *)
Module OperatorFuse.
Section Operator.
Context {W : Type}.
(** The bytes of the placeholder binary, a file the build generates, and the
    names of the operators in the order of the set. *)
Context (PlaceholderBinary : list Z) (_operators : list cstr).
Let sizeof_binary : Z := Z.of_nat (length PlaceholderBinary).

(** [assert(path.size() > 1 && path[0] == '/')], then [path.substr(1)]. *)
Definition op_basename (path : cstr) : M W cstr :=
  match path with
  | c :: (_ :: _) as name => if c =? slash then mret (tail path) else m_fault AssertFail
  | _ => m_fault AssertFail
  end.

Definition op_getattr (path : cstr) (stbuf : stat) : M W (Z * stat) :=
  if decide (path = []) then mret (0, set_mode_nlink (Z.lor S_IFDIR 493) 2 stbuf)
  else
    basename ← op_basename path;
    if decide (basename ∈ _operators)
    then mret (0, Stat (Z.lor S_IFREG 73) 0 0 0 sizeof_binary 0 0 0 0)
    else mret (- ENOENT, stbuf).

Definition op_readdir (path : cstr) (names : list cstr) : M W (Z * list cstr) :=
  mret (0, names ++ [str "."; str ".."] ++ _operators).

(** [offset] is signed, the size of the binary is not. *)
Definition op_read (path : cstr) (buf : list Z) (size offset fh : Z) :
    M W (Z * list Z) :=
  basename ← op_basename path;
  if decide (basename ∈ _operators) then
    let readLength := Z.min size (sizeof_binary -ᵤ u64 offset) in
    bytes ← m_lift (read_bytes PlaceholderBinary offset readLength);
    buf ← m_lift (Metal.store_prefix buf bytes);
    mret (s32 readLength, buf)
  else mret (- ENOSYS, buf).

Definition OperatorFuseHandler : fuse_handler W := {|
  fuse_chown := λ _ _ _, mret (- ENOSYS);
  fuse_create := λ _ _ _ fh, mret (- ENOSYS, fh);
  fuse_getattr := op_getattr;
  fuse_mkdir := λ _ _ _, mret (- ENOSYS);
  fuse_open := λ _ fh, mret (- ENOSYS, fh);
  fuse_read := op_read;
  fuse_readdir := op_readdir;
  fuse_readlink := λ _ buf _, mret (- ENOENT, buf);
  fuse_release := λ _ _, mret 0;
  fuse_rename := λ _ _, mret (- ENOSYS);
  fuse_rmdir := λ _, mret (- ENOSYS);
  fuse_truncate := λ _ _, mret (- ENOSYS);
  fuse_unlink := λ _, mret (- ENOSYS);
  fuse_write := λ _ _ _ _ _, mret (- ENOSYS);
|}.
End Operator.
End OperatorFuse.

(** ** socket_fuse_handler.cpp *)
Module SocketFuse.
Section Socket.
Context {W : Type} (_socket_name : cstr).

Definition sock_getattr (path : cstr) (stbuf : stat) : M W (Z * stat) :=
  if decide (path = []) then
    mret (0, Stat (Z.lor S_IFLNK 511) 1 0 0 (strlen _socket_name) 0 0 0 0)
  else mret (- ENOENT, zero_stat).

Definition sock_readlink (path : cstr) (buf : list Z) (size : Z) : M W (Z * list Z) :=
  if decide (path = []) then
    buf ← m_lift (Metal.store_prefix buf (Metal.strncpy (Z.to_nat size) _socket_name));
    mret (0, buf)
  else mret (- ENOENT, buf).

Definition SocketFuseHandler : fuse_handler W := {|
  fuse_chown := λ _ _ _, mret (- ENOSYS);
  fuse_create := λ _ _ _ fh, mret (- ENOSYS, fh);
  fuse_getattr := sock_getattr;
  fuse_mkdir := λ _ _ _, mret (- ENOSYS);
  fuse_open := λ _ fh, mret (- ENOSYS, fh);
  fuse_read := λ _ buf _ _ _, mret (- ENOSYS, buf);
  fuse_readdir := λ _ names, mret (- ENOSYS, names);
  fuse_readlink := sock_readlink;
  fuse_release := λ _ _, mret 0;
  fuse_rename := λ _ _, mret (- ENOSYS);
  fuse_rmdir := λ _, mret (- ENOSYS);
  fuse_truncate := λ _ _, mret (- ENOSYS);
  fuse_unlink := λ _, mret (- ENOSYS);
  fuse_write := λ _ _ _ _ _, mret (- ENOSYS);
|}.
End Socket.
End SocketFuse.

(** ** combined_fuse_handler.cpp *)
Module CombinedFuse.
Section Combined.
Context {W : Type}.
Implicit Types (path : cstr).

(** [std::map<std::string, std::shared_ptr<FuseHandler>>]: in the order of
    the keys. *)
Abbreviation handlers := (list (cstr * fuse_handler W)).

(** [emplace]: an existing key keeps its handler. *)
Fixpoint addHandler {T} (_handlers : list (cstr * T)) (prefix : cstr) (handler : T) :
    list (cstr * T) :=
  match _handlers with
  | [] => [(prefix, handler)]
  | (p, h) :: rest =>
      match memcmp prefix p with
      | Lt => (prefix, handler) :: _handlers
      | Eq => _handlers
      | Gt => (p, h) :: addHandler rest prefix handler
      end
  end.

(** [path.rfind(prefix, 0) == 0]. *)
Fixpoint starts_with (prefix path : cstr) : bool :=
  match prefix, path with
  | [], _ => true
  | _, [] => false
  | c :: prefix', c' :: path' => (c =? c') && starts_with prefix' path'
  end.

(** The loop of every function: the first handler whose prefix fits, with the
    rest of the path. *)
Fixpoint dispatch {A} (_handlers : handlers) path (none : A)
    (call : fuse_handler W → cstr → A) : A :=
  match _handlers with
  | [] => none
  | (prefix, handler) :: rest =>
      if negb (starts_with prefix path) then dispatch rest path none call
      else call handler (drop (length prefix) path)
  end.

Fixpoint resolveHandler {T} (_handlers : list (cstr * T)) path : option (cstr * T) :=
  match _handlers with
  | [] => None
  | (prefix, handler) :: rest =>
      if negb (starts_with prefix path) then resolveHandler rest path
      else Some (prefix, handler)
  end.

Context (_handlers : handlers).

Definition combined_chown path (uid gid : Z) : M W Z :=
  dispatch _handlers path (mret (- ENOENT)) (λ h p, fuse_chown h p uid gid).

Definition combined_getattr path (stbuf : stat) : M W (Z * stat) :=
  if decide (path = str "/") then mret (0, set_mode_nlink (Z.lor S_IFDIR 493) 2 stbuf)
  else dispatch _handlers path (mret (- ENOENT, stbuf)) (λ h p, fuse_getattr h p stbuf).

Definition combined_readdir path (names : list cstr) : M W (Z * list cstr) :=
  dispatch _handlers path
    (if decide (path = str "/")
     then mret (0, names ++ [str "."; str ".."] ++ (tail ∘ fst <$> _handlers))
     else mret (0, names))
    (λ h p, fuse_readdir h (if decide (p = []) then str "/" else p) names).

Definition combined_create (now : Z) path (mode fh : Z) : M W (Z * Z) :=
  dispatch _handlers path (mret (- ENOSYS, fh)) (λ h p, fuse_create h now p mode fh).

Definition combined_readlink path (buf : list Z) (size : Z) : M W (Z * list Z) :=
  dispatch _handlers path (mret (- ENOENT, buf)) (λ h p, fuse_readlink h p buf size).

Definition combined_open path (fh : Z) : M W (Z * Z) :=
  dispatch _handlers path (mret (- ENOENT, fh)) (λ h p, fuse_open h p fh).

Definition combined_read path (buf : list Z) (size offset fh : Z) : M W (Z * list Z) :=
  dispatch _handlers path (mret (- ENOENT, buf)) (λ h p, fuse_read h p buf size offset fh).

Definition combined_release path (fh : Z) : M W Z :=
  dispatch _handlers path (mret (- ENOSYS)) (λ h p, fuse_release h p fh).

Definition combined_truncate path (size : Z) : M W Z :=
  dispatch _handlers path (mret (- ENOENT)) (λ h p, fuse_truncate h p size).

Definition combined_write path (buf : list Z) (size offset fh : Z) : M W Z :=
  dispatch _handlers path (mret (- ENOENT)) (λ h p, fuse_write h p buf size offset fh).

Definition combined_unlink path : M W Z :=
  dispatch _handlers path (mret (- ENOENT)) (λ h p, fuse_unlink h p).

Definition combined_mkdir (now : Z) path (mode : Z) : M W Z :=
  dispatch _handlers path (mret (- ENOSYS)) (λ h p, fuse_mkdir h now p mode).

Definition combined_rmdir path : M W Z :=
  dispatch _handlers path (mret (- ENOENT)) (λ h p, fuse_rmdir h p).

(** Both paths have to belong to the handler of the first one. *)
Fixpoint rename_loop (hs : handlers) (from_path to_path : cstr) : M W Z :=
  match hs with
  | [] => mret (- ENOENT)
  | (prefix, handler) :: rest =>
      if negb (starts_with prefix from_path) then rename_loop rest from_path to_path
      else if negb (starts_with prefix to_path) then mret (- ENOSYS)
      else fuse_rename handler (drop (length prefix) from_path)
                               (drop (length prefix) to_path)
  end.

Definition combined_rename (from_path to_path : cstr) : M W Z :=
  rename_loop _handlers from_path to_path.

Definition CombinedFuseHandler : fuse_handler W := {|
  fuse_chown := combined_chown; fuse_create := combined_create;
  fuse_getattr := combined_getattr; fuse_mkdir := combined_mkdir;
  fuse_open := combined_open; fuse_read := combined_read;
  fuse_readdir := combined_readdir; fuse_readlink := combined_readlink;
  fuse_release := combined_release; fuse_rename := combined_rename;
  fuse_rmdir := combined_rmdir; fuse_truncate := combined_truncate;
  fuse_unlink := combined_unlink; fuse_write := combined_write;
|}.
End Combined.
End CombinedFuse.
