(* ===== verification/FuseProofs.v ===== *)
(** * The FUSE handlers

    Listing a directory, the attributes of an inode, and the dispatch by
    prefix. *)
From S2P Require Import Prelude Lmdb Structs Dirent Inode InodeProofs Path Metal File Storage Namespace Fuse.

Module FuseFacts.
Import Dir Metal Ns.

(** ** Listing a directory *)

Section Listing.
Context `{LmdbLaws} `{Machine} {B : Type} (storage : mtl_storage_backend B).
Abbreviation world := (world (B := B)).
Implicit Types (w : world) (es : list dirent).
Import FilesystemFuse.

Lemma strncpy_name name : no_nul name → strncpy (length name) name = name.
Proof.
  induction 1 as [|c name Hc _ IH]; [done|]. cbn [length strncpy].
  rewrite (proj2 (Z.eqb_neq _ _)) by done. by rewrite IH.
Qed.

Lemma c_string_name name rest : no_nul name → c_string (name ++ 0 :: rest) = name.
Proof.
  intros Hn. unfold c_string. apply take_while_app_stop; [|done].
  eapply Forall_impl; [done|]. intros c Hc. by rewrite (proj2 (Z.eqb_neq _ _)).
Qed.

(** The directory stream before the entries [es2] of [es1 ++ es2]. *)
Definition stream es es1 es2 : mtl_dir :=
  MtlDir (Z.of_nat (length (dir_bytes es))) (dir_bytes es)
    (match es2 with [] => None | _ :: _ => Some (Z.of_nat (length (dir_bytes es1))) end).

(** One call: the name of the next entry, terminated, and the stream after it. *)
Lemma readdir_step es es1 e es2 buffer :
  es = es1 ++ e :: es2 → Forall dirent_ok es → length buffer = Z.to_nat FILENAME_MAX →
  ∃ rest, mtl_readdir (stream es es1 (e :: es2)) buffer FILENAME_MAX
          = Ok (MTL_SUCCESS, de_name e ++ 0 :: rest, stream es (es1 ++ [e]) es2) ∧
    length (de_name e ++ 0 :: rest) = Z.to_nat FILENAME_MAX.
Proof.
  intros E Hok Hbuf. pose proof (entry_ok es Hok es1 e es2 E) as He.
  pose proof (deo_len _ He) as Hlen.
  assert (Z.of_nat (length (de_name e)) < FILENAME_MAX) as Hmax by (unfold FILENAME_MAX; lia).
  exists (drop (length (de_name e ++ [0])) buffer). split.
  - unfold mtl_readdir, stream. cbn [dir_next dir_data dir_length].
    rewrite (name_len_run es Hok _ _ _ E). unfold mbind at 1, result_bind at 1.
    rewrite (proj2 (Z.ltb_ge FILENAME_MAX _)) by lia.
    pose proof (filename_run es Hok es1 e es2 E) as Hname. unfold entry_filename in Hname.
    rewrite Hname. unfold mbind at 1, result_bind at 1.
    rewrite (proj2 (Z.ltb_lt _ FILENAME_MAX)) by lia. rewrite Nat2Z.id.
    rewrite strncpy_name by apply He.
    unfold store_prefix.
    rewrite (proj2 (Nat.leb_le _ _)) by (rewrite length_app; simpl; lia).
    unfold mbind at 1, result_bind at 1. rewrite <-app_assoc. cbn [app].
    unfold mret, result_ret. do 3 f_equal.
    rewrite dir_bytes_app, dir_bytes_cons, app_nil_r, length_app.
    rewrite length_dirent_bytes by apply He. unfold sizeof_entry_head.
    rewrite E at 1. rewrite dir_bytes_app, dir_bytes_cons, !length_app.
    rewrite length_dirent_bytes by apply He. destruct es2 as [|e2 es2].
    + rewrite (proj2 (Z.ltb_lt _ _)) by (simpl; lia). done.
    + rewrite dir_bytes_cons, length_app.
      assert (dirent_ok e2) as He2.
      { apply (entry_ok es Hok (es1 ++ [e]) e2 es2). by rewrite E, <-app_assoc. }
      rewrite length_dirent_bytes by apply He2.
      rewrite (proj2 (Z.ltb_ge _ _)) by lia. do 2 f_equal. lia.
  - rewrite length_app. cbn [length]. rewrite length_drop, length_app. simpl. lia.
Qed.

Lemma readdir_loop_run es es2 : ∀ fuel es1 buffer names,
  es = es1 ++ es2 → Forall dirent_ok es → length buffer = Z.to_nat FILENAME_MAX →
  (length es2 < fuel)%nat →
  readdir_loop fuel (stream es es1 es2) buffer names = Ok (names ++ (de_name <$> es2)).
Proof.
  induction es2 as [|e es2 IH]; intros [|fuel] es1 buffer names E Hok Hbuf Hf;
    simpl in Hf; try lia; cbn [readdir_loop].
  - unfold mbind, result_bind, mret, result_ret. simpl. by rewrite app_nil_r.
  - destruct (readdir_step es es1 e es2 buffer E Hok Hbuf) as (rest & Hr & Hlen).
    rewrite Hr. unfold mbind at 1, result_bind at 1. cbn [Z.eqb MTL_SUCCESS MTL_COMPLETE].
    rewrite c_string_name by apply (entry_ok es Hok es1 e es2 E).
    rewrite (IH fuel (es1 ++ [e])) by (done || lia || by rewrite <-app_assoc).
    by rewrite fmap_cons, <-app_assoc.
Qed.

Lemma opendir_run w cs d ino es :
  walk (committed w) cs (Found d) → Forall name_ok cs → dir_at (committed w) d ino es → es ≠ [] →
  mtl_opendir (abs_path cs) w = Ok ((MTL_SUCCESS, stream es [] es), w).
Proof.
  intros Hw Hcs Hd Hne.
  destruct (resolve_run _ cs _ (uninit "mtl_opendir.inode_id") Hw Hcs) as (id & Hr & Hi).
  rewrite (Hi d eq_refl) in Hr.
  unfold mtl_opendir. run_step (rdonly_run w). rewrite (in_txn_bind _ _ _ _ _ _ Hr).
  pose proof (load_inode_run (committed w) d) as Hload. rewrite (da_get _ _ _ _ Hd) in Hload.
  unfold InodeDb.mtl_load_directory. rewrite (in_txn_bind _ _ _ _ _ _ Hload).
  unfold c_deref. rewrite (bind_run _ _ _ _ _ (ret_run _ w)).
  rewrite (da_len _ _ _ _ Hd), read_bytes_all. rewrite (bind_run _ _ _ _ _ (lift_run _ w)).
  unfold stream. by destruct es.
Qed.

(** Listing a directory returns the names of its entries, all of them and
    in the order they are stored, and changes nothing. *)
Theorem readdir_lists_entries w cs d ino es names :
  walk (committed w) cs (Found d) → Forall name_ok cs → dir_at (committed w) d ino es → es ≠ [] →
  fs_readdir (abs_path cs) names w = Ok ((0, names ++ (de_name <$> es)), w).
Proof.
  intros Hw Hcs Hd Hne. unfold fs_readdir.
  run_step (opendir_run w cs d ino es Hw Hcs Hd Hne). cbn [negb Z.eqb MTL_SUCCESS].
  rewrite (readdir_loop_run es es _ [] _ names).
  - done.
  - done.
  - apply Hd.
  - by rewrite length_fmap, length_seq.
  - pose proof (length_dir_bytes_ge es (da_ok _ _ _ _ Hd)). simpl. lia.
Qed.

(** The attributes of a path are those of the inode the path leads to,
    with the length rounded up to units of 512 bytes for [st_blocks]; a path
    that leads nowhere answers the negated code of the resolution. *)
Theorem getattr_refines w cs o stbuf :
  walk (committed w) cs o → Forall name_ok cs →
  (∀ id, o = Found id → is_inode (committed w) id) →
  match o with
  | Failed code => fs_getattr (abs_path cs) stbuf w = Ok ((- code, zero_stat), w)
  | Found id => ∃ ino data, mdb_get (tx_inodes (committed w)) id = Some (ino, data) ∧
      (0 ≤ i_length ino → ∃ s, fs_getattr (abs_path cs) stbuf w = Ok ((0, s), w) ∧
        st_mode s = i_mode ino ∧ st_size s = i_length ino ∧ st_uid s = i_user ino ∧
        st_gid s = i_group ino ∧
        512 * (st_blocks s - 1) < i_length ino ≤ 512 * st_blocks s)
  end.
Proof.
  intros Hw Hcs Hin.
  destruct (resolve_run _ cs o (uninit "mtl_get_inode.inode_id") Hw Hcs) as (id & Hr & Hi).
  assert (abs_path cs ≠ []) as Hne by (destruct cs as [|c cs]; done).
  unfold fs_getattr. rewrite decide_False by done. unfold mtl_get_inode.
  destruct o as [i|code].
  - rewrite (Hi i eq_refl) in Hr. destruct (Hin i eq_refl) as [[ino data] Hg].
    exists ino, data. split; [done|]. intros Hlen. exists (stat_of_inode ino).
    pose proof (load_inode_run (committed w) i) as Hload. rewrite Hg in Hload.
    split; [|do 4 (split; [done|])].
    + rewrite (bind_run _ _ w (MTL_SUCCESS, Some ino) w); [done|].
      run_step (rdonly_run w). rewrite (in_txn_bind _ _ _ _ _ _ Hr).
      cbn [negb Z.eqb MTL_SUCCESS outcome_code].
      by rewrite (in_txn_bind _ _ _ _ _ _ Hload).
    + cbn [st_blocks stat_of_inode].
      pose proof (Z.div_mod (i_length ino) 512 ltac:(lia)).
      pose proof (Z.mod_pos_bound (i_length ino) 512 ltac:(lia)).
      destruct (Z.ltb_spec 0 (i_length ino mod 512)); lia.
  - pose proof (walk_code _ _ _ Hw) as Hcode.
    assert (negb (code =? MTL_SUCCESS) = true) as Hb by by rewrite (proj2 (Z.eqb_neq _ _)).
    rewrite (bind_run _ _ w (code, None) w); [by rewrite Hb|].
    run_step (rdonly_run w). rewrite (in_txn_bind _ _ _ _ _ _ Hr). cbn [outcome_code].
    by rewrite Hb.
Qed.
End Listing.

(** ** Dispatch *)

Section Dispatch.
Import CombinedFuse.
Context {W : Type}.
Abbreviation handlers := (list (cstr * fuse_handler W)).
Implicit Types (hs : handlers) (path prefix : cstr).

Lemma starts_with_iff prefix path : starts_with prefix path = true ↔ ∃ rest, path = prefix ++ rest.
Proof.
  revert path. induction prefix as [|c prefix IH]; intros path; cbn [starts_with].
  - split; [by exists path|done].
  - destruct path as [|c' path]; cbn [starts_with].
    + split; [done|]. by intros [? ?].
    + rewrite andb_true_iff, Z.eqb_eq, IH. split.
      * intros (-> & rest & ->). by exists rest.
      * intros [rest [= -> ->]]. split; [done|]. by exists rest.
Qed.

(** A path that starts with both prefixes: one of them starts with the other. *)
Lemma prefixes_comparable p1 p2 path :
  starts_with p1 path = true → starts_with p2 path = true →
  starts_with p1 p2 = true ∨ starts_with p2 p1 = true.
Proof.
  revert p2 path. induction p1 as [|c p1 IH]; intros [|c2 p2] [|c3 path]; cbn [starts_with];
    try (by left); try (by right); try done.
  intros [E1 H1]%andb_true_iff [E2 H2]%andb_true_iff. apply Z.eqb_eq in E1, E2. subst.
  rewrite Z.eqb_refl. cbn [andb]. by apply (IH p2 path).
Qed.

Lemma longer_not_before p1 p2 :
  starts_with p2 p1 = true → mem_lt p1 p2 → False.
Proof.
  rewrite starts_with_iff. intros [rest ->]. unfold mem_lt.
  induction p2 as [|c p2 IH]; cbn [app memcmp]; [by destruct rest|].
  rewrite Z.compare_refl. apply IH.
Qed.

(** The map keeps its keys in the order of [std::less<std::string>]. *)
Definition key_before (e1 e2 : cstr * fuse_handler W) : Prop := mem_lt (fst e1) (fst e2).

Fixpoint ordered hs : Prop :=
  match hs with [] => True | e :: hs' => Forall (key_before e) hs' ∧ ordered hs' end.

Lemma addHandler_elem hs prefix h e :
  e ∈ addHandler hs prefix h → e = (prefix, h) ∨ e ∈ hs.
Proof.
  induction hs as [|[p h'] hs IH]; cbn [addHandler].
  - rewrite list_elem_of_singleton. by left.
  - destruct (memcmp prefix p).
    + by right.
    + rewrite elem_of_cons. tauto.
    + rewrite !elem_of_cons. intros [->|[->|?]%IH]; auto.
Qed.

Lemma addHandler_ordered hs prefix h : ordered hs → ordered (addHandler hs prefix h).
Proof.
  induction hs as [|[p h'] hs IH]; cbn [addHandler ordered]; [by repeat constructor|].
  intros [Hall Hord]. destruct (memcmp prefix p) eqn:E; cbn [ordered].
  - done.
  - assert (mem_lt prefix p) as Hlt by (unfold mem_lt; by rewrite E).
    split; [|done]. constructor; [done|]. eapply Forall_impl; [done|].
    intros e He. unfold key_before in *. simpl in *. by eapply mem_lt_trans.
  - assert (mem_lt p prefix) as Hlt by (unfold mem_lt; by rewrite memcmp_antisym, E).
    split; [|by apply IH]. apply Forall_forall. intros e [->|He]%addHandler_elem; [done|].
    by apply (proj1 (Forall_forall _ _) Hall).
Qed.

(** The handlers registered one after the other. *)
Definition register (l : list (cstr * fuse_handler W)) : handlers :=
  foldl (λ hs '(prefix, h), addHandler hs prefix h) [] l.

Lemma register_ordered l : ordered (register l).
Proof.
  unfold register. assert (ordered ([] : handlers)) as Hord by done. revert Hord.
  generalize ([] : handlers). induction l as [|[p h] l IH]; intros hs Hord; [done|].
  apply IH. by apply addHandler_ordered.
Qed.

Lemma resolve_first hs path prefix h :
  ordered hs → resolveHandler hs path = Some (prefix, h) →
  starts_with prefix path = true ∧
  (∀ A (none : A) call, dispatch hs path none call = call h (drop (length prefix) path)) ∧
  ∀ e, e ∈ hs → starts_with (fst e) path = true → starts_with prefix (fst e) = true.
Proof.
  induction hs as [|[p h'] hs IH]; cbn [resolveHandler ordered]; [done|].
  intros [Hall Hord]. destruct (starts_with p path) eqn:Hp; cbn [negb].
  - intros [= -> ->]. split; [done|]. split; [intros; cbn [dispatch]; by rewrite Hp|].
    intros e [->|He]%elem_of_cons Hpath; simpl.
    + apply starts_with_iff. exists []. by rewrite app_nil_r.
    + destruct (prefixes_comparable prefix (fst e) path Hp Hpath) as [?|Hs]; [done|].
      exfalso. eapply longer_not_before; [exact Hs|].
      by apply (proj1 (Forall_forall _ _) Hall e).
  - intros Hr. destruct (IH Hord Hr) as (H1 & H2 & H3). split; [done|]. split.
    + intros. cbn [dispatch]. rewrite Hp. apply H2.
    + intros e [->|He]%elem_of_cons Hpath; simpl in *; [congruence|by apply H3].
Qed.

(** Whatever the order in which the handlers are added, a call is
    dispatched to the handler with the shortest of the prefixes the path
    starts with, and gets the rest of the path: every other prefix that fits
    is an extension of the one that is chosen. *)
Theorem dispatch_shortest_prefix (l : list (cstr * fuse_handler W)) path prefix h :
  resolveHandler (register l) path = Some (prefix, h) →
  (∃ rest, path = prefix ++ rest ∧
    ∀ A (none : A) call, dispatch (register l) path none call = call h rest) ∧
  ∀ p h', (p, h') ∈ register l → starts_with p path = true → starts_with prefix p = true.
Proof.
  intros Hr. destruct (resolve_first _ _ _ _ (register_ordered l) Hr) as (Hp & Hd & Hs).
  split.
  - apply starts_with_iff in Hp as [rest ->]. exists rest. split; [done|].
    intros A none call. by rewrite Hd, drop_app_length.
  - intros p h' He Hpath. by apply (Hs (p, h')).
Qed.

(** A rename whose target lies outside the handler of its source is
    refused with ENOSYS and calls no handler; inside one handler it is the
    handler's rename on both remainders. *)
Theorem rename_stays_in_handler (l : list (cstr * fuse_handler W)) from_path to_path prefix h :
  resolveHandler (register l) from_path = Some (prefix, h) →
  combined_rename (register l) from_path to_path
  = if starts_with prefix to_path
    then fuse_rename h (drop (length prefix) from_path) (drop (length prefix) to_path)
    else mret (- ENOSYS).
Proof.
  unfold combined_rename. generalize (register l).
  induction l0 as [|[p h'] hs IH]; cbn [resolveHandler rename_loop]; [done|].
  destruct (starts_with p from_path); cbn [negb]; [|done].
  intros [= -> ->]. by destruct (starts_with prefix to_path).
Qed.
End Dispatch.

Section Prefix.
Context `{LmdbLaws} `{Machine} {B : Type} (storage : mtl_storage_backend B).
Import CombinedFuse.

(** A prefix is compared without the separator after it: a path like
    "/filesX", which is no entry of the mount point, goes to the handler of
    "/files" with the relative path "X", and asking for its attributes
    recurses without end. *)
Theorem prefix_without_separator (w : world (B := B)) (name : cstr) (stbuf : stat) :
  name ≠ [] → Forall (λ b, b ≠ slash) name →
  combined_getattr [(str "/files", FilesystemFuse.FilesystemFuseHandler storage)]
    (str "/files" ++ name) stbuf w = Fault OutOfFuel.
Proof.
  intros Hne Hname. unfold combined_getattr. rewrite decide_False by by destruct name.
  cbn [dispatch].
  assert (starts_with (str "/files") (str "/files" ++ name) = true) as ->
    by (apply starts_with_iff; by exists name).
  cbn [negb]. rewrite drop_app_length.
  cbn [fuse_getattr FilesystemFuse.FilesystemFuseHandler]. unfold FilesystemFuse.fs_getattr.
  rewrite decide_False by done. apply bind_fault. unfold mtl_get_inode.
  run_step (rdonly_run w). apply bind_fault. unfold in_txn, m_lift.
  by rewrite resolve_no_slash.
Qed.
End Prefix.

(** ** Instances *)

#[local] Existing Instance Ns.Demo.machine.

Definition no_handler : fuse_handler unit := OperatorFuse.OperatorFuseHandler [] [].
Definition other_handler : fuse_handler unit := SocketFuse.SocketFuseHandler [].
Definition two_handlers : list (cstr * fuse_handler unit) :=
  [(str "/files/tmp", other_handler); (str "/files", no_handler)].

Lemma readdir_lists_entries_witness :
  FilesystemFuse.fs_readdir (str "/") [] Ns.Demo.new_volume
  = Ok ((0, [str "."; str ".."]), Ns.Demo.new_volume).
Proof.
  apply (readdir_lists_entries Ns.Demo.new_volume [] 0 (root_inode 7) Ns.Demo.root_entries []
    (walk_root _) (List.Forall_nil _) Ns.Demo.root_at). discriminate.
Defined.

Lemma getattr_refines_witness :
  ∃ s, FilesystemFuse.fs_getattr (str "/") zero_stat Ns.Demo.new_volume
       = Ok ((0, s), Ns.Demo.new_volume) ∧ st_size s = 35 ∧ st_mode s = 16877.
Proof.
  destruct (getattr_refines Ns.Demo.new_volume [] (Found 0) zero_stat (walk_root _)
    (List.Forall_nil _)) as (ino & data & Hg & Hs).
  - intros id [= <-]. eexists. apply (da_get _ _ _ _ Ns.Demo.root_at).
  - rewrite (da_get _ _ _ _ Ns.Demo.root_at) in Hg. injection Hg as <- _.
    destruct Hs as (s & Hr & Hm & Hsz & _); [discriminate|].
    exists s. rewrite Hm, Hsz. done.
Defined.

Lemma dispatch_shortest_prefix_witness :
  ∃ rest, str "/files/tmp/x" = str "/files" ++ rest ∧
    ∀ A (none : A) call, CombinedFuse.dispatch (register two_handlers) (str "/files/tmp/x") none call
                         = call no_handler rest.
Proof.
  apply (dispatch_shortest_prefix two_handlers (str "/files/tmp/x") (str "/files") no_handler).
  reflexivity.
Defined.

Lemma rename_stays_in_handler_witness :
  CombinedFuse.combined_rename (register two_handlers) (str "/files/a") (str "/operators/b")
  = mret (- ENOSYS).
Proof.
  apply (rename_stays_in_handler two_handlers (str "/files/a") (str "/operators/b")
    (str "/files") no_handler). reflexivity.
Defined.

Lemma prefix_without_separator_witness :
  CombinedFuse.combined_getattr
    [(str "/files", FilesystemFuse.FilesystemFuseHandler Ns.Demo.storage)]
    (str "/filesX") zero_stat Ns.Demo.new_volume = Fault OutOfFuel.
Proof.
  apply (prefix_without_separator Ns.Demo.storage Ns.Demo.new_volume (str "X") zero_stat).
  - discriminate.
  - repeat constructor. discriminate.
Defined.
End FuseFacts.
