(* ===== verification/Endian.v ===== *)
(** * Memory lines and byte order (mtl_endian.h)

    The FPGA reads host memory in lines ([snap_membus_t]); a line is the list
    of its bytes, byte 0 in the lowest bits. The accessors name a byte offset in
    the line. The host writes its job structures with [htobe64]/[htobe32]. *)
From S2P Require Import Prelude.

Module Endian.

(** [(uint8_t)(value >> 8 * i)]. *)
Definition vbyte (value : Z) (i : Z) : Z := Z.shiftr value (8 * i) mod 256.

(** [busline(hi, lo) = pattern]: bytes stored at [lowest_byte]. *)
Definition put_bytes (busline : list Z) (lowest_byte : nat) (pattern : list Z) : list Z :=
  take lowest_byte busline ++ pattern ++ drop (lowest_byte + length pattern) busline.

(** [pattern = busline(hi, lo)]: the [n] bytes at [lowest_byte]. *)
Definition get_bytes (busline : list Z) (lowest_byte n : nat) : list Z :=
  take n (drop lowest_byte busline).

(** Byte [i] of a pattern, moved to bit [s]. *)
Definition at_bit (pattern : list Z) (i : nat) (s : Z) : Z :=
  Z.shiftl (nth i pattern 0) s.

Definition mtl_set64le (busline : list Z) (lowest_byte : nat) (value : Z) : list Z :=
  put_bytes busline lowest_byte
    [vbyte value 0; vbyte value 1; vbyte value 2; vbyte value 3;
     vbyte value 4; vbyte value 5; vbyte value 6; vbyte value 7].

Definition mtl_set64be (busline : list Z) (lowest_byte : nat) (value : Z) : list Z :=
  put_bytes busline lowest_byte
    [vbyte value 7; vbyte value 6; vbyte value 5; vbyte value 4;
     vbyte value 3; vbyte value 2; vbyte value 1; vbyte value 0].

Definition mtl_get64le (busline : list Z) (lowest_byte : nat) : Z :=
  let pattern := get_bytes busline lowest_byte 8 in
  at_bit pattern 0 0 + at_bit pattern 1 8 + at_bit pattern 2 16 + at_bit pattern 3 24 +
  at_bit pattern 4 32 + at_bit pattern 5 40 + at_bit pattern 6 48 + at_bit pattern 7 56.

Definition mtl_get64be (busline : list Z) (lowest_byte : nat) : Z :=
  let pattern := get_bytes busline lowest_byte 8 in
  at_bit pattern 0 56 + at_bit pattern 1 48 + at_bit pattern 2 40 + at_bit pattern 3 32 +
  at_bit pattern 4 24 + at_bit pattern 5 16 + at_bit pattern 6 8 + at_bit pattern 7 0.

Definition mtl_set32le (busline : list Z) (lowest_byte : nat) (value : Z) : list Z :=
  put_bytes busline lowest_byte
    [vbyte value 0; vbyte value 1; vbyte value 2; vbyte value 3].

Definition mtl_set32be (busline : list Z) (lowest_byte : nat) (value : Z) : list Z :=
  put_bytes busline lowest_byte
    [vbyte value 3; vbyte value 2; vbyte value 1; vbyte value 0].

Definition mtl_get32le (busline : list Z) (lowest_byte : nat) : Z :=
  let pattern := get_bytes busline lowest_byte 4 in
  at_bit pattern 0 0 + at_bit pattern 1 8 + at_bit pattern 2 16 + at_bit pattern 3 24.

Definition mtl_get32be (busline : list Z) (lowest_byte : nat) : Z :=
  let pattern := get_bytes busline lowest_byte 4 in
  at_bit pattern 0 24 + at_bit pattern 1 16 + at_bit pattern 2 8 + at_bit pattern 3 0.

Definition mtl_set16le (busline : list Z) (lowest_byte : nat) (value : Z) : list Z :=
  put_bytes busline lowest_byte [vbyte value 0; vbyte value 1].

Definition mtl_set16be (busline : list Z) (lowest_byte : nat) (value : Z) : list Z :=
  put_bytes busline lowest_byte [vbyte value 1; vbyte value 0].

Definition mtl_get16le (busline : list Z) (lowest_byte : nat) : Z :=
  let pattern := get_bytes busline lowest_byte 2 in at_bit pattern 0 0 + at_bit pattern 1 8.

Definition mtl_get16be (busline : list Z) (lowest_byte : nat) : Z :=
  let pattern := get_bytes busline lowest_byte 2 in at_bit pattern 0 8 + at_bit pattern 1 0.

Definition mtl_set8 (busline : list Z) (lowest_byte : nat) (value : Z) : list Z :=
  put_bytes busline lowest_byte [vbyte value 0].

Definition mtl_get8 (busline : list Z) (lowest_byte : nat) : Z :=
  at_bit (get_bytes busline lowest_byte 1) 0 0.

(** The comma concatenates, the first operand in the highest bits. *)
Definition swap_membus_endianness (value : list Z) : list Z :=
  reverse (mtl_get8 value <$> seq 0 64).

(** [mtl_get64] and the like are the big-endian ones. *)
Definition mtl_get64 := mtl_get64be.
Definition mtl_set64 := mtl_set64be.
Definition mtl_get32 := mtl_get32be.
Definition mtl_set32 := mtl_set32be.

(** The bytes in memory of [htobe64(x)] and [htobe32(x)] on the host. *)
Definition be_bytes (n : nat) (x : Z) : list Z := reverse (le_bytes n x).

(** ** Lemmas *)

Lemma get_put_same busline k pattern :
  (k ≤ length busline)%nat →
  get_bytes (put_bytes busline k pattern) k (length pattern) = pattern.
Proof.
  intros Hk. unfold get_bytes, put_bytes.
  rewrite drop_app_length' by (rewrite length_take; lia).
  by rewrite take_app_length.
Qed.

Lemma put_get_other busline k k' n pattern :
  (k + length pattern ≤ length busline)%nat →
  (k' + n ≤ k ∨ k + length pattern ≤ k')%nat →
  get_bytes (put_bytes busline k pattern) k' n = get_bytes busline k' n.
Proof.
  intros Hk Hd. unfold get_bytes, put_bytes. apply list_eq. intros i.
  destruct (decide (i < n)%nat) as [Hi|Hi].
  - rewrite !lookup_take_lt, !lookup_drop by done. destruct Hd as [Hd|Hd].
    + rewrite lookup_app_l by (rewrite length_take; lia).
      by rewrite lookup_take_lt by lia.
    + rewrite lookup_app_r by (rewrite length_take; lia).
      rewrite length_take_le by lia. rewrite lookup_app_r by lia.
      rewrite lookup_drop. f_equal. lia.
  - by rewrite !lookup_take_ge by lia.
Qed.

Lemma vbyte_divmod v i : 0 ≤ i → vbyte v i = (v / 2 ^ (8 * i)) mod 256.
Proof. intros Hi. unfold vbyte. by rewrite Z.shiftr_div_pow2 by lia. Qed.

Lemma le_bytes_8 x :
  le_bytes 8 x = [vbyte x 0; vbyte x 1; vbyte x 2; vbyte x 3;
                  vbyte x 4; vbyte x 5; vbyte x 6; vbyte x 7].
Proof.
  cbn [le_bytes]. unfold vbyte. rewrite !Z.shiftr_div_pow2 by lia.
  rewrite !Z.div_div by lia.
  repeat f_equal; try reflexivity. by rewrite Z.div_1_r.
Qed.

Lemma le_bytes_4 x : le_bytes 4 x = [vbyte x 0; vbyte x 1; vbyte x 2; vbyte x 3].
Proof.
  cbn [le_bytes]. unfold vbyte. rewrite !Z.shiftr_div_pow2 by lia.
  rewrite !Z.div_div by lia. repeat f_equal; try reflexivity. by rewrite Z.div_1_r.
Qed.

(** What an accessor reads is the value of the bytes at the offset. *)
Lemma get64be_bytes busline k :
  length (get_bytes busline k 8) = 8%nat →
  mtl_get64 busline k = le_val (reverse (get_bytes busline k 8)).
Proof.
  unfold mtl_get64, mtl_get64be. generalize (get_bytes busline k 8). intros l Hl.
  do 9 (destruct l as [|? l]; simpl in Hl; try lia).
  unfold at_bit. cbn [nth]. rewrite !Z.shiftl_mul_pow2 by lia.
  rewrite !reverse_cons. cbn [app reverse rev_append le_val]. lia.
Qed.

Lemma get32be_bytes busline k :
  length (get_bytes busline k 4) = 4%nat →
  mtl_get32 busline k = le_val (reverse (get_bytes busline k 4)).
Proof.
  unfold mtl_get32, mtl_get32be. generalize (get_bytes busline k 4). intros l Hl.
  do 5 (destruct l as [|? l]; simpl in Hl; try lia).
  unfold at_bit. cbn [nth]. rewrite !Z.shiftl_mul_pow2 by lia.
  rewrite !reverse_cons. cbn [app reverse rev_append le_val]. lia.
Qed.

Lemma length_be_bytes n x : length (be_bytes n x) = n.
Proof. unfold be_bytes. by rewrite length_reverse, length_le_bytes. Qed.

(** The host's [htobe64] and the FPGA's [mtl_get64] agree. *)
Lemma get64_be_bytes busline k x :
  0 ≤ x < 2 ^ 64 → get_bytes busline k 8 = be_bytes 8 x → mtl_get64 busline k = x.
Proof.
  intros Hx E. rewrite get64be_bytes by (by rewrite E, length_be_bytes).
  rewrite E. unfold be_bytes. rewrite reverse_involutive.
  by apply le_val_bytes_small.
Qed.

Lemma get32_be_bytes busline k x :
  0 ≤ x < 2 ^ 32 → get_bytes busline k 4 = be_bytes 4 x → mtl_get32 busline k = x.
Proof.
  intros Hx E. rewrite get32be_bytes by (by rewrite E, length_be_bytes).
  rewrite E. unfold be_bytes. rewrite reverse_involutive.
  by apply le_val_bytes_small.
Qed.

Lemma set64be_pattern busline k x :
  mtl_set64 busline k x = put_bytes busline k (be_bytes 8 x).
Proof. unfold mtl_set64, mtl_set64be, be_bytes. by rewrite le_bytes_8. Qed.

Lemma set32be_pattern busline k x :
  mtl_set32 busline k x = put_bytes busline k (be_bytes 4 x).
Proof. unfold mtl_set32, mtl_set32be, be_bytes. by rewrite le_bytes_4. Qed.
(** ** The two byte orders *)

(** A line around the [n] bytes at offset [k]. *)
Lemma split_line (line : list Z) k n : (k + n ≤ length line)%nat →
  ∃ a b c, line = a ++ b ++ c ∧ length a = k ∧ length b = n.
Proof.
  intros Hk. exists (take k line), (take n (drop k line)), (drop n (drop k line)).
  rewrite !take_drop. rewrite !length_take, length_drop. split; [done|lia].
Qed.

Lemma get_bytes_mid a b c : get_bytes (a ++ b ++ c) (length a) (length b) = b.
Proof. unfold get_bytes. by rewrite drop_app_length, take_app_length. Qed.

Lemma put_bytes_mid a b c b' : length b' = length b →
  put_bytes (a ++ b ++ c) (length a) b' = a ++ b' ++ c.
Proof.
  intros E. unfold put_bytes. rewrite E, take_app_length. do 2 f_equal.
  by rewrite app_assoc, drop_app_length' by by rewrite length_app.
Qed.

Lemma get8_byte line k b : line !! k = Some b → mtl_get8 line k = b.
Proof.
  intros E. unfold mtl_get8, get_bytes. rewrite (drop_S line b) by done. apply Z.shiftl_0_r.
Qed.

Lemma swap_reverses line : length line = 64%nat → swap_membus_endianness line = reverse line.
Proof.
  intros Hl. unfold swap_membus_endianness. f_equal. apply list_eq_same_length with (n := 64%nat).
  - done.
  - by rewrite length_fmap, length_seq.
  - intros i x y Hi Hx Hy. rewrite list_lookup_fmap, lookup_seq_lt in Hx by done.
    injection Hx as <-. by apply get8_byte.
Qed.

Section Orders.
Context (line : list Z) (k n : nat) (Hline : length line = 64%nat) (Hk : (k + n ≤ 64)%nat).

Lemma get_swapped :
  get_bytes (swap_membus_endianness line) (64 - n - k) n = reverse (get_bytes line k n).
Proof.
  rewrite swap_reverses by done.
  destruct (split_line line k n) as (a & b & c & E & <- & <-); [lia|].
  rewrite E, get_bytes_mid. rewrite E, !length_app in Hline. rewrite !reverse_app, <-app_assoc.
  replace (64 - length b - length a)%nat with (length (reverse c)) by (rewrite length_reverse; lia).
  rewrite <-(length_reverse b). apply get_bytes_mid.
Qed.

Lemma put_swapped pattern : length pattern = n →
  swap_membus_endianness (put_bytes (swap_membus_endianness line) (64 - n - k) (reverse pattern))
  = put_bytes line k pattern.
Proof.
  intros Hp. rewrite (swap_reverses line) by done.
  destruct (split_line line k n) as (a & b & c & E & <- & <-); [lia|].
  rewrite E, put_bytes_mid by done. rewrite E, !length_app in Hline. rewrite !reverse_app, <-app_assoc.
  replace (64 - length b - length a)%nat with (length (reverse c)) by (rewrite length_reverse; lia).
  rewrite put_bytes_mid by (by rewrite !length_reverse).
  rewrite swap_reverses by (rewrite !length_app, !length_reverse, Hp; lia).
  by rewrite !reverse_app, !reverse_involutive, <-app_assoc.
Qed.
End Orders.

(** The accessors of the two orders differ only in the order of the bytes. *)
Lemma get_orders line line' k k' :
  (length (get_bytes line k 8) = 8%nat → get_bytes line' k' 8 = reverse (get_bytes line k 8) →
   mtl_get64le line' k' = mtl_get64be line k) ∧
  (length (get_bytes line k 4) = 4%nat → get_bytes line' k' 4 = reverse (get_bytes line k 4) →
   mtl_get32le line' k' = mtl_get32be line k) ∧
  (length (get_bytes line k 2) = 2%nat → get_bytes line' k' 2 = reverse (get_bytes line k 2) →
   mtl_get16le line' k' = mtl_get16be line k).
Proof.
  unfold mtl_get64le, mtl_get64be, mtl_get32le, mtl_get32be, mtl_get16le, mtl_get16be.
  repeat split; intros Hl ->.
  - destruct (get_bytes line k 8) as [|? l]; [done|].
    do 8 (destruct l as [|? l]; try done). unfold at_bit. cbn. lia.
  - destruct (get_bytes line k 4) as [|? l]; [done|].
    do 4 (destruct l as [|? l]; try done). unfold at_bit. cbn. lia.
  - destruct (get_bytes line k 2) as [|? l]; [done|].
    do 2 (destruct l as [|? l]; try done). unfold at_bit. cbn. lia.
Qed.

Lemma length_get_bytes line k n : (k + n ≤ length line)%nat → length (get_bytes line k n) = n.
Proof. intros Hk. unfold get_bytes. rewrite length_take, length_drop. lia. Qed.

(** C40: a big-endian accessor does what the little-endian one of the same
    width does to the line with its bytes swapped, at the mirrored offset:
    reading, and writing with the line swapped back. *)
Theorem byte_orders_agree line k v :
  length line = 64%nat →
  ((k + 8 ≤ 64)%nat →
    mtl_get64be line k = mtl_get64le (swap_membus_endianness line) (56 - k) ∧
    mtl_set64be line k v
    = swap_membus_endianness (mtl_set64le (swap_membus_endianness line) (56 - k) v)) ∧
  ((k + 4 ≤ 64)%nat →
    mtl_get32be line k = mtl_get32le (swap_membus_endianness line) (60 - k) ∧
    mtl_set32be line k v
    = swap_membus_endianness (mtl_set32le (swap_membus_endianness line) (60 - k) v)) ∧
  ((k + 2 ≤ 64)%nat →
    mtl_get16be line k = mtl_get16le (swap_membus_endianness line) (62 - k) ∧
    mtl_set16be line k v
    = swap_membus_endianness (mtl_set16le (swap_membus_endianness line) (62 - k) v)).
Proof.
  intros Hl.
  assert (∀ n m, (k + n ≤ 64)%nat → m = (64 - n - k)%nat →
    length (get_bytes line k n) = n ∧
    get_bytes (swap_membus_endianness line) m n = reverse (get_bytes line k n) ∧
    ∀ pattern, length pattern = n → put_bytes line k pattern
      = swap_membus_endianness (put_bytes (swap_membus_endianness line) m (reverse pattern))) as Hn.
  { intros n m Hk ->. split; [apply length_get_bytes; lia|]. split; [by apply get_swapped|].
    intros pattern Hp. symmetry. by apply put_swapped. }
  split; [|split]; intros Hk.
  - destruct (Hn 8%nat (56 - k)%nat) as (? & ? & Hset); [lia..|]. split; [symmetry; by apply get_orders|].
    by apply (Hset [_; _; _; _; _; _; _; _]).
  - destruct (Hn 4%nat (60 - k)%nat) as (? & ? & Hset); [lia..|]. split; [symmetry; by apply get_orders|].
    by apply (Hset [_; _; _; _]).
  - destruct (Hn 2%nat (62 - k)%nat) as (? & ? & Hset); [lia..|]. split; [symmetry; by apply get_orders|].
    by apply (Hset [_; _]).
Qed.

Lemma byte_orders_agree_witness :
  let line := Z.of_nat <$> seq 0 64 in
  mtl_get64be line 8 = mtl_get64le (swap_membus_endianness line) 48 ∧
  mtl_set64be line 8 258 = swap_membus_endianness (mtl_set64le (swap_membus_endianness line) 48 258).
Proof.
  intros line. apply (byte_orders_agree line 8 258); [done|lia].
Defined.
End Endian.
