(* ===== verification/Extmap.v ===== *)
(** * Extent maps of the FPGA (mtl_extmap.cpp)

    The list of a file's extents as the FPGA keeps it, loaded from host memory
    by a [Map] job: block numbers of the file are translated to block numbers
    of the storage. Memory is a function from byte addresses to bytes. *)
From S2P Require Import Prelude Endian.

(** What the SNAP headers fix: the width of a memory line, which holds at
    least one extent, and the return codes of an action. *)
Class MemBus := {
  ADDR_RIGHT_SHIFT : nat;
  bus_wide_enough : (4 ≤ ADDR_RIGHT_SHIFT)%nat;
  SNAP_RETC_SUCCESS : Z;
  SNAP_RETC_FAILURE : Z;
}.

Definition MaxExtentsPerFile : Z := 512.
Definition StorageBlockSizeD : Z := 18.
Definition StorageBlockSize : Z := Z.shiftl 1 StorageBlockSizeD.
Definition PagefileSize : Z := 128 * StorageBlockSize.

Module Extmap.
Section Extmap.
Context `{MemBus}.

(** [sizeof(snap_membus_t)], [MFB_ADDRESS], [MFB_INCREMENT], [mem[i]]. *)
Definition bus_bytes : nat := (2 ^ ADDR_RIGHT_SHIFT)%nat.
Definition MFB_ADDRESS (a : Z) : Z := Z.shiftr a (Z.of_nat ADDR_RIGHT_SHIFT).
Definition MFB_INCREMENT : Z := Z.shiftl 1 (Z.of_nat ADDR_RIGHT_SHIFT).

Definition mem_line (mem : Z → Z) (i : Z) : list Z :=
  (λ j, mem (i * Z.of_nat bus_bytes + Z.of_nat j)) <$> seq 0 bus_bytes.

(** [line >>= 8 * n]. *)
Definition shift_line (line : list Z) (n : nat) : list Z :=
  drop n line ++ repeat 0 n.

Definition MTL_MASK (hi lo : Z) : Z := Z.shiftl 1 (hi + 1) - Z.shiftl 1 lo.
Definition MTL_EXTENTS_PER_LINE_W : Z := Z.of_nat ADDR_RIGHT_SHIFT - 4.

Record mtl_extmap_t := ExtmapT {
  current_extent : Z;       (* 9 bits *)
  current_pblock : Z;
  extents_begin : list Z;
  extents_count : list Z;
  extents_nextlblock : list Z;
}.

(** The loop of [mtl_extmap_load], from extent [i_extent] on: the contents of
    the three arrays. *)
Fixpoint load_loop (n : nat) (mem : Z → Z) (i_extent line_address : Z)
    (line : list Z) (last_block : Z) : list (Z * Z * Z) :=
  match n with
  | O => []
  | S n' =>
      let o_line_extent :=
        Z.land i_extent (MTL_MASK MTL_EXTENTS_PER_LINE_W 0) mod 2 ^ MTL_EXTENTS_PER_LINE_W in
      let line' := if o_line_extent =? 0 then mem_line mem (MFB_ADDRESS line_address)
                   else line in
      let line_address := if o_line_extent =? 0 then line_address +ᵤ MFB_INCREMENT
                          else line_address in
      let begin := Endian.mtl_get64 line' 0 in
      let count := Endian.mtl_get64 line' 8 in
      let last_block := last_block +ᵤ count in
      (begin, count, last_block)
        :: load_loop n' mem (i_extent + 1) line_address (shift_line line' 16) last_block
  end.

Definition mtl_extmap_load (extent_address : Z) (mem : Z → Z) : mtl_extmap_t :=
  let l := load_loop (Z.to_nat MaxExtentsPerFile) mem 0 extent_address
             (repeat 0 bus_bytes) 0 in
  let begins := (λ x, x.1.1) <$> l in
  ExtmapT 0 (nth 0 begins 0) begins ((λ x, x.1.2) <$> l) ((λ x, x.2) <$> l).

Definition mtl_extmap_firstlblock (map : mtl_extmap_t) (extent : nat) : Z :=
  match extent with
  | O => 0
  | S e => nth e (extents_nextlblock map) 0
  end.

(** The loop of [mtl_extmap_seek], from extent [i] on. *)
Fixpoint seek_loop (n : nat) (map : mtl_extmap_t) (lblock : Z) (i : nat) :
    bool * mtl_extmap_t :=
  match n with
  | O => (false, map)
  | S n' =>
      let extent_begin := mtl_extmap_firstlblock map i in
      let extent_end := nth i (extents_nextlblock map) 0 in
      if (extent_begin <=? lblock) && (lblock <? extent_end) then
        let offset := lblock -ᵤ extent_begin in
        let base := nth i (extents_begin map) 0 in
        (true, ExtmapT (Z.of_nat i) (base +ᵤ offset) (extents_begin map)
                       (extents_count map) (extents_nextlblock map))
      else seek_loop n' map lblock (S i)
  end.

Definition mtl_extmap_seek (map : mtl_extmap_t) (lblock : Z) : bool * mtl_extmap_t :=
  seek_loop (Z.to_nat MaxExtentsPerFile) map lblock 0.

Definition mtl_extmap_next (map : mtl_extmap_t) : mtl_extmap_t :=
  let e := Z.to_nat (current_extent map) in
  let boffset := current_pblock map -ᵤ nth e (extents_begin map) 0 in
  if boffset <? nth e (extents_count map) 0 then
    ExtmapT (current_extent map) (current_pblock map +ᵤ 1) (extents_begin map)
            (extents_count map) (extents_nextlblock map)
  else
    let e' := wrap 9 (current_extent map + 1) in
    ExtmapT e' (nth (Z.to_nat e') (extents_begin map) 0) (extents_begin map)
            (extents_count map) (extents_nextlblock map).

Definition mtl_extmap_pblock (map : mtl_extmap_t) : Z := current_pblock map.
Definition mtl_extmap_extent (map : mtl_extmap_t) : Z := current_extent map.
End Extmap.

(** ** The meaning of a map *)

(** The block of the storage that holds block [lblock] of the file. *)
Fixpoint translate (extents : list (Z * Z)) (lblock : Z) : option (nat * Z) :=
  match extents with
  | [] => None
  | (begin, count) :: rest =>
      if lblock <? count then Some (O, begin + lblock)
      else match translate rest (lblock - count) with
           | Some (e, p) => Some (S e, p)
           | None => None
           end
  end.

Fixpoint prefix_sums (acc : Z) (counts : list Z) : list Z :=
  match counts with
  | [] => []
  | c :: rest => (acc + c) :: prefix_sums (acc + c) rest
  end.

Definition total (extents : list (Z * Z)) : Z := foldr (λ x n, x.2 + n) 0 extents.

(** The map holds these extents (and nothing but empty ones after them). *)
Record represents `{MemBus} (map : mtl_extmap_t) (extents : list (Z * Z)) : Prop :=
  Represents {
    rep_begin : extents_begin map = extents.*1;
    rep_count : extents_count map = extents.*2;
    rep_next : extents_nextlblock map = prefix_sums 0 extents.*2;
    rep_length : length extents = Z.to_nat MaxExtentsPerFile;
    rep_nonneg : Forall (λ x, 0 ≤ x.1 ∧ 0 ≤ x.2 ∧ x.1 + x.2 < 2 ^ 64) extents;
    rep_total : total extents < 2 ^ 64;
  }.

Section Proofs.
Context `{MemBus}.

Lemma nth_prefix_sums counts : ∀ acc i,
  (i < length counts)%nat →
  nth i (prefix_sums acc counts) 0 = acc + foldr Z.add 0 (take (S i) counts).
Proof.
  induction counts as [|c counts IH]; intros acc i Hi; simpl in *; [lia|].
  destruct i as [|i]; [simpl; lia|]. rewrite IH by lia. simpl. lia.
Qed.

Lemma firstlblock_run map extents i :
  represents map extents → (i < length extents)%nat →
  mtl_extmap_firstlblock map i = foldr Z.add 0 (take i extents.*2) ∧
  nth i (extents_nextlblock map) 0 = foldr Z.add 0 (take (S i) extents.*2).
Proof.
  intros [_ _ Hn _ _ _] Hi. rewrite Hn.
  rewrite nth_prefix_sums by (by rewrite length_fmap). split; [|done].
  destruct i as [|i]; [done|]. simpl mtl_extmap_firstlblock. rewrite Hn.
  rewrite nth_prefix_sums by (rewrite length_fmap; lia). done.
Qed.

(** The search of the map, from the extents [es2] after [es1]. *)
Lemma seek_loop_run map extents lblock es2 : ∀ n es1,
  represents map extents → extents = es1 ++ es2 → n = length es2 →
  foldr Z.add 0 es1.*2 ≤ lblock →
  seek_loop n map lblock (length es1)
  = match translate es2 (lblock - foldr Z.add 0 es1.*2) with
    | Some (e, p) => (true, ExtmapT (Z.of_nat (length es1 + e)) p (extents_begin map)
                              (extents_count map) (extents_nextlblock map))
    | None => (false, map)
    end.
Proof.
  induction es2 as [|[b c] es2 IH]; intros n es1 Hrep E Hn Hlb; subst n; [done|].
  destruct (firstlblock_run map extents (length es1) Hrep) as [Hfst Hend].
  { rewrite E, length_app. simpl. lia. }
  assert (take (length es1) extents.*2 = es1.*2) as Ht1.
  { rewrite E, fmap_app, take_app_length' by (by rewrite length_fmap). done. }
  assert (take (S (length es1)) extents.*2 = es1.*2 ++ [c]) as Ht2.
  { rewrite E, fmap_app. rewrite take_app_ge by (rewrite length_fmap; lia).
    rewrite length_fmap. replace (S (length es1) - length es1)%nat with 1%nat by lia. done. }
  assert (foldr Z.add 0 (es1.*2 ++ [c]) = foldr Z.add 0 es1.*2 + c) as Hsum.
  { clear. induction (es1.*2) as [|x l IH]; simpl; [lia|]. rewrite IH. lia. }
  rewrite Ht1 in Hfst. rewrite Ht2, Hsum in Hend.
  pose proof (rep_nonneg _ _ Hrep) as Hnn. pose proof (rep_total _ _ Hrep) as Htot.
  assert (0 ≤ b ∧ 0 ≤ c ∧ b + c < 2 ^ 64) as Hbc.
  { rewrite E in Hnn. apply Forall_app in Hnn as [_ [? _]%Forall_cons]. done. }
  assert (0 ≤ foldr Z.add 0 es1.*2) as Hs1.
  { rewrite E in Hnn. apply Forall_app in Hnn as [Hnn _]. clear -Hnn.
    induction Hnn as [|x l Hx _ IH]; [done|]. rewrite fmap_cons. cbn [foldr]. lia. }
  assert (foldr Z.add 0 es1.*2 + c ≤ total extents) as Hs2.
  { rewrite E in Hnn |- *. clear -Hnn. unfold total.
    induction es1 as [|x es1 IH]; cbn [app foldr] in *.
    - apply Forall_cons in Hnn as [_ Hnn].
      assert (0 ≤ foldr (λ x n, x.2 + n) 0 es2) by (induction Hnn as [|x l Hx _ IH]; [done|]; cbn [foldr]; lia).
      simpl. lia.
    - apply Forall_cons in Hnn as [_ Hnn]. specialize (IH Hnn).
      rewrite fmap_cons. cbn [foldr]. lia. }
  cbn [length seek_loop translate]. rewrite Hfst, Hend.
  rewrite (proj2 (Z.leb_le _ _)) by done. cbn [andb].
  destruct (Z.ltb_spec lblock (foldr Z.add 0 es1.*2 + c)).
  - rewrite (proj2 (Z.ltb_lt (lblock - _) c)) by lia. rewrite (rep_begin _ _ Hrep).
    rewrite E, fmap_app, app_nth2 by (rewrite length_fmap; lia).
    rewrite length_fmap, Nat.sub_diag. cbn [nth fmap list_fmap fst]. u64_norm.
    by rewrite Nat.add_0_r.
  - rewrite (proj2 (Z.ltb_ge (lblock - _) c)) by lia.
    specialize (IH (length es2) (es1 ++ [(b, c)]) Hrep).
    rewrite length_app, fmap_app in IH. simpl in IH. rewrite Hsum in IH.
    replace (length es1 + 1)%nat with (S (length es1)) in IH by lia.
    rewrite IH; [|by rewrite <-app_assoc|done|lia].
    replace (lblock - (foldr Z.add 0 es1.*2 + c))
      with (lblock - foldr Z.add 0 es1.*2 - c) by lia.
    destruct (translate es2 (lblock - foldr Z.add 0 es1.*2 - c)) as [[e p]|]; [|done].
    do 3 f_equal. lia.
Qed.

Lemma seek_run map extents lblock :
  represents map extents → 0 ≤ lblock →
  mtl_extmap_seek map lblock
  = match translate extents lblock with
    | Some (e, p) => (true, ExtmapT (Z.of_nat e) p (extents_begin map)
                              (extents_count map) (extents_nextlblock map))
    | None => (false, map)
    end.
Proof.
  intros Hrep Hlb. unfold mtl_extmap_seek.
  rewrite (seek_loop_run map extents lblock extents _ [] Hrep); try done.
  - simpl. by rewrite Z.sub_0_r.
  - by rewrite (rep_length _ _ Hrep).
Qed.

(** The position in a map: block [p] of extent [e]. *)
Definition at_block (map : mtl_extmap_t) (extents : list (Z * Z)) (e : nat) (p : Z) : Prop :=
  represents map extents ∧ current_extent map = Z.of_nat e ∧ current_pblock map = p.

Lemma next_run map extents e p b c :
  at_block map extents e p → extents !! e = Some (b, c) → b ≤ p < b + c →
  at_block (mtl_extmap_next map) extents e (p + 1).
Proof.
  intros (Hrep & He & Hp) Hlk Hin. pose proof Hrep as [Hb Hc Hn Hl Hnn Ht].
  pose proof (proj1 (Forall_lookup _ _) Hnn _ _ Hlk) as Hbc. simpl in Hbc.
  unfold mtl_extmap_next. rewrite He, Hp, Nat2Z.id, Hb, Hc.
  rewrite !(nth_lookup_Some _ _ _ b) by (by rewrite list_lookup_fmap, Hlk).
  rewrite (nth_lookup_Some extents.*2 e 0 c) by (by rewrite list_lookup_fmap, Hlk).
  u64_norm. rewrite (proj2 (Z.ltb_lt _ _)) by lia. repeat split; done || (simpl; lia).
Qed.
End Proofs.
End Extmap.
