(* ===== verification/OpMem.v ===== *)
(** * Memory transfers of the FPGA (mtl_op_mem.cpp, mtl_op_mem.hpp)

    A transfer from or to an address is cut at the block boundaries and every
    piece translated through the extent maps; the pieces become commands for
    the DataMover and the NVMe controller. An [hls::stream] between two stages
    of a dataflow region is the list of the elements that pass through it; what
    hardware answers on a status stream is an input list, and reading an empty
    one waits forever ([WouldBlock]). *)
From S2P Require Import Prelude Tiling Endian Extmap.

Inductive AddressType :=
  | ATHost | ATCardDRAM | ATNVMe | ATNull | ATRandom.
Inductive MapType := MTNone | MTDRAM | MTNVMe | MTDRAMAndNVMe.

#[export] Instance address_type_eq_dec : EqDecision AddressType.
Proof. solve_decision. Defined.
#[export] Instance map_type_eq_dec : EqDecision MapType.
Proof. solve_decision. Defined.

Record Address := MkAddress { a_addr : Z; a_size : Z; a_type : AddressType; a_map : MapType }.

Definition DRAMBaseOffset : Z := 9223372036854775808.   (* 0x8000000000000000 *)
Definition NVMeDRAMBaseOffset : Z := 8589934592.        (* 0x200000000 *)
Definition NVMeDRAMReadOffset : Z := 0.
Definition NVMeDRAMWriteOffset : Z := Z.shiftl 1 31.

Module OpMem.
Section OpMem.
Context `{MemBus} (nvme_enabled : bool).
Import Extmap.

(** ** Registers *)

(** Control registers, by the index of the 32-bit word. *)
Definition regs : Type := Z → Z.
Definition set_reg (ctrl i v : Z) (r : regs) : regs :=
  λ j, if j =? ctrl + i then u32 v else r j.

Definition AXI_STREAM_SWITCH_MAPPING_CONFIG_OFFSET : Z := 16.

Definition switch_set_mapping (switch_ctrl data_in data_out : Z) (r : regs) : regs :=
  set_reg (switch_ctrl + AXI_STREAM_SWITCH_MAPPING_CONFIG_OFFSET) data_out data_in r.
Definition switch_disable_output (switch_ctrl data_out : Z) (r : regs) : regs :=
  set_reg (switch_ctrl + AXI_STREAM_SWITCH_MAPPING_CONFIG_OFFSET) data_out 2147483648 r.
Definition switch_commit (switch_ctrl : Z) (r : regs) : regs := set_reg switch_ctrl 0 2 r.

(** The registers; [config = address] is the caller's assignment. *)
Definition op_mem_set_config (address : Address) (read : bool)
    (data_preselect_switch_ctrl : Z) (r : regs) : regs :=
  let r :=
    if read then
      match a_type address with
      | ATHost | ATCardDRAM | ATNVMe => switch_set_mapping data_preselect_switch_ctrl 0 0 r
      | ATRandom => switch_set_mapping data_preselect_switch_ctrl 1 0 r
      | ATNull => r
      end
    else
      match a_type address with
      | ATHost | ATCardDRAM | ATNVMe =>
          switch_disable_output data_preselect_switch_ctrl 2
            (switch_set_mapping data_preselect_switch_ctrl 2 1 r)
      | ATNull =>
          switch_set_mapping data_preselect_switch_ctrl 2 2
            (switch_disable_output data_preselect_switch_ctrl 1 r)
      | ATRandom => r
      end in
  switch_commit data_preselect_switch_ctrl r.

(** ** Commands *)

(** The fields of a [DatamoverCommand] (103 bits), at their widths. *)
Record DatamoverCommand := DMCommand {
  effective_address : Z;   (* 95..32 *)
  end_of_frame : bool;     (* 30 *)
  axi_burst_type : Z;      (* 23 *)
  transfer_bytes : Z;      (* 22..0 *)
}.

Definition issue_block_transfer_command (bytes : Z) (eof : bool) (address : Z) :
    DatamoverCommand :=
  DMCommand (u64 address) eof (wrap 1 1) (wrap 23 bytes).

Record NVMeCommand := NVMeCmd {
  dram_offset : Z;         (* 63..0 *)
  nvme_block_offset : Z;   (* 127..64 *)
  num_blocks_0 : Z;        (* 159..128 *)
  drive : Z;               (* 162..160 *)
}.

Definition issue_nvme_block_transfer_command (nvme_address dram_address : Z) : NVMeCommand :=
  let logical_block_offset := nvme_address / StorageBlockSize in
  let physical_block_offset := logical_block_offset *ᵤ (StorageBlockSize / 512) in
  let aligned_dram_address :=
    Z.shiftl (Z.shiftr dram_address StorageBlockSizeD) StorageBlockSizeD in
  NVMeCmd aligned_dram_address physical_block_offset (StorageBlockSize / 512 - 1) 0.

(** ** Cutting a transfer into pieces (mtl_op_mem.hpp) *)

Inductive TransferType := Read | Write.

Record TransferElement := Element {
  t_address : Z; t_size : Z; t_type : AddressType; t_last : bool;
}.

Record maps := Maps { dram_map : mtl_extmap_t; nvme_map : mtl_extmap_t }.

Definition seek_maps (transfer : Address) (m : maps) : maps :=
  match a_map transfer with
  | MTDRAM => Maps (mtl_extmap_seek (dram_map m) (a_addr transfer / StorageBlockSize)).2
                   (nvme_map m)
  | MTNVMe =>
      if nvme_enabled then
        Maps (dram_map m) (mtl_extmap_seek (nvme_map m) (a_addr transfer / StorageBlockSize)).2
      else m
  | MTDRAMAndNVMe =>
      if nvme_enabled then
        Maps (mtl_extmap_seek (dram_map m)
                (a_addr transfer mod PagefileSize / StorageBlockSize)).2
             (mtl_extmap_seek (nvme_map m) (a_addr transfer / StorageBlockSize)).2
      else m
  | MTNone => m
  end.

(** The translation of one piece: its address, the NVMe address queued for
    it, and the maps moved on. *)
Definition translate_piece (T : TransferType) (map : MapType)
    (current_address intra_block_offset : Z) (m : maps) : Z * list Z * maps :=
  let dram := (mtl_extmap_pblock (dram_map m) *ᵤ StorageBlockSize) +ᵤ intra_block_offset in
  let nvme := (mtl_extmap_pblock (nvme_map m) *ᵤ StorageBlockSize) +ᵤ intra_block_offset in
  match map with
  | MTDRAM => (dram, [], Maps (mtl_extmap_next (dram_map m)) (nvme_map m))
  | MTNVMe =>
      if nvme_enabled then
        ((match T with Read => NVMeDRAMReadOffset | Write => NVMeDRAMWriteOffset end)
           +ᵤ (current_address mod 2 ^ 31),
         [nvme], Maps (dram_map m) (mtl_extmap_next (nvme_map m)))
      else (current_address, [], m)
  | MTDRAMAndNVMe =>
      if nvme_enabled then
        (dram, [nvme], Maps (mtl_extmap_next (dram_map m)) (mtl_extmap_next (nvme_map m)))
      else (current_address, [], m)
  | MTNone => (current_address, [], m)
  end.

(** The loop: at least one byte per round. *)
Fixpoint partial_loop (fuel : nat) (T : TransferType) (transfer : Address)
    (bytes_transferred : Z) (m : maps) : result (list TransferElement * list Z * maps) :=
  if negb (bytes_transferred <? a_size transfer) then mret ([], [], m)
  else
    match fuel with
    | O => Fault OutOfFuel
    | S fuel' =>
        let bytes_remaining := a_size transfer -ᵤ bytes_transferred in
        let current_address := a_addr transfer +ᵤ bytes_transferred in
        let intra_block_offset := current_address mod StorageBlockSize in
        let transfer_limit := StorageBlockSize - intra_block_offset in
        let bytes_this_round :=
          if bytes_remaining <=? transfer_limit then bytes_remaining else transfer_limit in
        let '(address, nvme, m) :=
          translate_piece T (a_map transfer) current_address intra_block_offset m in
        '(elems, nvmes, m) ←
          partial_loop fuel' T transfer (bytes_transferred +ᵤ bytes_this_round) m;
        mret (Element address bytes_this_round (a_type transfer)
                      (bytes_this_round =? bytes_remaining) :: elems,
              nvme ++ nvmes, m)
    end.

(** A piece ends at a block boundary or at the end: this many rounds. *)
Definition partial_fuel (transfer : Address) : nat :=
  S (S (Z.to_nat (a_size transfer / StorageBlockSize))).

Definition issue_partial_transfers (T : TransferType) (transfer : Address) (m : maps) :
    result (list TransferElement * list Z * maps) :=
  partial_loop (partial_fuel transfer) T transfer 0 (seek_maps transfer m).

(** ** The stages behind it *)

Definition device_address (e : TransferElement) : Z :=
  match t_type e with
  | ATCardDRAM | ATNVMe => t_address e +ᵤ DRAMBaseOffset
  | _ => t_address e
  end.

(** The elements of a stream up to and including the last one; waits for
    more if there is none. *)
Fixpoint until_last (l : list TransferElement) : result (list TransferElement) :=
  match l with
  | [] => Fault WouldBlock
  | e :: l' => if t_last e then mret [e] else rest ← until_last l'; mret (e :: rest)
  end.

(** [load_nvme_data]: the commands issued, one response read for each; the
    elements pass through. *)
Fixpoint nvme_commands (issue_empty : bool) (l : list TransferElement)
    (nvme_transfers : list Z) : result (list NVMeCommand) :=
  match l with
  | [] => mret []
  | e :: l' =>
      if negb (bool_decide (t_type e = ATNVMe))
      then nvme_commands issue_empty l' nvme_transfers
      else
        match nvme_transfers with
        | [] => Fault WouldBlock
        | nvme_address :: rest =>
            let dram_address := NVMeDRAMBaseOffset +ᵤ t_address e in
            cmds ← nvme_commands issue_empty l' rest;
            mret (if issue_empty || (0 <? t_size e)
                  then issue_nvme_block_transfer_command nvme_address dram_address :: cmds
                  else cmds)
        end
  end.

(** Reads [n] responses of [available]. *)
Definition read_responses (n available : nat) : result unit :=
  if (n <=? available)%nat then mret tt else Fault WouldBlock.

Definition count_nvme (l : list TransferElement) : nat :=
  length (filter (λ e, t_type e = ATNVMe) l).

(** The controller answers every command once. *)
Definition load_nvme_data (input : list TransferElement) (nvme_transfers : list Z) :
    result (list TransferElement * list NVMeCommand) :=
  l ← until_last input;
  if nvme_enabled then
    cmds ← nvme_commands true l nvme_transfers;
    _ ← read_responses (count_nvme l) (length cmds);
    mret (l, cmds)
  else mret (l, []).

(** Commands without data are not issued, but a response is read for them. *)
Definition write_nvme_data (input : list TransferElement) (nvme_transfers : list Z) :
    result (list NVMeCommand) :=
  l ← until_last input;
  if nvme_enabled then
    cmds ← nvme_commands false l nvme_transfers;
    _ ← read_responses (count_nvme l) (length cmds);
    mret cmds
  else mret [].

(** A status is read for each element; the DataMover gives one for each command. *)
Definition transfer_to_stream (input : list TransferElement) :
    result (list DatamoverCommand) :=
  l ← (until_last input : result (list TransferElement));
  let cmds := (λ e, issue_block_transfer_command (t_size e) (t_last e) (device_address e))
                <$> (l : list TransferElement) in
  _ ← read_responses (length l) (length cmds);
  mret cmds.

(** A status of the DataMover: bytes (30..8) and end of packet (31). *)
Record IbttStatus := Ibtt { num_bytes_transferred : Z; end_of_packet : bool }.

(** The two loops, one round each per element: the second allows the next
    transfer as long as the packet has not ended. The commands, the elements
    passed on and the number of bytes. *)
Fixpoint from_stream_loop (l : list TransferElement) (statuses : list IbttStatus)
    (endOfPacket : bool) (tmpSize : Z) :
    result (list DatamoverCommand * list TransferElement * Z) :=
  match l with
  | [] => Fault WouldBlock
  | e :: l' =>
      let cmd := issue_block_transfer_command (t_size e) (t_last e) (device_address e) in
      '(cmds, out, statuses, endOfPacket, tmpSize) ←
        (if negb endOfPacket then
           match statuses with
           | [] => Fault WouldBlock
           | s :: rest => mret ([cmd], e, rest, end_of_packet s,
                                tmpSize +ᵤ wrap 23 (num_bytes_transferred s))
           end
         else mret ([], Element (t_address e) 0 (t_type e) (t_last e),
                    statuses, endOfPacket, tmpSize));
      if t_last e then mret (cmds, [out], tmpSize)
      else
        '(cmds', outs, size) ← from_stream_loop l' statuses endOfPacket tmpSize;
        mret (cmds ++ cmds', out :: outs, size)
  end.

Definition transfer_from_stream (input : list TransferElement) (statuses : list IbttStatus) :
    result (list DatamoverCommand * list TransferElement * Z) :=
  from_stream_loop input statuses false 0.

(** ** load_data, write_data and the entry points *)

Record issued := Issued { i_nvme : list NVMeCommand; i_dm : list DatamoverCommand }.

Definition load_data (transfer : Address) (m : maps) : result (issued * maps) :=
  '(partial_transfers, nvme_transfers, m) ← issue_partial_transfers Read transfer m;
  '(ready_transfers, nvme) ← load_nvme_data partial_transfers nvme_transfers;
  dm ← transfer_to_stream ready_transfers;
  mret (Issued nvme dm, m).

Definition write_data (transfer : Address) (statuses : list IbttStatus) (m : maps) :
    result (issued * Z * maps) :=
  '(partial_transfers, nvme_transfers, m) ← issue_partial_transfers Write transfer m;
  '(dm, ready_transfers, size) ← transfer_from_stream partial_transfers statuses;
  nvme ← write_nvme_data ready_transfers nvme_transfers;
  mret (Issued nvme dm, size, m).

(** With the registers of the random generator. *)
Definition op_mem_read (random_ctrl : Z) (config : Address) (m : maps) (r : regs) :
    result (issued * maps * regs) :=
  if decide (a_type config = ATRandom) then
    mret (Issued [] [], m, set_reg random_ctrl 0 1 (set_reg random_ctrl 4 (a_size config) r))
  else '(i, m) ← load_data config m; mret (i, m, r).

Definition op_mem_write (config : Address) (statuses : list IbttStatus) (m : maps) :
    result (issued * Z * maps) :=
  match a_type config with
  | ATHost | ATCardDRAM | ATNVMe => write_data config statuses m
  | _ => mret (Issued [] [], 0, m)
  end.

(** ** preload_nvme_blocks *)

(** Where one boundary block goes: its position in the file as given. *)
Definition preload_block (map : MapType) (addr : Z) (m : maps) : NVMeCommand * maps :=
  let '(dram_address, dmap) :=
    match map with
    | MTNVMe => (NVMeDRAMWriteOffset +ᵤ (addr mod 2 ^ 31), dram_map m)
    | MTDRAMAndNVMe =>
        let dmap := (mtl_extmap_seek (dram_map m) (addr mod PagefileSize / StorageBlockSize)).2 in
        (mtl_extmap_pblock dmap *ᵤ StorageBlockSize, dmap)
    | _ => (0, dram_map m)
    end in
  let nmap := (mtl_extmap_seek (nvme_map m) (addr / StorageBlockSize)).2 in
  (issue_nvme_block_transfer_command (mtl_extmap_pblock nmap *ᵤ StorageBlockSize) dram_address,
   Maps dmap nmap).

Definition preload_nvme_blocks (address : Address) (m : maps) : list NVMeCommand * maps :=
  let start_addr := a_addr address in
  let end_addr := start_addr +ᵤ a_size address in
  let last_byte_addr :=
    start_addr +ᵤ ((if 0 <? a_size address then a_size address else 1) - 1) in
  let startAddressIsOdd := negb (start_addr mod StorageBlockSize =? 0) in
  let endAddressIsOdd := negb (end_addr mod StorageBlockSize =? 0) in
  let endBlockIsDifferent :=
    negb (start_addr / StorageBlockSize =? last_byte_addr / StorageBlockSize) in
  let '(first, m) :=
    if startAddressIsOdd then
      let '(c, m) := preload_block (a_map address) start_addr m in ([c], m)
    else ([], m) in
  if endAddressIsOdd && (endBlockIsDifferent || negb startAddressIsOdd) then
    let '(c, m) := preload_block (a_map address) end_addr m in (first ++ [c], m)
  else (first, m).
End OpMem.
End OpMem.
