(* ===== verification/TransferProofs.v ===== *)
(** * Transfers of the FPGA: the pieces and their addresses

    A transfer is cut at the block boundaries, and each piece is translated
    through the extent map of the file. *)
From S2P Require Import Prelude Tiling Endian Extmap OpMem.

Module Transfers.
Import Extmap OpMem.

(** The DataMover has a status for each of the commands. *)
Lemma to_stream_run input l : until_last input = Ok l →
  transfer_to_stream input
  = Ok ((λ e, issue_block_transfer_command (t_size e) (t_last e) (device_address e)) <$> l).
Proof.
  intros E. unfold transfer_to_stream, read_responses. rewrite E. cbn [mbind result_bind].
  by rewrite length_fmap, Nat.leb_refl.
Qed.

Section Pieces.
Context `{MemBus} (nvme_enabled : bool).
Implicit Types (transfer : Address) (m : maps) (T : TransferType).

Lemma block_size_pos : 0 < StorageBlockSize.
Proof. done. Qed.

(** From byte [bt] of the transfer on: the pieces do not cross a block, all but
    the last end at a block boundary, only the last one is marked, and [P]
    relates the address asked for and the address of the piece. *)
Fixpoint pieces_ok (P : Z → Z → Prop) transfer (bt : Z) (elems : list TransferElement) : Prop :=
  match elems with
  | [] => bt = a_size transfer
  | e :: rest =>
      let o := a_addr transfer + bt in
      0 < t_size e ∧ bt + t_size e ≤ a_size transfer ∧
      o mod StorageBlockSize + t_size e ≤ StorageBlockSize ∧
      (bt + t_size e < a_size transfer → (o + t_size e) mod StorageBlockSize = 0) ∧
      t_type e = a_type transfer ∧
      t_last e = bool_decide (bt + t_size e = a_size transfer) ∧
      P o (t_address e) ∧
      pieces_ok P transfer (bt + t_size e) rest
  end.

Definition in_range transfer : Prop :=
  0 ≤ a_addr transfer ∧ 0 ≤ a_size transfer ∧ a_addr transfer + a_size transfer < 2 ^ 63.

(** The size of the piece that starts at byte [bt]. *)
Definition piece_size transfer (bt : Z) : Z :=
  Z.min (a_size transfer - bt)
        (StorageBlockSize - (a_addr transfer + bt) mod StorageBlockSize).

(** The NVMe addresses queued for the pieces: [Q] relates the address asked for
    and the ones queued with its piece. *)
Fixpoint queue_ok (Q : Z → list Z → Prop) transfer (bt : Z) (elems : list TransferElement)
    (nv : list Z) : Prop :=
  match elems with
  | [] => nv = []
  | e :: rest => ∃ n1 n2, nv = n1 ++ n2 ∧ Q (a_addr transfer + bt) n1 ∧
                   queue_ok Q transfer (bt + t_size e) rest n2
  end.

(** The loop, given what the translation of one piece keeps. *)
Lemma partial_loop_run (P : Z → Z → Prop) (Q : Z → list Z → Prop) (Inv : Z → maps → Prop) T transfer :
  in_range transfer →
  (∀ bt m, Inv bt m → 0 ≤ bt < a_size transfer →
     ∃ a nv m', translate_piece nvme_enabled T (a_map transfer) (a_addr transfer + bt)
                  ((a_addr transfer + bt) mod StorageBlockSize) m = (a, nv, m') ∧
       P (a_addr transfer + bt) a ∧ Q (a_addr transfer + bt) nv ∧
       (bt + piece_size transfer bt < a_size transfer → Inv (bt + piece_size transfer bt) m')) →
  ∀ fuel bt m,
    0 ≤ bt ≤ a_size transfer → (bt < a_size transfer → Inv bt m) →
    bt = a_size transfer ∨
    ((a_addr transfer + bt) mod StorageBlockSize = 0 ∧
     a_size transfer - bt ≤ Z.of_nat fuel * StorageBlockSize) ∨
    a_size transfer - bt ≤ (Z.of_nat fuel - 1) * StorageBlockSize →
    ∃ elems nv m', partial_loop nvme_enabled fuel T transfer bt m = Ok (elems, nv, m') ∧
      pieces_ok P transfer bt elems ∧ queue_ok Q transfer bt elems nv.
Proof.
  intros (Ha & Hs & Hov) Hstep. pose proof block_size_pos as HB. induction fuel as [|fuel IH]; intros bt m Hbt Hinv Hf;
    cbn [partial_loop].
  - rewrite (proj2 (Z.ltb_ge bt _)) by lia. do 3 eexists. split; [done|]. simpl. split; [lia|done].
  - destruct (Z.ltb_spec bt (a_size transfer)) as [Hlt|Hge]; cbn [negb].
    2: { do 3 eexists. split; [done|]. simpl. split; [lia|done]. }
    assert (StorageBlockSize < 2 ^ 20) as HB2 by done.
    pose proof (Z.mod_pos_bound (a_addr transfer + bt) StorageBlockSize HB) as Hmod.
    u64_norm.
    assert ((if a_size transfer - bt <=? StorageBlockSize - (a_addr transfer + bt) mod StorageBlockSize
             then a_size transfer - bt
             else StorageBlockSize - (a_addr transfer + bt) mod StorageBlockSize)
            = piece_size transfer bt) as ->.
    { unfold piece_size. destruct (Z.leb_spec (a_size transfer - bt)
        (StorageBlockSize - (a_addr transfer + bt) mod StorageBlockSize)); lia. }
    destruct (Hstep bt m (Hinv Hlt) ltac:(lia)) as (a & nv & m' & Htr & HP & HQ & Hnext).
    rewrite Htr. set (n := piece_size transfer bt) in *.
    assert (0 < n ≤ a_size transfer - bt ∧ n ≤ StorageBlockSize) as [Hn Hn2]
      by (unfold n, piece_size; lia).
    rewrite (u64_small (bt + n)) by (unfold in_u64; lia).
    assert (bt + n < a_size transfer → (a_addr transfer + (bt + n)) mod StorageBlockSize = 0 ∧
      n = StorageBlockSize - (a_addr transfer + bt) mod StorageBlockSize) as Halign.
    { intros Hl. assert (n = StorageBlockSize - (a_addr transfer + bt) mod StorageBlockSize) as En
        by (unfold n, piece_size in *; lia). split; [|done].
      pose proof (Z.div_mod (a_addr transfer + bt) StorageBlockSize ltac:(lia)) as Hdm.
      replace (a_addr transfer + (bt + n))
        with (((a_addr transfer + bt) / StorageBlockSize + 1) * StorageBlockSize) by lia.
      apply Z.mod_mul. lia. }
    destruct (IH (bt + n) m') as (elems & nvs & m2 & Hr & Hok & Hq).
    + lia.
    + done.
    + destruct (decide (bt + n < a_size transfer)) as [Hl|Hl]; [|left; lia].
      destruct (Halign Hl) as [Hal En]. right. left. split; [done|].
      destruct Hf as [?|[[? ?]|?]]; lia.
    + rewrite Hr. unfold mbind, result_bind, mret, result_ret.
      do 3 eexists. split; [done|]. split; [|by exists nv, nvs].
      cbn [pieces_ok t_size t_type t_last t_address].
      split; [lia|]. split; [lia|]. split; [unfold n, piece_size; lia|].
      split; [intros Hl; replace (a_addr transfer + bt + n) with (a_addr transfer + (bt + n)) by lia;
              by apply Halign|].
      split; [done|]. split; [|done].
      destruct (Z.eqb_spec n (a_size transfer - bt)); symmetry.
      * apply bool_decide_eq_true. lia.
      * apply bool_decide_eq_false. lia.
Qed.
End Pieces.

(** ** Translation inside one extent *)

Lemma translate_shift extents : ∀ l e p b c d,
  translate extents l = Some (e, p) → extents !! e = Some (b, c) →
  Forall (λ x : Z * Z, 0 ≤ x.1 ∧ 0 ≤ x.2 ∧ x.1 + x.2 < 2 ^ 64) extents →
  0 ≤ l → 0 ≤ d → p + d < b + c →
  translate extents (l + d) = Some (e, p + d) ∧ b ≤ p.
Proof.
  induction extents as [|[b0 c0] extents IH]; intros l e p b c d; [done|].
  cbn [translate]. intros Ht Hlk [Hx Hall]%Forall_cons Hl Hd Hp. simpl in Hx.
  destruct (Z.ltb_spec l c0).
  - injection Ht as <- <-. cbn in Hlk. injection Hlk as <- <-.
    rewrite (proj2 (Z.ltb_lt (l + d) c0)) by lia. split; [do 2 f_equal; lia|lia].
  - destruct (translate extents (l - c0)) as [[e' p']|] eqn:E; [|done].
    injection Ht as <- <-. cbn in Hlk.
    destruct (IH _ _ _ _ _ d E Hlk Hall) as [IH1 IH2]; [lia..|].
    rewrite (proj2 (Z.ltb_ge (l + d) c0)) by lia.
    replace (l + d - c0) with (l - c0 + d) by lia. by rewrite IH1.
Qed.

(** The [size] bytes of the file from [addr] on lie in the extent [(b, c)], the
    first one in block [p] of the storage. *)
Record placed (extents : list (Z * Z)) (addr size : Z) (e : nat) (p b c : Z) : Prop := {
  placed_first : translate extents (addr / StorageBlockSize) = Some (e, p);
  placed_extent : extents !! e = Some (b, c);
  placed_last : p + ((addr + size - 1) / StorageBlockSize - addr / StorageBlockSize) < b + c;
  placed_small : (b + c) * StorageBlockSize ≤ 2 ^ 63;
}.

Lemma placed_shorter extents addr size size' e p b c :
  placed extents addr size e p b c → size' ≤ size → placed extents addr size' e p b c.
Proof.
  intros [H1 H2 H3 H4] Hs. split; try done.
  assert ((addr + size' - 1) / StorageBlockSize ≤ (addr + size - 1) / StorageBlockSize)
    by (apply Z.div_le_mono; [done|lia]). lia.
Qed.

(** The translation of the piece that starts [bt] bytes after [a0], and where the
    map stands when the next one begins. *)
Lemma placed_step `{MemBus} em extents a0 n e p b c bt :
  placed extents a0 n e p b c → 0 ≤ a0 → 0 ≤ bt < n →
  at_block em extents e (p + ((a0 + bt) / StorageBlockSize - a0 / StorageBlockSize)) →
  let o := a0 + bt in let q := p - a0 / StorageBlockSize + o / StorageBlockSize in
  let left := StorageBlockSize - o mod StorageBlockSize in
  translate extents (o / StorageBlockSize) = Some (e, q) ∧ 0 ≤ b ≤ q ∧ q < b + c ∧
  (mtl_extmap_pblock em *ᵤ StorageBlockSize) +ᵤ o mod StorageBlockSize =
    q * StorageBlockSize + o mod StorageBlockSize ∧
  (left < n - bt →
   at_block (mtl_extmap_next em) extents e
     (p + ((a0 + (bt + left)) / StorageBlockSize - a0 / StorageBlockSize))).
Proof.
  intros [Hf Hx Hl Hsm] Ha Hbt Hat o q left. pose proof block_size_pos as HB.
  assert (StorageBlockSize < 2 ^ 20) as HB2 by done.
  pose proof Hat as (Hrep & _ & Hpb). unfold mtl_extmap_pblock. rewrite Hpb.
  set (first := a0 / StorageBlockSize) in *.
  assert (0 ≤ first) as Hfirst by (apply Z.div_pos; lia).
  assert (first ≤ o / StorageBlockSize ≤ (a0 + n - 1) / StorageBlockSize) as Hd
    by (split; apply Z.div_le_mono; lia).
  destruct (translate_shift extents first e p b c (o / StorageBlockSize - first) Hf Hx
    (rep_nonneg _ _ Hrep)) as [Ht Hbp]; [lia..|].
  pose proof (Forall_lookup_1 _ _ _ _ (rep_nonneg _ _ Hrep) Hx) as Hnn. simpl in Hnn.
  replace (first + (o / StorageBlockSize - first)) with (o / StorageBlockSize) in Ht by lia.
  replace (p + (o / StorageBlockSize - first)) with q in * by lia. fold o in Hat. 
  replace (p + (o / StorageBlockSize - first)) with q in Hat by lia.
  pose proof (Z.mod_pos_bound o StorageBlockSize HB) as Hmod.
  fold o. replace (p + (o / StorageBlockSize - first)) with q by lia.
  assert (q < b + c) by lia.
  split; [done|]. split; [lia|]. split; [done|]. split.
  - rewrite (u64_small (q * StorageBlockSize)) by (unfold in_u64; nia).
    by rewrite u64_small by (unfold in_u64; nia).
  - intros _. pose proof (next_run _ _ _ _ _ _ Hat Hx ltac:(lia)) as Hnext.
    replace (a0 + (bt + left)) with ((o / StorageBlockSize + 1) * StorageBlockSize)
      by (pose proof (Z.div_mod o StorageBlockSize ltac:(lia)); lia).
    rewrite Z.div_mul by lia. by replace (p + (o / StorageBlockSize + 1 - first)) with (q + 1) by lia.
Qed.

(** Where a transfer starts. *)
Lemma placed_start `{MemBus} em extents a0 n e p b c :
  placed extents a0 n e p b c → 0 ≤ a0 → represents em extents →
  at_block (mtl_extmap_seek em (a0 / StorageBlockSize)).2 extents e
    (p + ((a0 + 0) / StorageBlockSize - a0 / StorageBlockSize)).
Proof.
  intros [Hf _ _ _] Ha Hrep.
  assert (0 ≤ a0 / StorageBlockSize) by (apply Z.div_pos; done).
  rewrite (seek_run _ _ _ Hrep), Hf by done. cbn [snd].
  rewrite Z.add_0_r, Z.sub_diag, Z.add_0_r. split; [|split; done]. destruct Hrep. by split.
Qed.
Section Claims.
Context `{MemBus} (nvme_enabled : bool).
Implicit Types (transfer : Address) (m : maps) (T : TransferType).

(** The fuel of [issue_partial_transfers] is enough for its loop. *)
Lemma issue_run (P : Z → Z → Prop) (Q : Z → list Z → Prop) (Inv : Z → maps → Prop) T transfer m :
  in_range transfer →
  (∀ bt m, Inv bt m → 0 ≤ bt < a_size transfer →
     ∃ a nv m', translate_piece nvme_enabled T (a_map transfer) (a_addr transfer + bt)
                  ((a_addr transfer + bt) mod StorageBlockSize) m = (a, nv, m') ∧
       P (a_addr transfer + bt) a ∧ Q (a_addr transfer + bt) nv ∧
       (bt + piece_size transfer bt < a_size transfer → Inv (bt + piece_size transfer bt) m')) →
  (0 < a_size transfer → Inv 0 (seek_maps nvme_enabled transfer m)) →
  ∃ elems nv m', issue_partial_transfers nvme_enabled T transfer m = Ok (elems, nv, m') ∧
    pieces_ok P transfer 0 elems ∧ queue_ok Q transfer 0 elems nv.
Proof.
  intros Hr Hstep H0. pose proof Hr as (Ha & Hs & Hov). pose proof block_size_pos as HB.
  apply (partial_loop_run nvme_enabled P Q Inv T transfer Hr Hstep); [lia|done|].
  right. right. unfold partial_fuel.
  pose proof (Z.div_mod (a_size transfer) StorageBlockSize ltac:(lia)).
  pose proof (Z.mod_pos_bound (a_size transfer) StorageBlockSize HB).
  assert (0 ≤ a_size transfer / StorageBlockSize) by (apply Z.div_pos; lia). nia.
Qed.

Lemma issue_pieces (P : Z → Z → Prop) (Inv : Z → maps → Prop) T transfer m :
  in_range transfer →
  (∀ bt m, Inv bt m → 0 ≤ bt < a_size transfer →
     ∃ a nv m', translate_piece nvme_enabled T (a_map transfer) (a_addr transfer + bt)
                  ((a_addr transfer + bt) mod StorageBlockSize) m = (a, nv, m') ∧
       P (a_addr transfer + bt) a ∧
       (bt + piece_size transfer bt < a_size transfer → Inv (bt + piece_size transfer bt) m')) →
  (0 < a_size transfer → Inv 0 (seek_maps nvme_enabled transfer m)) →
  ∃ elems nv m', issue_partial_transfers nvme_enabled T transfer m = Ok (elems, nv, m') ∧
    pieces_ok P transfer 0 elems.
Proof.
  intros Hr Hstep H0.
  destruct (issue_run P (λ _ _, True) Inv T transfer m Hr) as (l & nv & m' & E & Hok & _); [|done|eauto].
  intros bt m1 Hi Hbt. destruct (Hstep bt m1 Hi Hbt) as (a & nv & m' & ? & ? & ?). eauto 10.
Qed.

(** Cutting a transfer ends, and covers it. *)
Lemma issue_cover T transfer m :
  in_range transfer →
  ∃ elems nv m', issue_partial_transfers nvme_enabled T transfer m = Ok (elems, nv, m') ∧
    pieces_ok (λ o a, a_map transfer = MTNone → a = o) transfer 0 elems.
Proof.
  intros Hr. apply (issue_pieces _ (λ _ _, True)); [done| |done].
  intros bt m' _ Hbt.
  destruct (translate_piece nvme_enabled T (a_map transfer) _ _ m') as [[a nv] m2] eqn:E.
  exists a, nv, m2. split; [done|]. split; [|done].
  intros Hmap. rewrite Hmap in E. cbn in E. by injection E as <- _ _.
Qed.

(** Cutting a transfer always ends and covers it exactly: the pieces
    follow one another from the first byte to the last, none of them crosses
    a block boundary and only the last one ends inside a block or is marked
    as the last; without a map their addresses are the ones asked for. *)
Theorem partial_transfers_cover T transfer m :
  in_range transfer →
  ∃ elems nv m', issue_partial_transfers nvme_enabled T transfer m = Ok (elems, nv, m') ∧
    pieces_ok (λ o a, a_map transfer = MTNone → a = o) transfer 0 elems.
Proof. apply issue_cover. Qed.

(** With a map, each piece goes to the block of the extent list. *)
Lemma issue_translate T transfer m extents e p b c :
  in_range transfer → 0 < a_size transfer → a_map transfer = MTDRAM →
  represents (dram_map m) extents →
  translate extents (a_addr transfer / StorageBlockSize) = Some (e, p) →
  extents !! e = Some (b, c) →
  p + ((a_addr transfer + a_size transfer - 1) / StorageBlockSize
       - a_addr transfer / StorageBlockSize) < b + c →
  (b + c) * StorageBlockSize ≤ 2 ^ 63 →
  ∃ elems nv m', issue_partial_transfers nvme_enabled T transfer m = Ok (elems, nv, m') ∧
    pieces_ok (λ o a, ∃ e' p', translate extents (o / StorageBlockSize) = Some (e', p') ∧
                        a = p' * StorageBlockSize + o mod StorageBlockSize) transfer 0 elems.
Proof.
  intros Hr Hs Hmap Hrep Htr Hlk Hin Hbc. pose proof Hr as (Ha & _ & Hov).
  assert (placed extents (a_addr transfer) (a_size transfer) e p b c) as Hpl by done.
  set (first := a_addr transfer / StorageBlockSize) in *.
  apply (issue_pieces _ (λ bt m, at_block (dram_map m) extents e
                        (p + ((a_addr transfer + bt) / StorageBlockSize - first)))); [done| |].
  - intros bt m' Hat Hbt. rewrite Hmap. cbn [translate_piece].
    destruct (placed_step _ _ _ _ _ _ _ _ bt Hpl Ha Hbt Hat) as (Ht & _ & _ & Hadr & Hnext).
    rewrite Hadr. do 3 eexists. split; [done|]. split; [by eauto|].
    unfold piece_size. intros Hl. rewrite Z.min_r in Hl |- * by lia. apply Hnext. lia.
  - intros _. unfold seek_maps. rewrite Hmap. by apply (placed_start _ _ _ (a_size transfer) _ _ b c).
Qed.

(** When the blocks of a transfer lie in one extent of the file, every
    piece goes to the block of the card's memory that the extent list assigns
    to its offset in the file, at the same offset inside the block. *)
Theorem partial_transfers_translate T transfer m extents e p b c :
  in_range transfer → 0 < a_size transfer → a_map transfer = MTDRAM →
  represents (dram_map m) extents →
  translate extents (a_addr transfer / StorageBlockSize) = Some (e, p) →
  extents !! e = Some (b, c) →
  p + ((a_addr transfer + a_size transfer - 1) / StorageBlockSize
       - a_addr transfer / StorageBlockSize) < b + c →
  (b + c) * StorageBlockSize ≤ 2 ^ 63 →
  ∃ elems nv m', issue_partial_transfers nvme_enabled T transfer m = Ok (elems, nv, m') ∧
    pieces_ok (λ o a, ∃ e' p', translate extents (o / StorageBlockSize) = Some (e', p') ∧
                        a = p' * StorageBlockSize + o mod StorageBlockSize) transfer 0 elems.
Proof. apply issue_translate. Qed.
End Claims.

(** ** Crossing from one extent to the next *)

Lemma translate_inside extents : ∀ l e p,
  translate extents l = Some (e, p) → 0 ≤ l →
  ∃ b c, extents !! e = Some (b, c) ∧ b ≤ p < b + c.
Proof.
  induction extents as [|[b0 c0] extents IH]; intros l e p; cbn [translate]; [done|].
  destruct (Z.ltb_spec l c0) as [Hlt|Hge].
  - intros [= <- <-] Hl. exists b0, c0. split; [done|lia].
  - destruct (translate extents (l - c0)) as [[e' p']|] eqn:E; [|done].
    intros [= <- <-] Hl. destruct (IH _ _ _ E) as (b & c & ? & ?); [lia|]. by exists b, c.
Qed.

Section Crossing.
Context `{MemBus}.

(** The search of the map is the translation of the extent list: it
    answers the extent and the block of the storage that hold the block of the
    file, and fails, leaving the position alone, exactly for a block beyond
    the file. *)
Theorem seek_refines_translate map extents lblock :
  represents map extents → 0 ≤ lblock →
  match translate extents lblock with
  | Some (e, p) => fst (mtl_extmap_seek map lblock) = true ∧
      at_block (snd (mtl_extmap_seek map lblock)) extents e p ∧
      ∃ b c, extents !! e = Some (b, c) ∧ b ≤ p < b + c
  | None => mtl_extmap_seek map lblock = (false, map) ∧ total extents ≤ lblock
  end.
Proof.
  intros Hrep Hl. rewrite (seek_run _ _ _ Hrep Hl).
  destruct (translate extents lblock) as [[e p]|] eqn:E.
  - split; [done|]. split; [|by eapply translate_inside].
    split; [|split; done]. destruct Hrep. by split.
  - split; [done|]. pose proof (rep_nonneg _ _ Hrep) as Hnn. clear Hrep. revert lblock Hl E.
    induction Hnn as [|[b c] extents [_ [Hc _]] Hnn IH]; intros lblock Hl E; [done|].
    cbn [translate] in E. destruct (Z.ltb_spec lblock c); [done|].
    destruct (translate extents (lblock - c)) as [[e p]|] eqn:E2; [done|].
    specialize (IH (lblock - c) ltac:(lia) E2). unfold total in *. cbn [foldr snd] in *. lia.
Qed.

(** Moving on from the last block of an extent does not reach the next
    extent: the position becomes the block after the extent, which belongs to
    no block of the file in that extent. *)
Theorem next_overruns_extent map extents e b c :
  at_block map extents e (b + c - 1) → extents !! e = Some (b, c) → 0 < c →
  at_block (mtl_extmap_next map) extents e (b + c) ∧
  ∀ l, 0 ≤ l → translate extents l ≠ Some (e, b + c).
Proof.
  intros Hat Hlk Hc. split.
  - replace (b + c) with (b + c - 1 + 1) by lia. apply (next_run _ _ _ _ b c); [done|done|lia].
  - intros l Hl Ht. destruct (translate_inside _ _ _ _ Ht Hl) as (b' & c' & Hlk' & Hp).
    rewrite Hlk in Hlk'. injection Hlk' as <- <-. lia.
Qed.
End Crossing.

(** ** A stream that ends early *)

Section ShortStream.
Context `{MemBus}.
Implicit Types (l : list TransferElement).

Definition zeroed (e : TransferElement) : TransferElement :=
  Element (t_address e) 0 (t_type e) (t_last e).

(** Only the last element of a list of pieces is marked. *)
Lemma pieces_last P transfer bt l :
  pieces_ok P transfer bt l → bt < a_size transfer →
  ∃ l' e, l = l' ++ [e] ∧ t_last e = true ∧ Forall (λ e, t_last e = false) l' ∧
    Forall (λ e, t_type e = a_type transfer) l.
Proof.
  revert bt. induction l as [|e l IH]; intros bt; cbn [pieces_ok]; [lia|].
  intros (Hs & Hle & _ & _ & Hty & Hlast & _ & Hrest) Hlt.
  destruct (decide (bt + t_size e = a_size transfer)) as [E|E].
  - rewrite bool_decide_eq_true_2 in Hlast by done. destruct l as [|e2 l].
    + exists [], e. repeat split; try done. by constructor.
    + cbn [pieces_ok] in Hrest. lia.
  - rewrite bool_decide_eq_false_2 in Hlast by done.
    destruct (IH _ Hrest) as (l' & e2 & -> & H1 & H2 & H3); [lia|].
    exists (e :: l'), e2. repeat split; try done; by constructor.
Qed.

Lemma from_stream_ended statuses size l' e :
  t_last e = true → Forall (λ e, t_last e = false) l' →
  from_stream_loop (l' ++ [e]) statuses true size = Ok ([], zeroed <$> l' ++ [e], size).
Proof.
  intros He Hl. induction Hl as [|e' l' He' Hl IH]; cbn [app from_stream_loop negb].
  - unfold mbind, result_bind, mret, result_ret, zeroed. cbn. by rewrite He.
  - unfold mbind at 1, result_bind at 1. unfold mret at 1, result_ret at 1.
    rewrite IH, fmap_cons. unfold zeroed at 2. by rewrite He'.
Qed.

Lemma until_last_zeroed l' e :
  t_last e = true → Forall (λ e, t_last e = false) l' →
  until_last (zeroed <$> l' ++ [e]) = Ok (zeroed <$> l' ++ [e]).
Proof.
  intros He Hl. induction Hl as [|e' l' He' Hl IH]; cbn [app]; rewrite fmap_cons;
    cbn [until_last].
  - unfold zeroed. cbn. by rewrite He.
  - rewrite IH. unfold zeroed at 1. cbn [t_last]. by rewrite He'.
Qed.

(** Elements without data are not issued. *)
Lemma nvme_commands_zeroed l : ∀ nvmes cmds,
  nvme_commands false (zeroed <$> l) nvmes = Ok cmds → cmds = [].
Proof.
  induction l as [|e l IH]; intros nvmes cmds; [by intros [= <-]|].
  rewrite fmap_cons. cbn [nvme_commands].
  destruct (negb _); [apply IH|]. destruct nvmes as [|n nvmes]; [done|]. specialize (IH nvmes).
  destruct (nvme_commands false (zeroed <$> l) nvmes) as [cmds'|]; [|done].
  specialize (IH cmds' eq_refl) as ->. unfold mbind, result_bind, mret, result_ret. simpl.
  by intros [= <-].
Qed.

Lemma count_nvme_zeroed l : count_nvme (zeroed <$> l) = count_nvme l.
Proof.
  unfold count_nvme. induction l as [|e l IH]; [done|].
  rewrite fmap_cons, !filter_cons. cbn [zeroed t_type].
  case_decide; cbn [length]; by rewrite IH.
Qed.

Lemma from_stream_short e1 l' e s statuses :
  t_last e1 = false → t_last e = true → Forall (λ e, t_last e = false) l' →
  end_of_packet s = true →
  ∃ n, transfer_from_stream (e1 :: l' ++ [e]) (s :: statuses)
       = Ok ([issue_block_transfer_command (t_size e1) false (device_address e1)],
             e1 :: (zeroed <$> l' ++ [e]), n).
Proof.
  intros He1 He Hl Hs. eexists. unfold transfer_from_stream. cbn [from_stream_loop negb].
  unfold mbind, result_bind, mret, result_ret.
  by rewrite He1, Hs, (from_stream_ended _ _ _ _ He Hl).
Qed.

Lemma count_nvme_all l : Forall (λ e, t_type e = ATNVMe) l → count_nvme l = length l.
Proof.
  unfold count_nvme. induction 1 as [|x l Hx _ IH]; [done|].
  rewrite filter_cons_True by done. simpl. by rewrite IH.
Qed.

Lemma nvme_commands_fault b l nvmes f : nvme_commands b l nvmes = Fault f → f = WouldBlock.
Proof.
  revert nvmes. induction l as [|x l IH]; intros nvmes; cbn [nvme_commands]; [done|].
  destruct (negb _); [apply IH|]. destruct nvmes as [|n nvmes]; [by intros [= <-]|].
  specialize (IH nvmes). by destruct (nvme_commands b l nvmes).
Qed.

(** More blocks than commands: a response is missing. *)
Lemma write_nvme_starved e1 l' e nv :
  t_last e1 = false → t_last e = true → Forall (λ e, t_last e = false) l' →
  Forall (λ e, t_type e = ATNVMe) (e1 :: l' ++ [e]) →
  write_nvme_data true (e1 :: (zeroed <$> l' ++ [e])) nv = Fault WouldBlock.
Proof.
  intros He1 He Hl [Hty1 Hty]%Forall_cons. unfold write_nvme_data. cbn [until_last].
  rewrite He1, (until_last_zeroed _ _ He Hl). unfold mbind, result_bind, mret, result_ret.
  destruct (nvme_commands false (e1 :: (zeroed <$> l' ++ [e])) nv) as [cmds|f] eqn:Hn;
    [|by rewrite (nvme_commands_fault _ _ _ _ Hn)].
  assert (length cmds ≤ 1)%nat as Hc.
  { cbn [nvme_commands] in Hn. rewrite bool_decide_eq_true_2 in Hn by done.
    destruct nv as [|n nv]; [done|]. cbn [negb] in Hn.
    destruct (nvme_commands false (zeroed <$> l' ++ [e]) nv) as [cmds'|f] eqn:Hn'; [|done].
    pose proof (nvme_commands_zeroed _ _ _ Hn') as ->. injection Hn as <-.
    case_match; simpl; lia. }
  assert (2 ≤ count_nvme (e1 :: (zeroed <$> l' ++ [e])))%nat as H2.
  { unfold count_nvme. rewrite filter_cons_True by done. cbn [length].
    fold (count_nvme (zeroed <$> l' ++ [e])). rewrite count_nvme_zeroed, count_nvme_all by done.
    rewrite length_app. simpl. lia. }
  unfold read_responses. by rewrite (proj2 (Nat.leb_gt _ _)) by lia.
Qed.

(** A job that writes to the NVMe storage and whose stream ends in the
    first of several blocks never finishes: the blocks without data are not
    written, but a response of the controller is awaited for each of them. *)
Theorem short_stream_blocks config statuses s m :
  in_range config → a_type config = ATNVMe →
  StorageBlockSize < a_addr config mod StorageBlockSize + a_size config →
  end_of_packet s = true →
  op_mem_write true config (s :: statuses) m = Fault WouldBlock.
Proof.
  intros Hr Hty Hsz Hs. unfold op_mem_write. rewrite Hty. unfold write_data.
  destruct (issue_pieces true (λ _ _, True) (λ _ _, True) Write config m Hr)
    as (elems & nv & m' & Hi & Hok); [|done|].
  { intros bt m0 _ _. destruct (translate_piece _ _ _ _ _ m0) as [[a nv] m2]. by do 3 eexists. }
  rewrite Hi. unfold mbind at 1, result_bind at 1.
  destruct elems as [|e1 l]; cbn [pieces_ok] in Hok.
  { pose proof (Z.mod_pos_bound (a_addr config) StorageBlockSize block_size_pos). lia. }
  destruct Hok as (Hs1 & Hle & Hblk & _ & Hty1 & Hlast1 & _ & Hrest).
  rewrite Z.add_0_r in Hblk. rewrite bool_decide_eq_false_2 in Hlast1 by lia.
  destruct (pieces_last _ _ _ _ Hrest) as (l' & e & -> & He & Hl' & Htys); [lia|].
  destruct (from_stream_short e1 l' e s statuses Hlast1 He Hl' Hs) as [n ->].
  unfold mbind at 1, result_bind at 1.
  rewrite (write_nvme_starved e1 l' e nv Hlast1 He Hl'); [done|].
  constructor; [congruence|]. by rewrite <-Hty.
Qed.
End ShortStream.

(** ** Instances *)

Module Demo.
#[local] Instance bus : MemBus :=
  {| ADDR_RIGHT_SHIFT := 6; bus_wide_enough := ltac:(lia);
     SNAP_RETC_SUCCESS := 258; SNAP_RETC_FAILURE := 260 |}.

Definition pad (extents : list (Z * Z)) : list (Z * Z) :=
  extents ++ repeat (0, 0) (512 - length extents).

(** A map that holds the extents. *)
Definition map_of (extents : list (Z * Z)) : mtl_extmap_t :=
  ExtmapT 0 (nth 0 extents.*1 0) extents.*1 extents.*2 (prefix_sums 0 extents.*2).

(** Blocks 10 and 11, then 50 and 51. *)
Definition two : list (Z * Z) := pad [(10, 2); (50, 2)].

Lemma two_represented : represents (map_of two) two.
Proof.
  split; try reflexivity. unfold two, pad. apply Forall_app. split.
  - repeat constructor; simpl; lia.
  - apply Forall_forall. intros x Hx%list_elem_of_In%repeat_spec. subst. simpl. lia.
Qed.

Lemma seek_at l e p :
  translate two l = Some (e, p) → 0 ≤ l →
  at_block (snd (mtl_extmap_seek (map_of two) l)) two e p.
Proof.
  intros Ht Hl. rewrite (seek_run _ _ _ two_represented Hl), Ht.
  split; [|done]. destruct two_represented. by split.
Qed.

Definition both : maps := Maps (map_of two) (map_of two).

Definition dram (addr size : Z) : Address := MkAddress addr size ATCardDRAM MTDRAM.
End Demo.

(** Four blocks of a file that lies in the blocks 10, 11, 50 and 51: the
    pieces of the transfer go to 10, 11, 12 and 50, so that from the end of the
    first extent on every byte is moved from or to the wrong block. *)
Theorem crossing_goes_wrong :
  let transfer := Demo.dram 0 (4 * StorageBlockSize) in
  ∃ elems nv m', issue_partial_transfers true Read transfer Demo.both = Ok (elems, nv, m') ∧
    ((λ e, t_address e / StorageBlockSize) <$> elems) = [10; 11; 12; 50] ∧
    (translate Demo.two <$> [0; 1; 2; 3]) = [Some (0%nat, 10); Some (0%nat, 11);
                                             Some (1%nat, 50); Some (1%nat, 51)].
Proof.
  intros transfer.
  destruct (issue_partial_transfers true Read transfer Demo.both) as [[[elems nv] m']|] eqn:E.
  - exists elems, nv, m'. split; [done|]. split; [|by vm_compute].
    apply (f_equal (λ r : result (list TransferElement * list Z * maps),
      match r with Ok (l, _, _) => (λ e, t_address e / StorageBlockSize) <$> l | _ => [] end)) in E.
    cbn beta iota in E. rewrite <-E. by vm_compute.
  - exfalso. apply (f_equal (λ r : result (list TransferElement * list Z * maps),
      match r with Ok _ => true | _ => false end)) in E. by vm_compute in E.
Qed.

#[local] Existing Instance Demo.bus.

Lemma partial_transfers_cover_witness :
  ∃ elems nv m', issue_partial_transfers true Write (Demo.dram 1000 500000) Demo.both
                 = Ok (elems, nv, m') ∧
    pieces_ok (λ o a, MTDRAM = MTNone → a = o) (Demo.dram 1000 500000) 0 elems.
Proof.
  apply (partial_transfers_cover true Write (Demo.dram 1000 500000) Demo.both).
  repeat split; simpl; lia.
Defined.

Lemma partial_transfers_translate_witness :
  ∃ elems nv m', issue_partial_transfers true Read (Demo.dram 1000 500000) Demo.both
                 = Ok (elems, nv, m') ∧ elems ≠ [].
Proof.
  destruct (partial_transfers_translate true Read (Demo.dram 1000 500000) Demo.both Demo.two
    0 10 10 2) as (elems & nv & m' & Hr & Hok).
  - repeat split; simpl; lia.
  - reflexivity.
  - reflexivity.
  - apply Demo.two_represented.
  - by vm_compute.
  - reflexivity.
  - by vm_compute.
  - by vm_compute.
  - exists elems, nv, m'. split; [exact Hr|]. intros ->. discriminate Hok.
Defined.

Lemma seek_refines_translate_witness :
  fst (mtl_extmap_seek (Demo.map_of Demo.two) 2) = true ∧
  at_block (snd (mtl_extmap_seek (Demo.map_of Demo.two) 2)) Demo.two 1 50 ∧
  ∃ b c, Demo.two !! 1%nat = Some (b, c) ∧ b ≤ 50 < b + c.
Proof.
  apply (seek_refines_translate (Demo.map_of Demo.two) Demo.two 2 Demo.two_represented). lia.
Defined.

Lemma next_overruns_extent_witness :
  at_block (mtl_extmap_next (snd (mtl_extmap_seek (Demo.map_of Demo.two) 1))) Demo.two 0 12.
Proof.
  apply (next_overruns_extent _ Demo.two 0 10 2); [|reflexivity|lia].
  by apply Demo.seek_at.
Defined.

Lemma short_stream_blocks_witness :
  op_mem_write true (MkAddress 0 524288 ATNVMe MTNVMe) [Ibtt 100 true; Ibtt 100 true] Demo.both
  = Fault WouldBlock.
Proof.
  apply (short_stream_blocks (MkAddress 0 524288 ATNVMe MTNVMe) [Ibtt 100 true] (Ibtt 100 true)
    Demo.both); [repeat split; simpl; lia|reflexivity|by vm_compute|reflexivity].
Defined.
End Transfers.
