(* ===== verification/CardMemory.v ===== *)
(** * What transfers do to the card's memory

    The action turns a transfer into DataMover commands ([OpMem]); here the
    DataMover carries them out. The DataMover is an IP core: its two channels
    are the class [DataMover], and what its product guide promises of them is
    [DataMoverLaws]: the read channel sends the bytes of a command's range, the
    write channel stores the bytes it receives, up to the end of the packet or
    of the range, and reports how many it stored and whether the packet ended.
    Module [Card] shows that what the action writes to a file in the card's
    memory is what it reads from it later. *)
From S2P Require Import Prelude Tiling Endian Extmap OpMem TransferProofs.

Module Card.
Import Extmap OpMem Transfers.

Definition memory : Type := Z → Z.

(** [bs] at the addresses from [a] on, and the [n] bytes found there. *)
Definition store (mem : memory) (a : Z) (bs : list Z) : memory := λ x,
  if (a <=? x) && (x <? a + Z.of_nat (length bs)) then nth (Z.to_nat (x - a)) bs 0 else mem x.
Definition fetch (mem : memory) (a n : Z) : list Z := (λ i, mem (a + i)) <$> seqZ 0 n.

Class DataMover := {
  mm2s : DatamoverCommand → memory → list Z;
  s2mm : DatamoverCommand → list Z → memory → memory * IbttStatus;
}.

(** A command for incrementing bursts that stays in the address space. *)
Definition regular (c : DatamoverCommand) : Prop :=
  axi_burst_type c = 1 ∧ 0 < transfer_bytes c ∧ 0 ≤ effective_address c ∧
  effective_address c + transfer_bytes c ≤ 2 ^ 64.

Class DataMoverLaws `{DataMover} : Prop := {
  mm2s_law c mem : regular c →
    mm2s c mem = fetch mem (effective_address c) (transfer_bytes c);
  s2mm_law c bs mem : regular c → bs ≠ [] →
    let stored := take (Z.to_nat (transfer_bytes c)) bs in
    (s2mm c bs mem).2 =
      Ibtt (Z.of_nat (length stored)) (bool_decide (Z.of_nat (length bs) ≤ transfer_bytes c)) ∧
    ∀ x, (s2mm c bs mem).1 x = store mem (effective_address c) stored x;
}.

(** The stream a list of commands sends. *)
Definition sent `{DataMover} (cs : list DatamoverCommand) (mem : memory) : list Z :=
  cs ≫= λ c, mm2s c mem.

(** The memory after the stream [bs] was received, and the statuses. *)
Fixpoint received `{DataMover} (cs : list DatamoverCommand) (bs : list Z) (mem : memory) :
    memory * list IbttStatus :=
  match cs with
  | [] => (mem, [])
  | c :: cs =>
      let '(mem, s) := s2mm c bs mem in
      let '(mem, ss) := received cs (drop (Z.to_nat (transfer_bytes c)) bs) mem in
      (mem, s :: ss)
  end.

(** ** Ranges of memory *)

Lemma fetch_app mem a n1 n2 : 0 ≤ n1 → 0 ≤ n2 →
  fetch mem a (n1 + n2) = fetch mem a n1 ++ fetch mem (a + n1) n2.
Proof.
  intros. unfold fetch. rewrite seqZ_app, fmap_app by lia. f_equal.
  apply list_eq. intros i. rewrite !list_lookup_fmap.
  destruct (decide (Z.of_nat i < n2)).
  - rewrite !lookup_seqZ_lt by lia. cbn. do 2 f_equal. lia.
  - by rewrite !lookup_seqZ_ge by lia.
Qed.

Lemma fetch_length mem a n : 0 ≤ n → Z.of_nat (length (fetch mem a n)) = n.
Proof. intros. unfold fetch. rewrite length_fmap, length_seqZ. lia. Qed.

Lemma fetch_nonempty mem a n : 0 < n → fetch mem a n ≠ [].
Proof.
  intros Hn E. pose proof (fetch_length mem a n ltac:(lia)) as Hl. rewrite E in Hl. cbn in Hl. lia.
Qed.

Lemma fetch_ext mem mem' a n : (∀ x, mem' x = mem x) → fetch mem' a n = fetch mem a n.
Proof. intros Hm. apply list_fmap_ext. intros. apply Hm. Qed.

Lemma fetch_range mem mem' a n :
  (∀ x, a ≤ x < a + n → mem' x = mem x) → fetch mem' a n = fetch mem a n.
Proof.
  intros Hm. unfold fetch. apply list_fmap_ext. intros i x Hx.
  apply lookup_seqZ in Hx as [-> ?]. apply Hm. lia.
Qed.

Lemma fetch_is mem a bs :
  (∀ x, 0 ≤ x < Z.of_nat (length bs) → mem (a + x) = nth (Z.to_nat x) bs 0) →
  fetch mem a (Z.of_nat (length bs)) = bs.
Proof.
  intros Hm. apply list_eq. intros i. unfold fetch. rewrite list_lookup_fmap.
  destruct (decide (i < length bs)%nat) as [Hi|Hi].
  - rewrite lookup_seqZ_lt by lia. cbn. rewrite Hm, nth_lookup by lia.
    replace (Z.to_nat (0 + Z.of_nat i)) with i by lia.
    by destruct (lookup_lt_is_Some_2 bs i Hi) as [b Hb]; rewrite Hb.
  - by rewrite lookup_seqZ_ge, lookup_ge_None_2 by lia.
Qed.

Lemma fetch_store mem a bs : fetch (store mem a bs) a (Z.of_nat (length bs)) = bs.
Proof.
  apply fetch_is. intros x Hx. unfold store.
  destruct (Z.leb_spec a (a + x)), (Z.ltb_spec (a + x) (a + Z.of_nat (length bs))); try lia.
  cbn [andb]. do 2 f_equal. lia.
Qed.

Lemma store_outside mem a bs x :
  ¬ (a ≤ x < a + Z.of_nat (length bs)) → store mem a bs x = mem x.
Proof.
  intros Hx. unfold store.
  destruct (Z.leb_spec a x), (Z.ltb_spec x (a + Z.of_nat (length bs))); try done. lia.
Qed.

(** Storing a stream in two parts. *)
Lemma store_app mem a n bs x : (n ≤ length bs)%nat →
  store (store mem a (take n bs)) (a + Z.of_nat n) (drop n bs) x = store mem a bs x.
Proof.
  intros Hn. unfold store. rewrite length_take, length_drop.
  rewrite !nth_lookup, lookup_drop.
  destruct (Z.leb_spec a x), (Z.ltb_spec x (a + Z.of_nat (length bs))),
    (Z.leb_spec (a + Z.of_nat n) x), (Z.ltb_spec x (a + Z.of_nat n + Z.of_nat (length bs - n))),
    (Z.ltb_spec x (a + Z.of_nat (n `min` length bs))); try lia; cbn [andb]; try done.
  - do 2 f_equal. lia.
  - rewrite lookup_take_lt by lia. done.
Qed.

(** ** A transfer whose pieces land in one range of addresses *)

Lemma pieces_impl `{MemBus} (P Q : Z → Z → Prop) transfer l : ∀ bt, 0 ≤ bt →
  (∀ o a, a_addr transfer ≤ o < a_addr transfer + a_size transfer → P o a → Q o a) →
  pieces_ok P transfer bt l → pieces_ok Q transfer bt l.
Proof.
  induction l as [|x l IH]; intros bt Hbt HPQ; cbn [pieces_ok]; [done|].
  intros (H1 & H2 & H3 & H4 & H5 & H6 & H7 & H8). split_and!; try done.
  - apply HPQ; [lia|done].
  - apply IH; [lia|done..].
Qed.

(** The address the DataMover is given for address [a] of a kind of memory. *)
Definition device_of (t : AddressType) (a : Z) : Z :=
  match t with ATCardDRAM | ATNVMe => a +ᵤ DRAMBaseOffset | _ => a end.

(** The command for a piece, as both channels issue it. *)
Definition command (x : TransferElement) : DatamoverCommand :=
  issue_block_transfer_command (t_size x) (t_last x) (device_address x).

Section Channels.
Context `{MemBus} (nvme_enabled : bool) (transfer : Address) (base : Z).
Context {channels : DataMover} {laws : DataMoverLaws}.

(** A piece for byte [o] is sent to the range from [base] on, with room for its
    block. *)
Definition lands (o a : Z) : Prop :=
  let d := base + (o - a_addr transfer) in
  device_of (a_type transfer) a = d ∧ 0 ≤ d ∧
  d - o mod StorageBlockSize + StorageBlockSize ≤ 2 ^ 64.

(** The transfer is cut into such pieces. *)
Definition reaches (T : TransferType) (m : maps) : Prop :=
  ∃ l nv m', issue_partial_transfers nvme_enabled T transfer m = Ok (l, nv, m') ∧
    pieces_ok lands transfer 0 l.

Lemma command_run bt x l : 0 ≤ bt → pieces_ok lands transfer bt (x :: l) →
  regular (command x) ∧ effective_address (command x) = base + bt ∧
  transfer_bytes (command x) = t_size x.
Proof.
  intros Hbt (H1 & _ & H3 & _ & H5 & _ & (H7 & H8 & H9) & _).
  pose proof block_size_pos as HB. set (o := a_addr transfer + bt) in *.
  pose proof (Z.mod_pos_bound o StorageBlockSize HB).
  assert (StorageBlockSize < 2 ^ 23) by done.
  replace (o - a_addr transfer) with bt in * by lia.
  assert (device_address x = base + bt) as Hd by (unfold device_address; by rewrite H5, <-H7).
  unfold command, issue_block_transfer_command, regular. rewrite Hd.
  cbn [axi_burst_type transfer_bytes effective_address].
  rewrite u64_small by (unfold in_u64; lia). rewrite (wrap_small 23) by lia.
  split_and!; done || lia.
Qed.

(** The read channel sends the bytes of the range. *)
Lemma sent_pieces mem l : ∀ bt, 0 ≤ bt → pieces_ok lands transfer bt l →
  sent (command <$> l) mem = fetch mem (base + bt) (a_size transfer - bt).
Proof.
  induction l as [|x l IH]; intros bt Hbt Hok.
  - cbn in Hok. subst bt. by rewrite Z.sub_diag.
  - destruct (command_run bt x l Hbt Hok) as (Hreg & Ha & Hs).
    destruct Hok as (H1 & H2 & _ & _ & _ & _ & _ & Hok).
    unfold sent in *. cbn [fmap list_fmap mbind list_bind].
    rewrite (IH (bt + t_size x)) by (done || lia).
    rewrite (mm2s_law _ _ Hreg), Ha, Hs.
    replace (a_size transfer - bt) with (t_size x + (a_size transfer - (bt + t_size x))) by lia.
    rewrite fetch_app by lia. do 2 f_equal. lia.
Qed.

(** What is passed on keeps the types and the mark of the last element. *)
Definition passed (l : list TransferElement) : Prop :=
  until_last l = Ok l ∧ Forall (λ x, t_type x = a_type transfer) l.

Lemma passed_pieces (P : Z → Z → Prop) l :
  ∀ bt, bt < a_size transfer → pieces_ok P transfer bt l → passed l.
Proof.
  induction l as [|x l IH]; intros bt Hbt; cbn [pieces_ok]; [lia|].
  intros (H1 & H2 & _ & _ & H5 & H6 & _ & H8).
  case_bool_decide as E; unfold passed; cbn [until_last]; rewrite H6.
  - destruct l as [|y l]; [split; [done|by constructor]|].
    destruct H8 as (? & ? & _). cbn in *. lia.
  - destruct (IH (bt + t_size x)) as [-> Hl]; [lia|done|]. split; [done|by constructor].
Qed.

Lemma passed_zeroed l : passed l → passed (zeroed <$> l).
Proof.
  intros [Hu Hty]. split; [|by apply Forall_fmap].
  clear Hty. induction l as [|x l IH]; [done|]. rewrite fmap_cons. cbn [until_last zeroed t_last] in *.
  destruct (t_last x).
  - by injection Hu as <-.
  - destruct (until_last l) as [l'|]; [|done]. injection Hu as ->. by rewrite IH.
Qed.

Lemma no_nvme_commands l is_empty nv : a_type transfer ≠ ATNVMe → passed l →
  nvme_commands is_empty l nv = Ok [] ∧ count_nvme l = 0%nat.
Proof.
  intros Hn [_ Hty]. unfold count_nvme. induction Hty as [|x l Hx _ [IH1 IH2]]; [done|].
  assert (t_type x ≠ ATNVMe) by congruence.
  cbn [nvme_commands]. rewrite filter_cons, decide_False by done.
  by rewrite bool_decide_eq_false_2.
Qed.

Lemma ended_run l statuses tmp : until_last l = Ok l →
  from_stream_loop l statuses true tmp = Ok ([], zeroed <$> l, tmp).
Proof.
  revert tmp. induction l as [|x l IH]; intros tmp Hl; [done|].
  cbn [until_last] in Hl. cbn [from_stream_loop negb].
  unfold mbind at 1, result_bind at 1, mret at 1, result_ret at 1.
  destruct (t_last x) eqn:Ex.
  - injection Hl as <-. unfold zeroed. cbn. by rewrite Ex.
  - destruct (until_last l) as [l'|]; [|done]. injection Hl as ->.
    rewrite IH by done. rewrite fmap_cons. unfold zeroed at 2. by rewrite Ex.
Qed.

(** A round that still receives, and one that ends the packet. *)
Lemma from_stream_last x l status tmp bs :
  end_of_packet status = true → wrap 23 (num_bytes_transferred status) = bs →
  tmp +ᵤ bs = tmp + bs → passed (x :: l) →
  from_stream_loop (x :: l) [status] false tmp =
    Ok ([command x], x :: (if t_last x then [] else zeroed <$> l), tmp + bs).
Proof.
  intros He Hb Ht [Hu _]. unfold command. cbn [from_stream_loop negb]. unfold mbind, result_bind, mret, result_ret.
  rewrite Hb, Ht, He. destruct (t_last x) eqn:Ex; [done|].
  cbn [until_last] in Hu. rewrite Ex in Hu.
  destruct (until_last l) as [l'|] eqn:El; [|done]. injection Hu as ->.
  by rewrite (ended_run _ _ _ El).
Qed.

Lemma from_stream_more x l status statuses tmp bs cmds out size' :
  end_of_packet status = false → wrap 23 (num_bytes_transferred status) = bs →
  tmp +ᵤ bs = tmp + bs → t_last x = false →
  from_stream_loop l statuses false (tmp + bs) = Ok (cmds, out, size') →
  from_stream_loop (x :: l) (status :: statuses) false tmp =
    Ok (command x :: cmds, x :: out, size').
Proof.
  intros He Hb Ht Ex Hl. unfold command. cbn [from_stream_loop negb]. unfold mbind, result_bind, mret, result_ret.
  by rewrite Hb, Ht, He, Ex, Hl.
Qed.

Lemma passed_cons x l : t_type x = a_type transfer → t_last x = false → passed l → passed (x :: l).
Proof.
  intros Ht Hx [Hu Hl]. split; [|by constructor]. cbn [until_last]. by rewrite Hx, Hu.
Qed.

Lemma store_ext mem mem' a bs x : (∀ y, mem y = mem' y) → store mem a bs x = store mem' a bs x.
Proof. intros Hm. unfold store. by rewrite Hm. Qed.

(** The write channel stores the stream over the bytes of the file. What is issued
    and answered does not depend on what the memory holds. *)
Lemma received_pieces l : ∀ bt bs tmp,
  0 ≤ bt → pieces_ok lands transfer bt l →
  bs ≠ [] → Z.of_nat (length bs) ≤ a_size transfer - bt → 0 ≤ tmp → tmp + Z.of_nat (length bs) < 2 ^ 64 →
  ∃ cmds out statuses,
    from_stream_loop l statuses false tmp = Ok (cmds, out, tmp + Z.of_nat (length bs)) ∧ passed out ∧
    (Z.of_nat (length bs) = a_size transfer - bt → out = l ∧ cmds = command <$> l) ∧
    ∀ mem, ∃ mem', received cmds bs mem = (mem', statuses) ∧ ∀ y, mem' y = store mem (base + bt) bs y.
Proof.
  induction l as [|x l IH]; intros bt bs tmp Hbt Hok Hne Hn Htmp Hsum;
    (assert (0 < length bs)%nat by (by destruct bs; [|cbn; lia])); [cbn in Hok; lia|].
  destruct (command_run bt x l Hbt Hok) as (Hreg & Ha & Hs).
  assert (t_type x = a_type transfer) as Hx by apply Hok.
  pose proof (passed_pieces _ _ bt ltac:(lia) Hok) as Hp.
  destruct Hok as (Q1 & Q2 & Q3 & _ & Q5 & Q6 & _ & Hok).
  assert (t_size x < 2 ^ 23) as Hsmall.
  { assert (StorageBlockSize < 2 ^ 23) by done. pose proof block_size_pos.
    pose proof (Z.mod_pos_bound (a_addr transfer + bt) StorageBlockSize ltac:(lia)). lia. }
  assert (∀ mem,
    (s2mm (command x) bs mem).2 = Ibtt (Z.of_nat (Z.to_nat (t_size x) `min` length bs))
      (bool_decide (Z.of_nat (length bs) ≤ t_size x)) ∧
    ∀ y, (s2mm (command x) bs mem).1 y = store mem (base + bt) (take (Z.to_nat (t_size x)) bs) y) as Hlaw
    by (intros mem; rewrite <-length_take, <-Hs, <-Ha; by apply s2mm_law).
  destruct (decide (Z.of_nat (length bs) ≤ t_size x)) as [Hle|Hgt].
  - rewrite bool_decide_eq_true_2 in Hlaw by done. rewrite take_ge in Hlaw by lia.
    exists [command x], (x :: (if t_last x then [] else zeroed <$> l)).
    exists [Ibtt (Z.of_nat (Z.to_nat (t_size x) `min` length bs)) true].
    split; [apply from_stream_last; [done|cbn; rewrite Nat.min_r by lia; apply wrap_small; lia|
      apply u64_small; unfold in_u64; lia|done]|]. split; [|split].
    2: { intros Hall. assert (t_last x = true) as -> by (rewrite Q6; apply bool_decide_eq_true; lia).
         destruct l as [|y l]; [done|]. destruct Hok as (? & ? & _). lia. }
    2: { intros mem. destruct (Hlaw mem) as [Hst Hmem]. exists (s2mm (command x) bs mem).1.
         split; [|exact Hmem]. cbn [received]. rewrite <-Hst. by destruct (s2mm (command x) bs mem). }
    destruct (t_last x) eqn:Ex; [split; [cbn; by rewrite Ex|by constructor]|].
    apply passed_cons; [done|done|]. apply passed_zeroed. destruct Hp as [Hu Hnot].
    apply Forall_cons in Hnot as [_ Hnot]. cbn [until_last] in Hu. rewrite Ex in Hu.
    destruct (until_last l) as [l'|] eqn:El; [|done]. injection Hu as ->. by split.
  - rewrite bool_decide_eq_false_2 in Hlaw by done.
    assert (t_last x = false) as Ex by (rewrite Q6; apply bool_decide_eq_false_2; lia).
    set (t := Z.to_nat (t_size x)) in *.
    destruct (IH (bt + t_size x) (drop t bs) (tmp + t_size x))
      as (cmds & out & statuses & Hl & Ho & Hall & Hrest); [lia|done| |rewrite ?length_drop; lia..|].
    { intros Hd%(f_equal length). rewrite length_drop in Hd. cbn in Hd. lia. }
    rewrite length_drop in Hl.
    replace (tmp + t_size x + Z.of_nat (length bs - t)) with (tmp + Z.of_nat (length bs)) in Hl by lia.
    exists (command x :: cmds), (x :: out), (Ibtt (Z.of_nat (t `min` length bs)) false :: statuses).
    split; [apply from_stream_more with (t_size x); [done|cbn; rewrite Nat.min_l by lia; rewrite wrap_small by lia; lia|
      apply u64_small; unfold in_u64; lia|done|exact Hl]|].
    split; [by apply passed_cons|].
    split; [intros Hb; destruct Hall as [-> ->]; [rewrite length_drop; lia|done]|].
    intros mem. destruct (Hlaw mem) as [Hst Hmem]. destruct (Hrest (s2mm (command x) bs mem).1) as (mem2 & Hr & Hm).
    exists mem2. split.
    { cbn [received]. rewrite <-Hst. destruct (s2mm (command x) bs mem) as [mem1 st]. cbn [fst snd] in *.
      rewrite Hs. fold t. by rewrite Hr. }
    intros y. rewrite Hm, (store_ext _ _ _ _ _ Hmem).
    rewrite <-(store_app mem _ t bs) by lia. f_equal. lia.
Qed.

Lemma write_nvme_none l nv : a_type transfer ≠ ATNVMe → passed l → write_nvme_data nvme_enabled l nv = Ok [].
Proof.
  intros Hn Hl. unfold write_nvme_data. rewrite (proj1 Hl). cbn.
  destruct nvme_enabled; [|done]. destruct (no_nvme_commands l false nv Hn Hl) as [-> ->]. done.
Qed.

Lemma load_nvme_none l nv : a_type transfer ≠ ATNVMe → passed l → load_nvme_data nvme_enabled l nv = Ok (l, []).
Proof.
  intros Hn Hl. unfold load_nvme_data. rewrite (proj1 Hl). cbn.
  destruct nvme_enabled; [|done]. destruct (no_nvme_commands l true nv Hn Hl) as [-> ->]. done.
Qed.

(** The writing half, with the channel's answers. *)
Lemma op_mem_write_run bs m :
  a_type transfer = ATHost ∨ a_type transfer = ATCardDRAM → a_size transfer < 2 ^ 63 →
  reaches Write m → bs ≠ [] → Z.of_nat (length bs) ≤ a_size transfer →
  ∃ statuses issued m',
    op_mem_write nvme_enabled transfer statuses m = Ok (issued, Z.of_nat (length bs), m') ∧
    i_nvme issued = [] ∧
    ∀ mem, ∃ mem', received (i_dm issued) bs mem = (mem', statuses) ∧ ∀ y, mem' y = store mem base bs y.
Proof.
  intros Hty Hsz (l & nv & m' & Hi & Hok) Hne Hlen.
  assert (a_type transfer ≠ ATNVMe) as Hn by (intros E; rewrite E in Hty; naive_solver).
  destruct (received_pieces l 0 bs 0 ltac:(lia) Hok Hne ltac:(lia) ltac:(lia) ltac:(lia))
    as (cmds & out & statuses & Hl & Hp & _ & Hm).
  exists statuses, (Issued [] cmds), m'. rewrite Z.add_0_r in Hm.
  assert (write_data nvme_enabled transfer statuses m = Ok (Issued [] cmds, Z.of_nat (length bs), m')) as E.
  { unfold write_data, transfer_from_stream. rewrite Hi. cbn [mbind result_bind]. rewrite Hl.
    cbn [mbind result_bind]. by rewrite (write_nvme_none _ _ Hn Hp). }
  unfold op_mem_write. destruct Hty as [-> | ->]; by rewrite E.
Qed.

(** The reading half. *)
Lemma op_mem_read_run random_ctrl mem m r :
  a_type transfer = ATHost ∨ a_type transfer = ATCardDRAM → reaches Read m → 0 < a_size transfer →
  ∃ issued m', op_mem_read nvme_enabled random_ctrl transfer m r = Ok (issued, m', r) ∧
    i_nvme issued = [] ∧ sent (i_dm issued) mem = fetch mem base (a_size transfer).
Proof.
  intros Hty (l & nv & m' & Hi & Hok) Hsz.
  assert (a_type transfer ≠ ATNVMe ∧ a_type transfer ≠ ATRandom) as [Hn Hr]
    by (split; intros E; rewrite E in Hty; naive_solver).
  pose proof (passed_pieces _ l 0 ltac:(lia) Hok) as Hp.
  exists (Issued [] (command <$> l)), m'. cbn [i_dm i_nvme]. split; [|split; [done|]].
  - unfold op_mem_read. rewrite decide_False by done. unfold load_data. rewrite Hi.
    cbn [mbind result_bind]. rewrite (load_nvme_none _ _ Hn Hp). cbn [mbind result_bind].
    by rewrite (to_stream_run _ _ (proj1 Hp)).
  - rewrite (sent_pieces mem l 0) by done. by rewrite Z.add_0_r, Z.sub_0_r.
Qed.
End Channels.

(** ** Host memory, and a range of a file inside one extent *)

(** The transfer of [n] bytes of host memory from address [a] on. *)
Definition in_host (a n : Z) : Address := MkAddress a n ATHost MTNone.

Lemma host_reached `{MemBus} nvme_enabled T a n m :
  0 ≤ a → 0 < n → a + n < 2 ^ 63 → reaches nvme_enabled (in_host a n) a T m.
Proof.
  intros Ha Hn Han.
  destruct (issue_cover nvme_enabled T (in_host a n) m) as (l & nv & m' & Hi & Hok);
    [by split_and!; cbn; lia|].
  exists l, nv, m'. split; [done|]. revert Hok. apply pieces_impl; [done|].
  intros o d Ho Hd. cbn [in_host a_addr a_size a_map a_type] in *. unfold lands. cbn.
  rewrite (Hd eq_refl). pose proof (Z.div_mod o StorageBlockSize ltac:(done)) as E.
  pose proof (Z.mod_pos_bound o StorageBlockSize ltac:(done)).
  assert (o / StorageBlockSize < 2 ^ 45) by (apply Z.div_lt_upper_bound; [done|]; change (StorageBlockSize * 2 ^ 45) with (2 ^ 63); lia).
  change StorageBlockSize with 262144 in *. lia.
Qed.

(** Where byte [o] of the file is in the card's memory. *)
Definition byte_address (addr p o : Z) : Z :=
  DRAMBaseOffset + ((p - addr / StorageBlockSize) * StorageBlockSize + o).

(** The transfer of [n] bytes of a mapped file from byte [addr] on. *)
Definition on_card (addr n : Z) : Address := MkAddress addr n ATCardDRAM MTDRAM.

Section OnCard.
Context `{MemBus} (nvme_enabled : bool).
Context (extents : list (Z * Z)) (addr size : Z) (e : nat) (p b c : Z).
Context (Haddr : 0 ≤ addr) (Hend : addr + size < 2 ^ 63).
Context (Hplaced : placed extents addr size e p b c).
Context {channels : DataMover} {laws : DataMoverLaws}.

Lemma byte_address_inside o : Forall (λ x, 0 ≤ x.1 ∧ 0 ≤ x.2 ∧ x.1 + x.2 < 2 ^ 64) extents →
  addr ≤ o < addr + size →
  translate extents (o / StorageBlockSize) = Some (e, p + (o / StorageBlockSize - addr / StorageBlockSize)) ∧
  b * StorageBlockSize ≤ byte_address addr p o - DRAMBaseOffset < (b + c) * StorageBlockSize ∧ 0 ≤ b.
Proof.
  intros Hall Ho. destruct Hplaced as [Hf Hx Hl _]. pose proof block_size_pos as HB.
  assert (0 ≤ addr / StorageBlockSize ≤ o / StorageBlockSize ∧
          o / StorageBlockSize ≤ (addr + size - 1) / StorageBlockSize) as [Hd1 Hd2].
  { split; [split; [by apply Z.div_pos|]|]; apply Z.div_le_mono; lia. }
  destruct (translate_shift extents (addr / StorageBlockSize) e p b c
    (o / StorageBlockSize - addr / StorageBlockSize)) as [Ht Hb]; [done..|lia|lia|lia|].
  split; [by rewrite <-Ht; f_equal; lia|].
  pose proof (Forall_lookup_1 _ _ _ _ Hall Hx) as Hnn. simpl in Hnn.
  split; [|lia]. unfold byte_address.
  pose proof (Z.div_mod o StorageBlockSize ltac:(lia)). pose proof (Z.mod_pos_bound o _ HB). nia.
Qed.

(** The range lies in the blocks of the extent, above host memory. *)
Lemma card_range_inside x : Forall (λ x, 0 ≤ x.1 ∧ 0 ≤ x.2 ∧ x.1 + x.2 < 2 ^ 64) extents →
  byte_address addr p addr ≤ x < byte_address addr p addr + size →
  b * StorageBlockSize ≤ x - DRAMBaseOffset < (b + c) * StorageBlockSize ∧ 0 ≤ b.
Proof.
  intros Hall Hx. destruct (byte_address_inside (x - byte_address addr p addr + addr) Hall
    ltac:(lia)) as (_ & Hb & ?).
  split; [|done]. unfold byte_address in Hb, Hx |- *. lia.
Qed.

(** The pieces of a transfer go where the bytes are. *)
Lemma card_reached T n m : represents (dram_map m) extents → 0 < n ≤ size →
  reaches nvme_enabled (on_card addr n) (byte_address addr p addr) T m.
Proof.
  intros Hrep Hn. destruct (placed_shorter _ _ _ n _ _ _ _ Hplaced ltac:(lia)) as [Hf Hx Hl Hsm].
  assert (in_range (on_card addr n)) as Hr by (split_and!; cbn; lia).
  destruct (issue_translate nvme_enabled T (on_card addr n) m extents e p b c)
    as (l & nv & m' & Hi & Hok); try done; [cbn; lia|].
  exists l, nv, m'. split; [done|]. revert Hok. apply pieces_impl; [done|].
  intros o a Ho (e' & p' & Ht & ->). cbn [on_card a_addr a_size] in Ho.
  destruct (byte_address_inside o (rep_nonneg _ _ Hrep) ltac:(lia)) as (Ht' & Hin & Hb).
  rewrite Ht' in Ht. injection Ht as <- <-. pose proof block_size_pos as HB.
  unfold lands, byte_address in *. cbn [on_card a_addr a_type device_of]. pose proof (Z.div_mod o StorageBlockSize ltac:(lia)).
  pose proof (Z.mod_pos_bound o StorageBlockSize HB).
  set (first := addr / StorageBlockSize) in *. set (q := o / StorageBlockSize) in *.
  assert (p + (q - first) < b + c).
  { assert (q ≤ (addr + n - 1) / StorageBlockSize) by (apply Z.div_le_mono; lia).
    cbn in Hl. lia. }
  assert ((p + (q - first) + 1) * StorageBlockSize ≤ 2 ^ 63).
  { etransitivity; [|exact Hsm]. apply Z.mul_le_mono_nonneg_r; lia. }
  unfold DRAMBaseOffset in *. rewrite u64_small by (unfold in_u64; nia). nia.
Qed.

(** C18: what a pipeline writes to a range of a file in the card's memory that
    lies in one extent is what a pipeline reads there afterwards: the write ends
    with the stream, even if the stream is shorter than the range, reports its
    length, leaves every byte of memory outside the extent alone, and the read
    sends exactly the bytes that were written. *)
Theorem card_write_then_read bs mem m_write m_read random_ctrl r :
  represents (dram_map m_write) extents → represents (dram_map m_read) extents →
  bs ≠ [] → Z.of_nat (length bs) ≤ size →
  ∃ statuses written m_write' mem' read m_read',
    op_mem_write nvme_enabled (on_card addr size) statuses m_write
      = Ok (written, Z.of_nat (length bs), m_write') ∧
    received (i_dm written) bs mem = (mem', statuses) ∧
    (∀ x, ¬ (b * StorageBlockSize ≤ x - DRAMBaseOffset < (b + c) * StorageBlockSize) →
       mem' x = mem x) ∧
    op_mem_read nvme_enabled random_ctrl (on_card addr (Z.of_nat (length bs))) m_read r
      = Ok (read, m_read', r) ∧
    sent (i_dm read) mem' = bs.
Proof.
  intros Hw Hr Hne Hlen. assert (0 < length bs)%nat by (by destruct bs; [|cbn; lia]).
  destruct (op_mem_write_run nvme_enabled (on_card addr size) _ bs m_write (or_intror eq_refl)
    ltac:(cbn; lia) (card_reached Write size m_write Hw ltac:(lia)) Hne Hlen)
    as (statuses & written & mw' & Ew & _ & Hmem). destruct (Hmem mem) as (mem' & Er & Hm).
  destruct (op_mem_read_run nvme_enabled (on_card addr (Z.of_nat (length bs))) _ random_ctrl mem' m_read r
    (or_intror eq_refl) (card_reached Read (Z.of_nat (length bs)) m_read Hr ltac:(lia)) ltac:(cbn [on_card a_size]; lia))
    as (read & mr' & Ed & _ & Es).
  exists statuses, written, mw', mem', read, mr'. split_and!; try done.
  - intros x Hx. rewrite Hm. apply store_outside. intros Hin. apply Hx.
    apply (card_range_inside _ (rep_nonneg _ _ Hr)). lia.
  - rewrite Es, (fetch_ext _ _ _ _ Hm). apply fetch_store.
Qed.
End OnCard.

(** A DataMover as its guide describes it. *)
#[export] Instance reference_datamover : DataMover := {
  mm2s c mem := fetch mem (effective_address c) (transfer_bytes c);
  s2mm c bs mem :=
    let stored := take (Z.to_nat (transfer_bytes c)) bs in
    (store mem (effective_address c) stored,
     Ibtt (Z.of_nat (length stored)) (bool_decide (Z.of_nat (length bs) ≤ transfer_bytes c)));
}.

#[export] Instance reference_datamover_laws : DataMoverLaws (H := reference_datamover).
Proof. by split. Qed.

#[local] Existing Instance Demo.bus.

(** Five bytes over the end of the first block of a file in the blocks 10 and 11. *)
Lemma card_write_then_read_witness :
  let m := Transfers.Demo.both in
  ∃ statuses written m' mem' read m_read',
    op_mem_write true (MkAddress 262140 100 ATCardDRAM MTDRAM) statuses m = Ok (written, 5, m') ∧
    received (i_dm written) [1; 2; 3; 4; 5] (λ _, 0) = (mem', statuses) ∧
    (∀ x, ¬ (10 * StorageBlockSize ≤ x - DRAMBaseOffset < 12 * StorageBlockSize) → mem' x = 0) ∧
    op_mem_read true 0 (MkAddress 262140 5 ATCardDRAM MTDRAM) m (λ _, 0)
      = Ok (read, m_read', λ _, 0) ∧
    sent (i_dm read) mem' = [1; 2; 3; 4; 5].
Proof.
  apply (card_write_then_read true Transfers.Demo.two 262140 100 0 10 10 2
    ltac:(lia) ltac:(lia) ltac:(by split) [1; 2; 3; 4; 5] (λ _, 0)
    Transfers.Demo.both Transfers.Demo.both 0 (λ _, 0)); try done.
  all: apply Transfers.Demo.two_represented.
Defined.
End Card.
