(* ===== verification/NvmeMemory.v ===== *)
(** * What transfers do to the NVMe drive

    A file on the NVMe storage is read and written through a page file in the
    card's memory: every piece of a transfer has a block of the page file and a
    block of the drive, and the NVMe controller copies whole blocks between the
    two. The controller is an IP core; its two channels are the class
    [NVMeController], and [NVMeLaws] is what its guide (the NVMe.md that
    mtl_op_mem.h names) promises: a command copies [num_blocks + 1] blocks of 512
    bytes between the drive and the card's memory, which the controller sees from
    [NVMeDRAMBaseOffset] on. Module [Nvme] shows that what the action writes to
    such a file is what it reads from it later, in whatever order the controller
    and the DataMover get on with their commands. *)
From S2P Require Import Prelude Tiling Endian Extmap OpMem TransferProofs CardMemory.

Module Nvme.
Import Extmap OpMem Transfers Card.

(** The bytes of the drive. *)
Definition disk : Type := Z → Z.

Class NVMeController := {
  nvme_load : NVMeCommand → disk → memory → memory;
  nvme_store : NVMeCommand → memory → disk → disk;
}.

(** The ranges a command names: on the drive, and in the card's memory as the
    DataMover addresses it. *)
Definition disk_address (c : NVMeCommand) : Z := nvme_block_offset c * 512.
Definition card_address (c : NVMeCommand) : Z := DRAMBaseOffset + (dram_offset c - NVMeDRAMBaseOffset).
Definition command_bytes (c : NVMeCommand) : Z := (num_blocks_0 c + 1) * 512.

(** A command inside the card's memory, for the first drive. *)
Definition block_regular (c : NVMeCommand) : Prop :=
  drive c = 0 ∧ 0 ≤ nvme_block_offset c ∧ 0 ≤ num_blocks_0 c ∧
  NVMeDRAMBaseOffset ≤ dram_offset c ∧ card_address c + command_bytes c ≤ 2 ^ 64.

Class NVMeLaws `{NVMeController} : Prop := {
  nvme_load_law c d mem : block_regular c → ∀ x,
    nvme_load c d mem x =
      store mem (card_address c) (fetch d (disk_address c) (command_bytes c)) x;
  nvme_store_law c mem d : block_regular c → ∀ x,
    nvme_store c mem d x =
      store d (disk_address c) (fetch mem (card_address c) (command_bytes c)) x;
  (* any command: the controller's port leads to the card's memory only *)
  nvme_load_host c d mem x : x < DRAMBaseOffset → nvme_load c d mem x = mem x;
}.

(** ** The two engines at work *)

(** A transfer to the drive: the commands of the DataMover and of the controller
    still to be carried out, the rest of the stream. A block is stored when its
    piece has arrived, the engines are otherwise independent. The statuses of the
    DataMover, the memory and the drive in the end. *)
Inductive persists `{DataMover, NVMeController} :
    list DatamoverCommand → list NVMeCommand → list Z → memory → disk →
    list IbttStatus → memory → disk → Prop :=
  | persists_end bs mem d : persists [] [] bs mem d [] mem d
  | persists_receive c cs ns bs mem d ss mem' d' :
      persists cs ns (drop (Z.to_nat (transfer_bytes c)) bs) (s2mm c bs mem).1 d ss mem' d' →
      persists (c :: cs) ns bs mem d ((s2mm c bs mem).2 :: ss) mem' d'
  | persists_store cs n ns bs mem d ss mem' d' :
      (length cs ≤ length ns)%nat →
      persists cs ns bs mem (nvme_store n mem d) ss mem' d' →
      persists cs (n :: ns) bs mem d ss mem' d'.

(** A transfer from the drive, the stream it sends and the memory in the end: a
    piece is sent when its block was loaded. *)
Inductive delivers `{DataMover, NVMeController} (d : disk) :
    list NVMeCommand → list DatamoverCommand → memory → list Z → memory → Prop :=
  | delivers_end mem : delivers d [] [] mem [] mem
  | delivers_load n ns cs mem out mem' :
      delivers d ns cs (nvme_load n d mem) out mem' → delivers d (n :: ns) cs mem out mem'
  | delivers_send ns c cs mem out mem' :
      (length ns ≤ length cs)%nat →
      delivers d ns cs mem out mem' → delivers d ns (c :: cs) mem (mm2s c mem ++ out) mem'.

Section Engines.
Context {channels : DataMover} {controller : NVMeController}.

(** The stores of the controller do not disturb what the DataMover receives. *)
Lemma persists_received cs ns bs mem d ss mem' d' :
  persists cs ns bs mem d ss mem' d' → received cs bs mem = (mem', ss).
Proof.
  induction 1 as [|c cs ns bs mem d ss mem' d' _ IH|]; [done| |done].
  cbn [received]. destruct (s2mm c bs mem) as [m1 s]. cbn [fst snd] in *. by rewrite IH.
Qed.

(** First everything is received, then everything stored. *)
Lemma persists_exists cs ns :
  ∀ bs mem d, ∃ ss mem' d', persists cs ns bs mem d ss mem' d'.
Proof.
  assert (∀ bs mem d, ∃ mem' d', persists [] ns bs mem d [] mem' d') as Hs.
  { induction ns as [|n ns IH]; intros bs mem d; [do 2 eexists; constructor|].
    destruct (IH bs mem (nvme_store n mem d)) as (mem' & d' & Hp).
    exists mem', d'. constructor; [cbn; lia|done]. }
  induction cs as [|c cs IH]; intros bs mem d.
  - destruct (Hs bs mem d) as (? & ? & ?). eauto.
  - destruct (IH (drop (Z.to_nat (transfer_bytes c)) bs) (s2mm c bs mem).1 d) as (ss & mem' & d' & Hp).
    exists ((s2mm c bs mem).2 :: ss), mem', d'. by constructor.
Qed.

Lemma delivers_exists d cs ns : ∀ mem, ∃ out mem', delivers d ns cs mem out mem'.
Proof.
  induction ns as [|n ns IH]; intros mem.
  - induction cs as [|c cs (out & mem' & IH)]; [do 2 eexists; constructor|].
    exists (mm2s c mem ++ out), mem'. constructor; [cbn; lia|done].
  - destruct (IH (nvme_load n d mem)) as (out & mem' & Ho). exists out, mem'. by constructor.
Qed.

(** Without commands for the controller the DataMover works alone. *)
Lemma delivers_alone d ns cs mem out mem' : delivers d ns cs mem out mem' → ns = [] →
  out = sent cs mem ∧ mem' = mem.
Proof.
  induction 1 as [mem| |ns c cs mem out mem' _ _ IH]; intros Hns; [done|done|].
  destruct (IH Hns) as [-> ->]. done.
Qed.

Lemma persists_alone cs ns bs mem d ss mem' d' : persists cs ns bs mem d ss mem' d' → ns = [] →
  d' = d.
Proof. by induction 1; intros; auto. Qed.

(** What the controller loads does not reach the host. *)
Lemma delivers_host `{!NVMeLaws} d ns cs mem out mem' x :
  delivers d ns cs mem out mem' → x < DRAMBaseOffset → mem' x = mem x.
Proof.
  induction 1 as [mem|n ns cs mem out mem' _ IH|]; intros Hx; auto.
  rewrite IH by done. by apply nvme_load_host.
Qed.
End Engines.

(** ** The pieces of a transfer and their blocks *)

Lemma store_fetch mem mem' a a' n x : 0 ≤ n →
  store mem a (fetch mem' a' n) x =
    if decide (a ≤ x < a + n) then mem' (a' + (x - a)) else mem x.
Proof.
  intros Hn. case_decide as Hx.
  - unfold store. rewrite fetch_length by done.
    rewrite (proj2 (Z.leb_le _ _)), (proj2 (Z.ltb_lt _ _)) by lia. cbn [andb].
    rewrite nth_lookup. unfold fetch. rewrite list_lookup_fmap, lookup_seqZ_lt by lia. cbn.
    f_equal. lia.
  - apply store_outside. by rewrite fetch_length.
Qed.

Definition size_of (l : list TransferElement) : Z := foldr (λ x s, t_size x + s) 0 l.

Lemma size_of_snoc l x : size_of (l ++ [x]) = size_of l + t_size x.
Proof. unfold size_of. induction l as [|y l IH]; cbn; lia. Qed.

Lemma pieces_ok_app P transfer l l' : ∀ bt, pieces_ok P transfer bt (l ++ l') →
  0 ≤ size_of l ∧ bt + size_of l ≤ a_size transfer ∧ pieces_ok P transfer (bt + size_of l) l'.
Proof.
  induction l as [|x l IH]; intros bt; cbn [app size_of foldr].
  - rewrite Z.add_0_r. intros Hok. split; [lia|]. split; [|done].
    destruct l'; cbn in Hok; lia.
  - intros (Hx & _ & _ & _ & _ & _ & _ & Hok). destruct (IH _ Hok) as (? & ? & Hok').
    fold (size_of l). rewrite Z.add_assoc. split; [lia|]. split; [lia|done].
Qed.

(** The command of the controller for a piece and its address on the drive. *)
Definition block_command (x : TransferElement) (q : Z) : NVMeCommand :=
  issue_nvme_block_transfer_command q (NVMeDRAMBaseOffset +ᵤ t_address x).

(** Byte [o] of the file is at [a], [start] being where the transfer starts, and
    its block lies between [lo] and [hi]. *)
Definition byte_placed (transfer : Address) (start lo hi o a : Z) : Prop :=
  a = start + (o - a_addr transfer) ∧ a mod StorageBlockSize = o mod StorageBlockSize ∧
  0 ≤ lo ≤ a - o mod StorageBlockSize ∧ a - o mod StorageBlockSize + StorageBlockSize ≤ hi ∧
  hi ≤ 2 ^ 63.

Definition queued_at (transfer : Address) (start lo hi o : Z) (nv : list Z) : Prop :=
  ∃ a, nv = [a] ∧ byte_placed transfer start lo hi o a.

Lemma block_run transfer start lo hi fstart flo fhi o x q :
  byte_placed transfer start lo hi o (t_address x) → byte_placed transfer fstart flo fhi o q →
  let c := block_command x q in let i := o - a_addr transfer - o mod StorageBlockSize in
  block_regular c ∧ disk_address c = fstart + i ∧ card_address c = DRAMBaseOffset + start + i ∧
  command_bytes c = StorageBlockSize.
Proof.
  intros (Ha & Hma & Hla & Hha & ?) (Hq & Hmq & Hlq & Hhq & ?).
  pose proof block_size_pos as HB. pose proof (Z.mod_pos_bound o _ HB) as Hmod.
  unfold block_regular, disk_address, card_address, command_bytes.
  unfold block_command, issue_nvme_block_transfer_command.
  cbn [drive nvme_block_offset num_blocks_0 dram_offset].
  rewrite (u64_small (NVMeDRAMBaseOffset + _)) by (unfold in_u64, NVMeDRAMBaseOffset; lia).
  rewrite Z.shiftr_div_pow2, Z.shiftl_mul_pow2 by done.
  change (2 ^ StorageBlockSizeD) with StorageBlockSize.
  change NVMeDRAMBaseOffset with (32768 * StorageBlockSize).
  rewrite (Z.add_comm (32768 * StorageBlockSize) (t_address x)), Z.div_add by lia.
  pose proof (Z.div_mod (t_address x) StorageBlockSize ltac:(lia)) as Da.
  pose proof (Z.div_mod q StorageBlockSize ltac:(lia)) as Dq. rewrite Hma in Da. rewrite Hmq in Dq.
  change (StorageBlockSize / 512) with 512. change StorageBlockSize with 262144 in *.
  rewrite u64_small by (unfold in_u64; lia). unfold DRAMBaseOffset. lia.
Qed.

Lemma nvme_commands_run (P : Z → Z → Prop) (Q : Z → list Z → Prop) transfer b l : 
  (∀ o n, Q o n → ∃ a, n = [a]) → a_type transfer = ATNVMe →
  ∀ bt nv, pieces_ok P transfer bt l → queue_ok Q transfer bt l nv →
  nvme_commands b l nv = Ok (zip_with block_command l nv) ∧
  length nv = length l ∧ count_nvme l = length l.
Proof.
  intros HQ Hty. induction l as [|x l IH]; intros bt nv; cbn [pieces_ok queue_ok]; [by intros _ ->|].
  intros (Hs & _ & _ & _ & Hx & _ & _ & Hok) (n1 & n2 & -> & Hq & Hrest).
  destruct (HQ _ _ Hq) as [a ->]. destruct (IH _ _ Hok Hrest) as (E & El & Ec).
  rewrite Hty in Hx. unfold count_nvme in *. rewrite filter_cons_True by done. cbn [app nvme_commands length].
  rewrite bool_decide_eq_true_2 by done. cbn [negb]. rewrite E, Ec, El. cbn.
  rewrite (proj2 (Z.ltb_lt _ _)) by lia. by rewrite orb_true_r.
Qed.

(** ** A whole transfer, whatever the order of the engines *)

Section Transfer.
Context `{MemBus} (transfer : Address) (start lo hi fstart flo fhi : Z).
Context {channels : DataMover} {laws : DataMoverLaws}.
Context {controller : NVMeController} {nvme_laws : NVMeLaws}.
Context (Hty : a_type transfer = ATNVMe).

Abbreviation base := (DRAMBaseOffset + start).

(** The pieces from byte [bt] on with the addresses of their blocks. *)
Definition mapped_pieces (bt : Z) (l : list TransferElement) (nv : list Z) : Prop :=
  pieces_ok (byte_placed transfer start lo hi) transfer bt l ∧
  queue_ok (queued_at transfer fstart flo fhi) transfer bt l nv.

Lemma mapped_lands bt l : 0 ≤ bt → pieces_ok (byte_placed transfer start lo hi) transfer bt l →
  pieces_ok (lands transfer base) transfer bt l.
Proof.
  intros Hbt. apply pieces_impl; [done|].
  intros o a Ho (Ha & Hm & Hl & Hh & ?). unfold lands. rewrite Hty. cbn [device_of].
  pose proof (Z.mod_pos_bound o StorageBlockSize ltac:(done)).
  rewrite u64_small by (unfold in_u64, DRAMBaseOffset; change StorageBlockSize with 262144 in *; lia).
  unfold DRAMBaseOffset. lia.
Qed.

Lemma mapped_commands b bt l nv : mapped_pieces bt l nv →
  nvme_commands b l nv = Ok (zip_with block_command l nv) ∧
  length nv = length l ∧ count_nvme l = length l.
Proof.
  intros [Hok Hq]. eapply nvme_commands_run; [|done..]. intros o n (a & -> & _). eauto.
Qed.

Lemma mapped_cons bt x l nv : mapped_pieces bt (x :: l) nv →
  ∃ q nv', nv = q :: nv' ∧ mapped_pieces (bt + t_size x) l nv' ∧
    byte_placed transfer start lo hi (a_addr transfer + bt) (t_address x) ∧
    byte_placed transfer fstart flo fhi (a_addr transfer + bt) q.
Proof.
  intros [(_ & _ & _ & _ & _ & _ & Hp & Hok) (n1 & n2 & -> & (q & -> & Hq) & Hr)].
  exists q, n2. done.
Qed.

(** Storing or loading the block of the piece at byte [bt]. *)
Lemma block_moved bt x l q mem d :
  0 ≤ bt → pieces_ok (byte_placed transfer start lo hi) transfer bt (x :: l) →
  byte_placed transfer fstart flo fhi (a_addr transfer + bt) q →
  let i := bt - (a_addr transfer + bt) mod StorageBlockSize in
  let inside a y := a + i ≤ y < a + i + StorageBlockSize in
  i ≤ bt ∧ bt + t_size x ≤ i + StorageBlockSize ∧
  (∀ y, nvme_store (block_command x q) mem d y =
     if decide (inside fstart y) then mem (base + (y - fstart)) else d y) ∧
  (∀ y, nvme_load (block_command x q) d mem y =
     if decide (inside base y) then d (fstart + (y - base)) else mem y) ∧
  flo ≤ fstart + i ∧ fstart + i + StorageBlockSize ≤ fhi ∧
  DRAMBaseOffset + lo ≤ base + i ∧ base + i + StorageBlockSize ≤ DRAMBaseOffset + hi.
Proof.
  intros Hbt (_ & _ & Hfit & _ & _ & _ & Hp & _) Hq i inside. set (o := a_addr transfer + bt) in *.
  pose proof block_size_pos as HB. pose proof (Z.mod_pos_bound o _ HB).
  destruct (block_run _ _ _ _ _ _ _ _ _ _ Hp Hq) as (Hreg & Hd & Hc & Hn).
  replace (o - a_addr transfer - o mod StorageBlockSize) with i in Hd, Hc by lia.
  destruct Hp as (Ha & _ & Hl & Hh & _), Hq as (Hqa & _ & Hlq & Hhq & _).
  split; [lia|]. split; [lia|]. split; [|split; [|lia]].
  - intros y. rewrite (nvme_store_law _ _ _ Hreg), Hd, Hc, Hn, store_fetch by lia.
    subst inside. cbn. repeat case_decide; lia || done || (f_equal; lia).
  - intros y. rewrite (nvme_load_law _ _ _ Hreg), Hd, Hc, Hn, store_fetch by lia.
    subst inside. cbn. repeat case_decide; lia || done || (f_equal; lia).
Qed.

(** A piece received on top of what is there. *)
Lemma piece_received x ld r (all : list Z) mem :
  0 ≤ r → pieces_ok (byte_placed transfer start lo hi) transfer r (x :: ld) →
  Z.of_nat (length all) = a_size transfer →
  (∀ i, 0 ≤ i < r → mem (base + i) = nth (Z.to_nat i) all 0) →
  drop (Z.to_nat (transfer_bytes (command x))) (drop (Z.to_nat r) all) =
    drop (Z.to_nat (r + t_size x)) all ∧
  ∀ i, 0 ≤ i < r + t_size x →
    (s2mm (command x) (drop (Z.to_nat r) all) mem).1 (base + i) = nth (Z.to_nat i) all 0.
Proof.
  intros Hr Hok Hall Hmem. pose proof (mapped_lands r (x :: ld) Hr Hok) as Hl.
  destruct (command_run transfer base r x ld Hr Hl) as (Hreg & Ha & Ht).
  destruct Hok as (Hx & Hend & _). rewrite Ht. split; [rewrite drop_drop; f_equal; lia|].
  intros i Hi. assert (drop (Z.to_nat r) all ≠ []) as Hne.
  { intros E%(f_equal length). rewrite length_drop in E. cbn in E. lia. }
  destruct (s2mm_law (command x) _ mem Hreg Hne) as [_ ->]. rewrite Ha, Ht.
  unfold store. rewrite length_take, length_drop, nth_lookup.
  destruct (Z.leb_spec (base + r) (base + i)), (Z.ltb_spec (base + i)
    (base + r + Z.of_nat (Z.to_nat (t_size x) `min` (length all - Z.to_nat r)))); try lia; cbn [andb].
  - rewrite lookup_take_lt, lookup_drop, nth_lookup by lia. do 2 f_equal. lia.
  - apply Hmem. lia.
Qed.

(** The engines on the rest of a transfer to the drive: the pieces [lx] have
    arrived but are not stored yet, the pieces [ld] are still to come. *)
Lemma persists_run all cs ns bs mem d ss mem' d' :
  persists cs ns bs mem d ss mem' d' → Z.of_nat (length all) = a_size transfer →
  ∀ w lx ld nv, 0 ≤ w → mapped_pieces w (lx ++ ld) nv →
  cs = command <$> ld → ns = zip_with block_command (lx ++ ld) nv →
  bs = drop (Z.to_nat (w + size_of lx)) all →
  (∀ x, 0 ≤ x < w + size_of lx → mem (base + x) = nth (Z.to_nat x) all 0) →
  (∀ x, 0 ≤ x < w → d (fstart + x) = nth (Z.to_nat x) all 0) →
  (∀ x, 0 ≤ x < a_size transfer → d' (fstart + x) = nth (Z.to_nat x) all 0) ∧
  (∀ y, ¬ (flo ≤ y < fhi) → d' y = d y).
Proof.
  intros Hp Hall. induction Hp as [bs mem d|c cs ns bs mem d ss mem' d' Hp IH|cs n ns bs mem d ss mem' d' Hlen Hp IH];
    intros w lx ld nv Hw Hmp Ecs Ens Ebs Hmem Hd; pose proof (mapped_commands true _ _ _ Hmp) as (_ & Hl & _);
    destruct (pieces_ok_app _ _ _ _ _ (proj1 Hmp)) as (Hs & _ & Hok).
  - destruct lx as [|x lx]; [|by destruct nv]. destruct ld; [|done].
    destruct Hmp as [Hend _]. cbn in Hend. subst w. done.
  - destruct ld as [|x ld]; [done|]. injection Ecs as -> ->.
    destruct (piece_received x ld (w + size_of lx) all mem ltac:(lia) Hok Hall Hmem) as [Hdrop Hmem'].
    rewrite <-Ebs in Hdrop, Hmem'. rewrite <-Z.add_assoc, <-size_of_snoc in Hdrop, Hmem'.
    apply (IH w (lx ++ [x]) ld nv); rewrite <-?app_assoc; done.
  - destruct lx as [|x lx].
    { exfalso. apply (f_equal length) in Ens. subst cs. rewrite length_zip_with, Hl in Ens.
      rewrite length_fmap in Hlen. cbn in *. lia. }
    destruct (mapped_cons _ _ _ _ Hmp) as (q & nv' & -> & Hmp' & _ & Hq).
    injection Ens as -> ->.
    destruct (block_moved w x (lx ++ ld) q mem d Hw (proj1 Hmp) Hq) as (Hi & Hfit & Hst & _ & Hlo & Hhi & _).
    destruct (IH (w + t_size x) lx ld nv') as [IH1 IH2]; try done.
    + destruct (proj1 Hmp) as (? & _). lia.
    + rewrite Ebs. cbn. do 2 f_equal. unfold size_of. lia.
    + intros y Hy. apply Hmem. cbn. fold (size_of lx). lia.
    + intros y Hy. rewrite Hst. case_decide as Hin; [|apply Hd; lia].
      replace (base + (fstart + y - fstart)) with (base + y) by lia. apply Hmem.
      destruct (pieces_ok_app _ _ lx ld _ (proj1 Hmp')) as (? & _). cbn. fold (size_of lx). lia.
    + split; [done|]. intros y Hy. rewrite IH2, Hst by done. apply decide_False. lia.
Qed.

(** The engines on the rest of a transfer from the drive: the blocks of the
    pieces [lx] are loaded, the pieces are still to be sent. *)
Lemma delivers_run d ns cs mem out mem' : delivers d ns cs mem out mem' →
  ∀ r lx ld nv, 0 ≤ r → pieces_ok (byte_placed transfer start lo hi) transfer r (lx ++ ld) →
  queue_ok (queued_at transfer fstart flo fhi) transfer (r + size_of lx) ld nv →
  cs = command <$> lx ++ ld → ns = zip_with block_command ld nv →
  (∀ x, r ≤ x < r + size_of lx → mem (base + x) = d (fstart + x)) →
  out = fetch d (fstart + r) (a_size transfer - r).
Proof.
  intros Hd. induction Hd as [mem|n ns cs mem out mem' _ IH|ns c cs mem out mem' Hlen _ IH];
    intros r lx ld nv Hr Hok Hq Ecs Ens Hmem;
    destruct (pieces_ok_app _ _ _ _ _ Hok) as (Hs & _ & Hok');
    pose proof (mapped_commands true _ _ _ (conj Hok' Hq)) as (_ & Hl & _).
  - symmetry in Ecs. apply fmap_nil_inv in Ecs. rewrite Ecs in Hok. cbn in Hok. subst r. by rewrite Z.sub_diag.
  - destruct ld as [|x ld]; [done|].
    destruct (mapped_cons _ _ _ _ (conj Hok' Hq)) as (q & nv' & -> & [_ Hq'] & _ & Hqa).
    injection Ens as -> ->.
    destruct (block_moved (r + size_of lx) x ld q mem d ltac:(lia) Hok' Hqa) as (Hi & Hfit & _ & Hld & _).
    apply (IH r (lx ++ [x]) ld nv'); rewrite <-?app_assoc, ?size_of_snoc, ?Z.add_assoc; try done.
    intros y Hy. rewrite Hld. case_decide as Hin; [f_equal; lia|apply Hmem; lia].
  - destruct lx as [|x lx].
    { exfalso. apply (f_equal length) in Ens, Ecs. rewrite length_zip_with, Hl in Ens.
      rewrite length_fmap in Ecs. cbn in *. lia. }
    injection Ecs as -> ->.
    destruct (command_run transfer base r x (lx ++ ld) Hr (mapped_lands _ _ Hr Hok)) as (Hreg & Ha & Ht).
    destruct Hok as (Hx & Hend & _ & _ & _ & _ & _ & Hok). cbn [size_of foldr] in *. fold (size_of lx) in *.
    rewrite Z.add_assoc in Hq, Hmem.
    rewrite (IH (r + t_size x) lx ld nv); try done; [|lia|intros y Hy; apply Hmem; lia].
    replace (a_size transfer - r) with (t_size x + (a_size transfer - (r + t_size x))) by lia.
    destruct (pieces_ok_app _ _ lx ld _ Hok) as (Hs' & Hend' & _).
    rewrite fetch_app, (mm2s_law _ _ Hreg), Ha, Ht, Z.add_assoc by lia. f_equal.
    unfold fetch. apply list_fmap_ext. intros k y Hy. apply lookup_seqZ in Hy as [-> ?].
    replace (base + r + (0 + Z.of_nat k)) with (base + (r + Z.of_nat k)) by lia.
    rewrite Hmem by lia. f_equal. lia.
Qed.

(** Both directions of the action, once the transfer was cut. *)
Lemma op_mem_write_blocks m l nv m' bs mem : 0 < a_size transfer < 2 ^ 63 →
  issue_partial_transfers true Write transfer m = Ok (l, nv, m') → mapped_pieces 0 l nv →
  Z.of_nat (length bs) = a_size transfer →
  ∃ statuses mem',
    op_mem_write true transfer statuses m =
      Ok (Issued (zip_with block_command l nv) (command <$> l), a_size transfer, m') ∧
    received (command <$> l) bs mem = (mem', statuses) ∧ ∀ y, mem' y = store mem base bs y.
Proof.
  intros Hsz Hi Hmp Hlen. pose proof (mapped_lands 0 l ltac:(lia) (proj1 Hmp)) as Hl.
  assert (bs ≠ []) as Hne by (intros ->; cbn in Hlen; lia).
  destruct (received_pieces transfer base l 0 bs 0) as (cmds & out & statuses & Hf & Hp & Hall & Hmem);
    [lia|done|done|lia..|].
  destruct (Hmem mem) as (mem' & Hr & Hm).
  destruct Hall as [-> ->]; [lia|]. rewrite Z.add_0_r in Hm.
  destruct (mapped_commands false _ _ _ Hmp) as (Hc & Hln & Hcnt).
  exists statuses, mem'. split; [|done]. unfold op_mem_write. rewrite Hty. unfold write_data, transfer_from_stream.
  rewrite Hi. cbn [mbind result_bind]. rewrite Hf. cbn [mbind result_bind].
  unfold write_nvme_data. rewrite (proj1 Hp). cbn [mbind result_bind]. rewrite Hc. cbn [mbind result_bind].
  unfold read_responses. rewrite Hcnt, length_zip_with, Hln, Nat.min_id, Nat.leb_refl.
  cbn. by rewrite Hlen.
Qed.

Lemma op_mem_read_blocks random_ctrl m r l nv m' : 0 < a_size transfer →
  issue_partial_transfers true Read transfer m = Ok (l, nv, m') → mapped_pieces 0 l nv →
  op_mem_read true random_ctrl transfer m r =
    Ok (Issued (zip_with block_command l nv) (command <$> l), m', r).
Proof.
  intros Hsz Hi Hmp.
  pose proof (passed_pieces transfer _ l 0 Hsz (proj1 Hmp)) as Hp.
  destruct (mapped_commands true _ _ _ Hmp) as (Hc & Hln & Hcnt).
  unfold op_mem_read. rewrite decide_False by (by rewrite Hty). unfold load_data. rewrite Hi.
  cbn [mbind result_bind]. unfold load_nvme_data. rewrite (proj1 Hp). cbn [mbind result_bind].
  rewrite Hc. cbn [mbind result_bind].
  unfold read_responses. rewrite Hcnt, length_zip_with, Hln, Nat.min_id, Nat.leb_refl.
  cbn [mbind result_bind mret result_ret]. by rewrite (to_stream_run _ _ (proj1 Hp)).
Qed.
End Transfer.

(** ** Files on the NVMe storage *)

(** The transfer of [n] bytes of such a file from byte [addr] on. *)
Definition on_nvme (addr n : Z) : Address := MkAddress addr n ATNVMe MTDRAMAndNVMe.

(** The page file covers a window of [PagefileSize] bytes of the file. *)
Definition window (addr : Z) : Z := addr mod PagefileSize.

(** The first byte of a range placed from block [p] on. *)
Definition first_byte (addr p : Z) : Z := p * StorageBlockSize + addr mod StorageBlockSize.

(** One behind the last block of a range of [n] bytes from [addr] on that is
    placed from block [p] on. *)
Definition end_block (addr n p : Z) : Z :=
  p + ((addr + n - 1) / StorageBlockSize - addr / StorageBlockSize) + 1.

Lemma window_block addr bt : (window addr + bt) mod StorageBlockSize = (addr + bt) mod StorageBlockSize.
Proof.
  unfold window. pose proof (Z.div_mod addr PagefileSize ltac:(done)) as E.
  change PagefileSize with (StorageBlockSize * 128) in *.
  replace (addr + bt) with (addr mod (StorageBlockSize * 128) + bt
    + addr / (StorageBlockSize * 128) * 128 * StorageBlockSize) by lia.
  by rewrite Z.mod_add by done.
Qed.

Section OnNvme.
Context `{MemBus}.

(** The byte [bt] bytes after the start of a placed range. *)
Lemma placed_byte extents a0 n e p b c addr bt em :
  placed extents a0 n e p b c → 0 ≤ a0 → 0 ≤ bt < n →
  (∀ i, (a0 + i) mod StorageBlockSize = (addr + i) mod StorageBlockSize) →
  at_block em extents e (p + ((a0 + bt) / StorageBlockSize - a0 / StorageBlockSize)) →
  byte_placed (on_nvme addr n) (first_byte addr p) (p * StorageBlockSize) (end_block a0 n p * StorageBlockSize)
    (addr + bt) ((mtl_extmap_pblock em *ᵤ StorageBlockSize) +ᵤ (addr + bt) mod StorageBlockSize).
Proof.
  intros Hpl Ha Hbt Hmod Hat. pose proof block_size_pos as HB.
  destruct (placed_step _ _ _ _ _ _ _ _ _ Hpl Ha Hbt Hat) as (_ & Hb & Hq & E & _).
  destruct Hpl as [Hf Hx Hl Hsm]. pose proof Hat as (Hrep & _).
  destruct (translate_shift extents (a0 / StorageBlockSize) e p b c 0 Hf Hx (rep_nonneg _ _ Hrep)) as [_ Hp];
    [by apply Z.div_pos|lia| |].
  { assert (a0 / StorageBlockSize ≤ (a0 + n - 1) / StorageBlockSize) by (apply Z.div_le_mono; lia). lia. }
  assert (a0 / StorageBlockSize ≤ (a0 + bt) / StorageBlockSize ≤ (a0 + n - 1) / StorageBlockSize) as Hd
    by (split; apply Z.div_le_mono; lia).
  rewrite <-Hmod, E. pose proof (Hmod 0) as H0. rewrite !Z.add_0_r in H0.
  pose proof (Z.mod_pos_bound (a0 + bt) _ HB). rewrite (Hmod bt) in *.
  pose proof (Z.div_mod a0 StorageBlockSize ltac:(lia)).
  pose proof (Z.div_mod (a0 + bt) StorageBlockSize ltac:(lia)). rewrite (Hmod bt) in *. rewrite H0 in *.
  set (q := p - a0 / StorageBlockSize + (a0 + bt) / StorageBlockSize) in *.
  unfold byte_placed, first_byte. cbn [on_nvme a_addr].
  split; [unfold q; nia|]. split.
  { rewrite Z.add_comm, Z.mod_add by lia. apply Z.mod_mod. lia. }
  assert (p ≤ q < end_block a0 n p ∧ end_block a0 n p ≤ b + c) as [Hpq Hend]
    by (unfold q, end_block; lia).
  split; [nia|split; [|etransitivity; [apply Z.mul_le_mono_nonneg_r, Hend; lia|done]]].
  replace (q * StorageBlockSize + (addr + bt) mod StorageBlockSize - (addr + bt) mod StorageBlockSize
           + StorageBlockSize) with ((q + 1) * StorageBlockSize) by lia.
  apply Z.mul_le_mono_nonneg_r; lia.
Qed.

(** A transfer whose blocks lie in one extent of the page file and one of the
    file is cut into pieces with both addresses. *)
Lemma nvme_cut T addr n m dext de pd db dc fext fe pf fb fc :
  0 ≤ addr → 0 < n → addr + n < 2 ^ 63 →
  placed dext (window addr) n de pd db dc → placed fext addr n fe pf fb fc →
  represents (dram_map m) dext → represents (nvme_map m) fext →
  ∃ l nv m', issue_partial_transfers true T (on_nvme addr n) m = Ok (l, nv, m') ∧
    mapped_pieces (on_nvme addr n)
      (first_byte addr pd) (pd * StorageBlockSize) (end_block (window addr) n pd * StorageBlockSize)
      (first_byte addr pf) (pf * StorageBlockSize) (end_block addr n pf * StorageBlockSize) 0 l nv.
Proof.
  intros Ha Hn Hov Hd Hf Hrd Hrf.
  assert (0 ≤ window addr) as Hw by (apply Z.mod_pos_bound; done).
  apply (issue_run true _ _ (λ bt m,
    at_block (dram_map m) dext de
      (pd + ((window addr + bt) / StorageBlockSize - window addr / StorageBlockSize)) ∧
    at_block (nvme_map m) fext fe (pf + ((addr + bt) / StorageBlockSize - addr / StorageBlockSize)))).
  - split_and!; cbn; lia.
  - intros bt m1 [Hat1 Hat2] Hbt. cbn [on_nvme a_addr a_size a_map] in *. cbn [translate_piece].
    do 3 eexists. split; [done|].
    split; [by eapply placed_byte; try apply window_block|].
    split; [eexists; split; [done|]; by eapply placed_byte|].
    destruct (placed_step _ _ _ _ _ _ _ _ _ Hd Hw Hbt Hat1) as (_ & _ & _ & _ & N1).
    destruct (placed_step _ _ _ _ _ _ _ _ _ Hf Ha Hbt Hat2) as (_ & _ & _ & _ & N2).
    rewrite window_block in N1. unfold piece_size. cbn [on_nvme a_addr a_size].
    intros Hl. rewrite Z.min_r in Hl |- * by lia. split; [apply N1|apply N2]; lia.
  - intros _. unfold seek_maps. cbn [on_nvme a_addr a_map dram_map nvme_map].
    split; [by eapply placed_start|by eapply placed_start].
Qed.

Context {channels : DataMover} {laws : DataMoverLaws}.
Context {controller : NVMeController} {nvme_laws : NVMeLaws}.

(** The block a map is moved to by a seek to the start of a placed range. *)
Lemma placed_block em extents a0 n e p b c :
  placed extents a0 n e p b c → 0 ≤ a0 → 0 < n → represents em extents →
  mtl_extmap_pblock (mtl_extmap_seek em (a0 / StorageBlockSize)).2 *ᵤ StorageBlockSize = p * StorageBlockSize ∧
  0 ≤ p * StorageBlockSize < 2 ^ 63.
Proof.
  intros Hpl Ha Hn Hrep. pose proof block_size_pos as HB.
  pose proof (placed_start _ _ _ _ _ _ _ _ Hpl Ha Hrep) as Hat.
  destruct (placed_step _ _ _ _ _ _ _ _ 0 Hpl Ha ltac:(lia) Hat) as (_ & Hbq & Hq & _).
  destruct Hat as (_ & _ & Hpb). pose proof (placed_small _ _ _ _ _ _ _ Hpl).
  unfold mtl_extmap_pblock. rewrite Hpb, Z.add_0_r in *.
  replace (p + (a0 / StorageBlockSize - a0 / StorageBlockSize)) with p by lia.
  assert ((p + 1) * StorageBlockSize ≤ (b + c) * StorageBlockSize)
    by (apply Z.mul_le_mono_nonneg_r; lia).
  rewrite u64_small by (unfold in_u64; nia). nia.
Qed.

(** Writing to a range of a file: whatever the order, the drive holds the bytes in
    the end, its other blocks are as they were, and so is the memory of the host. *)
Lemma nvme_write_run addr bs mem d m fext fe pf fb fc wext we pw wb wc :
  let n := Z.of_nat (length bs) in
  0 ≤ addr → bs ≠ [] → addr + n < 2 ^ 63 →
  placed fext addr n fe pf fb fc → placed wext (window addr) n we pw wb wc →
  represents (nvme_map m) fext → represents (dram_map m) wext →
  ∃ statuses written m',
    op_mem_write true (on_nvme addr n) statuses m = Ok (written, n, m') ∧
    (∃ ss mem' d', persists (i_dm written) (i_nvme written) bs mem d ss mem' d') ∧
    ∀ ss mem' d', persists (i_dm written) (i_nvme written) bs mem d ss mem' d' →
      ss = statuses ∧ (∀ x, x < DRAMBaseOffset → mem' x = mem x) ∧
      (∀ i, 0 ≤ i < n → d' (first_byte addr pf + i) = nth (Z.to_nat i) bs 0) ∧
      ∀ y, ¬ (pf * StorageBlockSize ≤ y < end_block addr n pf * StorageBlockSize) → d' y = d y.
Proof.
  intros n Ha Hne Hov Hf Hw W1 W2.
  assert (0 < n) as Hn by (destruct bs; [done|]; cbn in *; lia).
  destruct (nvme_cut Write _ _ m _ _ _ _ _ _ _ _ _ _ Ha Hn Hov Hw Hf W2 W1) as (lw & nw & mw & Ew & Pw).
  destruct (op_mem_write_blocks (on_nvme addr n) _ _ _ _ _ _ eq_refl m lw nw mw bs mem
    ltac:(cbn; lia) Ew Pw eq_refl) as (statuses & mem1 & Hwr & Hrc & Hm1).
  exists statuses, (Issued (zip_with block_command lw nw) (command <$> lw)), mw.
  split; [done|]. split; [apply persists_exists|].
  intros ss mem' d' Hp. cbn [i_dm i_nvme] in *.
  pose proof (persists_received _ _ _ _ _ _ _ _ Hp) as Hp'. rewrite Hrc in Hp'. injection Hp' as <- <-.
  destruct (persists_run (on_nvme addr n) _ _ _ _ _ _ eq_refl bs _ _ _ _ _ _ _ _ Hp eq_refl
    0 [] lw nw ltac:(lia) Pw) as [Hd' Hout]; [done..|cbn; lia|lia|].
  split; [done|]. split; [|done]. intros x Hx. rewrite Hm1. apply store_outside.
  assert (0 ≤ window addr) as Hwin by (apply Z.mod_pos_bound; done).
  destruct (placed_block _ _ _ _ _ _ _ _ Hw Hwin Hn W2) as [_ ?].
  pose proof (Z.mod_pos_bound addr StorageBlockSize ltac:(done)). unfold first_byte. lia.
Qed.

(** Reading a range: whatever the order, the stream is what the drive holds. *)
Lemma nvme_read_run addr n d m random_ctrl fext fe pf fb fc rext re pr rb rc :
  0 ≤ addr → 0 < n → addr + n < 2 ^ 63 →
  placed fext addr n fe pf fb fc → placed rext (window addr) n re pr rb rc →
  represents (nvme_map m) fext → represents (dram_map m) rext →
  ∃ read m',
    (∀ r, op_mem_read true random_ctrl (on_nvme addr n) m r = Ok (read, m', r)) ∧
    (∀ mem, ∃ out mem', delivers d (i_nvme read) (i_dm read) mem out mem') ∧
    ∀ mem out mem', delivers d (i_nvme read) (i_dm read) mem out mem' →
      out = fetch d (first_byte addr pf) n.
Proof.
  intros Ha Hn Hov Hf Hr R1 R2.
  destruct (nvme_cut Read _ _ m _ _ _ _ _ _ _ _ _ _ Ha Hn Hov Hr Hf R2 R1) as (lr & nr & mr & Er & Pr).
  exists (Issued (zip_with block_command lr nr) (command <$> lr)), mr.
  split; [intros r; by apply (op_mem_read_blocks (on_nvme addr n) _ _ _ _ _ _ eq_refl random_ctrl m r lr nr mr Hn Er Pr)|]. split; [intros; apply delivers_exists|].
  intros mem out mem' Hdel. cbn [i_dm i_nvme] in *.
  rewrite (delivers_run (on_nvme addr n) (first_byte addr pr) (pr * StorageBlockSize)
    (end_block (window addr) n pr * StorageBlockSize) (first_byte addr pf) (pf * StorageBlockSize)
    (end_block addr n pf * StorageBlockSize) eq_refl _ _ _ _ _ _ Hdel 0 [] lr nr); try done;
    [by rewrite Z.add_0_r, Z.sub_0_r|apply Pr|apply Pr|cbn; lia].
Qed.

(** C19: what a pipeline writes to a range of a file on the NVMe storage that lies in
    one extent of the file, through ranges of the two page files that lie in one
    extent each, is what a pipeline reads there afterwards (over more extents
    mtl_extmap_next goes wrong, mtl_extmap.cpp:61), for every order in which controller
    and DataMover get on with their commands, whatever the card's memory holds
    when the reading starts, and although the two directions use different page
    files: the write reports the whole length and changes no byte of the drive
    outside the blocks of the range. *)
Theorem nvme_write_then_read addr bs mem d m_write m_read random_ctrl r
    fext fe pf fb fc wext we pw wb wc rext re pr rb rc :
  let n := Z.of_nat (length bs) in
  0 ≤ addr → bs ≠ [] → addr + n < 2 ^ 63 →
  placed fext addr n fe pf fb fc →
  placed wext (window addr) n we pw wb wc → placed rext (window addr) n re pr rb rc →
  represents (nvme_map m_write) fext → represents (dram_map m_write) wext →
  represents (nvme_map m_read) fext → represents (dram_map m_read) rext →
  ∃ statuses written m_write' read m_read',
    op_mem_write true (on_nvme addr n) statuses m_write = Ok (written, n, m_write') ∧
    op_mem_read true random_ctrl (on_nvme addr n) m_read r = Ok (read, m_read', r) ∧
    (∃ ss mem' d', persists (i_dm written) (i_nvme written) bs mem d ss mem' d') ∧
    ∀ ss mem' d', persists (i_dm written) (i_nvme written) bs mem d ss mem' d' →
      ss = statuses ∧
      (∀ y, ¬ (pf * StorageBlockSize ≤ y < end_block addr n pf * StorageBlockSize) → d' y = d y) ∧
      (∀ mem2, ∃ out mem3, delivers d' (i_nvme read) (i_dm read) mem2 out mem3) ∧
      ∀ mem2 out mem3, delivers d' (i_nvme read) (i_dm read) mem2 out mem3 → out = bs.
Proof.
  intros n Ha Hne Hov Hf Hw Hr W1 W2 R1 R2.
  assert (0 < n) as Hn by (destruct bs; [done|]; cbn in *; lia).
  destruct (nvme_write_run addr bs mem d m_write _ _ _ _ _ _ _ _ _ _ Ha Hne Hov Hf Hw W1 W2)
    as (statuses & written & mw & Ew & Hex & Hall).
  destruct (nvme_read_run addr n d m_read random_ctrl _ _ _ _ _ _ _ _ _ _ Ha Hn Hov Hf Hr R1 R2)
    as (read & mr & Er & _).
  exists statuses, written, mw, read, mr. split; [done|]. split; [done|]. split; [done|].
  intros ss mem' d' Hp. destruct (Hall ss mem' d' Hp) as (Hss & _ & Hd' & Hout).
  destruct (nvme_read_run addr n d' m_read random_ctrl _ _ _ _ _ _ _ _ _ _ Ha Hn Hov Hf Hr R1 R2)
    as (read' & mr' & Er' & Hdel & Hread).
  specialize (Er r). rewrite Er' in Er. injection Er as <- <-.
  split; [done|]. split; [done|]. split; [done|].
  intros mem2 out mem3 Ho. rewrite (Hread _ _ _ Ho). by apply fetch_is.
Qed.

Lemma aligned_command q a :
  0 ≤ q → 0 ≤ a → a * StorageBlockSize < 2 ^ 63 → q * StorageBlockSize < 2 ^ 63 →
  let c := issue_nvme_block_transfer_command (q * StorageBlockSize) (a * StorageBlockSize) in
  disk_address c = q * StorageBlockSize ∧
  card_address c + NVMeDRAMBaseOffset = DRAMBaseOffset + a * StorageBlockSize.
Proof.
  intros Hq Ha Ha2 Hq2. unfold disk_address, card_address, issue_nvme_block_transfer_command.
  cbn [nvme_block_offset dram_offset]. rewrite Z.shiftr_div_pow2, Z.shiftl_mul_pow2 by done.
  change (2 ^ StorageBlockSizeD) with StorageBlockSize. rewrite !Z.div_mul by done.
  change (StorageBlockSize / 512) with 512. change StorageBlockSize with 262144 in *.
  rewrite u64_small by (unfold in_u64; lia). lia.
Qed.

(** [preload_nvme_blocks] is to fetch the blocks that a write covers only in part,
    so that storing them keeps the bytes around the range. The command for the
    first block lacks [NVMeDRAMBaseOffset]: the block is put that far below the
    block of the page file from which it is stored. *)
Lemma preload_misses_page_file addr n m fext fe pf fb fc wext we pw wb wc :
  0 ≤ addr → 0 < n → addr mod StorageBlockSize ≠ 0 →
  placed fext addr n fe pf fb fc → placed wext (window addr) n we pw wb wc →
  represents (nvme_map m) fext → represents (dram_map m) wext →
  ∃ c rest m', preload_nvme_blocks (on_nvme addr n) m = (c :: rest, m') ∧
    disk_address c = pf * StorageBlockSize ∧
    card_address c + NVMeDRAMBaseOffset = DRAMBaseOffset + pw * StorageBlockSize.
Proof.
  intros Ha Hn Hodd Hf Hw Rf Rw. pose proof block_size_pos as HB.
  assert (0 ≤ window addr) as Hwin by (apply Z.mod_pos_bound; done).
  destruct (placed_block _ _ _ _ _ _ _ _ Hf Ha Hn Rf) as (Ef & Hpf).
  destruct (placed_block _ _ _ _ _ _ _ _ Hw Hwin Hn Rw) as (Ew & Hpw).
  destruct (aligned_command pf pw) as [Hd Hc]; [nia|nia|lia|lia|].
  unfold preload_nvme_blocks. cbn [on_nvme a_addr a_size a_map].
  rewrite (proj2 (Z.eqb_neq _ 0) Hodd). cbn [negb]. unfold preload_block at 1.
  rewrite Ef. fold (window addr). rewrite Ew.
  case_match; [|by do 3 eexists].
  match goal with |- context [preload_block ?k ?a ?x] => destruct (preload_block k a x) end.
  by do 3 eexists.
Qed.
End OnNvme.

(** A controller as its guide describes it. *)
#[export] Instance reference_controller : NVMeController := {
  nvme_load c d mem := λ x,
    if x <? DRAMBaseOffset then mem x
    else store mem (card_address c) (fetch d (disk_address c) (command_bytes c)) x;
  nvme_store c mem d := store d (disk_address c) (fetch mem (card_address c) (command_bytes c));
}.

#[export] Instance reference_controller_laws : NVMeLaws (H := reference_controller).
Proof.
  split; [|done|].
  - intros c d mem (_ & _ & _ & Hc & _) x. cbn [nvme_load reference_controller].
    destruct (Z.ltb_spec x DRAMBaseOffset); [|done]. symmetry. apply store_outside.
    unfold card_address. lia.
  - intros c d mem x Hx. cbn. by rewrite (proj2 (Z.ltb_lt _ _)).
Qed.

#[local] Existing Instance Demo.bus.

(** Five bytes over the end of the first block of a file in the blocks 10 and 11,
    through page files in the same blocks of the card's memory. *)
Lemma nvme_write_then_read_witness :
  let m := Transfers.Demo.both in
  ∃ statuses written m_write' read m_read',
    op_mem_write true (on_nvme 262140 5) statuses m = Ok (written, 5, m_write') ∧
    op_mem_read true 0 (on_nvme 262140 5) m (λ _, 0) = Ok (read, m_read', λ _, 0) ∧
    ∃ ss mem' d',
      persists (i_dm written) (i_nvme written) [1; 2; 3; 4; 5] (λ _, 0) (λ _, 9) ss mem' d' ∧
      d' (10 * StorageBlockSize - 1) = 9 ∧
      ∃ out mem3, delivers d' (i_nvme read) (i_dm read) (λ _, 7) out mem3 ∧ out = [1; 2; 3; 4; 5].
Proof.
  destruct (nvme_write_then_read 262140 [1; 2; 3; 4; 5] (λ _, 0) (λ _, 9)
    Transfers.Demo.both Transfers.Demo.both 0 (λ _, 0)
    Transfers.Demo.two 0 10 10 2 Transfers.Demo.two 0 10 10 2 Transfers.Demo.two 0 10 10 2)
    as (statuses & written & mw & read & mr & Ew & Er & (ss & mem' & d' & Hp) & Hall);
    try (by split); try lia; try done; try apply Transfers.Demo.two_represented.
  destruct (Hall ss mem' d' Hp) as (_ & Hout & Hex & Hread). destruct (Hex (λ _, 7)) as (out & mem3 & Ho).
  exists statuses, written, mw, read, mr. split; [exact Ew|]. split; [exact Er|].
  exists ss, mem', d'. split; [exact Hp|]. split; [apply Hout; lia|].
  exists out, mem3. split; [exact Ho|]. exact (Hread _ _ _ Ho).
Defined.

(** A transfer inside one window is placed in a page file of one extent. *)
Lemma page_file_placed extents b addr n :
  extents !! 0%nat = Some (b, 128) → 0 ≤ b < 2 ^ 44 → 0 < n → window addr + n ≤ PagefileSize →
  placed extents (window addr) n 0 (b + window addr / StorageBlockSize) b 128.
Proof.
  intros Hx Hb Hn Hw. assert (0 ≤ window addr < PagefileSize) as Hwin by (apply Z.mod_pos_bound; done).
  assert ((window addr + n - 1) / StorageBlockSize < 128) as Hlast
    by (apply Z.div_lt_upper_bound; [done|]; change (StorageBlockSize * 128) with PagefileSize; lia).
  assert (0 ≤ window addr / StorageBlockSize ≤ (window addr + n - 1) / StorageBlockSize) as Hfirst
    by (split; [apply Z.div_pos; [lia|done]|apply Z.div_le_mono; [done|lia]]).
  destruct extents as [|x extents]; [done|]. injection Hx as ->. split; [|done|lia|].
  - cbn [translate]. by rewrite (proj2 (Z.ltb_lt _ _)) by lia.
  - change StorageBlockSize with 262144. lia.
Qed.

(** A piece of a file agent has up to 64 MiB ([BufferSize]), twice the size of a
    page file: with the page files in the blocks 0 to 127 and 128 to 255 of the
    card's memory, a write puts one block of its second half into block 256, which
    belongs to another file, and all others into block 0, one over the other. *)
Lemma page_file_overrun :
  let m := Maps (Demo.map_of (Demo.pad [(128, 128)])) (Demo.map_of (Demo.pad [(0, 256)])) in
  match issue_partial_transfers true Write (on_nvme 0 (64 * 1024 * 1024)) m with
  | Ok (l, _, _) => (λ x, t_address x / StorageBlockSize) <$> l = seqZ 128 129 ++ repeat 0 127
  | Fault _ => False
  end.
Proof. vm_compute. reflexivity. Qed.
End Nvme.
