(* ===== verification/Jobs.v ===== *)
(** * Jobs of the FPGA action (mtl_jobs.cpp, operators.cpp, axi_switch.cpp,
    axi_perfmon.cpp, hls_action.cpp)

    The action decodes a job and reads or writes host memory and the control
    registers. The state is that of the hardware the functions touch; the
    interrupt lines and the DataMover's answers are inputs. *)
From S2P Require Import Prelude Endian Extmap OpMem.

Inductive JobType :=
  | ReadImageInfo | Map | ConfigureStreams | ResetPerfmon | ConfigurePerfmon
  | ReadPerfmonCounters | RunOperators | ConfigureOperator | UnknownJob (n : Z).

(** The numbers of [enum class JobType]. *)
Definition job_type_code (j : JobType) : Z :=
  match j with
  | ReadImageInfo => 0 | Map => 1 | ConfigureStreams => 2 | ResetPerfmon => 3
  | ConfigurePerfmon => 4 | ReadPerfmonCounters => 5 | RunOperators => 6
  | ConfigureOperator => 7 | UnknownJob n => n
  end.

Record Job := MkJob {
  job_address : Z;
  job_type : JobType;
  job_source : Address;
  job_destination : Address;
  direct_data0 : Z;
  direct_data1 : Z;
}.

Module Jobs.
Section Jobs.
Context `{MemBus} (nvme_enabled : bool).
Import Endian Extmap OpMem.

Definition PerfmonBaseAddr : Z := 1151401984 / 4.            (* 0x44A10000 *)
Definition DataPreselectSwitchBaseAddr : Z := 1151467520 / 4. (* 0x44A20000 *)
Definition RandomBaseAddr : Z := 1151533056 / 4.             (* 0x44A30000 *)
Definition ImageInfoBaseAddr : Z := 1151336448 / 4.          (* 0x44A00000 *)
Definition SwitchBaseAddr : Z := 1151598592 / 4.             (* 0x44A40000 *)
Definition OperatorBaseAddr : Z := 1151664128 / 4.           (* 0x44A50000 *)
Definition OperatorOffset : Z := 65536 / 4.

Record hw := Hw {
  h_mem : Z → Z;
  h_regs : regs;
  h_read_maps : maps;
  h_write_maps : maps;
  h_read_config : Address;
  h_write_config : Address;
  h_direct2 : Z;                    (* direct_data[2] *)
  h_interrupts : list Z;            (* what interrupt_reg will read *)
  h_statuses : list IbttStatus;     (* what s2mm_sts will read *)
  h_nvme_read : list NVMeCommand;   (* the commands issued, by stream *)
  h_nvme_write : list NVMeCommand;
  h_mm2s : list DatamoverCommand;
  h_s2mm : list DatamoverCommand;
}.

Definition map_regs (f : regs → regs) (s : hw) : hw :=
  Hw (h_mem s) (f (h_regs s)) (h_read_maps s) (h_write_maps s) (h_read_config s)
     (h_write_config s) (h_direct2 s) (h_interrupts s) (h_statuses s) (h_nvme_read s) (h_nvme_write s)
     (h_mm2s s) (h_s2mm s).
Definition set_mem (m : Z → Z) (s : hw) : hw :=
  Hw m (h_regs s) (h_read_maps s) (h_write_maps s) (h_read_config s)
     (h_write_config s) (h_direct2 s) (h_interrupts s) (h_statuses s) (h_nvme_read s) (h_nvme_write s)
     (h_mm2s s) (h_s2mm s).
Definition set_maps (rm wm : maps) (s : hw) : hw :=
  Hw (h_mem s) (h_regs s) rm wm (h_read_config s)
     (h_write_config s) (h_direct2 s) (h_interrupts s) (h_statuses s) (h_nvme_read s) (h_nvme_write s)
     (h_mm2s s) (h_s2mm s).
Definition set_configs (rc wc : Address) (s : hw) : hw :=
  Hw (h_mem s) (h_regs s) (h_read_maps s) (h_write_maps s) rc wc
     (h_direct2 s) (h_interrupts s) (h_statuses s) (h_nvme_read s) (h_nvme_write s)
     (h_mm2s s) (h_s2mm s).
Definition set_direct2 (d : Z) (s : hw) : hw :=
  Hw (h_mem s) (h_regs s) (h_read_maps s) (h_write_maps s) (h_read_config s)
     (h_write_config s) d (h_interrupts s) (h_statuses s) (h_nvme_read s) (h_nvme_write s)
     (h_mm2s s) (h_s2mm s).
Definition set_interrupts (i : list Z) (s : hw) : hw :=
  Hw (h_mem s) (h_regs s) (h_read_maps s) (h_write_maps s) (h_read_config s)
     (h_write_config s) (h_direct2 s) i (h_statuses s) (h_nvme_read s) (h_nvme_write s)
     (h_mm2s s) (h_s2mm s).
(** Commands for the channels that read, and for those that write. *)
Definition issue_read (i : issued) (s : hw) : hw :=
  Hw (h_mem s) (h_regs s) (h_read_maps s) (h_write_maps s) (h_read_config s)
     (h_write_config s) (h_direct2 s) (h_interrupts s) (h_statuses s)
     (h_nvme_read s ++ i_nvme i) (h_nvme_write s) (h_mm2s s ++ i_dm i) (h_s2mm s).
Definition issue_write (i : issued) (s : hw) : hw :=
  Hw (h_mem s) (h_regs s) (h_read_maps s) (h_write_maps s) (h_read_config s)
     (h_write_config s) (h_direct2 s) (h_interrupts s) (h_statuses s)
     (h_nvme_read s) (h_nvme_write s ++ i_nvme i) (h_mm2s s) (h_s2mm s ++ i_dm i).

(** [mem[i] = line]. *)
Definition write_line (mem : Z → Z) (i : Z) (line : list Z) : Z → Z := λ a,
  if (i * Z.of_nat bus_bytes <=? a) && (a <? i * Z.of_nat bus_bytes + Z.of_nat bus_bytes)
  then nth (Z.to_nat (a - i * Z.of_nat bus_bytes)) line 0 else mem a.

(** *** Streams *)

Definition action_configure_streams (job_address : Z) : M hw Z :=
  s ← m_get;
  let line := mem_line (h_mem s) (MFB_ADDRESS job_address) in
  let set (r : regs) (i : nat) :=
    switch_set_mapping SwitchBaseAddr (mtl_get32 line (i * 4)) (Z.of_nat i) r in
  _ ← m_modify (map_regs (λ r, switch_commit SwitchBaseAddr
                                 (foldl set r [0; 1; 2; 3; 4; 5; 6; 7]%nat)));
  mret SNAP_RETC_SUCCESS.

(** *** Maps *)

Definition set_dram (x : mtl_extmap_t) (m : maps) : maps := Maps x (nvme_map m).
Definition set_nvme (x : mtl_extmap_t) (m : maps) : maps := Maps (dram_map m) x.

Definition action_map (job_address : Z) : M hw Z :=
  s ← m_get;
  let line := mem_line (h_mem s) (MFB_ADDRESS job_address) in
  let slot := mtl_get64 line 0 in
  let extent_address := job_address +ᵤ MFB_INCREMENT in
  let loaded := mtl_extmap_load extent_address (h_mem s) in
  if slot =? 0 then
    _ ← m_put (set_maps (set_dram loaded (h_read_maps s)) (h_write_maps s) s);
    mret SNAP_RETC_SUCCESS
  else if slot =? 1 then
    _ ← m_put (set_maps (h_read_maps s) (set_dram loaded (h_write_maps s)) s);
    mret SNAP_RETC_SUCCESS
  else if nvme_enabled && (slot =? 2) then
    _ ← m_put (set_maps (set_nvme loaded (h_read_maps s)) (h_write_maps s) s);
    mret SNAP_RETC_SUCCESS
  else if nvme_enabled && (slot =? 3) then
    _ ← m_put (set_maps (h_read_maps s) (set_nvme loaded (h_write_maps s)) s);
    mret SNAP_RETC_SUCCESS
  else mret SNAP_RETC_FAILURE.

(** *** Operator configuration *)

(** The copying loop: [length] words from the line on, which is loaded anew
    when the offset in bytes, an 8-bit counter, is a multiple of its size. *)
Fixpoint configure_loop (n : nat) (mem : Z → Z) (line_index : Z) (op offset : Z)
    (membus_line_offset : Z) (line : list Z) (r : regs) : regs :=
  match n with
  | O => r
  | S n' =>
      let line :=
        if membus_line_offset mod Z.of_nat bus_bytes =? 0
        then mem_line mem (line_index + membus_line_offset / Z.of_nat bus_bytes)
        else line in
      configure_loop n' mem line_index op (u32 (offset + 1)) (u8 (membus_line_offset + 4))
        (shift_line line 4)
        (set_reg OperatorBaseAddr (u32 (op * OperatorOffset + offset))
                 (mtl_get32le line 0) r)
  end.

Definition configure_operators (job_address : Z) : M hw unit :=
  s ← m_get;
  let line := mem_line (h_mem s) (MFB_ADDRESS job_address) in
  let offset := mtl_get32 line 0 in
  let length := mtl_get32 line 4 in
  let op := u32 (mtl_get32 line 8 - 1) in
  let prepare := mtl_get32 line 12 in
  m_modify (map_regs (λ r,
    set_reg OperatorBaseAddr (u32 (op * OperatorOffset + 4)) prepare
      (configure_loop (Z.to_nat length) (h_mem s) (MFB_ADDRESS job_address) op offset
         4 (shift_line line (4 * 4)) r))).

(** *** Performance counters *)

Definition action_configure_perfmon (stream_id0 stream_id1 : Z) : M hw Z :=
  let id0 i := Z.shiftl stream_id0 (i * 8 + 5) in
  let id1 i := Z.shiftl stream_id1 (i * 8 + 5) in
  let metrics_0 := u32 (Z.lor (Z.lor (Z.lor (Z.lor 353505552 (id0 0)) (id0 1)) (id0 2)) (id0 3)) in
  let metrics_1 := u32 (Z.lor (Z.lor (Z.lor (Z.lor 303108118 (id0 0)) (id1 1)) (id1 2)) (id1 3)) in
  let metrics_2 := u32 (Z.lor (Z.lor 5653 (id1 0)) (id1 1)) in
  _ ← m_modify (map_regs (λ r, set_reg PerfmonBaseAddr 19 metrics_2
                                 (set_reg PerfmonBaseAddr 18 metrics_1
                                    (set_reg PerfmonBaseAddr 17 metrics_0 r))));
  mret SNAP_RETC_SUCCESS.

Definition perfmon_reset : M hw unit :=
  m_modify (map_regs (set_reg PerfmonBaseAddr 192 131074)).
Definition perfmon_enable : M hw unit :=
  m_modify (map_regs (set_reg PerfmonBaseAddr 192 65537)).
Definition perfmon_disable : M hw unit :=
  m_modify (map_regs (set_reg PerfmonBaseAddr 192 0)).

(** The line written: the clock in eight bytes, ten counters in four each. *)
Definition perfmon_line (r : regs) : list Z :=
  let reg i := r (PerfmonBaseAddr + i) in
  let l := mtl_set64 (repeat 0 bus_bytes) 0 (reg 0 * 2 ^ 32 + reg 1) in
  foldl (λ l i, mtl_set32 l (i * 4 + 8) (reg (64 + Z.of_nat i * 4))) l (seq 0 10).

Definition action_perfmon_read (line_index : Z) : M hw Z :=
  _ ← m_modify (λ s, set_mem (write_line (h_mem s) line_index (perfmon_line (h_regs s))) s);
  mret SNAP_RETC_SUCCESS.

(** *** Running operators *)

Definition read_interrupt : M hw Z :=
  s ← m_get;
  match h_interrupts s with
  | [] => m_fault WouldBlock
  | i :: rest => _ ← m_put (set_interrupts rest s); mret i
  end.

(** [while (interrupt_reg.read() & 1 << i);] *)
Fixpoint wait_clear (interrupts : list Z) (i : Z) : result (list Z) :=
  match interrupts with
  | [] => Fault WouldBlock
  | v :: rest => if Z.testbit v i then wait_clear rest i else mret rest
  end.

Definition clear_one (set_interrupts_mask : Z) (i : Z) : M hw unit :=
  if Z.testbit set_interrupts_mask i then
    _ ← m_modify (map_regs (set_reg OperatorBaseAddr (i * OperatorOffset + 3) 1));
    s ← m_get;
    rest ← m_lift (wait_clear (h_interrupts s) i);
    m_put (set_interrupts rest s)
  else mret tt.

Definition clear_operator_interrupts : M hw unit :=
  v ← read_interrupt;
  _ ← clear_one v 0; _ ← clear_one v 1; _ ← clear_one v 2; _ ← clear_one v 3;
  _ ← clear_one v 4; _ ← clear_one v 5; _ ← clear_one v 6; clear_one v 7.

Fixpoint wait_equal (interrupts : list Z) (v : Z) : result (list Z) :=
  match interrupts with
  | [] => Fault WouldBlock
  | v' :: rest => if v' =? v then mret rest else wait_equal rest v
  end.

(** [mask] is the low byte of the enable mask. *)
Definition poll_interrupts (mask : Z) : M hw unit :=
  if negb (mask =? 1) && negb (mask =? 0) then
    s ← m_get;
    rest ← m_lift (wait_equal (h_interrupts s) (Z.shiftr mask 1));
    m_put (set_interrupts rest s)
  else mret tt.

Definition do_run_operators : M hw Z :=
  s ← m_get;
  '(ri, rmaps, r) ← m_lift (op_mem_read nvme_enabled RandomBaseAddr (h_read_config s)
                              (h_read_maps s) (h_regs s));
  '(wi, size, wmaps) ← m_lift (op_mem_write nvme_enabled (h_write_config s) (h_statuses s)
                                 (h_write_maps s));
  _ ← m_put (issue_write wi (issue_read ri (set_maps rmaps wmaps (map_regs (λ _, r) s))));
  mret size.

Definition enabled (enable_mask : Z) (i : Z) : bool := Z.testbit enable_mask (i + 1).

Definition start_operator (enable_mask : Z) (r : regs) (i : Z) : regs :=
  if enabled enable_mask i then
    set_reg OperatorBaseAddr (i * OperatorOffset + 2) 1
      (set_reg OperatorBaseAddr (i * OperatorOffset + 1) 1
         (set_reg OperatorBaseAddr (i * OperatorOffset + 0) 1 r))
  else r.

Definition end_preparation (enable_mask : Z) (r : regs) (i : Z) : regs :=
  if enabled enable_mask i then set_reg OperatorBaseAddr (i * OperatorOffset + 4) 0 r else r.

Definition operator_indices : list Z := [0; 1; 2; 3; 4; 5; 6; 7].

(** [bytes_written] is the old contents of the result. *)
Definition do_configure_and_run_operators (enable_mask bytes_written : Z) : M hw Z :=
  _ ← m_modify (map_regs (λ r, foldl (start_operator enable_mask) r operator_indices));
  bytes_written ← (if Z.testbit enable_mask 0 then do_run_operators else mret bytes_written);
  _ ← m_modify (map_regs (λ r, foldl (end_preparation enable_mask) r operator_indices));
  mret bytes_written.

(** A dataflow region: the two processes share no state, since only the first
    reads the interrupt lines, and run here in the order in which they are
    written. *)
Definition action_run_operators (enable_mask bytes_written : Z) : M hw Z :=
  _ ← poll_interrupts (u8 enable_mask);
  do_configure_and_run_operators enable_mask bytes_written.

(** *** The image information *)

Definition image_word (r : regs) (i : Z) : Z := r (ImageInfoBaseAddr + i).

(** The loop, four bytes per round; a full line is written out. *)
Fixpoint image_loop (n : nat) (r : regs) (line_index i : Z) (current_line : list Z)
    (mem : Z → Z) : Z * list Z * (Z → Z) :=
  match n with
  | O => (i, current_line, mem)
  | S n' =>
      let lineoffset := i mod Z.of_nat bus_bytes in
      let current_line := put_bytes current_line (Z.to_nat lineoffset)
                            (le_bytes 4 (image_word r ((4096 + i) / 4))) in
      if lineoffset =? Z.of_nat bus_bytes - 4 then
        image_loop n' r line_index (i + 4) (repeat 0 bus_bytes)
          (write_line mem (line_index + i / Z.of_nat bus_bytes) current_line)
      else image_loop n' r line_index (i + 4) current_line mem
  end.

Definition read_image_info (job_address : Z) : M hw unit :=
  s ← m_get;
  let info_len := image_word (h_regs s) 0 in
  let read_len := if 4096 <? info_len then 4096 else info_len in
  let '(i, line, mem) :=
    image_loop (Z.to_nat ((read_len + 3) / 4)) (h_regs s) (MFB_ADDRESS job_address) 0
      (repeat 0 bus_bytes) (h_mem s) in
  let mem := if negb (i mod Z.of_nat bus_bytes =? 0)
             then write_line mem (MFB_ADDRESS job_address + i / Z.of_nat bus_bytes) line
             else mem in
  m_put (set_direct2 read_len (set_mem mem s)).

(** *** process_action *)

(** [garbage]: the uninitialised [bytes_written]. *)
Definition run_operators_job (garbage : Z) (j : Job) : M hw Z :=
  _ ← m_modify (map_regs (op_mem_set_config (job_source j) true DataPreselectSwitchBaseAddr));
  _ ← m_modify (λ s, set_configs (job_source j) (h_write_config s) s);
  _ ← m_modify (map_regs (op_mem_set_config (job_destination j) false
                            DataPreselectSwitchBaseAddr));
  _ ← m_modify (λ s, set_configs (h_read_config s) (job_destination j) s);
  let enable_mask := direct_data0 j in
  let perfmon_en := direct_data1 j in
  _ ← clear_operator_interrupts;
  s ← m_get;
  _ ← (if nvme_enabled && bool_decide (a_type (h_write_config s) = ATNVMe) then
         let '(cmds, wm) := preload_nvme_blocks (h_write_config s) (h_write_maps s) in
         (* the maps passed are dram_write_extmap and nvme_write_extmap *)
         m_put (issue_read (Issued cmds []) (set_maps (h_read_maps s) wm s))
       else mret tt);
  _ ← (if perfmon_en =? 1 then perfmon_enable else mret tt);
  bytes_written ← action_run_operators enable_mask garbage;
  _ ← m_modify (set_direct2 bytes_written);
  _ ← (if perfmon_en =? 1 then perfmon_disable else mret tt);
  mret SNAP_RETC_SUCCESS.

Definition process_action (garbage : Z) (j : Job) : M hw Z :=
  match job_type j with
  | ReadImageInfo => _ ← read_image_info (job_address j); mret SNAP_RETC_SUCCESS
  | Map => action_map (job_address j)
  | ConfigureStreams => action_configure_streams (job_address j)
  | ResetPerfmon => _ ← perfmon_reset; mret SNAP_RETC_SUCCESS
  | ConfigurePerfmon =>
      s ← m_get;
      let line := mem_line (h_mem s) (MFB_ADDRESS (job_address j)) in
      action_configure_perfmon (u8 (mtl_get64 line 0)) (u8 (mtl_get64 line 8))
  | ReadPerfmonCounters => action_perfmon_read (MFB_ADDRESS (job_address j))
  | RunOperators => run_operators_job garbage j
  | ConfigureOperator =>
      _ ← configure_operators (job_address j); mret SNAP_RETC_SUCCESS
  | UnknownJob _ => mret SNAP_RETC_FAILURE
  end.

(** hls_action.cpp: [flags = 0] asks for the type of the action. *)
Definition ActionType : Z := 4211474433.  (* 0xFB060001 *)
Definition HW_RELEASE_LEVEL : Z := 19.

Inductive control := Detected (action_type release_level retc : Z) | Processed (retc : Z).

Definition hls_action (garbage flags : Z) (j : Job) : M hw control :=
  if flags =? 0 then mret (Detected ActionType HW_RELEASE_LEVEL 57359)
  else r ← process_action garbage j; mret (Processed r).
End Jobs.
End Jobs.
