(* ===== verification/Pipeline.v ===== *)
(** * Pipelines on the host (metal-pipeline)

    Operators with their options, the pipeline that configures and runs them,
    and the runners. What the card does with a job is [device]: given the jobs
    executed so far and the next one it answers [None] when [executeJob] throws,
    or the output data and the parameter block it wrote back. *)
From S2P Require Import Prelude Endian Extmap OpMem Jobs.

Inductive OptionType := OTUint | OTBool | OTBuffer.

#[export] Instance option_type_eq_dec : EqDecision OptionType.
Proof. solve_decision. Defined.

Inductive OperatorArgumentValue :=
  | AVUint (n : Z) | AVBool (b : bool) | AVBuffer (bytes : list Z).

(** [arg.index()], which is compared with the number of an [OptionType]. *)
Definition arg_index (a : OperatorArgumentValue) : Z :=
  match a with AVUint _ => 0 | AVBool _ => 1 | AVBuffer _ => 2 end.

Definition type_number (t : OptionType) : Z :=
  match t with OTUint => 0 | OTBool => 1 | OTBuffer => 2 end.

Record OperatorOptionDefinition := OptionDefinition {
  od_offset : Z;
  od_type : OptionType;
  od_key : string;
  od_short : string;
  od_description : string;
  od_bufferSize : option Z;
}.

Record OperatorSpecification := Spec {
  sp_id : string;
  sp_description : string;
  sp_streamID : Z;
  sp_prepareRequired : bool;
  sp_options : list (string * OperatorOptionDefinition);
}.

Fixpoint assoc {A} (k : string) (l : list (string * A)) : option A :=
  match l with
  | [] => None
  | (k', a) :: l' => if decide (k = k') then Some a else assoc k l'
  end.

Fixpoint assoc_set {A} (k : string) (a : A) (l : list (string * A)) : list (string * A) :=
  match l with
  | [] => []
  | (k', a') :: l' => if decide (k = k') then (k', a) :: l' else (k', a') :: assoc_set k a l'
  end.

(** ** operator.cpp *)
Module Operator.
Record operator := MkOperator {
  op_spec : OperatorSpecification;
  op_options : list (string * option OperatorArgumentValue);
}.

Definition create (spec : OperatorSpecification) : operator :=
  MkOperator spec ((λ o, (o.1, None)) <$> sp_options spec).

(** [optionDefinitions()] returns the map by value: the iterator that [setOption] gets
    from [find] points into a copy that is destroyed at the end of the statement, it is
    compared with the end of another copy and read after both are gone, and the
    reference that [configure] takes is read after its copy is gone. What comes of this
    is open; the class says what these reads give.
    - [freed_is_end]: whether the iterator equals the end of the other copy;
    - [freed_type]: the number of the type behind the iterator;
    - [freed_offset]: the offset behind the reference, for an option that exists. *)
Class FreedMemory := {
  freed_is_end : operator → string → bool;
  freed_type : operator → string → Z;
  freed_offset : OperatorSpecification → string → Z;
}.

(** The freed memory still holds the map. *)
Definition intact_memory : FreedMemory := {|
  freed_is_end op k := match assoc k (sp_options (op_spec op)) with Some _ => false | None => true end;
  freed_type op k := match assoc k (sp_options (op_spec op)) with Some d => type_number (od_type d) | None => 0 end;
  freed_offset spec k := match assoc k (sp_options spec) with Some d => od_offset d | None => 0 end;
|}.

Definition setOption `{FreedMemory} (option : string) (arg : OperatorArgumentValue) (op : operator) :
    result operator :=
  if freed_is_end op option then Fault (Throw "Unknown option")
  else if negb (freed_type op option =? arg_index arg) then Fault (Throw "Invalid option")
  else
    match assoc option (op_options op) with
    | None => Fault (Throw "out_of_range")
    | Some _ => Ok (MkOperator (op_spec op) (assoc_set option (Some arg) (op_options op)))
    end.
End Operator.

(** ** snap_action.cpp *)

(** [executeJob]: what is handed to the card. *)
Record HostJob := MkHostJob {
  hj_type : JobType;
  hj_parameters : list Z;          (* the block pointed to; empty for null *)
  hj_source : Address;
  hj_destination : Address;
  hj_data0 : Z;
  hj_data1 : Z;
}.

(** [fpga::Address{}]. *)
Definition no_address : Address := MkAddress 0 0 ATHost MTNone.

Record JobResult := MkJobResult { jr_out0 : Z; jr_out1 : Z; jr_parameters : list Z }.

(** The answers of the card, what [snap_malloc] returns, and what is read from memory
    that was freed. *)
Class Device := {
  device_freed :: Operator.FreedMemory;
  device : list HostJob → HostJob → option JobResult;
  snap_malloc_byte : nat → Z;
}.

Module Pipeline.
Section Pipeline.
Context `{Device}.

Definition allocateMemory (size : nat) : list Z := snap_malloc_byte <$> seq 0 size.

Definition indirect (t : JobType) (parameters : list Z) : HostJob :=
  MkHostJob t parameters no_address no_address 0 0.

(** *** operator_context.cpp *)

Record OperatorContext := MkOperatorContext {
  oc_op : Operator.operator;
  oc_is_prepared : bool;
  oc_profilingEnabled : bool;
  oc_profilingResults : string;
}.

Definition make_context (op : Operator.operator) : OperatorContext :=
  MkOperatorContext op false false "".

Definition set_prepared (b : bool) (c : OperatorContext) : OperatorContext :=
  MkOperatorContext (oc_op c) b (oc_profilingEnabled c) (oc_profilingResults c).

Definition stream_of (c : OperatorContext) : Z := sp_streamID (Operator.op_spec (oc_op c)).

Definition needs_preparation (c : OperatorContext) : bool :=
  negb (oc_is_prepared c) && sp_prepareRequired (Operator.op_spec (oc_op c)).

(** State of a run: the jobs executed so far, the pipeline. *)
Record state := State {
  p_log : list HostJob;
  p_operators : list OperatorContext;
  p_cachedSwitchConfiguration : bool;
}.

Definition set_operators (ops : list OperatorContext) (s : state) : state :=
  State (p_log s) ops (p_cachedSwitchConfiguration s).

(** [None] stands for the exception. *)
Definition executeJob (j : HostJob) : M state (option JobResult) :=
  s ← m_get;
  _ ← m_put (State (p_log s ++ [j]) (p_operators s) (p_cachedSwitchConfiguration s));
  mret (device (p_log s) j).

(** A job whose exception leaves the function. *)
Definition executeJob_throw (j : HostJob) : M state JobResult :=
  r ← executeJob j;
  match r with
  | None => m_fault (Throw "Job was unsuccessful")
  | Some r => mret r
  end.

Definition set_word (i : nat) (bytes : list Z) (job_config : list Z) : list Z :=
  Endian.put_bytes job_config (4 * i) bytes.

(** The block for one option: metadata 0, 2 and 3, the data, metadata 1. *)
Definition option_block (spec : OperatorSpecification) (d : OperatorOptionDefinition)
    (v : OperatorArgumentValue) (job_config : list Z) : result (list Z) :=
  let c := set_word 0 (Endian.be_bytes 4 (u32 (od_offset d / 4))) job_config in
  let c := set_word 2 (Endian.be_bytes 4 (sp_streamID spec)) c in
  let c := set_word 3 (Endian.be_bytes 4 (if sp_prepareRequired spec then 1 else 0)) c in
  match v with
  | AVUint n =>
      mret (set_word 1 (Endian.be_bytes 4 1) (Endian.put_bytes c 16 (le_bytes 4 n)))
  | AVBool b =>
      mret (set_word 1 (Endian.be_bytes 4 1)
              (Endian.put_bytes c 16 (le_bytes 4 (if b then 1 else 0))))
  | AVBuffer bytes =>
      if (16 + length bytes <=? length job_config)%nat then
        mret (set_word 1 (Endian.be_bytes 4 (u32 (Z.of_nat (length bytes) / 4)))
                (Endian.put_bytes c 16 bytes))
      else Fault OutOfBounds
  end.

(** The definition that [configure] reads: of its members only the offset. *)
Definition with_offset (offset : Z) (d : OperatorOptionDefinition) : OperatorOptionDefinition :=
  OptionDefinition offset (od_type d) (od_key d) (od_short d) (od_description d) (od_bufferSize d).

(** The loop of [OperatorContext::configure]; an exception is only logged. *)
Fixpoint configure_options (spec : OperatorSpecification)
    (options : list (string * option OperatorArgumentValue)) (job_config : list Z)
    (configured : bool) : M state bool :=
  match options with
  | [] => mret configured
  | (_, None) :: rest => configure_options spec rest job_config configured
  | (k, Some v) :: rest =>
      match assoc k (sp_options spec) with
      | None => m_fault (Throw "out_of_range")
      | Some d =>
          let definition := with_offset (Operator.freed_offset spec k) d in
          job_config ← m_lift (option_block spec definition v job_config);
          _ ← executeJob (indirect ConfigureOperator job_config);
          configure_options spec rest job_config true
      end
  end.

(** Configuring any option asks for a new preparation run. *)
Definition configure_operator (c : OperatorContext) : M state OperatorContext :=
  configured ← configure_options (Operator.op_spec (oc_op c)) (Operator.op_options (oc_op c))
                 (allocateMemory 4096) false;
  mret (if (configured : bool) then set_prepared false c else c).

Fixpoint configure_all (cs : list OperatorContext) : M state (list OperatorContext) :=
  match cs with
  | [] => mret []
  | c :: rest =>
      c ← configure_operator c; rest ← configure_all rest; mret (c :: rest)
  end.

(** *** pipeline.cpp *)

Definition IOStreamID : Z := 0.

Definition set_switch (job_struct : list Z) (stream source : Z) : result (list Z) :=
  if (0 <=? stream) && (stream <? 8)
  then Ok (set_word (Z.to_nat stream) (Endian.be_bytes 4 source) job_struct)
  else Fault OutOfBounds.

Fixpoint connect (cs : list OperatorContext) (previousStream : Z) (job_struct : list Z) :
    result (list Z) :=
  match cs with
  | [] => set_switch job_struct IOStreamID previousStream
  | c :: rest =>
      job_struct ← set_switch job_struct (stream_of c) previousStream;
      connect rest (stream_of c) job_struct
  end.

Definition disable : Z := 2147483648.

Definition switch_block (cs : list OperatorContext) : result (list Z) :=
  connect cs IOStreamID
    (foldl (λ b i, set_word i (Endian.be_bytes 4 disable) b) (allocateMemory 32) (seq 0 8)).

Definition configureSwitch (set_cached : bool) : M state unit :=
  s ← m_get;
  _ ← m_put (State (p_log s) (p_operators s) set_cached);
  job_struct ← m_lift (switch_block (p_operators s));
  _ ← executeJob_throw (indirect ConfigureStreams job_struct);
  mret tt.

(** [1u << streamID]. *)
Definition stream_bit (c : OperatorContext) : Z := u32 (Z.shiftl 1 (stream_of c)).

Definition preparation_mask (cs : list OperatorContext) : Z :=
  foldl (λ m c, if needs_preparation c then Z.lor m (stream_bit c) else m) 0 cs.

Definition run_mask (cs : list OperatorContext) : Z :=
  foldl (λ m c, Z.lor m (stream_bit c)) 1 cs.

Definition run (dataSource dataSink : Address) : M state Z :=
  s ← m_get;
  cs ← configure_all (p_operators s);
  _ ← m_modify (set_operators cs);
  let enable_mask := preparation_mask cs in
  _ ← (if negb (enable_mask =? 0) then
         _ ← executeJob_throw (MkHostJob RunOperators [] no_address no_address enable_mask 0);
         mret tt
       else mret tt);
  s ← m_get;
  _ ← (if negb (p_cachedSwitchConfiguration s) then configureSwitch false else mret tt);
  let enable_mask := run_mask cs in
  _ ← m_modify (set_operators (set_prepared true <$> cs));
  r ← executeJob_throw (MkHostJob RunOperators [] dataSource dataSink enable_mask 1);
  mret (jr_out0 r).
End Pipeline.
End Pipeline.
