(* ===== verification/Manifest.v ===== *)
(** * Operator specifications and the operator factory
    (operator_specification.cpp, operator_factory.cpp)

    The image of the card carries a JSON text that names its operators. The
    JSON library is the class [Json], what the code relies on of it the class
    [JsonLaws]; [js_null], [js_object] and the like are its constructors of
    values, which only specifications use. *)
From S2P Require Import Prelude Endian Extmap OpMem Jobs Pipeline.

Class Json := {
  json : Type;
  js_null : json;
  js_bool : bool → json;
  js_uint : Z → json;
  js_string : string → json;
  js_object : list (string * json) → json;
  (** [None] stands for an exception, here and in the accessors *)
  json_parse : string → option json;
  json_dump : json → option string;
  json_is_null : json → bool;
  json_is_object : json → bool;
  json_is_string : json → bool;
  (** [operator\[\]] with a key, of a value that is not [const] *)
  json_at : json → string → option json;
  json_items : json → list (string * json);
  (** [get] at the types the code uses *)
  json_get_string : json → option string;
  json_get_bool : json → option bool;
  json_get_u8 : json → option Z;
  json_get_u64 : json → option Z;
}.

(** [emplace], [insert]: the first value of a key stays. *)
Definition emplace_new {A} (k : string) (a : A) (l : list (string * A)) : list (string * A) :=
  match assoc k l with Some _ => l | None => l ++ [(k, a)] end.

Module Manifest.
Section Manifest.
Context `{Json}.

Definition or_throw {A} (what : string) (o : option A) : result A :=
  match o with Some a => Ok a | None => Fault (Throw what) end.

(** [value\[key\].get<T>()]. *)
Definition member {A} (get : json → option A) (value : json) (key : string) : result A :=
  v ← or_throw "type_error" (json_at value key); or_throw "type_error" (get v).

(** ** UserOperatorSpecificationParser *)

(** The constructor. *)
Definition parse_manifest (manifest : string) : result json :=
  m ← or_throw "parse_error" (json_parse manifest);
  if json_is_object m then mret m else Fault (Throw "Invalid manifest").

Definition description (m : json) : result string := member json_get_string m "description".

Definition streamID (m : json) : result Z := member json_get_u8 m "internal_id".

Definition prepareRequired (m : json) : result bool :=
  prepare ← or_throw "type_error" (json_at m "prepare_required");
  if json_is_null prepare then mret false else or_throw "type_error" (json_get_bool prepare).

(** The body of the loop; [None] if the type is not known. *)
Definition option_definition (key : string) (value : json) :
    result (option OperatorOptionDefinition) :=
  shortK ← member json_get_string value "short";
  description ← member json_get_string value "description";
  offset ← member json_get_u64 value "offset";
  type ← or_throw "type_error" (json_at value "type");
  named ← (if json_is_string type then
             typeString ← or_throw "type_error" (json_get_string type);
             if bool_decide (typeString = "bool")
             then mret (Some (OptionDefinition offset OTBool key shortK description None))
             else if bool_decide (typeString = "int")
             then mret (Some (OptionDefinition offset OTUint key shortK description None))
             else mret None
           else mret None);
  match named with
  | Some d => mret (Some d)
  | None =>
      if json_is_object type then
        typeString ← member json_get_string type "type";
        if bool_decide (typeString = "buffer") then
          size ← member json_get_u64 type "size";
          mret (Some (OptionDefinition offset OTBuffer key shortK description (Some size)))
        else mret None
      else mret None
  end.

Fixpoint option_loop (items : list (string * json))
    (res : list (string * OperatorOptionDefinition)) :
    result (list (string * OperatorOptionDefinition)) :=
  match items with
  | [] => mret res
  | (key, value) :: rest =>
      d ← option_definition key value;
      option_loop rest (match d with Some d => emplace_new key d res | None => res end)
  end.

Definition optionDefinitions (m : json) : result (list (string * OperatorOptionDefinition)) :=
  options ← or_throw "type_error" (json_at m "options");
  if json_is_null options then mret [] else option_loop (json_items options) [].

(** The constructor of OperatorSpecification. *)
Definition create_specification (id manifest : string) : result OperatorSpecification :=
  parser ← parse_manifest manifest;
  description ← description parser;
  streamID ← streamID parser;
  prepareRequired ← prepareRequired parser;
  optionDefinitions ← optionDefinitions parser;
  mret (Spec id description streamID prepareRequired optionDefinitions).

(** ** OperatorFactory *)

Record OperatorFactory := MkOperatorFactory {
  operatorSpecifications : list (string * OperatorSpecification);
  isDRAMEnabled : bool;
  isNVMeEnabled : bool;
}.

Fixpoint specification_loop (items : list (string * json))
    (specs : list (string * OperatorSpecification)) :
    result (list (string * OperatorSpecification)) :=
  match items with
  | [] => mret specs
  | (key, currentOperator) :: rest =>
      text ← or_throw "type_error" (json_dump currentOperator);
      operatorSpec ← create_specification key text;
      specification_loop rest (emplace_new (sp_id operatorSpec) operatorSpec specs)
  end.

Definition create_factory (imageJson : string) : result OperatorFactory :=
  image ← or_throw "parse_error" (json_parse imageJson);
  if negb (json_is_object image) then Fault (Throw "Unexpected input")
  else
    operators ← or_throw "type_error" (json_at image "operators");
    specs ← (if negb (json_is_null operators) then specification_loop (json_items operators) []
             else mret []);
    target ← or_throw "type_error" (json_at image "target");
    dram ← member json_get_bool target "dram";
    target ← or_throw "type_error" (json_at image "target");
    nvme ← member json_get_bool target "nvme";
    mret (MkOperatorFactory specs dram nvme).

Definition fromManifestString (manifest : string) : result OperatorFactory :=
  create_factory manifest.

Definition createOperator (id : string) (f : OperatorFactory) : result Operator.operator :=
  spec ← or_throw "out_of_range" (assoc id (operatorSpecifications f));
  mret (Operator.create spec).

(** The exception of the job is thrown again by value, as a plain
    [std::exception]. *)
Definition string_of_bytes (bytes : list Z) : string :=
  foldr (λ b s, String (Ascii.ascii_of_nat (Z.to_nat b)) s) "" bytes.

Definition fromFPGA `{Device} : M Pipeline.state OperatorFactory :=
  r ← Pipeline.executeJob (Pipeline.indirect ReadImageInfo (Pipeline.allocateMemory 4096));
  match r with
  | None => m_fault (Throw "std::exception")
  | Some r =>
      if (jr_out0 r <=? Z.of_nat (length (jr_parameters r)))
      then m_lift (create_factory (string_of_bytes (take (Z.to_nat (jr_out0 r)) (jr_parameters r))))
      else m_fault OutOfBounds
  end.
End Manifest.
End Manifest.
