(* ===== verification/Runner.v ===== *)
(** * Pipeline runners (snap_pipeline_runner.cpp, profiling_pipeline_runner.cpp)

    A runner runs a pipeline once per call, with a data source and a data sink
    that are configured before and finalised after. The two context interfaces
    of the pipeline library are records of operations. *)
From S2P Require Import Prelude Endian Extmap OpMem Jobs Pipeline.

(** data_source.hpp, data_sink.hpp: an address with a 64-bit size, which
    [address()] hands to the card with 32 bits. *)
Definition DataSource : Type := Address.
Definition DataSink : Type := Address.

Definition withSize (d : Address) (newSize : Z) : Address :=
  MkAddress (a_addr d) newSize (a_type d) (a_map d).

Definition address (d : Address) : Address :=
  MkAddress (a_addr d) (u32 (a_size d)) (a_type d) (a_map d).

(** The pipeline as a part of the state a computation works on. *)
Class HasPipeline (S : Type) := {
  pipeline_of : S → Pipeline.state;
  with_pipeline : Pipeline.state → S → S;
}.

#[export] Instance pipeline_itself : HasPipeline Pipeline.state :=
  {| pipeline_of := id; with_pipeline := λ p _, p |}.

Definition on_pipeline {St : Type} `{HasPipeline St} {A} (m : M Pipeline.state A) : Exc St A :=
  e_part pipeline_of with_pipeline m.

Record DataSourceContext (S C : Type) := MkSourceContext {
  sc_configure : bool → C → Exc S C;
  sc_finalize : C → Exc S C;
  sc_dataSource : C → S → result DataSource;
  sc_reportTotalSize : C → Z;
  sc_endOfInput : C → bool;
  sc_profilingEnabled : C → bool;
  sc_setProfilingResults : string → C → C;
}.
Arguments sc_configure {S C}. Arguments sc_finalize {S C}. Arguments sc_dataSource {S C}.
Arguments sc_reportTotalSize {S C}. Arguments sc_endOfInput {S C}.
Arguments sc_profilingEnabled {S C}. Arguments sc_setProfilingResults {S C}.

Record DataSinkContext (S D : Type) := MkSinkContext {
  kc_dataSink : D → S → result DataSink;
  kc_prepareForTotalSize : Z → D → Exc S D;
  kc_configure : (* inputSize *) Z → bool → D → Exc S D;
  kc_finalize : (* outputSize *) Z → (* endOfInput *) bool → D → Exc S D;
  kc_profilingEnabled : D → bool;
  kc_setProfilingResults : string → D → D;
}.
Arguments kc_dataSink {S D}. Arguments kc_prepareForTotalSize {S D}. Arguments kc_configure {S D}.
Arguments kc_finalize {S D}. Arguments kc_profilingEnabled {S D}.
Arguments kc_setProfilingResults {S D}.

Module Runner.
Section Runner.
Context `{Device}.
Import Pipeline.

Record ProfilingResults := MkProfilingResults {
  globalClockCounter : Z;
  inputDataByteCount : Z; inputTransferCycleCount : Z;
  inputSlaveIdleCount : Z; inputMasterIdleCount : Z;
  outputDataByteCount : Z; outputTransferCycleCount : Z;
  outputSlaveIdleCount : Z; outputMasterIdleCount : Z;
}.

Definition no_results : ProfilingResults := MkProfilingResults 0 0 0 0 0 0 0 0 0.

(** [formatProfilingResults]: any text will do here; [Profiling] has the real one. *)
Context (formatted : ProfilingResults → bool → bool → string).
Context {St : Type} `{HasPipeline St} {C D : Type}.
Context (source_ops : DataSourceContext St C) (sink_ops : DataSinkContext St D).

Record runner := MkRunner {
  rn_initialized : bool;
  rn_profileStreamIds : option (Z * Z);
  rn_results : ProfilingResults;
}.

Definition requireReinitialization (r : runner) : runner :=
  MkRunner false (rn_profileStreamIds r) (rn_results r).

Definition resetResults (r : runner) : runner :=
  MkRunner (rn_initialized r) (rn_profileStreamIds r) no_results.

(** *** ProfilingPipelineRunner *)

(** The operator to profile, and the stream after it. *)
Fixpoint find_profiled (cs : list OperatorContext) (found : option (Z * Z)) :
    result (option (Z * Z)) :=
  match cs with
  | [] => mret found
  | c :: rest =>
      if oc_profilingEnabled c then
        match found with
        | Some _ => Fault (Throw "Only one operator can be selected for profiling.")
        | None =>
            find_profiled rest
              (Some (stream_of c, match rest with [] => IOStreamID | c' :: _ => stream_of c' end))
        end
      else find_profiled rest found
  end.

Definition count_true (l : list bool) : nat := length (List.filter id l).

Definition select_streams (cs : list OperatorContext) (profile_source profile_sink : bool) :
    result (option (Z * Z)) :=
  op ← find_profiled cs None;
  if (1 <? count_true [bool_decide (is_Some op); profile_source; profile_sink])%nat
  then Fault (Throw "Only one operator can be selected for profiling.")
  else
    let ids := op in
    let ids := if profile_source then
                 match cs with
                 | [] => Some (IOStreamID, IOStreamID)
                 | c :: _ => Some (stream_of c, stream_of c)
                 end
               else ids in
    mret (if profile_sink then Some (IOStreamID, IOStreamID) else ids).

Definition preRun (dataSource : C) (dataSink : D) (initialize : bool) (r : runner) :
    Exc St runner :=
  r ← (if initialize then
         s ← e_get;
         ids ← e_lift (select_streams (p_operators (pipeline_of s))
                         (sc_profilingEnabled source_ops dataSource)
                         (kc_profilingEnabled sink_ops dataSink));
         _ ← match ids with
             | None => mret tt
             | Some (i, o) =>
                 _ ← on_pipeline (executeJob_throw (indirect ConfigurePerfmon
                                    (Endian.be_bytes 8 i ++ Endian.be_bytes 8 o)));
                 mret tt
             end;
         mret (MkRunner (rn_initialized r) ids (rn_results r))
       else mret r);
  _ ← match rn_profileStreamIds r with
      | None => mret tt
      | Some _ => _ ← on_pipeline (executeJob_throw (indirect ResetPerfmon [])); mret tt
      end;
  mret r.

(** The block read back: [results64[0]], [results32[i]]. *)
Definition add_results (block : list Z) (p : ProfilingResults) : ProfilingResults :=
  let r64 := Endian.mtl_get64 block 0 in
  let r32 i := Endian.mtl_get32 block (8 + 4 * i) in
  MkProfilingResults
    (globalClockCounter p +ᵤ r64)
    (inputDataByteCount p +ᵤ r32 2%nat) (inputTransferCycleCount p +ᵤ r32 0%nat)
    (inputSlaveIdleCount p +ᵤ r32 3%nat) (inputMasterIdleCount p +ᵤ r32 4%nat)
    (outputDataByteCount p +ᵤ r32 7%nat) (outputTransferCycleCount p +ᵤ r32 5%nat)
    (outputSlaveIdleCount p +ᵤ r32 8%nat) (outputMasterIdleCount p +ᵤ r32 9%nat).

(** The first operator with the stream gets the results. *)
Fixpoint deliver (cs : list OperatorContext) (stream : Z) (text : string) :
    list OperatorContext :=
  match cs with
  | [] => []
  | c :: rest =>
      if stream_of c =? stream
      then MkOperatorContext (oc_op c) (oc_is_prepared c) (oc_profilingEnabled c) text :: rest
      else c :: deliver rest stream text
  end.

Definition postRun (dataSource : C) (dataSink : D) (finalize : bool) (r : runner) :
    Exc St (C * D * runner) :=
  match rn_profileStreamIds r with
  | None => mret (dataSource, dataSink, r)
  | Some (input_stream, _) =>
      res ← on_pipeline (executeJob_throw (indirect ReadPerfmonCounters (allocateMemory 48)));
      let results := add_results (jr_parameters res) (rn_results r) in
      let r := MkRunner (rn_initialized r) (rn_profileStreamIds r) results in
      if negb finalize then mret (dataSource, dataSink, r)
      else if sc_profilingEnabled source_ops dataSource then
        mret (sc_setProfilingResults source_ops (formatted results true false) dataSource,
              dataSink, r)
      else if kc_profilingEnabled sink_ops dataSink then
        mret (dataSource,
              kc_setProfilingResults sink_ops (formatted results false true) dataSink, r)
      else
        _ ← on_pipeline (m_modify (λ s, set_operators (deliver (p_operators s) input_stream
                                                         (formatted results false false)) s));
        mret (dataSource, dataSink, r)
  end.

(** *** SnapPipelineRunner::run *)

(** [dataSource().address()]; a context may throw. *)
Definition source_address (dataSource : C) : Exc St Address :=
  s ← e_get; d ← e_lift (sc_dataSource source_ops dataSource s); mret (address d).

Definition sink_address (dataSink : D) : Exc St Address :=
  s ← e_get; d ← e_lift (kc_dataSink sink_ops dataSink s); mret (address d).

(** [profiling]: whether the runner is a profiling one. *)
Definition run_once (profiling : bool) (dataSource : C) (dataSink : D) (r : runner) :
    Exc St (Z * bool * C * D * runner) :=
  let initialize := negb (rn_initialized r) in
  dataSink ← (if initialize then
                let totalSize := sc_reportTotalSize source_ops dataSource in
                dataSink ← (if 0 <? totalSize
                            then kc_prepareForTotalSize sink_ops totalSize dataSink
                            else mret dataSink);
                _ ← on_pipeline (configureSwitch true);
                mret dataSink
              else mret dataSink);
  dataSource ← sc_configure source_ops initialize dataSource;
  a ← source_address dataSource;
  let size := a_size a in
  let endOfInput := sc_endOfInput source_ops dataSource in
  dataSink ← kc_configure sink_ops size initialize dataSink;
  let r := MkRunner true (rn_profileStreamIds r) (rn_results r) in
  r ← (if profiling then preRun dataSource dataSink initialize r else mret r);
  outputSize ← (if 0 <? size
                then
                  source ← source_address dataSource;
                  sink ← sink_address dataSink;
                  on_pipeline (run source sink)
                else mret 0);
  '(dataSource, dataSink, r) ←
    (if profiling then postRun dataSource dataSink endOfInput r
     else mret (dataSource, dataSink, r));
  dataSource ← sc_finalize source_ops dataSource;
  dataSink ← kc_finalize sink_ops outputSize endOfInput dataSink;
  mret (outputSize, endOfInput, dataSource, dataSink, r).

(** pipeline_loop.cpp: run until the end of the input. *)
Fixpoint run_loop (fuel : nat) (profiling : bool) (dataSource : C) (dataSink : D) (r : runner) :
    Exc St (C * D * runner) :=
  match fuel with
  | O => λ _, Stuck OutOfFuel
  | S fuel' =>
      '(_, endOfInput, dataSource, dataSink, r) ← run_once profiling dataSource dataSink r;
      if (endOfInput : bool) then mret (dataSource, dataSink, r)
      else run_loop fuel' profiling dataSource dataSink r
  end.
End Runner.
End Runner.

(** ** The default contexts (data_source_context.hpp, data_sink_context.hpp) *)
Section Default.
Context {S : Type}.

Record default_context := DefaultContext {
  dc_address : Address; dc_profilingEnabled : bool; dc_profilingResults : string;
}.

Definition DefaultDataSourceContext : DataSourceContext S default_context := {|
  sc_configure := λ _ c, mret c;
  sc_finalize := λ c, mret c;
  sc_dataSource := λ c _, Ok (dc_address c);
  sc_reportTotalSize := λ _, 0;
  sc_endOfInput := λ _, true;
  sc_profilingEnabled := dc_profilingEnabled;
  sc_setProfilingResults := λ r c, DefaultContext (dc_address c) (dc_profilingEnabled c) r;
|}.

Definition DefaultDataSinkContext : DataSinkContext S default_context := {|
  kc_dataSink := λ c _, Ok (dc_address c);
  kc_prepareForTotalSize := λ _ c, mret c;
  kc_configure := λ _ _ c, mret c;
  kc_finalize := λ _ _ c, mret c;
  kc_profilingEnabled := dc_profilingEnabled;
  kc_setProfilingResults := λ r c, DefaultContext (dc_address c) (dc_profilingEnabled c) r;
|}.
End Default.
