(* ===== verification/Profiling.v ===== *)
(** * The text of profiling results (profiling_pipeline_runner.cpp)

    [formatProfilingResults] turns the counters of a run into a table, with floating
    point arithmetic in IEEE doubles (the Standard Library's specification) and
    printf. *)
From Stdlib Require Import SpecFloat.
From S2P Require Import Prelude OpMem Jobs Pipeline Runner.

(** ** Doubles *)

Module Double.
Definition prec : Z := 53.
Definition emax : Z := 1024.

(** A [uint64_t] as a double, rounded to the nearest. *)
Definition of_u64 (n : Z) : spec_float := binary_normalize prec emax n 0 false.
Definition mul (x y : spec_float) : spec_float := SFmul prec emax x y.
Definition div (x y : spec_float) : spec_float := SFdiv prec emax x y.
End Double.

(** ** printf *)

Module Printf.

(** The text of a value that is no number depends on the machine. *)
Class Printf := { nan_text : string }.

Definition digit (d : Z) : Ascii.ascii := Ascii.ascii_of_nat (Z.to_nat (48 + d)).

Fixpoint decimal_from (fuel : nat) (n : Z) (rest : string) : string :=
  match fuel with
  | O => rest
  | S fuel' =>
      let rest := String (digit (n mod 10)) rest in
      if n <? 10 then rest else decimal_from fuel' (n / 10) rest
  end.

(** [%lu], for numbers below [10 ^ 400]: also what the largest double needs. *)
Definition decimal (n : Z) : string := decimal_from 400 n "".

Fixpoint spaces (n : nat) : string := match n with O => "" | S n' => String (Ascii.ascii_of_nat 32) (spaces n') end.

(** A field of at least [width] characters, and with the flag [-]. *)
Definition pad_left (width : nat) (s : string) : string := (spaces (width - String.length s) ++ s)%string.
Definition pad_right (width : nat) (s : string) : string := (s ++ spaces (width - String.length s))%string.

(** The nearest integer to [n / d]; of two the even one. *)
Definition round_half_even (n d : Z) : Z :=
  let q := n / d in
  match 2 * (n mod d) ?= d with
  | Lt => q
  | Eq => if Z.even q then q else q + 1
  | Gt => q + 1
  end.

(** [m * 2 ^ e] times [10 ^ digits], rounded. *)
Definition scaled (digits : Z) (m e : Z) : Z :=
  if 0 <=? e then m * 2 ^ e * 10 ^ digits else round_half_even (m * 10 ^ digits) (2 ^ (- e)).

Definition fraction (digits : Z) (k : Z) : string :=
  if digits =? 0 then "" else ("." ++ String.substring 1 (Z.to_nat digits) (decimal (10 ^ digits + k mod 10 ^ digits)))%string.

Definition sign (s : bool) : string := if s then "-" else "".

(** [%.nf]. *)
Definition fixed `{Printf} (digits : Z) (x : spec_float) : string :=
  match x with
  | S754_nan => nan_text
  | S754_infinity s => sign s ++ "inf"
  | S754_zero s => sign s ++ decimal 0 ++ fraction digits 0
  | S754_finite s m e =>
      let k := scaled digits (Zpos m) e in
      sign s ++ decimal (k / 10 ^ digits) ++ fraction digits k
  end%string.
End Printf.

(** ** formatProfilingResults *)

Module Profiling.
Import Double Printf Runner.

Definition freq : spec_float := of_u64 250.
Definition onehundred : spec_float := of_u64 100.

(** [count * onehundred / _results.globalClockCounter]. *)
Definition percent (count clock : Z) : spec_float := div (mul (of_u64 count) onehundred) (of_u64 clock).

(** [(bytes * freq) / (double)clock]. *)
Definition mbps (bytes clock : Z) : spec_float := div (mul (of_u64 bytes) freq) (of_u64 clock).

Definition endl : string := String (Ascii.ascii_of_nat 10) "".

Definition header : string :=
  ("STREAM  BYTES TRANSFERRED  ACTIVE CYCLES  DATA WAIT      CONSUMER " ++ "WAIT  TOTAL CYCLES  MiB/s")%string.

Section Format.
Context `{Printf}.

(** One of the columns [%-9lu%3.0f%%]. *)
Definition cycles (count clock : Z) : string :=
  (pad_right 9 (decimal count) ++ pad_left 3 (fixed 0 (percent count clock)) ++ "%")%string.

Definition row (name : string) (bytes active data_wait consumer_wait clock : Z) : string :=
  (name ++ pad_right 17 (decimal bytes) ++ "  " ++ cycles active clock ++ "  " ++ cycles data_wait clock ++ "  "
   ++ cycles consumer_wait clock ++ "  " ++ pad_right 12 (decimal clock) ++ "  "
   ++ pad_right 4 (fixed 2 (mbps bytes clock)))%string.

Definition formatProfilingResults (r : ProfilingResults) (dataSource dataSink : bool) : string :=
  (header ++ endl
   ++ (if dataSource then "" else
         row "input   " (inputDataByteCount r) (inputTransferCycleCount r) (inputMasterIdleCount r)
           (inputSlaveIdleCount r) (globalClockCounter r) ++ endl)
   ++ (if dataSink then "" else
         row "output  " (outputDataByteCount r) (outputTransferCycleCount r) (outputMasterIdleCount r)
           (outputSlaveIdleCount r) (globalClockCounter r) ++ endl))%string.
End Format.
End Profiling.
