(* ===== verification/ProfilingProofs.v ===== *)
(** * What the table of profiling results shows

    The errors of the floating point operations that [formatProfilingResults] uses,
    and from them: every percentage is that of its counters, rounded to the nearest,
    and every column of a row begins where the header has it. *)
From Stdlib Require Import SpecFloat.
From S2P Require Import Prelude OpMem Jobs Pipeline Runner Profiling.

Module Rounding.
Import Double.

(** ** Values as integers *)

(** Every double is a multiple of the smallest, [1 / unit]. *)
Definition B : Z := 1074.
Definition unit : Z := 2 ^ B.

(** The value of [m * 2 ^ e] in these. *)
Definition val (m e : Z) : Z := m * 2 ^ (e + B).

Lemma unit_pos : 0 < unit.
Proof. by apply Z.pow_pos_nonneg. Qed.

Lemma val_pos m e : - B ≤ e → 0 < m → 0 < val m e.
Proof. intros He Hm. unfold val. pose proof (Z.pow_pos_nonneg 2 (e + B)). nia. Qed.

Lemma val_shift m e k : 0 ≤ k → - B ≤ e → val (m * 2 ^ k) e = val m (e + k).
Proof.
  intros Hk He. unfold val. replace (e + k + B) with (k + (e + B)) by lia.
  rewrite (Z.pow_add_r 2 k) by lia. lia.
Qed.

Lemma val_le m m' e : - B ≤ e → m ≤ m' → val m e ≤ val m' e.
Proof. intros He Hm. unfold val. pose proof (Z.pow_pos_nonneg 2 (e + B)). nia. Qed.

(** ** The pieces of a rounding *)

Lemma digits_spec p : 2 ^ (Zpos (digits2_pos p) - 1) ≤ Zpos p < 2 ^ Zpos (digits2_pos p).
Proof.
  induction p as [p IH|p IH|]; cbn [digits2_pos]; [..|done].
  all: rewrite Pos2Z.inj_succ, Z.pow_succ_r by lia; unfold Z.succ; rewrite Z.add_simpl_r.
  all: replace (2 ^ Zpos (digits2_pos p)) with (2 * 2 ^ (Zpos (digits2_pos p) - 1)) in *
    by (rewrite <-Z.pow_succ_r by lia; f_equal; lia); lia.
Qed.

Lemma digits_unique p d : 2 ^ (d - 1) ≤ Zpos p < 2 ^ d → Zpos (digits2_pos p) = d.
Proof.
  intros Hd. pose proof (digits_spec p) as Hp.
  destruct (Z.lt_trichotomy (Zpos (digits2_pos p)) d) as [Hlt|[?|Hlt]]; [|done|].
  - pose proof (Z.pow_le_mono_r 2 (Zpos (digits2_pos p)) (d - 1)). lia.
  - destruct (decide (0 ≤ d)); [pose proof (Z.pow_le_mono_r 2 d (Zpos (digits2_pos p) - 1)); lia|].
    rewrite (Z.pow_neg_r 2 d) in Hd by lia. lia.
Qed.

Lemma shr_1_half mrs : 0 ≤ shr_m mrs → shr_m (shr_1 mrs) = shr_m mrs / 2.
Proof.
  destruct mrs as [[|[p|p|]|p] r s]; cbn [shr_1 shr_m]; intros Hm; try done.
  - rewrite Pos2Z.inj_xI. replace (2 * Zpos p + 1) with (1 + Zpos p * 2) by lia. by rewrite Z.div_add.
  - rewrite Pos2Z.inj_xO, Z.mul_comm. by rewrite Z.div_mul.
Qed.

Lemma shr_iter p : ∀ mrs, 0 ≤ shr_m mrs → shr_m (SpecFloat.iter_pos shr_1 p mrs) = shr_m mrs / 2 ^ Zpos p.
Proof.
  assert (∀ a k, 0 ≤ a → 0 ≤ k → 0 ≤ a / 2 ^ k) as Hpos.
  { intros a k Ha Hk. apply Z.div_pos; [done|]. by apply Z.pow_pos_nonneg. }
  induction p as [p IH|p IH|]; intros mrs Hm; cbn [SpecFloat.iter_pos].
  - pose proof (shr_1_half mrs Hm) as H1. assert (0 ≤ shr_m mrs / 2) by (apply (Hpos _ 1); lia).
    rewrite IH, IH, H1; [|lia|rewrite IH by lia; rewrite H1; apply Hpos; lia].
    rewrite !Z.div_div by (lia || apply Z.pow_pos_nonneg; lia). f_equal.
    rewrite (Pos2Z.inj_xI p), Z.pow_add_r, <-(Z.add_diag (Zpos p)), Z.pow_add_r by lia. lia.
  - rewrite IH, IH; [|lia|rewrite IH by lia; apply Hpos; lia].
    rewrite Z.div_div by (lia || apply Z.pow_pos_nonneg; lia). f_equal.
    by rewrite (Pos2Z.inj_xO p), <-(Z.add_diag (Zpos p)), Z.pow_add_r by lia.
  - by rewrite shr_1_half.
Qed.

Lemma record_of_loc_m m l : shr_m (shr_record_of_loc m l) = m.
Proof. by destruct l as [|[]]. Qed.

Lemma loc_of_record m l : loc_of_shr_record (shr_record_of_loc m l) = l.
Proof. by destruct l as [|[]]. Qed.

Lemma rounds_up_or_not m l : round_nearest_even m l = m ∨ round_nearest_even m l = m + 1 ∧ l ≠ loc_Exact.
Proof. destruct l as [|[]]; cbn; try destruct (Z.even m); first [by left|right; split; congruence]. Qed.

(** Shifting so that at most 53 digits are left. *)
Lemma shr_fexp_run mx ex l : - 1021 ≤ Zpos (digits2_pos mx) + ex →
  let n := Zpos (digits2_pos mx) - 53 in
  ∃ mrs, shr_fexp prec emax (Zpos mx) ex l = (mrs, Z.max ex (ex + n)) ∧
    shr_m mrs = Zpos mx / 2 ^ Z.max 0 n ∧ (n ≤ 0 → loc_of_shr_record mrs = l).
Proof.
  intros Hd n. unfold shr_fexp. cbn [Zdigits2].
  assert (fexp prec emax (Zpos (digits2_pos mx) + ex) - ex = n) as -> by (unfold fexp, emin, prec, emax, n; lia).
  unfold shr. destruct n as [|p|p] eqn:En.
  - eexists. split; [do 2 f_equal; lia|]. split; [|intros _; apply loc_of_record].
    rewrite record_of_loc_m. symmetry. apply Z.div_1_r.
  - eexists. split; [do 2 f_equal; lia|]. rewrite shr_iter by (by rewrite record_of_loc_m).
    split; [by rewrite record_of_loc_m, Z.max_r by lia|lia].
  - eexists. split; [do 2 f_equal; lia|]. split; [|intros _; apply loc_of_record].
    rewrite record_of_loc_m, Z.max_l by lia. symmetry. apply Z.div_1_r.
Qed.

(** What is left of a number of [d] digits. *)
Lemma cut_digits p : let n := Zpos (digits2_pos p) - 53 in let m1 := Zpos p / 2 ^ Z.max 0 n in
  m1 * 2 ^ Z.max 0 n ≤ Zpos p < (m1 + 1) * 2 ^ Z.max 0 n ∧ 0 < m1 < 2 ^ 53 ∧
  (0 ≤ n → 2 ^ 52 ≤ m1) ∧ (n ≤ 0 → m1 = Zpos p).
Proof.
  intros n m1. pose proof (digits_spec p) as Hp. set (d := Zpos (digits2_pos p)) in *.
  set (k := Z.max 0 n). assert (0 ≤ k) as Hk by lia.
  pose proof (Z.pow_pos_nonneg 2 k ltac:(lia) Hk) as H2.
  pose proof (Z.div_mod (Zpos p) (2 ^ k) ltac:(lia)) as Hdm. pose proof (Z.mod_pos_bound (Zpos p) (2 ^ k) H2) as Hm.
  fold k in m1. fold m1 in Hdm. split; [lia|].
  assert (n ≤ 0 → m1 = Zpos p) as Hsmall.
  { intros Hn. unfold m1. replace k with 0 by lia. apply Z.div_1_r. }
  assert (0 ≤ n → 2 ^ 52 ≤ m1 < 2 ^ 53) as Hlarge.
  { intros Hn. assert (k = n) as Ek by lia.
    assert (2 ^ 52 * 2 ^ k = 2 ^ (d - 1)) as E1 by (rewrite <-Z.pow_add_r by lia; f_equal; lia).
    assert (2 ^ 53 * 2 ^ k = 2 ^ d) as E2 by (rewrite <-Z.pow_add_r by lia; f_equal; lia).
    split; [apply Z.div_le_lower_bound|apply Z.div_lt_upper_bound]; lia. }
  split; [|split; [intros Hn; by apply Hlarge|done]].
  destruct (Z.le_ge_cases 0 n) as [Hn|Hn]; [specialize (Hlarge Hn); lia|].
  rewrite (Hsmall Hn). pose proof (Z.pow_le_mono_r 2 d 53). lia.
Qed.

(** The second shift is for a carry only, and changes no value. *)
Lemma carry_run m2 e1 : 0 < m2 ≤ 2 ^ 53 → - 900 ≤ e1 ≤ 900 →
  ∃ mrs m e, shr_fexp prec emax m2 e1 loc_Exact = (mrs, e) ∧ shr_m mrs = Zpos m ∧
    e ≤ emax - prec ∧ e1 ≤ e ≤ e1 + 1 ∧ Zpos m ≤ 2 ^ 53 ∧ val (Zpos m) e = val m2 e1.
Proof.
  intros Hm He. destruct m2 as [|p|p]; [lia| |lia]. pose proof (digits_spec p) as Hp.
  destruct (shr_fexp_run p e1 loc_Exact) as (mrs & Hrun & Hmrs & _); [lia|].
  set (d := Zpos (digits2_pos p)) in *.
  assert (d ≤ 54) as Hd.
  { destruct (decide (d ≤ 54)); [done|]. pose proof (Z.pow_le_mono_r 2 54 (d - 1)). lia. }
  destruct (decide (d = 54)) as [E|Hne].
  - rewrite E in Hp, Hrun, Hmrs. assert (Zpos p = 2 ^ 53) as Ep by lia.
    exists mrs, (Z.to_pos (2 ^ 52)), (e1 + 1). rewrite Hrun. split; [do 2 f_equal; lia|].
    rewrite Hmrs, Ep. split; [done|]. split; [unfold emax, prec; lia|]. split; [lia|]. split; [done|].
    rewrite <-val_shift by (unfold B; lia). done.
  - exists mrs, p, e1. rewrite Hrun. split; [do 2 f_equal; lia|].
    rewrite Hmrs, Z.max_l by lia. rewrite Z.div_1_r. unfold emax, prec. repeat split; lia.
Qed.

(** Rounding a number, or one that exceeds it by less than its last digit: the
    result is the number with at most 53 digits below it or the next one. *)
Lemma round_aux_run mx ex l :
  let d := Zpos (digits2_pos mx) in
  - 800 ≤ ex ≤ 800 → - 800 ≤ d + ex ≤ 800 → 53 ≤ d ∨ l = loc_Exact →
  ∃ m e m1 e1, binary_round_aux prec emax false (Zpos mx) ex l = S754_finite false m e ∧
    ex ≤ e ≤ Z.max ex (d + ex - 53) + 1 ∧ Zpos m ≤ 2 ^ 53 ∧ - B ≤ e1 ∧
    val m1 e1 ≤ val (Zpos mx) ex ∧ val (Zpos mx + 1) ex ≤ val (m1 + 1) e1 ∧
    val m1 e1 ≤ val (Zpos m) e ≤ val (m1 + 1) e1 ∧
    (2 ^ 52 ≤ m1 ∨ l = loc_Exact ∧ val (Zpos m) e = val (Zpos mx) ex).
Proof.
  intros d He Hd Hl. destruct (shr_fexp_run mx ex l) as (mrs & Hrun & Hm1 & Hloc); [unfold d in *; lia|].
  destruct (cut_digits mx) as (Hcut & Hm1r & Hlarge & Hsmall). fold d in Hrun, Hm1, Hloc, Hcut, Hm1r, Hlarge, Hsmall.
  set (n := d - 53) in *. set (m1 := Zpos mx / 2 ^ Z.max 0 n) in *.
  set (m2 := round_nearest_even m1 (loc_of_shr_record mrs)).
  assert (m2 = m1 ∨ m2 = m1 + 1 ∧ loc_of_shr_record mrs ≠ loc_Exact) as Hm2 by apply rounds_up_or_not.
  assert (Z.max ex (ex + n) = ex + Z.max 0 n) as Emax by lia.
  destruct (carry_run m2 (ex + Z.max 0 n)) as (mrs2 & m & e & Hrun2 & Hm & Hem & HeB & Hm53 & Hval); [lia|unfold d, n in *; lia|].
  exists m, e, m1, (ex + Z.max 0 n).
  assert (- B ≤ ex) as HexB by (unfold B; lia).
  rewrite !Hval, <-!val_shift by lia. unfold binary_round_aux. rewrite Hrun, Emax, Hm1. fold m2. rewrite Hrun2, Hm.
  rewrite (proj2 (Z.leb_le _ _)) by done. split; [done|]. split; [lia|]. split; [done|]. split; [lia|].
  split; [apply val_le; lia|]. split; [apply val_le; lia|].
  split; [split; apply val_le; try lia; apply Z.mul_le_mono_nonneg_r; try apply Z.pow_nonneg; lia|].
  destruct (Z.le_ge_cases 0 n) as [Hn|Hn]; [left; auto|]. destruct Hl as [Hl|Hl]; [left; apply Hlarge; lia|].
  right. split; [done|]. f_equal. rewrite Z.max_l, Z.mul_1_r by lia.
  rewrite Hloc, Hl in Hm2 by done. rewrite <-Hsmall by done. destruct Hm2 as [?|[_ ?]]; done.
Qed.

(** ** The operations *)

(** [r] is [x] up to one part in [2 ^ 52]. *)
Definition near (r x : Z) : Prop := Z.abs (r - x) * 2 ^ 52 ≤ x.

Lemma near_refl x : 0 ≤ x → near x x.
Proof. unfold near. rewrite Z.sub_diag. cbn. lia. Qed.

(** What lies between two neighbours of 53 digits. *)
Lemma near_between M E R Y X :
  0 ≤ Y → 0 ≤ E → 2 ^ 52 ≤ M → M * E ≤ R ≤ (M + 1) * E → M * E * Y ≤ X ≤ (M + 1) * E * Y → near (R * Y) X.
Proof.
  intros HY HE HM [HR1 HR2] [HX1 HX2]. unfold near.
  assert (M * E * Y ≤ R * Y ≤ (M + 1) * E * Y) as HRY by (split; apply Z.mul_le_mono_nonneg_r; done).
  assert (0 ≤ E * Y) by (by apply Z.mul_nonneg_nonneg).
  assert (Z.abs (R * Y - X) ≤ E * Y) as Habs by (apply Z.abs_le; lia).
  assert (2 ^ 52 * (E * Y) ≤ M * (E * Y)) by (apply Z.mul_le_mono_nonneg_r; lia). lia.
Qed.

(** A value that is represented exactly where that is possible. *)
Lemma round_exact mx ex :
  let d := Zpos (digits2_pos mx) in
  - 800 ≤ ex ≤ 800 → - 800 ≤ d + ex ≤ 800 →
  ∃ m e, binary_round_aux prec emax false (Zpos mx) ex loc_Exact = S754_finite false m e ∧
    ex ≤ e ≤ Z.max ex (d + ex - 53) + 1 ∧ Zpos m ≤ 2 ^ 53 ∧ near (val (Zpos m) e) (val (Zpos mx) ex).
Proof.
  intros d He Hd. destruct (round_aux_run mx ex loc_Exact He Hd) as (m & e & m1 & e1 & Hrun & Hee & Hm & He1 & Hlo & Hhi & Hr & Hx);
    [by right|]. exists m, e. split; [done|]. split; [done|]. split; [done|].
  destruct Hx as [Hm1|[_ ->]]; [|apply near_refl, Z.lt_le_incl, val_pos; [unfold B; lia|done]].
  rewrite <-(Z.mul_1_r (val (Zpos m) e)). apply (near_between m1 (2 ^ (e1 + B)) _ 1); [lia|by apply Z.pow_nonneg|done|done|].
  rewrite !Z.mul_1_r. split; [done|]. etrans; [|exact Hhi]. apply val_le; [unfold B; lia|lia].
Qed.

Lemma shl_iter p q : Zpos (Pos.iter xO p q) = Zpos p * 2 ^ Zpos q.
Proof.
  induction q as [|q IH] using Pos.peano_ind; [cbn; lia|].
  rewrite Pos.iter_succ, Pos2Z.inj_xO, IH, Pos2Z.inj_succ, Z.pow_succ_r by lia. lia.
Qed.

Lemma u64_run n : 0 < n < 2 ^ 64 →
  ∃ m e, of_u64 n = S754_finite false m e ∧ - 52 ≤ e ≤ 12 ∧ Zpos m ≤ 2 ^ 53 ∧ near (val (Zpos m) e) (n * unit).
Proof.
  intros Hn. destruct n as [|p|p]; [lia| |lia]. unfold of_u64, binary_normalize, binary_round.
  pose proof (digits_spec p) as Hp. set (d := Zpos (digits2_pos p)) in *.
  assert (1 ≤ d ≤ 64) as Hd.
  { split; [unfold d; lia|]. destruct (decide (d ≤ 64)); [done|]. pose proof (Z.pow_le_mono_r 2 64 (d - 1)). lia. }
  assert (fexp prec emax (d + 0) = d - 53) as -> by (unfold fexp, emin, prec, emax; lia).
  unfold shl_align. rewrite Z.sub_0_r. assert (val (Zpos p) 0 = Zpos p * unit) as <- by done.
  destruct (d - 53) as [|q|q] eqn:Eq.
  1,2: destruct (round_exact p 0) as (m & e & Hr & He & Hm & Hnear); [lia|fold d; lia|]; fold d in He;
    exists m, e; split; [done|]; split; [lia|done].
  assert (Zpos (digits2_pos (Pos.iter xO p q)) = 53) as Hd53.
  { apply digits_unique. rewrite shl_iter.
    assert (2 ^ (53 - 1) = 2 ^ (d - 1) * 2 ^ Zpos q) as -> by (rewrite <-Z.pow_add_r by lia; f_equal; lia).
    assert (2 ^ 53 = 2 ^ d * 2 ^ Zpos q) as -> by (rewrite <-Z.pow_add_r by lia; f_equal; lia).
    pose proof (Z.pow_pos_nonneg 2 (Zpos q)). nia. }
  destruct (round_exact (Pos.iter xO p q) (Zneg q)) as (m & e & Hr & He & Hm & Hnear); [lia|lia|].
  exists m, e. rewrite Hd53 in He. split; [done|]. split; [lia|]. split; [done|].
  rewrite shl_iter, val_shift in Hnear by (unfold B; lia). by replace (Zneg q + Zpos q) with 0 in Hnear by lia.
Qed.

Lemma digits_bound p : Zpos p ≤ 2 ^ 53 → 1 ≤ Zpos (digits2_pos p) ≤ 54.
Proof.
  intros Hp. pose proof (digits_spec p) as Hd. split; [lia|].
  destruct (decide (Zpos (digits2_pos p) ≤ 54)); [done|].
  pose proof (Z.pow_le_mono_r 2 54 (Zpos (digits2_pos p) - 1)). lia.
Qed.

Lemma mul_run m1 e1 m2 e2 :
  - 100 ≤ e1 ≤ 100 → - 100 ≤ e2 ≤ 100 → Zpos m1 ≤ 2 ^ 53 → Zpos m2 ≤ 2 ^ 53 →
  ∃ m e, mul (S754_finite false m1 e1) (S754_finite false m2 e2) = S754_finite false m e ∧
    e1 + e2 ≤ e ≤ Z.max (e1 + e2) (e1 + e2 + 55) + 1 ∧ Zpos m ≤ 2 ^ 53 ∧
    near (val (Zpos m) e * unit) (val (Zpos m1) e1 * val (Zpos m2) e2).
Proof.
  intros He1 He2 Hm1 Hm2. pose proof (digits_spec (m1 * m2)) as Hd.
  assert (1 ≤ Zpos (digits2_pos (m1 * m2)) ≤ 107) as Hd107.
  { split; [lia|]. destruct (decide (Zpos (digits2_pos (m1 * m2)) ≤ 107)); [done|].
    pose proof (Z.pow_le_mono_r 2 107 (Zpos (digits2_pos (m1 * m2)) - 1)).
    assert (Zpos m1 * Zpos m2 ≤ 2 ^ 53 * 2 ^ 53) by (apply Z.mul_le_mono_nonneg; lia). lia. }
  destruct (round_exact (m1 * m2) (e1 + e2)) as (m & e & Hr & He & Hm & Hnear); [lia|lia|].
  exists m, e. split; [exact Hr|]. split; [lia|]. split; [done|].
  unfold near in *. assert (val (Zpos m1) e1 * val (Zpos m2) e2 = val (Zpos (m1 * m2)) (e1 + e2) * unit) as ->.
  { unfold val, unit. rewrite Pos2Z.inj_mul.
    transitivity (Zpos m1 * Zpos m2 * (2 ^ (e1 + B) * 2 ^ (e2 + B))); [lia|].
    rewrite <-(Z.mul_assoc (Zpos m1 * Zpos m2) (2 ^ (e1 + e2 + B)) (2 ^ B)).
    rewrite <-!Z.pow_add_r by (unfold B; lia). f_equal. f_equal. lia. }
  rewrite <-Z.mul_sub_distr_r, Z.abs_mul, (Z.abs_eq unit) by (apply Z.lt_le_incl, unit_pos).
  pose proof unit_pos. nia.
Qed.

(** The quotient that is rounded has at least 53 digits. *)
Lemma div_core_run m1 e1 m2 e2 :
  - 100 ≤ e1 ≤ 100 → - 100 ≤ e2 ≤ 100 → Zpos m1 ≤ 2 ^ 53 → Zpos m2 ≤ 2 ^ 53 →
  ∃ q e' l s, SFdiv_core_binary prec emax (Zpos m1) e1 (Zpos m2) e2 = (Zpos q, e', l) ∧ 0 ≤ s ∧ e' + s = e1 - e2 ∧
    - 400 ≤ e' ≤ 400 ∧ 2 ^ 52 ≤ Zpos q < 2 ^ 200 ∧ Zpos q * Zpos m2 ≤ Zpos m1 * 2 ^ s < (Zpos q + 1) * Zpos m2.
Proof.
  intros He1 He2 Hm1 Hm2. pose proof (digits_bound m1 Hm1) as Hd1. pose proof (digits_bound m2 Hm2) as Hd2.
  pose proof (digits_spec m1) as Hs1. pose proof (digits_spec m2) as Hs2.
  unfold SFdiv_core_binary. cbn [Zdigits2]. set (d1 := Zpos (digits2_pos m1)) in *. set (d2 := Zpos (digits2_pos m2)) in *.
  assert (fexp prec emax (d1 + e1 - (d2 + e2)) = d1 + e1 - (d2 + e2) - 53) as -> by (unfold fexp, emin, prec, emax; lia).
  set (e' := Z.min (d1 + e1 - (d2 + e2) - 53) (e1 - e2)). set (s := e1 - e2 - e').
  assert (0 ≤ s ≤ 120 ∧ d2 - d1 + 53 ≤ s) as [Hs Hs53] by (unfold s, e'; lia).
  assert (match s with Z0 => Zpos m1 | Zpos _ => Z.shiftl (Zpos m1) s | Zneg _ => 0 end = Zpos m1 * 2 ^ s) as ->.
  { destruct s as [|k|k]; [cbn; lia|apply Z.shiftl_mul_pow2; lia|lia]. }
  pose proof (Z.div_mod (Zpos m1 * 2 ^ s) (Zpos m2) ltac:(lia)) as Hdm.
  pose proof (Z.mod_pos_bound (Zpos m1 * 2 ^ s) (Zpos m2) ltac:(lia)) as Hmod.
  unfold Z.div, Z.modulo in Hdm, Hmod. destruct (Z.div_eucl _ _) as [q r].
  pose proof (Z.pow_pos_nonneg 2 s ltac:(lia) ltac:(lia)) as H2s.
  assert (2 ^ 52 ≤ q) as Hq.
  { assert (2 ^ 52 * 2 ^ d2 ≤ 2 ^ (d1 - 1) * 2 ^ s).
    { rewrite <-!Z.pow_add_r by lia. apply Z.pow_le_mono_r; lia. }
    assert (2 ^ (d1 - 1) * 2 ^ s ≤ Zpos m1 * 2 ^ s) by (apply Z.mul_le_mono_nonneg_r; lia).
    assert (2 ^ 52 * Zpos m2 ≤ 2 ^ 52 * 2 ^ d2) by lia. nia. }
  assert (q < 2 ^ 200) as Hq2.
  { assert (Zpos m1 * 2 ^ s ≤ 2 ^ 53 * 2 ^ 120).
    { apply Z.mul_le_mono_nonneg; try lia. apply Z.pow_le_mono_r; lia. }
    assert (q ≤ Zpos m2 * q) by nia. lia. }
  destruct q as [|q|q]; [lia| |lia]. eexists q, e', _, s. split; [reflexivity|].
  split; [lia|]. split; [lia|]. split; [lia|]. split; [lia|]. lia.
Qed.

Lemma div_run m1 e1 m2 e2 :
  - 100 ≤ e1 ≤ 100 → - 100 ≤ e2 ≤ 100 → Zpos m1 ≤ 2 ^ 53 → Zpos m2 ≤ 2 ^ 53 →
  ∃ m e, div (S754_finite false m1 e1) (S754_finite false m2 e2) = S754_finite false m e ∧
    - B ≤ e ≤ 900 ∧ near (val (Zpos m) e * val (Zpos m2) e2) (val (Zpos m1) e1 * unit).
Proof.
  intros He1 He2 Hm1 Hm2.
  destruct (div_core_run m1 e1 m2 e2 He1 He2 Hm1 Hm2) as (q & e' & l & s & Hcore & Hs & Hes & He' & Hq & Hdiv).
  pose proof (digits_spec q) as Hdq.
  assert (53 ≤ Zpos (digits2_pos q) ≤ 200) as Hd.
  { split.
    - destruct (decide (53 ≤ Zpos (digits2_pos q))); [done|]. pose proof (Z.pow_le_mono_r 2 (Zpos (digits2_pos q)) 52). lia.
    - destruct (decide (Zpos (digits2_pos q) ≤ 200)); [done|].
      pose proof (Z.pow_le_mono_r 2 200 (Zpos (digits2_pos q) - 1)). lia. }
  destruct (round_aux_run q e' l) as (m & e & M & E & Hrun & He & Hm & HE & Hlo & Hhi & Hr & Hx); [lia|lia|by left; lia|].
  exists m, e. split.
  { unfold div, SFdiv. rewrite Hcore. cbn [xorb]. exact Hrun. }
  split; [unfold B; lia|].
  assert (∀ k, val k e' * val (Zpos m2) e2 = k * Zpos m2 * 2 ^ (e' + e2 + 2 * B)) as Hscale.
  { intros k. unfold val. assert (2 ^ (e' + e2 + 2 * B) = 2 ^ (e' + B) * 2 ^ (e2 + B)) as ->
      by (rewrite <-Z.pow_add_r by (unfold B; lia); f_equal; lia). lia. }
  assert (val (Zpos m1) e1 * unit = Zpos m1 * 2 ^ s * 2 ^ (e' + e2 + 2 * B)) as Hnum.
  { unfold val, unit. rewrite <-!Z.mul_assoc. f_equal. rewrite <-!Z.pow_add_r by (unfold B; lia). f_equal. lia. }
  assert (0 ≤ 2 ^ (e' + e2 + 2 * B)) as Hpow by by apply Z.pow_nonneg.
  assert (val (Zpos q) e' * val (Zpos m2) e2 ≤ val (Zpos m1) e1 * unit ≤ val (Zpos q + 1) e' * val (Zpos m2) e2) as [Hx1 Hx2].
  { rewrite !Hscale, Hnum. split; apply Z.mul_le_mono_nonneg_r; lia. }
  assert (0 ≤ val (Zpos m2) e2) as HY by (apply Z.lt_le_incl, val_pos; [unfold B; lia|done]).
  destruct Hx as [HM|[_ Heq]].
  - apply (near_between M (2 ^ (E + B))); [done|by apply Z.pow_nonneg|done|exact Hr|].
    change (M * 2 ^ (E + B)) with (val M E). change ((M + 1) * 2 ^ (E + B)) with (val (M + 1) E).
    split; (etrans; [|eassumption]) || (etrans; [eassumption|]); by apply Z.mul_le_mono_nonneg_r.
  - apply (near_between (Zpos q) (2 ^ (e' + B))); [done|by apply Z.pow_nonneg|lia| |done].
    change (Zpos q * 2 ^ (e' + B)) with (val (Zpos q) e'). rewrite Heq. split; [done|].
    apply (val_le (Zpos q) (Zpos q + 1) e'); [unfold B; lia|lia].
Qed.

(** ** Three operations in a row *)

Lemma hundred_run : ∃ m e, Profiling.onehundred = S754_finite false m e ∧ - 46 ≤ e ≤ 12 ∧ Zpos m ≤ 2 ^ 53 ∧
  val (Zpos m) e = 100 * unit.
Proof. eexists _, _. split; [vm_compute; reflexivity|]. split; [lia|]. split; [lia|]. by vm_compute. Qed.

(** The errors add up. *)
Lemma near_chain c g C G P R :
  0 < c → 0 < g → 0 ≤ R → 0 ≤ P → 0 ≤ C →
  near C (c * unit) → near G (g * unit) → near (P * unit) (C * (100 * unit)) → near (R * G) (P * unit) →
  Z.abs (R * g - 100 * c * unit) * 2 ^ 49 ≤ 100 * c * unit.
Proof.
  unfold near. pose proof unit_pos as HU. set (U := unit) in *. intros Hc Hg HR HP HC0 HC HG HM HD.
  assert (Z.abs (P - 100 * C) * 2 ^ 52 ≤ 100 * C) as HP'.
  { replace (P * U - C * (100 * U)) with ((P - 100 * C) * U) in HM by lia.
    rewrite Z.abs_mul, (Z.abs_eq U) in HM by lia. apply (Z.mul_le_mono_pos_r _ _ U HU). lia. }
  assert ((2 ^ 52 - 1) * (R * (g * U)) ≤ 2 ^ 52 * (R * G) ≤ (2 ^ 52 + 1) * (R * (g * U))) as [HG1 HG2].
  { assert (∀ a b, a ≤ b → R * a ≤ R * b) as Hmono by (intros a b Hab; by apply Z.mul_le_mono_nonneg_l).
    split.
    - pose proof (Hmono ((2 ^ 52 - 1) * (g * U)) (2 ^ 52 * G) ltac:(lia)). lia.
    - pose proof (Hmono (2 ^ 52 * G) ((2 ^ 52 + 1) * (g * U)) ltac:(lia)). lia. }
  assert ((2 ^ 52 - 1) * (R * g) ≤ (2 ^ 52 + 1) * P) as Hhi.
  { apply (Z.mul_le_mono_pos_r _ _ U HU). lia. }
  assert ((2 ^ 52 - 1) * P ≤ (2 ^ 52 + 1) * (R * g)) as Hlo.
  { apply (Z.mul_le_mono_pos_r _ _ U HU). lia. }
  lia.
Qed.

Lemma percent_run c g : 0 < c < 2 ^ 64 → 0 < g < 2 ^ 64 →
  ∃ m e, Profiling.percent c g = S754_finite false m e ∧ - B ≤ e ≤ 900 ∧
    Z.abs (val (Zpos m) e * g - 100 * c * unit) * 2 ^ 49 ≤ 100 * c * unit.
Proof.
  intros Hc Hg. destruct (u64_run c Hc) as (mc & ec & Ec & Hec & Hmc & Hnc).
  destruct (u64_run g Hg) as (mg & eg & Eg & Heg & Hmg & Hng).
  destruct hundred_run as (mh & eh & Eh & Heh & Hmh & Hvh).
  destruct (mul_run mc ec mh eh) as (mp & ep & Ep & Hep & Hmp & Hnp); try done; try lia.
  destruct (div_run mp ep mg eg) as (mr & er & Er & Her & Hnr); try done; try lia.
  exists mr, er. split; [unfold Profiling.percent; by rewrite Ec, Eg, Eh, Ep|]. split; [done|]. rewrite Hvh in Hnp.
  assert (∀ m e, - 200 ≤ e → 0 ≤ val (Zpos m) e) as Hpos
    by (intros m e He; apply Z.lt_le_incl, val_pos; [unfold B; lia|done]).
  apply (near_chain c g (val (Zpos mc) ec) (val (Zpos mg) eg) (val (Zpos mp) ep)); try done; try lia.
  all: apply Z.lt_le_incl, val_pos; [unfold B in *; lia|done].
Qed.

(** ** Rounding to an integer *)

Lemma scaled_run m e : - B ≤ e → 0 < m →
  0 ≤ Printf.scaled 0 m e ∧ Z.abs (2 * (Printf.scaled 0 m e * unit - val m e)) ≤ unit.
Proof.
  intros He Hm. unfold Printf.scaled. pose proof unit_pos as HU. rewrite Z.pow_0_r, !Z.mul_1_r.
  destruct (Z.leb_spec 0 e) as [Hle|Hlt].
  - pose proof (Z.pow_pos_nonneg 2 e). split; [nia|]. unfold val, unit.
    rewrite Z.pow_add_r by (unfold B; lia). replace (m * 2 ^ e * 2 ^ B - m * (2 ^ e * 2 ^ B)) with 0 by lia.
    fold unit. lia.
  - set (d := 2 ^ (- e)). assert (0 < d) as Hd by (apply Z.pow_pos_nonneg; lia).
    assert (unit = d * 2 ^ (e + B)) as ->.
    { unfold unit, d. rewrite <-Z.pow_add_r by lia. f_equal. lia. }
    unfold val. set (E := 2 ^ (e + B)). assert (0 < E) as HE by (apply Z.pow_pos_nonneg; lia).
    pose proof (Z.div_mod m d ltac:(lia)) as Hdm. pose proof (Z.mod_pos_bound m d Hd) as Hmod.
    pose proof (Z.div_pos m d ltac:(lia) Hd) as Hq.
    assert (0 ≤ Printf.round_half_even m d ∧ Z.abs (2 * (Printf.round_half_even m d * d - m)) ≤ d) as [Hk Hr].
    { unfold Printf.round_half_even. destruct (Z.compare_spec (2 * (m mod d)) d); [destruct (Z.even _)|..]; lia. }
    split; [done|]. set (k := Printf.round_half_even m d) in *.
    replace (2 * (k * (d * E) - m * E)) with (2 * (k * d - m) * E) by lia.
    rewrite Z.abs_mul, (Z.abs_eq E) by lia. by apply Z.mul_le_mono_nonneg_r; lia.
Qed.
End Rounding.

(** ** The table *)

Module Table.
Import Double Printf Profiling Runner Rounding.

(** *** Numbers as texts *)

Definition digit_value (c : Z) : Z := c - 48.

(** The number that a text of digits stands for. *)
Definition number (s : string) : Z := foldl (λ n c, 10 * n + digit_value c) 0 (str s).

Lemma digit_code d : 0 ≤ d < 10 → Z.of_nat (Ascii.nat_of_ascii (digit d)) = 48 + d.
Proof. intros Hd. unfold digit. rewrite Ascii.nat_ascii_embedding by lia. lia. Qed.

Lemma decimal_from_run fuel : ∀ n rest, 0 ≤ n < 10 ^ Z.of_nat fuel → (0 < fuel)%nat →
  ∃ s, decimal_from fuel n rest = (s ++ rest)%string ∧ number s = n ∧
    ∀ w, (0 < w)%nat → n < 10 ^ Z.of_nat w → (String.length s ≤ w)%nat.
Proof.
  induction fuel as [|fuel IH]; intros n rest Hn Hf; [lia|].
  pose proof (Z.div_mod n 10 ltac:(lia)) as Hdm. pose proof (Z.mod_pos_bound n 10 ltac:(lia)) as Hmod.
  set (last := String (digit (n mod 10)) "").
  assert (∀ s, number (s ++ last)%string = 10 * number s + n mod 10) as Hlast.
  { intros s. unfold number. replace (str (s ++ last)%string) with (str s ++ [48 + n mod 10]).
    - rewrite foldl_app. cbn [foldl]. set (v := foldl _ _ _). unfold digit_value. lia.
    - unfold str. rewrite <-(digit_code (n mod 10)) by done. induction s as [|c s IHs]; [done|]. exact (f_equal (cons _) IHs). }
  cbn [decimal_from]. destruct (Z.ltb_spec n 10) as [Hlt|Hge].
  - exists last. split; [done|]. split.
    + change last with (("" ++ last)%string). rewrite Hlast. change (number "") with 0. rewrite Z.mod_small by lia. lia.
    + intros w Hw _. cbn. lia.
  - rewrite Nat2Z.inj_succ, Z.pow_succ_r in Hn by lia.
    destruct (IH (n / 10) (String (digit (n mod 10)) rest)) as (s & Hs & Hnum & Hlen).
    { split; [apply Z.div_pos; lia|]. apply Z.div_lt_upper_bound; lia. }
    { destruct fuel; [cbn in Hn; lia|lia]. }
    exists (s ++ last)%string. rewrite Hs, string_app_assoc. split; [done|]. rewrite Hlast, Hnum. split; [lia|].
    intros [|w] Hw Hnw; [lia|]. rewrite string_length_app. cbn [last String.length].
    rewrite Nat2Z.inj_succ, Z.pow_succ_r in Hnw by lia.
    destruct w as [|w]; [cbn in Hnw; lia|]. pose proof (Hlen (S w) ltac:(lia)) as Hl.
    assert (n / 10 < 10 ^ Z.of_nat (S w)) by (apply Z.div_lt_upper_bound; lia). lia.
Qed.

Lemma decimal_run n w : (0 < w < 300)%nat → 0 ≤ n < 10 ^ Z.of_nat w →
  number (decimal n) = n ∧ (String.length (decimal n) ≤ w)%nat.
Proof.
  intros Hw Hn. destruct (decimal_from_run 400 n "") as (s & Hs & Hnum & Hlen); [|lia|].
  - split; [lia|]. eapply Z.lt_le_trans; [apply Hn|]. apply Z.pow_le_mono_r; lia.
  - unfold decimal. rewrite Hs, string_app_nil_r. split; [done|]. apply Hlen; lia.
Qed.

Lemma spaces_length n : String.length (spaces n) = n.
Proof. induction n as [|n IH]; [done|]. cbn. by rewrite IH. Qed.

Lemma pad_right_length w s : (String.length s ≤ w)%nat → String.length (pad_right w s) = w.
Proof. intros Hs. unfold pad_right. rewrite string_length_app, spaces_length. lia. Qed.

Lemma pad_left_length w s : (String.length s ≤ w)%nat → String.length (pad_left w s) = w.
Proof. intros Hs. unfold pad_left. rewrite string_length_app, spaces_length. lia. Qed.

(** *** Percentages *)

(** [k] is the percentage of [c] in [g], rounded to the nearest up to the error of
    the computation. *)
Definition nearest_percent (g c k : Z) : Prop :=
  0 ≤ k ≤ 100 ∧ Z.abs (k * g - 100 * c) * 2 ^ 42 ≤ g * (2 ^ 41 + 1).

Lemma fixed_integer `{Printf} m e : fixed 0 (S754_finite false m e) = decimal (scaled 0 (Zpos m) e).
Proof.
  unfold fixed, fraction. cbn [sign Z.eqb]. rewrite Z.pow_0_r, Z.div_1_r. exact (string_app_nil_r _).
Qed.

Lemma percent_shown `{Printf} c g : 0 ≤ c ≤ g → 0 < g < 2 ^ 64 →
  ∃ k, fixed 0 (percent c g) = decimal k ∧ nearest_percent g c k.
Proof.
  intros Hc Hg. destruct (decide (c = 0)) as [->|Hne].
  - exists 0. split; [|unfold nearest_percent; lia].
    destruct (u64_run g Hg) as (mg & eg & Eg & _). destruct hundred_run as (mh & eh & Eh & _).
    unfold percent. rewrite Eg, Eh. done.
  - destruct (percent_run c g) as (m & e & Em & He & Herr); [lia|done|].
    destruct (scaled_run (Zpos m) e) as [Hk Hround]; [lia|done|]. rewrite Em, fixed_integer.
    set (k := scaled 0 (Zpos m) e) in *. exists k. split; [done|].
    pose proof unit_pos as HU. set (U := unit) in *. set (R := val (Zpos m) e) in *.
    assert (Z.abs (2 * (k * U - R)) * g ≤ U * g) as Hround' by (apply Z.mul_le_mono_nonneg_r; lia).
    assert (100 * c * U ≤ 100 * (g * U)) as Hcg by nia.
    assert (Z.abs (2 * (k * U - R)) * g = Z.abs (2 * (k * g * U - R * g))) as Eabs.
    { rewrite <-(Z.abs_eq g) at 1 by lia. rewrite <-Z.abs_mul. f_equal. lia. }
    assert (Z.abs (k * g - 100 * c) * 2 ^ 42 * U ≤ g * (2 ^ 41 + 1) * U) as Hmain.
    { replace (Z.abs (k * g - 100 * c) * 2 ^ 42 * U) with (Z.abs (k * g * U - 100 * c * U) * 2 ^ 42); [lia|].
      rewrite <-(Z.abs_eq U) at 3 by lia. rewrite <-(Z.mul_assoc _ (2 ^ 42)), (Z.mul_comm (2 ^ 42)), Z.mul_assoc, <-Z.abs_mul.
      do 2 f_equal. lia. }
    apply Z.mul_le_mono_pos_r in Hmain; [|done]. split; [|done]. split; [done|].
    destruct (decide (k ≤ 100)); [done|]. assert (101 * g ≤ k * g) by (apply Z.mul_le_mono_nonneg_r; lia). lia.
Qed.

(** *** Columns *)

(** Where the columns begin, and their widths. *)
Definition columns : list (nat * nat) := [(8, 17); (27, 13); (42, 13); (57, 13); (72, 12)]%nat.

Definition cells (line : string) : list string := (λ '(i, n), String.substring i n line) <$> columns.

Lemma substring_at s1 s2 s3 : String.substring (String.length s1) (String.length s2) (s1 ++ (s2 ++ s3))%string = s2.
Proof. rewrite <-(Nat.add_0_r (String.length s1)), substring_skip. apply substring_first. Qed.

Lemma cells_run name bytes c1 c2 c3 clock rest :
  String.length name = 8%nat → String.length bytes = 17%nat → String.length c1 = 13%nat →
  String.length c2 = 13%nat → String.length c3 = 13%nat → String.length clock = 12%nat →
  cells (name ++ bytes ++ "  " ++ c1 ++ "  " ++ c2 ++ "  " ++ c3 ++ "  " ++ clock ++ rest)%string
  = [bytes; c1; c2; c3; clock].
Proof.
  intros Hn Hb H1 H2 H3 Hc.
  assert (∀ pre cell post i n line, line = (pre ++ (cell ++ post))%string → String.length pre = i →
    String.length cell = n → String.substring i n line = cell) as Hat by (intros * -> <- <-; apply substring_at).
  unfold cells, columns. cbn [fmap list_fmap].
  rewrite (Hat name bytes ("  " ++ c1 ++ "  " ++ c2 ++ "  " ++ c3 ++ "  " ++ clock ++ rest)%string 8%nat 17%nat) by done.
  rewrite (Hat (name ++ bytes ++ "  ")%string c1 ("  " ++ c2 ++ "  " ++ c3 ++ "  " ++ clock ++ rest)%string 27%nat 13%nat)
    by (rewrite ?string_app_assoc, ?string_length_app, ?Hn, ?Hb; done).
  rewrite (Hat (name ++ bytes ++ "  " ++ c1 ++ "  ")%string c2 ("  " ++ c3 ++ "  " ++ clock ++ rest)%string 42%nat 13%nat)
    by (rewrite ?string_app_assoc, ?string_length_app, ?Hn, ?Hb, ?H1; done).
  rewrite (Hat (name ++ bytes ++ "  " ++ c1 ++ "  " ++ c2 ++ "  ")%string c3 ("  " ++ clock ++ rest)%string 57%nat 13%nat)
    by (rewrite ?string_app_assoc, ?string_length_app, ?Hn, ?Hb, ?H1, ?H2; done).
  rewrite (Hat (name ++ bytes ++ "  " ++ c1 ++ "  " ++ c2 ++ "  " ++ c3 ++ "  ")%string clock rest 72%nat 12%nat)
    by (rewrite ?string_app_assoc, ?string_length_app, ?Hn, ?Hb, ?H1, ?H2, ?H3; done).
  done.
Qed.

(** A row shows the bytes, the cycles with their percentages, and all cycles. *)
Definition shows (clock bytes active data_wait consumer_wait : Z) (line : string) : Prop :=
  let column c k := (pad_right 9 (decimal c) ++ pad_left 3 (decimal k) ++ "%")%string in
  ∃ k1 k2 k3,
    cells line = [pad_right 17 (decimal bytes); column active k1; column data_wait k2; column consumer_wait k3;
                  pad_right 12 (decimal clock)] ∧
    nearest_percent clock active k1 ∧ nearest_percent clock data_wait k2 ∧ nearest_percent clock consumer_wait k3.

(** Fewer cycles than there are, and numbers that fit their columns. *)
Definition in_range (clock bytes active data_wait consumer_wait : Z) : Prop :=
  0 < clock < 10 ^ 9 ∧ 0 ≤ bytes < 10 ^ 17 ∧ 0 ≤ active ≤ clock ∧ 0 ≤ data_wait ≤ clock ∧ 0 ≤ consumer_wait ≤ clock.

Lemma cycles_run `{Printf} c g : 0 ≤ c ≤ g → 0 < g < 10 ^ 9 →
  ∃ k, cycles c g = (pad_right 9 (decimal c) ++ pad_left 3 (decimal k) ++ "%")%string ∧
    String.length (cycles c g) = 13%nat ∧ nearest_percent g c k.
Proof.
  intros Hc Hg. destruct (percent_shown c g Hc) as (k & Hk & Hnear); [lia|]. exists k.
  unfold cycles. rewrite Hk. split; [done|]. split; [|done]. destruct Hnear as [Hk100 _].
  rewrite !string_length_app, pad_right_length, pad_left_length; [done| |].
  - by apply decimal_run; [lia|cbn; lia].
  - by apply decimal_run; [lia|cbn; lia].
Qed.

Lemma row_shows `{Printf} name bytes active data_wait consumer_wait clock :
  String.length name = 8%nat → in_range clock bytes active data_wait consumer_wait →
  shows clock bytes active data_wait consumer_wait (row name bytes active data_wait consumer_wait clock).
Proof.
  intros Hname (Hg & Hb & H1 & H2 & H3).
  destruct (cycles_run active clock H1 Hg) as (k1 & E1 & L1 & N1).
  destruct (cycles_run data_wait clock H2 Hg) as (k2 & E2 & L2 & N2).
  destruct (cycles_run consumer_wait clock H3 Hg) as (k3 & E3 & L3 & N3).
  exists k1, k2, k3. split; [|done]. unfold row. rewrite cells_run; [by rewrite E1, E2, E3|done| |done..|].
  - apply pad_right_length, decimal_run; [lia|cbn; lia].
  - apply pad_right_length, decimal_run; [lia|cbn; lia].
Qed.
End Table.

(** A run without a cycle, that of an empty input: 0 is divided by 0, and the text of
    what is no number stands in every column of a quotient. *)
Lemma no_cycles_no_number `{Printf.Printf} name :
  let share := (Printf.pad_right 9 "0" ++ Printf.pad_left 3 Printf.nan_text ++ "%")%string in
  Profiling.row name 0 0 0 0 0
  = (name ++ Printf.pad_right 17 "0" ++ "  " ++ share ++ "  " ++ share ++ "  " ++ share ++ "  "
     ++ Printf.pad_right 12 "0" ++ "  " ++ Printf.pad_right 4 Printf.nan_text)%string.
Proof. reflexivity. Qed.

(** C34: The table of profiling results, as long as there was at least one cycle and
    fewer than 10^9 cycles (without any the quotients are not numbers, see
    [no_cycles_no_number]) and 10^17 bytes and no counter exceeds that of all cycles: the columns of each
    row begin where the header has their titles and do not overlap; they show the
    bytes, the cycles that were counted, and for each of these a percentage from 0
    to 100 that differs from the exact one by at most one half, and 2^-42 for the
    errors of the floating point operations; the numbers are decimal. The row of the
    input or the output is left out where the flag says that it is no operator's. *)
Theorem profiling_table `{Printf.Printf} (r : Runner.ProfilingResults) (dataSource dataSink : bool) :
  let clock := Runner.globalClockCounter r in
  Table.in_range clock (Runner.inputDataByteCount r) (Runner.inputTransferCycleCount r)
    (Runner.inputMasterIdleCount r) (Runner.inputSlaveIdleCount r) →
  Table.in_range clock (Runner.outputDataByteCount r) (Runner.outputTransferCycleCount r)
    (Runner.outputMasterIdleCount r) (Runner.outputSlaveIdleCount r) →
  Table.cells Profiling.header
  = ["BYTES TRANSFERRED"; "ACTIVE CYCLES"; "DATA WAIT    "; "CONSUMER WAIT"; "TOTAL CYCLES"] ∧
  (∀ n, 0 ≤ n < 10 ^ 17 → Table.number (Printf.decimal n) = n) ∧
  ∃ input output,
    Profiling.formatProfilingResults r dataSource dataSink
    = (Profiling.header ++ Profiling.endl ++ (if dataSource then "" else input ++ Profiling.endl)
       ++ (if dataSink then "" else output ++ Profiling.endl))%string ∧
    Table.shows clock (Runner.inputDataByteCount r) (Runner.inputTransferCycleCount r)
      (Runner.inputMasterIdleCount r) (Runner.inputSlaveIdleCount r) input ∧
    Table.shows clock (Runner.outputDataByteCount r) (Runner.outputTransferCycleCount r)
      (Runner.outputMasterIdleCount r) (Runner.outputSlaveIdleCount r) output.
Proof.
  intros clock Hin Hout. split; [by vm_compute|]. split.
  - intros n Hn. apply (Table.decimal_run n 17); [lia|cbn; lia].
  - eexists _, _. split; [reflexivity|]. split; by apply Table.row_shows.
Qed.

Module ProfilingExamples.
Import Printf Profiling Runner.
#[local] Instance printf : Printf := {| nan_text := "-nan" |}.

Example percents : map (λ c, cycles c 7) [0; 1; 2; 3; 7] =
  ["0          0%"; "1         14%"; "2         29%"; "3         43%"; "7        100%"].
Proof. vm_compute. reflexivity. Qed.

(** A byte per cycle at 250 MHz is 250 MB/s, that is 238.4 MiB/s. *)
Example throughput_unit : map (λ b, fixed 2 (mbps b 1000)) [1000; 1; 333; 4711] = ["250.00"; "0.25"; "83.25"; "1177.75"].
Proof. vm_compute. reflexivity. Qed.

Definition results : Runner.ProfilingResults := Runner.MkProfilingResults 1000 8192 128 250 622 4096 64 3 933.

Lemma profiling_table_witness :
  ∃ input output, Profiling.formatProfilingResults results false true
    = (Profiling.header ++ Profiling.endl ++ (input ++ Profiling.endl) ++ "")%string ∧
    Table.shows 1000 8192 128 622 250 input ∧ Table.shows 1000 4096 64 933 3 output.
Proof.
  destruct (profiling_table results false true) as (_ & _ & input & output & Ht & Hi & Ho).
  - vm_compute. repeat split; congruence.
  - vm_compute. repeat split; congruence.
  - exists input, output. split; [exact Ht|]. split; [exact Hi|exact Ho].
Defined.
End ProfilingExamples.
