(* ===== verification/DataContexts.v ===== *)
(** * Files as data sources and sinks (metal-filesystem-pipeline)

    A file context keeps the extents of the file and hands them to the card
    before a run. The file system a context works on is a [Metal.world]; the
    page files of an NVMe storage are on a second one. *)
From S2P Require Import Prelude Lmdb Structs Dirent Inode Metal File.
From S2P Require Import Endian Extmap OpMem Jobs Pipeline Runner.

Module DataContexts.
Section DataContexts.
Context `{Lmdb} `{Machine} `{Device} {B : Type}.
Abbreviation W := (Metal.world (B := B)).

(** metal_pipeline_storage.hpp: the type and map of a storage and its
    metadata; [ps_dram] is the storage of the page files, if any. *)
Record PipelineStorage := MkPipelineStorage {
  ps_type : AddressType;
  ps_map : MapType;
  ps_world : W;
  ps_dram : option W;
}.

Definition PagefileReadPath : cstr := str "/.pagefile_read".
Definition PagefileWritePath : cstr := str "/.pagefile_write".

(** [job_struct]: the slot, seven unused words, two words per extent. *)
Definition extent_words (extents : list mtl_file_extent) (i : nat) : list Z :=
  match extents !! i with
  | Some x => Endian.be_bytes 8 (fe_offset x) ++ Endian.be_bytes 8 (fe_length x)
  | None => repeat 0 16
  end.

Definition map_block (slot : Z) (extents : list mtl_file_extent) : list Z :=
  Endian.be_bytes 8 slot ++ (snap_malloc_byte <$> seq 8 56)
    ++ concat (extent_words extents <$> seq 0 (Z.to_nat MaxExtentsPerFile)).

Definition mapExtents (slot : Z) (extents : list mtl_file_extent) : M Pipeline.state unit :=
  _ ← Pipeline.executeJob_throw (Pipeline.indirect Map (map_block slot extents)); mret tt.

Definition CardDRAMRead : Z := 0.
Definition CardDRAMWrite : Z := 1.
Definition NVMeRead : Z := 2.
Definition NVMeWrite : Z := 3.

(** The switch of both [configure]s: the page file and the extents. *)
Definition transfer_extents (storage : option PipelineStorage) (map : MapType) (pagefile : cstr)
    (dram_slot nvme_slot : Z) (extents : list mtl_file_extent) : M Pipeline.state unit :=
  match map with
  | MTDRAMAndNVMe =>
      storage ← c_deref storage;
      match ps_dram storage with
      | None => m_fault (Throw "A DRAM filesystem must be provided.")
      | Some dram =>
          '((res, pagefileInode), _) ← m_lift (Metal.mtl_open pagefile dram);
          if negb (res =? MTL_SUCCESS) then m_fault (Throw "Pagefile does not exist.")
          else
            '((res, p), _) ← m_lift (Metal.mtl_load_extent_list pagefileInode dram);
            match p with
            | Some (pagefileExtents, _) =>
                _ ← mapExtents dram_slot pagefileExtents;
                mapExtents nvme_slot extents
            | None => m_fault (Throw "Unable to load pagefile extents.")
            end
      end
  | MTDRAM => mapExtents dram_slot extents
  | MTNVMe => mapExtents nvme_slot extents
  | MTNone => mret tt
  end.

(** The address of both constructors: without a storage it is the host's. *)
Definition file_address (storage : option PipelineStorage) (offset size : Z) : Address :=
  match storage with
  | Some s => MkAddress offset size (ps_type s) (ps_map s)
  | None => MkAddress offset size ATHost MTNone
  end.

(** [_filesystem->]. *)
Definition r_deref {A} (p : option A) : result A :=
  match p with Some a => Ok a | None => Fault NullDeref end.

(** *** FileDataSourceContext *)

Record file_source := FileSource {
  fs_storage : option PipelineStorage;
  fs_inode_id : Z;
  fs_dataSource : DataSource;
  fs_extents : list mtl_file_extent;
  fs_fileLength : Z;
  fs_profilingEnabled : bool;
  fs_profilingResults : string;
}.

Definition with_source (d : DataSource) (c : file_source) : file_source :=
  FileSource (fs_storage c) (fs_inode_id c) d (fs_extents c) (fs_fileLength c)
             (fs_profilingEnabled c) (fs_profilingResults c).

Definition create_file_source (storage : option PipelineStorage) (inode_id offset size : Z) :
    result file_source :=
  let d := file_address storage offset size in
  if inode_id =? 0 then
    mret (FileSource storage inode_id d [] (uninit "FileDataSourceContext._fileLength") false "")
  else
    fs ← r_deref storage;
    '((_, p), _) ← Metal.mtl_load_extent_list inode_id (ps_world fs);
    match p with
    | None => Fault (Throw "Unable to load extents")
    | Some (extents, fileLength) =>
        mret (FileSource storage inode_id
                (withSize d (Z.min (offset +ᵤ size) fileLength -ᵤ offset))
                extents fileLength false "")
    end.

Definition source_configure (initial : bool) (c : file_source) : M Pipeline.state file_source :=
  match fs_extents c with
  | [] => m_fault (Throw "Extents were not initialized")
  | extents =>
      _ ← transfer_extents (fs_storage c) (a_map (fs_dataSource c)) PagefileReadPath
            CardDRAMRead NVMeRead extents;
      mret c
  end.

(** The offset advances by the size, which stays. *)
Definition source_finalize (c : file_source) : M Pipeline.state file_source :=
  let a := address (fs_dataSource c) in
  mret (with_source (MkAddress (a_addr a +ᵤ a_size a) (a_size a) (a_type a) (a_map a)) c).

Definition source_endOfInput (c : file_source) : bool :=
  let a := address (fs_dataSource c) in
  fs_fileLength c <=? a_addr a +ᵤ a_size a.

(** [reportTotalSize] of the class is not [const] and overrides nothing: the
    runner calls the one of [DefaultDataSourceContext]. *)
Definition FileDataSourceContext {St : Type} `{HasPipeline St} : DataSourceContext St file_source := {|
  sc_configure := λ initial c, on_pipeline (source_configure initial c);
  sc_finalize := λ c, on_pipeline (source_finalize c);
  sc_dataSource := λ c _, Ok (fs_dataSource c);
  sc_reportTotalSize := λ _, 0;
  sc_endOfInput := source_endOfInput;
  sc_profilingEnabled := fs_profilingEnabled;
  sc_setProfilingResults := λ r c,
    FileSource (fs_storage c) (fs_inode_id c) (fs_dataSource c) (fs_extents c)
               (fs_fileLength c) (fs_profilingEnabled c) r;
|}.

Definition FileDataSourceContext_reportTotalSize (c : file_source) : Z := fs_fileLength c.

(** *** FileDataSinkContext *)

Record file_sink := FileSink {
  fk_storage : option PipelineStorage;
  fk_inode_id : Z;
  fk_dataSink : DataSink;
  fk_truncateOnFinalize : bool;
  fk_extents : list mtl_file_extent;
  fk_cachedTotalSize : Z;
  fk_profilingEnabled : bool;
  fk_profilingResults : string;
}.

Definition with_sink (d : DataSink) (c : file_sink) : file_sink :=
  FileSink (fk_storage c) (fk_inode_id c) d (fk_truncateOnFinalize c) (fk_extents c)
           (fk_cachedTotalSize c) (fk_profilingEnabled c) (fk_profilingResults c).

Definition with_world (w : W) (s : PipelineStorage) : PipelineStorage :=
  MkPipelineStorage (ps_type s) (ps_map s) w (ps_dram s).

Definition loadExtents (c : file_sink) : result file_sink :=
  fs ← r_deref (fk_storage c);
  '((_, p), _) ← Metal.mtl_load_extent_list (fk_inode_id c) (ps_world fs);
  match p with
  | None => Fault (Throw "Unable to load extents")
  | Some (extents, fileLength) =>
      mret (FileSink (fk_storage c) (fk_inode_id c) (fk_dataSink c) (fk_truncateOnFinalize c)
              extents fileLength (fk_profilingEnabled c) (fk_profilingResults c))
  end.

(** [mtl_truncate] on the storage of the sink. *)
Definition truncate_sink (size : Z) (c : file_sink) : result file_sink :=
  fs ← r_deref (fk_storage c);
  '(res, w) ← File.mtl_truncate (fk_inode_id c) size (ps_world fs);
  if negb (res =? MTL_SUCCESS) then Fault (Throw "Unable to update file length")
  else mret (FileSink (Some (with_world w fs)) (fk_inode_id c) (fk_dataSink c)
               (fk_truncateOnFinalize c) (fk_extents c) (fk_cachedTotalSize c)
               (fk_profilingEnabled c) (fk_profilingResults c)).

Definition prepareForTotalSize (size : Z) (c : file_sink) : result file_sink :=
  if size <=? fk_cachedTotalSize c then mret c
  else c ← truncate_sink size c; loadExtents c.

Definition create_file_sink (storage : option PipelineStorage) (inode_id offset size : Z)
    (truncateOnFinalize : bool) : result file_sink :=
  let c := FileSink storage inode_id (file_address storage offset size) truncateOnFinalize [] 0 false "" in
  if inode_id =? 0 then mret c
  else c ← loadExtents c; prepareForTotalSize (offset +ᵤ size) c.

Definition sink_configure (inputSize : Z) (initial : bool) (c : file_sink) :
    M Pipeline.state file_sink :=
  let c := with_sink (withSize (fk_dataSink c) inputSize) c in
  let a := address (fk_dataSink c) in
  c ← m_lift (if fk_cachedTotalSize c <? a_addr a +ᵤ a_size a
              then prepareForTotalSize (a_addr a +ᵤ a_size a) c else mret c);
  _ ← transfer_extents (fk_storage c) (a_map a) PagefileWritePath CardDRAMWrite NVMeWrite
        (fk_extents c);
  mret c.

Definition sink_finalize (outputSize : Z) (endOfInput : bool) (c : file_sink) :
    M Pipeline.state file_sink :=
  let a := address (fk_dataSink c) in
  let c := with_sink (MkAddress (a_addr a +ᵤ outputSize) (a_size a) (a_type a) (a_map a)) c in
  if endOfInput && (negb (fk_inode_id c =? 0) && fk_truncateOnFinalize c)
  then m_lift (truncate_sink (a_addr (fk_dataSink c)) c)
  else mret c.

Definition FileDataSinkContext {St : Type} `{HasPipeline St} : DataSinkContext St file_sink := {|
  kc_dataSink := λ c _, Ok (fk_dataSink c);
  kc_prepareForTotalSize := λ n c, e_lift (prepareForTotalSize n c);
  kc_configure := λ inputSize initial c, on_pipeline (sink_configure inputSize initial c);
  kc_finalize := λ outputSize endOfInput c, on_pipeline (sink_finalize outputSize endOfInput c);
  kc_profilingEnabled := fk_profilingEnabled;
  kc_setProfilingResults := λ r c,
    FileSink (fk_storage c) (fk_inode_id c) (fk_dataSink c) (fk_truncateOnFinalize c)
             (fk_extents c) (fk_cachedTotalSize c) (fk_profilingEnabled c) r;
|}.

(** *** metal_pipeline_storage.cpp *)

Definition storage_get_metadata : Z * mtl_storage_metadata :=
  (MTL_SUCCESS, StorageMetadata (64 * 1024 * 1024) StorageBlockSize).

(** On the DRAM storage: open or create the page file, give it its size. *)
Definition createDramPagefile (now : Z) (path : cstr) : M W unit :=
  '(res, pagefile_inode) ← Metal.mtl_open path;
  inode ← (if res =? MTL_ERROR_NOENTRY then
             '(res, id) ← Metal.mtl_create now path 0;
             if negb (res =? MTL_SUCCESS) then m_fault (Throw "Could not create pagefile.")
             else mret (default pagefile_inode id)
           else if negb (res =? MTL_SUCCESS) then m_fault (Throw "Could not open pagefile.")
           else mret pagefile_inode);
  res ← File.mtl_truncate inode PagefileSize;
  if negb (res =? MTL_SUCCESS) then m_fault (Throw "Could not resize pagefile.")
  else mret tt.

(** [read] and [write] run an empty pipeline between the file and a buffer;
    an exception becomes an error code. The buffer's address is given. *)
Definition fresh_state : Pipeline.state := Pipeline.State [] [] false.

Definition host_context (buffer len : Z) : default_context :=
  DefaultContext (MkAddress buffer len ATHost MTNone) false "".

Definition caught {S A} (r : outcome S A) : result (option A) :=
  match r with
  | Done a _ => Ok (Some a)
  | Thrown _ _ => Ok None
  | Stuck f => Fault f
  end.

Context (formatted : Runner.ProfilingResults → bool → bool → string).

Definition storage_read (storage : PipelineStorage) (inode_id offset buffer len : Z) :
    result Z :=
  source ← create_file_source (Some storage) inode_id offset len;
  r ← caught (Runner.run_once formatted FileDataSourceContext DefaultDataSinkContext false
                source (host_context buffer len)
                (Runner.MkRunner false None Runner.no_results) fresh_state);
  mret (match r with Some _ => MTL_SUCCESS | None => MTL_ERROR_INVALID_ARGUMENT end).

Definition storage_write (storage : PipelineStorage) (inode_id offset buffer len : Z) :
    result (Z * option PipelineStorage) :=
  sink ← create_file_sink (Some storage) inode_id offset len false;
  r ← caught (Runner.run_once formatted DefaultDataSourceContext FileDataSinkContext false
                (host_context buffer len) sink
                (Runner.MkRunner false None Runner.no_results) fresh_state);
  mret (match r with
        | Some (_, _, _, sink, _) => (MTL_SUCCESS, fk_storage sink)
        | None => (MTL_ERROR_INVALID_ARGUMENT, None)
        end).
End DataContexts.
End DataContexts.
