(* ===== verification/StorageSetup.v ===== *)
(** * Setting up the file systems (filesystem_context.cpp, metal_pipeline_storage.cpp)

    The constructors of the storages: the metadata directory on the host is made
    or cleared, the LMDB environment in it opened, and the page files of an NVMe
    storage are put on the DRAM storage. A directory of the host holds what LMDB
    keeps in its data file. *)
From S2P Require Import Prelude Lmdb Structs AllocProofs Dirent Inode Metal File Namespace.
From S2P Require Import Endian Extmap OpMem Jobs Pipeline Runner DataContexts.

(** The part of the host's file system that the constructors see. *)
Module Metadata.

(** What [opendir] finds: nothing, something it cannot open, or a directory with
    the contents of data.mdb and whether there is a lock.mdb. *)
Inductive metadata_entry (T : Type) :=
  | Missing
  | Unreadable
  | Directory (data : option T) (lock : bool).
Arguments Missing {T}.
Arguments Unreadable {T}.
Arguments Directory {T} data lock.

Definition host (T : Type) : Type := string → metadata_entry T.
Definition put {T} (path : string) (e : metadata_entry T) (h : host T) : host T :=
  λ p, if decide (p = path) then e else h p.

(** The operating system's [mkdir], and LMDB's opening of an environment: over
    the data file found, or a new one. *)
Class HostDirectories `{Lmdb} := {
  mkdir_works : string → bool;
  mdb_env_open {T : Type} : T → mdb_env T;
}.

Class HostDirectoriesLaws `{HostDirectories} : Prop := {
  open_committed {T} (t : T) : mdb_committed (mdb_env_open t) = t;
  open_writer {T} (t : T) : mdb_writer (mdb_env_open t) = false;
}.

Section Metadata.
Context `{HostDirectories}.

(** [FilesystemContext::FilesystemContext]; the results of [remove] and [mkdir]
    are ignored. *)
Definition FilesystemContext {T} (metadataDir : string) (deleteMetadataIfExists : bool)
    (h : host T) : host T :=
  match h metadataDir with
  | Directory data lock =>
      if deleteMetadataIfExists then put metadataDir (Directory None false) h else h
  | Missing => if mkdir_works metadataDir then put metadataDir (Directory None false) h else h
  | Unreadable => h
  end.

(** [mdb_env_open] in [mtl_initialize]. Without a directory it fails with a code
    other than [MDB_INVALID], which goes unnoticed: the transaction that follows
    is begun on an environment that is not open. *)
Definition open_environment (metadataDir : string) (h : host txn) : result (mdb_env txn) :=
  match h metadataDir with
  | Directory data _ => Ok (mdb_env_open (default empty_txn data))
  | _ => Fault NullDeref
  end.

(** What LMDB leaves in the directory when the process ends. *)
Definition closed (metadataDir : string) {B} (w : Metal.world (B := B)) (h : host txn) : host txn :=
  put metadataDir (Directory (Some (mdb_committed (Metal.w_env w))) true) h.
End Metadata.
End Metadata.

Module StorageSetup.
Import Metadata DataContexts.

Section StorageSetup.
Context `{HostDirectories} `{Machine} {B : Type}.
Abbreviation W := (Metal.world (B := B)).

(** The table of callbacks; reading and writing are [storage_read] and
    [storage_write]. *)
Definition pipeline_backend (write : mdb_env txn → Z → Z → list Z → Z → M B Z)
    (read : mdb_env txn → Z → Z → Z → M B (Z * list Z)) : Metal.mtl_storage_backend B := {|
  Metal.st_initialize := mret MTL_SUCCESS;
  Metal.st_deinitialize := mret MTL_SUCCESS;
  Metal.st_get_metadata := mret storage_get_metadata;
  Metal.st_write := write;
  Metal.st_read := read;
|}.

Context (write : mdb_env txn → Z → Z → list Z → Z → M B Z).
Context (read : mdb_env txn → Z → Z → Z → M B (Z * list Z)).
Context (nothing : B).

(** [mtl_initialize] leaves the context null when it fails, and the constructors
    do not ask. *)
Definition initialize_context (backend : Metal.mtl_storage_backend B) (now : Z)
    (metadataDir : string) (h : host txn) (b : B) : result W :=
  env ← open_environment metadataDir h;
  '(_, w) ← Metal.mtl_initialize backend now (Some env) b;
  match w with Some w => Ok w | None => Fault NullDeref end.

(** [PipelineStorage::PipelineStorage], with the metadata directories after it.
    The DRAM storage is shared, so that its new state is [ps_dram]. *)
Definition PipelineStorage_create (now : Z) (type : AddressType) (map : MapType)
    (metadataDir : string) (deleteMetadataIfExists : bool)
    (dramPipelineStorage : option W) (h : host txn) : result (PipelineStorage (B := B) * host txn) :=
  let h := FilesystemContext metadataDir deleteMetadataIfExists h in
  w ← initialize_context (pipeline_backend write read) now metadataDir h nothing;
  if decide (map = MTDRAMAndNVMe) then
    match dramPipelineStorage with
    | None => Fault (Throw "A DRAM filesystem must be provided.")
    | Some dram =>
        '(_, dram) ← createDramPagefile now PagefileReadPath dram;
        '(_, dram) ← createDramPagefile now PagefileWritePath dram;
        Ok (MkPipelineStorage type map w (Some dram), h)
    end
  else Ok (MkPipelineStorage type map w dramPipelineStorage, h).

(** [InMemoryFilesystem::InMemoryFilesystem] of metal_fs.cpp. *)
Definition InMemoryFilesystem_create (backend : Metal.mtl_storage_backend B) (now : Z)
    (metadataDir : string) (deleteMetadataIfExists : bool) (b : B) (h : host txn) :
    result (W * host txn) :=
  let h := FilesystemContext metadataDir deleteMetadataIfExists h in
  w ← initialize_context backend now metadataDir h b; Ok (w, h).

(** The storages [main] makes for a card with DRAM and perhaps NVMe; what is
    mounted on /tmp is the world of the first one. *)
Definition card_storages (now : Z) (metadataDir : string) (nvme : bool) (h : host txn) :
    result (W * option (PipelineStorage (B := B)) * host txn) :=
  '(dram, h) ← PipelineStorage_create now ATCardDRAM MTDRAM (metadataDir ++ "_tmp") true None h;
  if nvme then
    '(files, h) ← PipelineStorage_create now ATNVMe MTDRAMAndNVMe metadataDir false
                    (Some (ps_world dram)) h;
    Ok (default (ps_world dram) (ps_dram files), Some files, h)
  else Ok (ps_world dram, None, h).
End StorageSetup.
End StorageSetup.

(** ** The storages when the driver starts *)

Module SetupFacts.
Import Metadata DataContexts StorageSetup Ns.

(** A directory the DRAM storage can use. *)
Definition usable `{HostDirectories} {T} (path : string) (h : host T) : Prop :=
  match h path with
  | Missing => mkdir_works path = true
  | Unreadable => False
  | Directory _ _ => True
  end.

Lemma put_same {T} path (e : metadata_entry T) h : put path e h path = e.
Proof. unfold put. by rewrite decide_True. Qed.

Lemma put_other {T} path path' (e : metadata_entry T) h : path' ≠ path → put path e h path' = h path'.
Proof. intros. unfold put. by rewrite decide_False. Qed.

(** Making or clearing leaves an empty directory. *)
Lemma cleared `{HostDirectories} {T} path (h : host T) : usable path h →
  FilesystemContext path true h path = Directory None false ∧
  ∀ path', path' ≠ path → FilesystemContext path true h path' = h path'.
Proof.
  unfold usable, FilesystemContext. destruct (h path); [intros ->|done|intros _].
  all: split; [apply put_same|by intros; apply put_other].
Qed.

Lemma tmp_differs (dir : string) : dir ≠ (dir ++ "_tmp")%string.
Proof.
  induction dir as [|c dir IH]; [done|]. cbn. intros [= E]. by apply IH.
Qed.

Lemma ref_get_elem {K V} `{MdbKey K} (d : list (K * V)) k : is_Some (RefStore.get d k) ↔ k ∈ d.*1.
Proof.
  induction d as [|[k' v] d IH].
  - split; [by intros [? [=]]|by intros ?%not_elem_of_nil].
  - rewrite fmap_cons, elem_of_cons. cbn [RefStore.get fst]. case_decide as E; [subst k'|].
    + split; [by left|by eexists].
    + rewrite IH. naive_solver.
Qed.

Section Again.
Context `{HostDirectoriesLaws} `{!LmdbLaws} `{Machine} {B : Type}.
Context (write : mdb_env txn → Z → Z → list Z → Z → M B Z).
Context (read : mdb_env txn → Z → Z → Z → M B (Z * list Z)) (nothing : B).

(** What [PipelineStorage_create] makes of an empty directory, and the page files. *)
Definition new_dram (now : Z) : result (Metal.world (B := B)) :=
  '(_, w) ← Metal.mtl_initialize (pipeline_backend write read) now (Some (mdb_env_open empty_txn)) nothing;
  match w with Some w => Ok w | None => Fault NullDeref end.

Definition with_page_files (now : Z) : result (Metal.world (B := B)) :=
  w ← new_dram now;
  '(_, w) ← createDramPagefile now PagefileReadPath w;
  '(_, w) ← createDramPagefile now PagefileWritePath w;
  Ok w.

(** Both storages, given what becomes of each. *)
Lemma card_storages_run now dir h dram files :
  usable (dir ++ "_tmp") h → with_page_files now = Ok dram →
  let h1 := FilesystemContext (dir ++ "_tmp") true h in
  let h2 := FilesystemContext dir false h1 in
  initialize_context (pipeline_backend write read) now dir h2 nothing = Ok files →
  card_storages write read nothing now dir true h =
    Ok (dram, Some (MkPipelineStorage ATNVMe MTDRAMAndNVMe files (Some dram)), h2).
Proof.
  intros Htmp Hrun h1 h2 Hf. unfold card_storages, PipelineStorage_create. fold h1.
  assert (initialize_context (pipeline_backend write read) now (dir ++ "_tmp") h1 nothing = new_dram now) as ->.
  { unfold initialize_context, open_environment, h1. by rewrite (proj1 (cleared _ _ Htmp)). }
  unfold with_page_files in Hrun. destruct (new_dram now) as [d0|]; [|done].
  cbn [mbind result_bind ps_world] in Hrun |- *. rewrite decide_False by done.
  cbn [mbind result_bind ps_world]. fold h2. rewrite Hf. cbn [mbind result_bind]. rewrite decide_True by done.
  destruct (createDramPagefile now PagefileReadPath d0) as [[u d1]|]; [|done].
  cbn [mbind result_bind] in Hrun |- *.
  destruct (createDramPagefile now PagefileWritePath d1) as [[u2 d2]|]; [|done].
  cbn [mbind result_bind] in Hrun |- *. by injection Hrun as ->.
Qed.

(** A storage whose metadata are kept finds what was committed. *)
Lemma found_again now path h t lock :
  h path = Directory (Some t) lock → is_inode t 0 → is_Some (Alloc.ext_of t 0) →
  ∃ w, initialize_context (pipeline_backend write read) now path
         (FilesystemContext path false h) nothing = Ok w ∧ committed w = t ∧ locked w = false.
Proof.
  intros Hh Hr He. unfold initialize_context, open_environment, FilesystemContext. rewrite Hh, Hh.
  cbn [mbind result_bind default].
  destruct (initialize_again (pipeline_backend write read) now (mdb_env_open t) nothing nothing nothing
    MTL_SUCCESS (StorageMetadata (64 * 1024 * 1024) StorageBlockSize)) as (w & E & Hl & _ & _ & Hc);
    rewrite ?open_committed, ?open_writer; try done.
  unfold id. rewrite E. exists w. by rewrite <-(open_committed t).
Qed.
End Again.

(** *** With the reference model of LMDB *)

Section Setup.
Context (mkdir : string → bool) (bytes : nat → Z) (variables : string → Z).

#[local] Instance host_directories : HostDirectories (H := RefLmdb) :=
  {| mkdir_works := mkdir; mdb_env_open := λ T t, (t, false) |}.
#[local] Instance host_directories_laws : HostDirectoriesLaws (H := RefLmdb).
Proof. by split. Qed.
#[local] Instance machine : Machine :=
  {| stack_limit := 8388608; garbage := bytes; uninit := variables |}.

Context (write : mdb_env txn → Z → Z → list Z → Z → M unit Z).
Context (read : mdb_env txn → Z → Z → Z → M unit (Z * list Z)).

(** The DRAM storage once both page files are there. *)
Record two_page_files (w : Metal.world (B := unit)) : Prop := {
  pf_unlocked : locked w = false;
  pf_inodes id : is_inode (committed w) id ↔ id ∈ [0; 1; 2];
  pf_read : Metal.mtl_open PagefileReadPath w = Ok ((MTL_SUCCESS, 1), w);
  pf_write : Metal.mtl_open PagefileWritePath w = Ok ((MTL_SUCCESS, 2), w);
  pf_read_extents : Metal.mtl_load_extent_list 1 w =
    Ok ((MTL_SUCCESS, Some ([FileExtent 0 128], PagefileSize)), w);
  pf_write_extents : Metal.mtl_load_extent_list 2 w =
    Ok ((MTL_SUCCESS, Some ([FileExtent 128 128], PagefileSize)), w);
}.

Lemma page_files_run now : ∃ w, with_page_files write read tt now = Ok w ∧ two_page_files w.
Proof.
  eexists. split; [vm_compute; reflexivity|]. split; try (vm_compute; reflexivity).
  intros id. unfold is_inode, committed. cbn [mdb_get RefLmdb].
  rewrite ref_get_elem. match goal with |- _ ∈ ?l ↔ _ => let l' := eval vm_compute in l in change l with l' end.
  rewrite !elem_of_cons. naive_solver.
Qed.

End Setup.
End SetupFacts.

(** A second start: the volume of the first one, and a DRAM storage that was
    never used. *)
Module SetupDemo.
Import Metadata StorageSetup SetupFacts DataContexts Ns.

Definition no_write : mdb_env txn → Z → Z → list Z → Z → M unit Z := λ _ _ _ _ _, mret 0.
Definition no_read : mdb_env txn → Z → Z → Z → M unit (Z * list Z) := λ _ _ _ _, mret (0, []).

(** What the first start leaves in the metadata directory. *)
Definition first_start : txn :=
  match new_dram (H0 := host_directories (λ _, true)) (H3 := machine (λ _, 165) (λ _, 77)) no_write no_read tt 500 with
  | Ok w => committed w
  | Fault _ => empty_txn
  end.

Definition directories : host txn := λ path,
  if decide (path = "meta"%string) then Directory (Some first_start) true else Missing.

End SetupDemo.
