(* ===== verification/JobsProofs.v ===== *)
(** * From the host's jobs to the FPGA's registers

    The host fills memory blocks and hands their address to the card, which
    decodes them: the two sides agree on the layout. The theorems put what the
    host writes ([Pipeline], [DataContexts]) into the memory the action reads
    ([Jobs]), on a bus of 64 bytes, the line the action is built for. *)
From S2P Require Import Prelude Tiling Structs Inode Endian Extmap OpMem Jobs Pipeline Runner DataContexts TransferProofs.

Module JobFacts.
Import Endian Extmap OpMem Jobs Pipeline.

(** ** Blocks in memory *)

Section Blocks.
(** The block lies at address [a]. *)
Definition holds (mem : Z → Z) (a : Z) (block : list Z) : Prop :=
  ∀ i, (i < length block)%nat → mem (a + Z.of_nat i) = nth i block 0.

Lemma holds_app mem a l1 l2 :
  holds mem a (l1 ++ l2) → holds mem a l1 ∧ holds mem (a + Z.of_nat (length l1)) l2.
Proof.
  intros Hm. split; intros i Hi.
  - rewrite Hm by (rewrite length_app; lia). by rewrite app_nth1.
  - replace (a + Z.of_nat (length l1) + Z.of_nat i) with (a + Z.of_nat (length l1 + i)) by lia.
    rewrite Hm by (rewrite length_app; lia). rewrite app_nth2 by lia. f_equal. lia.
Qed.

Lemma get_get_bytes line o n k m :
  (k + m ≤ n)%nat → get_bytes (get_bytes line o n) k m = get_bytes line (o + k) m.
Proof.
  intros Hk. unfold get_bytes. rewrite skipn_firstn_comm, firstn_firstn, drop_drop.
  by rewrite Nat.min_l by lia.
Qed.

Context `{MemBus}.

Lemma shift_bytes line s k n :
  (s + k + n ≤ length line)%nat → get_bytes (shift_line line s) k n = get_bytes line (s + k) n.
Proof.
  intros Hl. unfold shift_line, get_bytes.
  rewrite drop_app_le by (rewrite length_drop; lia). rewrite drop_drop.
  rewrite take_app_le; [done|]. rewrite length_drop. lia.
Qed.

Lemma length_shift_line line s : (s ≤ length line)%nat → length (shift_line line s) = length line.
Proof. intros Hs. unfold shift_line. rewrite length_app, length_drop, repeat_length. lia. Qed.
End Blocks.

Section Memory.
Context `{MemBus} (Hbus : ADDR_RIGHT_SHIFT = 6%nat).

Lemma bus_64 : bus_bytes = 64%nat.
Proof using Hbus. unfold bus_bytes. by rewrite Hbus. Qed.

Lemma length_mem_line mem i : length (mem_line mem i) = 64%nat.
Proof using Hbus. unfold mem_line. by rewrite length_fmap, length_seq, bus_64. Qed.

(** The bytes of a line are those of the block it belongs to. *)
Lemma line_bytes mem a block j k n :
  holds mem a block → a mod 64 = 0 → (k + n ≤ 64)%nat → (64 * j + k + n ≤ length block)%nat →
  get_bytes (mem_line mem (MFB_ADDRESS a + Z.of_nat j)) k n = get_bytes block (64 * j + k) n.
Proof using Hbus.
  intros Hm Ha Hk Hb. apply list_eq_same_length with n.
  - rewrite length_get_bytes; lia.
  - rewrite length_get_bytes; [done|]. rewrite length_mem_line. lia.
  - intros i x y Hi. unfold get_bytes, mem_line.
    rewrite !lookup_take_lt, !lookup_drop by lia.
    rewrite list_lookup_fmap, lookup_seq_lt by (rewrite bus_64; lia).
    cbn [fmap option_fmap option_map Nat.add]. intros [= <-] Hy.
    unfold MFB_ADDRESS. rewrite Z.shiftr_div_pow2, Hbus, bus_64 by lia.
    pose proof (Z.div_mod a 64 ltac:(lia)).
    replace ((a / 2 ^ Z.of_nat 6 + Z.of_nat j) * Z.of_nat 64 + Z.of_nat (k + i))
      with (a + Z.of_nat (64 * j + k + i)) by (change (2 ^ Z.of_nat 6) with 64; lia).
    rewrite Hm by lia. rewrite nth_lookup.
    replace (64 * j + (k + i))%nat with (64 * j + k + i)%nat in Hy by lia. by rewrite Hy.
Qed.

Lemma line0_bytes mem a block k n :
  holds mem a block → a mod 64 = 0 → (k + n ≤ 64)%nat → (k + n ≤ length block)%nat →
  get_bytes (mem_line mem (MFB_ADDRESS a)) k n = get_bytes block k n.
Proof using Hbus.
  intros Hm Ha Hk Hb. pose proof (line_bytes mem a block 0 k n Hm Ha Hk) as E.
  rewrite Z.add_0_r in E. apply E. lia.
Qed.

End Memory.

(** ** The extent list of a [Map] job *)

Section MapJob.
Context `{MemBus} (Hbus : ADDR_RIGHT_SHIFT = 6%nat).
Implicit Types (es : list (Z * Z)).

Definition ext_bytes (x : Z * Z) : list Z := be_bytes 8 x.1 ++ be_bytes 8 x.2.
Definition list_bytes es : list Z := es ≫= ext_bytes.

Fixpoint loaded (last : Z) es : list (Z * Z * Z) :=
  match es with
  | [] => []
  | (b, c) :: es' => (b, c, last + c) :: loaded (last + c) es'
  end.

Definition ext_ok (x : Z * Z) : Prop := 0 ≤ x.1 ∧ 0 ≤ x.2 ∧ x.1 + x.2 < 2 ^ 64.

Lemma length_ext_bytes x : length (ext_bytes x) = 16%nat.
Proof. unfold ext_bytes. by rewrite length_app, !length_be_bytes. Qed.

Lemma total_nonneg es : Forall ext_ok es → 0 ≤ total es.
Proof. induction 1 as [|x es (? & ? & ?) _ IH]; [done|]. unfold total in *. simpl. lia. Qed.

Lemma slot_in_line i :
  0 ≤ i →
  Z.land i (MTL_MASK MTL_EXTENTS_PER_LINE_W 0) mod 2 ^ MTL_EXTENTS_PER_LINE_W = i mod 4.
Proof using Hbus.
  intros Hi. unfold MTL_EXTENTS_PER_LINE_W. rewrite Hbus.
  change (MTL_MASK (Z.of_nat 6 - 4) 0) with (Z.ones 3).
  rewrite Z.land_ones by lia. change (2 ^ (Z.of_nat 6 - 4)) with 4.
  change (2 ^ 3) with (4 * 2). rewrite Z.rem_mul_r by lia.
  rewrite Z.mul_comm, Z.mod_add by lia. by rewrite Z.mod_mod.
Qed.

Lemma mfb_increment : MFB_INCREMENT = 64.
Proof using Hbus. unfold MFB_INCREMENT. by rewrite Hbus. Qed.

Definition holds_entry (line : list Z) (x : Z * Z) : Prop :=
  get_bytes line 0 8 = be_bytes 8 x.1 ∧ get_bytes line 8 8 = be_bytes 8 x.2.

(** One round on the line in use; a new line is read every four entries. *)
Lemma load_step n mem i a line last x :
  0 ≤ i → ext_ok x → 0 ≤ last → last + x.2 < 2 ^ 64 →
  let line' := if i mod 4 =? 0 then mem_line mem (MFB_ADDRESS a) else line in
  holds_entry line' x →
  load_loop (S n) mem i a line last
  = (x.1, x.2, last + x.2)
      :: load_loop n mem (i + 1) (if i mod 4 =? 0 then a +ᵤ 64 else a) (shift_line line' 16)
           (last + x.2).
Proof using Hbus.
  intros Hi (Hb & Hc & Hbc) Hl Hlc line' [E1 E2]. cbn [load_loop].
  rewrite slot_in_line, mfb_increment by done. fold line'.
  rewrite (get64_be_bytes line' 0 x.1) by (done || lia).
  rewrite (get64_be_bytes line' 8 x.2) by (done || lia).
  rewrite (u64_small (last + x.2)) by (unfold in_u64; lia). done.
Qed.

(** Entry [j] of a line of four. *)
Lemma line_entry mem a x1 x2 x3 x4 rest :
  holds mem a (list_bytes (x1 :: x2 :: x3 :: x4 :: rest)) → a mod 64 = 0 →
  let l0 := mem_line mem (MFB_ADDRESS a) in
  let l1 := shift_line l0 16 in let l2 := shift_line l1 16 in let l3 := shift_line l2 16 in
  holds_entry l0 x1 ∧ holds_entry l1 x2 ∧ holds_entry l2 x3 ∧ holds_entry l3 x4.
Proof using Hbus.
  intros Hm Ha l0 l1 l2 l3.
  assert (length l0 = 64%nat) as Hl0 by (by apply length_mem_line).
  assert (length l1 = 64%nat) as Hl1 by (unfold l1; by rewrite length_shift_line by lia).
  assert (length l2 = 64%nat) as Hl2 by (unfold l2; by rewrite length_shift_line by lia).
  assert (∀ k n, (k + n ≤ 64)%nat → get_bytes l0 k n
            = get_bytes (list_bytes (x1 :: x2 :: x3 :: x4 :: rest)) k n) as Hget.
  { intros k n Hk. apply line0_bytes; try done. unfold list_bytes.
    rewrite !bind_cons, !length_app, !length_ext_bytes. lia. }
  assert (list_bytes (x1 :: x2 :: x3 :: x4 :: rest)
    = be_bytes 8 x1.1 ++ be_bytes 8 x1.2 ++ be_bytes 8 x2.1 ++ be_bytes 8 x2.2 ++
      be_bytes 8 x3.1 ++ be_bytes 8 x3.2 ++ be_bytes 8 x4.1 ++ be_bytes 8 x4.2 ++
      list_bytes rest) as E.
  { unfold list_bytes, ext_bytes. rewrite !bind_cons. by rewrite <-!app_assoc. }
  assert (∀ k n, (k + n ≤ 16)%nat → get_bytes l1 k n = get_bytes l0 (16 + k) n ∧
    get_bytes l2 k n = get_bytes l0 (32 + k) n ∧ get_bytes l3 k n = get_bytes l0 (48 + k) n)
    as Hshift.
  { intros k n Hk. unfold l3. rewrite (shift_bytes l2) by lia.
    unfold l2. rewrite !(shift_bytes l1) by lia. unfold l1. rewrite !(shift_bytes l0) by lia.
    done. }
  destruct (Hshift 0%nat 8%nat ltac:(lia)) as (A1 & A2 & A3).
  destruct (Hshift 8%nat 8%nat ltac:(lia)) as (B1 & B2 & B3).
  unfold holds_entry. rewrite A1, A2, A3, B1, B2, B3. cbn [Nat.add].
  rewrite !Hget by lia. unfold get_bytes. rewrite E.
  repeat split.
  all: repeat (rewrite drop_app_ge by (rewrite length_be_bytes; lia); rewrite length_be_bytes;
    cbn [Nat.sub]).
  all: rewrite ?drop_0; by rewrite take_app_length' by (by rewrite length_be_bytes).
Qed.

Lemma load_loop_run q : ∀ es mem i a line last,
  length es = (4 * q)%nat → 0 ≤ i → i mod 4 = 0 → holds mem a (list_bytes es) →
  a mod 64 = 0 → 0 ≤ a → a + 64 * Z.of_nat q < 2 ^ 64 →
  Forall ext_ok es → 0 ≤ last → last + total es < 2 ^ 64 →
  load_loop (4 * q) mem i a line last = loaded last es.
Proof using Hbus.
  induction q as [|q IH]; intros es mem i a line last Hlen Hi Hi4 Hm Ha Ha0 Hab Hok Hl Ht.
  - destruct es; [done|simpl in Hlen; lia].
  - destruct es as [|x1 [|x2 [|x3 [|x4 rest]]]]; simpl in Hlen; try lia.
    replace (4 * S q)%nat with (S (S (S (S (4 * q))))) by lia.
    destruct (line_entry mem a x1 x2 x3 x4 rest Hm Ha) as (E1 & E2 & E3 & E4).
    assert (Forall ext_ok rest ∧ ext_ok x1 ∧ ext_ok x2 ∧ ext_ok x3 ∧ ext_ok x4)
      as (Hrest & O1 & O2 & O3 & O4) by (rewrite !Forall_cons in Hok; tauto).
    pose proof (total_nonneg rest Hrest) as Hnn. unfold total in Ht, Hnn.
    cbn [foldr] in Ht. fold (total rest) in Ht, Hnn.
    assert (∀ d, 0 < d < 4 → ((i + d) mod 4 =? 0) = false) as Hoff.
    { intros d Hd. apply Z.eqb_neq. rewrite Z.add_mod, Hi4, Z.add_0_l, Z.mod_mod by lia.
      rewrite Z.mod_small; lia. }
    pose proof O1 as (_ & ? & _). pose proof O2 as (_ & ? & _).
    pose proof O3 as (_ & ? & _). pose proof O4 as (_ & ? & _).
    rewrite (load_step _ mem i a line last x1) by (rewrite ?Hi4; done || lia).
    rewrite Hi4. cbn [Z.eqb].
    rewrite (load_step _ mem (i + 1) _ _ _ x2) by (rewrite ?Hoff by lia; done || lia).
    rewrite Hoff by lia. replace (i + 1 + 1) with (i + 2) by lia.
    rewrite (load_step _ mem (i + 2) _ _ _ x3) by (rewrite ?Hoff by lia; done || lia).
    rewrite Hoff by lia. replace (i + 2 + 1) with (i + 3) by lia.
    rewrite (load_step _ mem (i + 3) _ _ _ x4) by (rewrite ?Hoff by lia; done || lia).
    rewrite Hoff by lia. rewrite (u64_small (a + 64)) by (unfold in_u64; lia).
    rewrite (IH rest); try done; try lia.
    + destruct x1, x2, x3, x4. done.
    + replace (i + 3 + 1) with (i + 1 * 4) by lia. by rewrite Z.mod_add.
    + replace (x1 :: x2 :: x3 :: x4 :: rest) with ([x1; x2; x3; x4] ++ rest) in Hm by done.
      unfold list_bytes in Hm. rewrite bind_app in Hm. apply holds_app in Hm as [_ Hm].
      by rewrite !bind_cons, !length_app, !length_ext_bytes in Hm.
    + replace (a + 64) with (a + 1 * 64) by lia. by rewrite Z.mod_add.
Qed.

Lemma loaded_fields es : ∀ last,
  ((λ x, x.1.1) <$> loaded last es) = es.*1 ∧ ((λ x, x.1.2) <$> loaded last es) = es.*2 ∧
  ((λ x, x.2) <$> loaded last es) = prefix_sums last es.*2.
Proof.
  induction es as [|[b c] es IH]; intros last; [done|].
  destruct (IH (last + c)) as (H1 & H2 & H3). rewrite !fmap_cons. cbn [loaded prefix_sums].
  rewrite !fmap_cons. rewrite H1, H2, H3. done.
Qed.

(** Loading a list of 512 extents from memory gives a map that holds it. *)
Lemma extmap_load_run es mem a :
  length es = 512%nat → holds mem a (list_bytes es) → a mod 64 = 0 → 0 ≤ a →
  a + 8192 < 2 ^ 64 → Forall ext_ok es → total es < 2 ^ 64 →
  represents (mtl_extmap_load a mem) es.
Proof using Hbus.
  intros Hlen Hm Ha Ha0 Hab Hok Ht. unfold mtl_extmap_load.
  change (Z.to_nat MaxExtentsPerFile) with (4 * 128)%nat.
  rewrite (load_loop_run 128 es) by (done || lia).
  destruct (loaded_fields es 0) as (H1 & H2 & H3). split; cbn [extents_begin extents_count
    extents_nextlblock]; try done; by rewrite ?H1, ?H2, ?H3.
Qed.
End MapJob.

Section MapClaim.
Context `{MemBus} (Hbus : ADDR_RIGHT_SHIFT = 6%nat) `{Device} (nvme_enabled : bool).
Implicit Types (xs : list mtl_file_extent) (s : Jobs.hw).

(** The extent list of a file, filled up to the 512 entries of a block. *)
Definition pairs xs : list (Z * Z) :=
  ((λ x, (fe_offset x, fe_length x)) <$> xs) ++ repeat (0, 0) (512 - length xs).

Lemma length_pairs xs : (length xs ≤ 512)%nat → length (pairs xs) = 512%nat.
Proof. intros Hl. unfold pairs. rewrite length_app, length_fmap, repeat_length. lia. Qed.

Lemma extent_words_pairs xs :
  (length xs ≤ 512)%nat →
  concat (DataContexts.extent_words xs <$> seq 0 (Z.to_nat MaxExtentsPerFile))
  = list_bytes (pairs xs).
Proof.
  intros Hl. change (Z.to_nat MaxExtentsPerFile) with 512%nat.
  unfold list_bytes.
  assert (∀ l : list (Z * Z), l ≫= ext_bytes = concat (ext_bytes <$> l)) as ->
    by (induction l as [|x l IH]; [done|]; rewrite bind_cons, fmap_cons, IH; done).
  f_equal. apply list_eq_same_length with 512%nat.
  - by rewrite length_fmap, length_pairs.
  - by rewrite length_fmap, length_seq.
  - intros i x y Hi. rewrite !list_lookup_fmap, lookup_seq_lt by done.
    cbn [fmap option_fmap option_map Nat.add]. unfold DataContexts.extent_words, pairs.
    intros [= <-]. destruct (xs !! i) as [e|] eqn:E.
    + rewrite lookup_app_l by (rewrite length_fmap; by eapply lookup_lt_Some).
      rewrite list_lookup_fmap, E. by intros [= <-].
    + apply lookup_ge_None in E. rewrite lookup_app_r by (by rewrite length_fmap).
      rewrite length_fmap.
      destruct (repeat (0, 0) (512 - length xs) !! (i - length xs)%nat) as [p|] eqn:Ep; [|done].
      apply list_elem_of_lookup_2, list_elem_of_In, repeat_spec in Ep as ->.
      by intros [= <-].
Qed.

(** The map of a slot: read or write, card memory or NVMe. *)
Definition slot_map (slot : Z) s : mtl_extmap_t :=
  if slot =? 0 then dram_map (Jobs.h_read_maps s)
  else if slot =? 1 then dram_map (Jobs.h_write_maps s)
  else if slot =? 2 then nvme_map (Jobs.h_read_maps s)
  else nvme_map (Jobs.h_write_maps s).

(** The action reads the block of a [Map] job as the host writes it. *)
Lemma action_map_run s job_address slot xs :
  holds (Jobs.h_mem s) job_address (DataContexts.map_block slot xs) →
  job_address mod 64 = 0 → 0 ≤ job_address → job_address + 8256 < 2 ^ 64 →
  0 ≤ slot < 2 ^ 64 → (length xs ≤ 512)%nat → Forall ext_ok (pairs xs) →
  total (pairs xs) < 2 ^ 64 →
  ∃ r s', Jobs.action_map nvme_enabled job_address s = Ok (r, s') ∧
    if slot <? (if nvme_enabled then 4 else 2)
    then r = SNAP_RETC_SUCCESS ∧ represents (slot_map slot s') (pairs xs) ∧
         ∀ slot', 0 ≤ slot' < 4 → slot' ≠ slot → slot_map slot' s' = slot_map slot' s
    else r = SNAP_RETC_FAILURE ∧ s' = s.
Proof using Hbus.
  intros Hm Ha Ha0 Hab Hslot Hlen Hok Ht. unfold DataContexts.map_block in Hm.
  rewrite extent_words_pairs in Hm by done.
  assert (get_bytes (mem_line (Jobs.h_mem s) (MFB_ADDRESS job_address)) 0 8 = be_bytes 8 slot)
    as Hs.
  { rewrite (line0_bytes Hbus _ _ _ 0 8 Hm Ha) by (rewrite ?length_app, ?length_be_bytes; lia).
    unfold get_bytes. by rewrite drop_0, take_app_length' by (by rewrite length_be_bytes). }
  rewrite app_assoc in Hm. apply holds_app in Hm as [_ Hm].
  rewrite length_app, length_be_bytes, length_fmap, length_seq in Hm.
  assert (represents (mtl_extmap_load (job_address + 64) (Jobs.h_mem s)) (pairs xs)) as Hrep.
  { apply (extmap_load_run Hbus); try done; [by apply length_pairs| |lia|lia].
    replace (job_address + 64) with (job_address + 1 * 64) by lia. by rewrite Z.mod_add. }
  unfold Jobs.action_map. rewrite (bind_run m_get _ s s s) by done.
  rewrite (get64_be_bytes _ _ slot Hslot Hs), (mfb_increment Hbus).
  rewrite (u64_small (job_address + 64)) by (unfold in_u64; lia).
  set (x := mtl_extmap_load _ _) in *.
  destruct (Z.eqb_spec slot 0) as [->|]; [|destruct (Z.eqb_spec slot 1) as [->|];
    [|destruct (Z.eqb_spec slot 2) as [->|]; [|destruct (Z.eqb_spec slot 3) as [->|]]]];
    destruct nvme_enabled; cbn [andb Z.ltb Z.compare Pos.compare Pos.compare_cont];
    (do 2 eexists; split; [done|]);
    try (rewrite (proj2 (Z.ltb_ge _ _)) by lia; done); try done;
    (split; [done|]; split; [done|]);
    intros slot' Hr Hne; unfold slot_map; simpl;
    repeat match goal with |- context [slot' =? ?n] => destruct (Z.eqb_spec slot' n) end;
    done || lia.
Qed.

(** The block of a [Map] job, as the host writes it for a file's extents,
    is what the action reads: executing the job on it installs, in the slot
    named, a map that holds exactly these extents, and leaves the other slots
    alone; a slot the action does not have is refused and changes nothing. *)
Theorem map_job_installs_extents s job_address slot xs :
  holds (Jobs.h_mem s) job_address (DataContexts.map_block slot xs) →
  job_address mod 64 = 0 → 0 ≤ job_address → job_address + 8256 < 2 ^ 64 →
  0 ≤ slot < 2 ^ 64 → (length xs ≤ 512)%nat → Forall ext_ok (pairs xs) →
  total (pairs xs) < 2 ^ 64 →
  ∃ r s', Jobs.action_map nvme_enabled job_address s = Ok (r, s') ∧
    if slot <? (if nvme_enabled then 4 else 2)
    then r = SNAP_RETC_SUCCESS ∧ represents (slot_map slot s') (pairs xs) ∧
         ∀ slot', 0 ≤ slot' < 4 → slot' ≠ slot → slot_map slot' s' = slot_map slot' s
    else r = SNAP_RETC_FAILURE ∧ s' = s.
Proof using Hbus. apply action_map_run. Qed.
End MapClaim.

(** ** The stream switch *)

Section Switch.
Context `{Device}.
Implicit Types (cs : list OperatorContext) (f : Z → Z).

(** The connections of a pipeline: which source feeds which sink. *)
Fixpoint connections cs (previous : Z) : list (Z * Z) :=
  match cs with
  | [] => [(IOStreamID, previous)]
  | c :: rest => (stream_of c, previous) :: connections rest (stream_of c)
  end.

(** The eight words of a switch block. *)
Definition block_wires (block : list Z) f : Prop :=
  length block = 32%nat ∧
  ∀ i, (i < 8)%nat → get_bytes block (4 * i) 4 = be_bytes 4 (f (Z.of_nat i)).

Lemma length_put_bytes l k p :
  (k + length p ≤ length l)%nat → length (put_bytes l k p) = length l.
Proof.
  intros Hk. unfold put_bytes. rewrite !length_app, length_take, length_drop. lia.
Qed.

Lemma word_set i j x block :
  (i < 8)%nat → (j < 8)%nat → length block = 32%nat →
  get_bytes (set_word i (be_bytes 4 x) block) (4 * j) 4
  = if decide (i = j) then be_bytes 4 x else get_bytes block (4 * j) 4.
Proof.
  intros Hi Hj Hl. unfold set_word. case_decide as E.
  - subst j. rewrite <-(length_be_bytes 4 x) at 2. apply get_put_same. lia.
  - apply put_get_other; rewrite length_be_bytes; lia.
Qed.

Lemma length_set_word i x block :
  (i < 8)%nat → length block = 32%nat → length (set_word i (be_bytes 4 x) block) = 32%nat.
Proof. intros Hi Hl. unfold set_word. rewrite length_put_bytes; rewrite ?length_be_bytes; lia. Qed.

Lemma set_switch_run block f k x :
  block_wires block f → 0 ≤ k < 8 →
  ∃ block', set_switch block k x = Ok block' ∧
    block_wires block' (λ i, if k =? i then x else f i).
Proof.
  intros [Hl Hw] Hk. unfold set_switch. rewrite (proj2 (Z.leb_le _ _)) by lia.
  rewrite (proj2 (Z.ltb_lt _ _)) by lia. cbn [andb]. eexists. split; [done|]. split.
  - apply length_set_word; lia.
  - intros i Hi. rewrite word_set by lia. case_decide as E.
    + subst i. by rewrite (proj2 (Z.eqb_eq _ _)) by lia.
    + rewrite (proj2 (Z.eqb_neq _ _)) by lia. by apply Hw.
Qed.

(** The value a list of assignments leaves at [i]. *)
Definition assigned (l : list (Z * Z)) (v i : Z) : Z :=
  foldl (λ v x, if x.1 =? i then x.2 else v) v l.

Lemma connect_run cs : ∀ previous block f,
  block_wires block f → Forall (λ c, 0 ≤ stream_of c < 8) cs →
  ∃ block', connect cs previous block = Ok block' ∧
    block_wires block' (λ i, assigned (connections cs previous) (f i) i).
Proof.
  induction cs as [|c cs IH]; intros previous block f Hb Hcs; cbn [connect connections].
  - apply set_switch_run; [done|]. by unfold IOStreamID.
  - apply Forall_cons in Hcs as [Hc Hcs].
    destruct (set_switch_run block f (stream_of c) previous Hb Hc) as (b1 & -> & Hb1).
    destruct (IH (stream_of c) b1 _ Hb1 Hcs) as (b2 & Hr & Hb2).
    exists b2. split; [done|]. done.
Qed.

Lemma disabled_block n block :
  (n ≤ 8)%nat → length block = 32%nat →
  let b := foldl (λ b i, set_word i (be_bytes 4 disable) b) block (seq 0 n) in
  length b = 32%nat ∧ ∀ i, (i < n)%nat → get_bytes b (4 * i) 4 = be_bytes 4 disable.
Proof.
  intros Hn Hl. induction n as [|n IH]; [simpl; split; [done|lia]|].
  rewrite seq_S, foldl_app. cbn [foldl Nat.add]. destruct IH as [IHl IHw]; [lia|]. split.
  - by apply length_set_word.
  - intros i Hi. rewrite word_set by (done || lia). case_decide; [done|]. apply IHw. lia.
Qed.

Lemma switch_block_run cs :
  Forall (λ c, 0 ≤ stream_of c < 8) cs →
  ∃ block, switch_block cs = Ok block ∧
    block_wires block (λ i, assigned (connections cs IOStreamID) disable i).
Proof.
  intros Hcs. unfold switch_block. apply connect_run; [|done].
  assert (length (allocateMemory 32) = 32%nat) as Hl
    by (unfold allocateMemory; by rewrite length_fmap, length_seq).
  destruct (disabled_block 8 _ (le_n 8) Hl) as [Hl' Hw]. by split.
Qed.

(** Without repetition every connection is the one assigned. *)
Lemma assigned_elem l v i x : NoDup l.*1 → (i, x) ∈ l → assigned l v i = x.
Proof.
  unfold assigned. revert v. induction l as [|[k y] l IH]; intros v Hnd Hin;
    [by apply elem_of_nil in Hin|].
  rewrite fmap_cons in Hnd. apply NoDup_cons in Hnd as [Hnin Hnd]. cbn [foldl fst snd].
  apply elem_of_cons in Hin as [[= -> ->]|Hin]; [|by apply IH].
  rewrite Z.eqb_refl. clear -Hnin.
  assert (∀ v, foldl (λ v x, if x.1 =? k then x.2 else v) v l = v) as Hsame; [|apply Hsame].
  induction l as [|[k' y'] l IH]; intros v; [done|]. rewrite fmap_cons, not_elem_of_cons in Hnin.
  simpl. rewrite (proj2 (Z.eqb_neq _ _)) by naive_solver. apply IH. naive_solver.
Qed.

Lemma assigned_absent l v i : i ∉ l.*1 → assigned l v i = v.
Proof.
  unfold assigned. revert v. induction l as [|[k y] l IH]; intros v Hn; [done|].
  rewrite fmap_cons, not_elem_of_cons in Hn. simpl.
  rewrite (proj2 (Z.eqb_neq _ _)) by naive_solver. apply IH. naive_solver.
Qed.

Lemma connections_sinks cs previous : (connections cs previous).*1 = (stream_of <$> cs) ++ [IOStreamID].
Proof.
  revert previous. induction cs as [|c cs IH]; intros previous; [done|].
  cbn [connections]. rewrite !fmap_cons, IH. done.
Qed.

Lemma connections_sources cs : ∀ previous i x,
  Forall (λ c, 0 ≤ stream_of c < 8) cs → 0 ≤ previous < 8 →
  (i, x) ∈ connections cs previous → 0 ≤ x < 8.
Proof.
  induction cs as [|c cs IH]; intros previous i x Hcs Hp; cbn [connections].
  - intros Hin%list_elem_of_singleton. by simplify_eq.
  - apply Forall_cons in Hcs as [Hc Hcs]. intros [[= -> ->]|Hin]%elem_of_cons; [done|].
    by apply (IH (stream_of c) i).
Qed.
End Switch.

Section SwitchClaim.
Context `{MemBus} (Hbus : ADDR_RIGHT_SHIFT = 6%nat) `{Device}.
Implicit Types (cs : list OperatorContext) (s : Jobs.hw).

(** The register of a sink of the stream switch. *)
Definition switch_register s (sink : Z) : Z :=
  Jobs.h_regs s (Jobs.SwitchBaseAddr + AXI_STREAM_SWITCH_MAPPING_CONFIG_OFFSET + sink).

Lemma configure_streams_run s a block f :
  holds (Jobs.h_mem s) a block → a mod 64 = 0 → block_wires block f →
  (∀ i, 0 ≤ i < 8 → 0 ≤ f i < 2 ^ 32) →
  ∃ s', Jobs.action_configure_streams a s = Ok (SNAP_RETC_SUCCESS, s') ∧
    Jobs.h_mem s' = Jobs.h_mem s ∧
    ∀ i, 0 ≤ i < 8 → switch_register s' i = f i.
Proof using Hbus.
  intros Hm Ha [Hl Hw] Hf. unfold Jobs.action_configure_streams.
  set (line := mem_line (Jobs.h_mem s) (MFB_ADDRESS a)).
  assert (∀ i, (i < 8)%nat → mtl_get32 line (i * 4) = f (Z.of_nat i)) as Hget.
  { intros i Hi. apply get32_be_bytes; [apply Hf; lia|]. unfold line.
    rewrite (line0_bytes Hbus _ _ _ _ _ Hm Ha) by lia.
    replace (i * 4)%nat with (4 * i)%nat by lia. by apply Hw. }
  rewrite (bind_run m_get _ s s s) by done. eexists. split; [done|]. split; [done|].
  assert (∀ i, (i < 8)%nat → u32 (f (Z.of_nat i)) = f (Z.of_nat i)) as Hu
    by (intros i Hi; apply wrap_small, Hf; lia).
  cbn [foldl]. rewrite !Hget by lia.
  intros i Hi. unfold switch_register, switch_set_mapping, switch_commit, set_reg.
  cbn [Jobs.map_regs Jobs.h_regs].
  assert (i = 0 ∨ i = 1 ∨ i = 2 ∨ i = 3 ∨ i = 4 ∨ i = 5 ∨ i = 6 ∨ i = 7) as Hcases by lia.
  destruct Hcases as [->|[->|[->|[->|[->|[->|[->| ->]]]]]]];
    [exact (Hu 0%nat ltac:(lia)) | exact (Hu 1%nat ltac:(lia)) | exact (Hu 2%nat ltac:(lia))
    | exact (Hu 3%nat ltac:(lia)) | exact (Hu 4%nat ltac:(lia)) | exact (Hu 5%nat ltac:(lia))
    | exact (Hu 6%nat ltac:(lia)) | exact (Hu 7%nat ltac:(lia))].
Qed.

(** C29: The switch block the host writes for a pipeline and the action's
    decoding of it agree: when the operators have distinct streams, every
    operator's input is switched to its predecessor in the pipeline, the first
    one to the data source, the data sink to the last operator, and every
    other output is disabled. *)
Theorem switch_reaches_hardware cs s a :
  NoDup (stream_of <$> cs) → Forall (λ c, 0 < stream_of c < 8) cs → a mod 64 = 0 →
  ∃ block, switch_block cs = Ok block ∧
    (holds (Jobs.h_mem s) a block →
     ∃ s', Jobs.action_configure_streams a s = Ok (SNAP_RETC_SUCCESS, s') ∧
       (∀ sink source, (sink, source) ∈ connections cs IOStreamID →
          switch_register s' sink = source) ∧
       (∀ sink, 0 ≤ sink < 8 → sink ∉ IOStreamID :: (stream_of <$> cs) →
          switch_register s' sink = disable)).
Proof using Hbus.
  intros Hnd Hcs Ha.
  assert (Forall (λ c, 0 ≤ stream_of c < 8) cs) as Hcs'
    by (eapply Forall_impl; [done|]; intros c; simpl; lia).
  destruct (switch_block_run cs Hcs') as (block & Hb & Hw). exists block. split; [done|].
  intros Hm.
  assert (NoDup (connections cs IOStreamID).*1) as Hnd'.
  { rewrite connections_sinks. apply NoDup_app. split; [done|]. split; [|apply NoDup_singleton].
    intros x (c & -> & Hc)%list_elem_of_fmap Hx%list_elem_of_singleton.
    pose proof (proj1 (Forall_forall _ _) Hcs c Hc). unfold IOStreamID in *. simpl in *. lia. }
  destruct (configure_streams_run s a block _ Hm Ha Hw) as (s' & Hr & _ & Hreg).
  { intros i Hi. destruct (decide (i ∈ (connections cs IOStreamID).*1)) as [Hin|Hn].
    - apply list_elem_of_fmap in Hin as ([k x] & -> & Hin).
      rewrite (assigned_elem _ _ _ x) by done.
      pose proof (connections_sources cs IOStreamID k x Hcs' ltac:(done) Hin). lia.
    - rewrite assigned_absent by done. done. }
  exists s'. split; [done|]. split.
  - intros sink source Hin. rewrite Hreg.
    + by apply assigned_elem.
    + assert (sink ∈ (connections cs IOStreamID).*1) as Hs
        by (apply list_elem_of_fmap; by exists (sink, source)).
      rewrite connections_sinks in Hs. apply elem_of_app in Hs as [Hs|Hs].
      * apply list_elem_of_fmap in Hs as (c & -> & Hc).
        by apply (proj1 (Forall_forall _ _) Hcs' c).
      * apply list_elem_of_singleton in Hs as ->. done.
  - intros sink Hsink Hn. rewrite Hreg by done. apply assigned_absent.
    rewrite connections_sinks. rewrite elem_of_app, list_elem_of_singleton.
    rewrite elem_of_cons in Hn. tauto.
Qed.
End SwitchClaim.

(** ** Operator options *)

Section Options.
Context `{MemBus}.
Implicit Types (s : Jobs.hw).

(** The bytes the host writes for a value. *)
Definition value_bytes (v : OperatorArgumentValue) : list Z :=
  match v with
  | AVUint n => le_bytes 4 n
  | AVBool b => le_bytes 4 (if b then 1 else 0)
  | AVBuffer bytes => bytes
  end.

Lemma option_block_run spec d v config :
  (16 + length (value_bytes v) ≤ length config)%nat →
  ∃ block, option_block spec d v config = Ok block ∧ length block = length config ∧
    get_bytes block 0 4 = be_bytes 4 (u32 (od_offset d / 4)) ∧
    get_bytes block 4 4 = be_bytes 4 (u32 (Z.of_nat (length (value_bytes v)) / 4)) ∧
    get_bytes block 8 4 = be_bytes 4 (sp_streamID spec) ∧
    get_bytes block 12 4 = be_bytes 4 (if sp_prepareRequired spec then 1 else 0) ∧
    get_bytes block 16 (length (value_bytes v)) = value_bytes v.
Proof.
  intros Hl.
  set (c := set_word 3 (be_bytes 4 (if sp_prepareRequired spec then 1 else 0))
    (set_word 2 (be_bytes 4 (sp_streamID spec))
      (set_word 0 (be_bytes 4 (u32 (od_offset d / 4))) config))).
  set (block := set_word 1 (be_bytes 4 (u32 (Z.of_nat (length (value_bytes v)) / 4)))
                  (put_bytes c 16 (value_bytes v))).
  assert (option_block spec d v config = Ok block) as Hrun.
  { unfold option_block. destruct v as [n|b|bytes]; [done|done|].
    cbn zeta. by rewrite (proj2 (Nat.leb_le _ _)). }
  exists block. split; [done|].
  assert (length (set_word 0 (be_bytes 4 (u32 (od_offset d / 4))) config) = length config) as L0
    by (unfold set_word; rewrite length_put_bytes; rewrite ?length_be_bytes; lia).
  assert (length (set_word 2 (be_bytes 4 (sp_streamID spec))
    (set_word 0 (be_bytes 4 (u32 (od_offset d / 4))) config)) = length config) as L2
    by (unfold set_word at 1; rewrite length_put_bytes; rewrite ?length_be_bytes; lia).
  assert (length c = length config) as Lc
    by (unfold c; unfold set_word at 1; rewrite length_put_bytes; rewrite ?length_be_bytes; lia).
  assert (length (put_bytes c 16 (value_bytes v)) = length config) as Lp
    by (rewrite length_put_bytes; lia).
  split; [unfold block, set_word; rewrite length_put_bytes; rewrite ?length_be_bytes; lia|].
  assert (∀ k n, (k + n ≤ 4 ∨ 8 ≤ k)%nat →
    get_bytes block k n = get_bytes (put_bytes c 16 (value_bytes v)) k n) as H1.
  { intros k n Hk. unfold block, set_word. rewrite put_get_other; [done| |];
      rewrite length_be_bytes; lia. }
  assert (∀ k n, (k + n ≤ 16)%nat → get_bytes (put_bytes c 16 (value_bytes v)) k n
    = get_bytes c k n) as H2 by (intros k n Hk; apply put_get_other; lia).
  assert (∀ i x b, (i < 4)%nat → length b = length config →
    get_bytes (set_word i (be_bytes 4 x) b) (4 * i) 4 = be_bytes 4 x) as Hsame.
  { intros i x b Hi Hb. unfold set_word. rewrite <-(length_be_bytes 4 x) at 2.
    apply get_put_same. lia. }
  assert (∀ i j x b, (i < 4)%nat → (j < 4)%nat → i ≠ j → length b = length config →
    get_bytes (set_word i (be_bytes 4 x) b) (4 * j) 4 = get_bytes b (4 * j) 4) as Hother.
  { intros i j x b Hi Hj Hij Hb. unfold set_word.
    apply put_get_other; rewrite length_be_bytes; lia. }
  split; [|split; [|split; [|split]]].
  - rewrite H1, H2 by lia. unfold c.
    rewrite (Hother 3 0)%nat, (Hother 2 0)%nat by (done || lia). apply (Hsame 0%nat); lia.
  - apply (Hsame 1%nat); lia.
  - rewrite H1, H2 by lia. unfold c. rewrite (Hother 3 2)%nat by (done || lia).
    apply (Hsame 2%nat); lia.
  - rewrite H1, H2 by lia. apply (Hsame 3%nat); lia.
  - rewrite H1 by lia. apply get_put_same. lia.
Qed.

Lemma get32le_bytes line k l :
  get_bytes line k 4 = l → length l = 4%nat → mtl_get32le line k = le_val l.
Proof.
  unfold mtl_get32le. intros -> Hl. do 5 (destruct l as [|? l]; simpl in Hl; try lia).
  unfold at_bit. cbn [nth le_val]. rewrite !Z.shiftl_mul_pow2 by lia. lia.
Qed.

(** The words of a value. *)
Definition word (bytes : list Z) (j : nat) : Z := le_val (get_bytes bytes (4 * j) 4).

Lemma word_range bytes j :
  Forall byte_ok bytes → (4 * j + 4 ≤ length bytes)%nat → 0 ≤ word bytes j < 2 ^ 32.
Proof.
  intros Hb Hj. unfold word. pose proof (length_get_bytes bytes (4 * j) 4 Hj) as Hl.
  assert (Forall byte_ok (get_bytes bytes (4 * j) 4)) as Hf
    by (unfold get_bytes; by apply Forall_take, Forall_drop).
  pose proof (le_val_range _ Hf) as Hr. rewrite Hl in Hr. exact Hr.
Qed.

(** The register [i] of operator [op]. *)
Definition op_register s (op i : Z) : Z :=
  Jobs.h_regs s (Jobs.OperatorBaseAddr + op * Jobs.OperatorOffset + i).

(** The loop as long as the words come from the first line. *)
Lemma configure_loop_run (Hbus : ADDR_RIGHT_SHIFT = 6%nat) mem li op n : ∀ k offset line r,
  (k + n ≤ 14)%nat → 0 ≤ op < 8 → 0 ≤ offset → offset + Z.of_nat n < 2 ^ 20 →
  length line = 64%nat → (4 * n ≤ 64)%nat →
  let r' := Jobs.configure_loop n mem li op offset (4 + 4 * Z.of_nat k) line r in
  (∀ j, (j < n)%nat →
     r' (Jobs.OperatorBaseAddr + op * Jobs.OperatorOffset + (offset + Z.of_nat j))
     = u32 (word line j)) ∧
  (∀ x, (∀ j, (j < n)%nat →
            x ≠ Jobs.OperatorBaseAddr + op * Jobs.OperatorOffset + (offset + Z.of_nat j)) →
     r' x = r x).
Proof.
  assert (Jobs.OperatorOffset = 16384) as HOO by done.
  induction n as [|n IH]; intros k offset line r Hk Hop Ho Hon Hl Hn r'.
  { split; [intros j Hj; lia|done]. }
  subst r'. cbn [Jobs.configure_loop]. rewrite (bus_64 Hbus).
  rewrite (proj2 (Z.eqb_neq ((4 + 4 * Z.of_nat k) mod _) 0))
    by (rewrite Z.mod_small; lia).
  assert (u32 (offset + 1) = offset + 1) as -> by (apply wrap_small; lia).
  assert (u8 (4 + 4 * Z.of_nat k + 4) = 4 + 4 * Z.of_nat (S k)) as ->
    by (unfold u8; rewrite wrap_small; lia).
  assert (u32 (op * Jobs.OperatorOffset + offset) = op * Jobs.OperatorOffset + offset) as ->
    by (apply wrap_small; rewrite HOO; lia).
  set (r1 := set_reg _ _ _ r).
  destruct (IH (S k) (offset + 1) (shift_line line 4) r1) as [IH1 IH2];
    [lia|done|lia|lia|by rewrite length_shift_line by lia|lia|].
  assert (mtl_get32le line 0 = word line 0) as Hw0.
  { unfold word. apply get32le_bytes; [done|]. rewrite length_get_bytes; lia. }
  assert (r1 (Jobs.OperatorBaseAddr + op * Jobs.OperatorOffset + offset) = u32 (word line 0)) as Hr1.
  { unfold r1, set_reg. rewrite (proj2 (Z.eqb_eq _ _)) by lia. by rewrite Hw0. }
  split.
  - intros [|j] Hj.
    + rewrite Z.add_0_r, IH2; [done|]. intros j' Hj'. lia.
    + specialize (IH1 j ltac:(lia)).
      replace (offset + 1 + Z.of_nat j) with (offset + Z.of_nat (S j)) in IH1 by lia.
      rewrite IH1. unfold word. rewrite shift_bytes by lia. do 4 f_equal. lia.
  - intros x Hx. rewrite IH2.
    + unfold r1, set_reg. rewrite (proj2 (Z.eqb_neq _ _)); [done|].
      specialize (Hx 0%nat ltac:(lia)). lia.
    + intros j Hj. specialize (Hx (S j) ltac:(lia)). lia.
Qed.
End Options.

Section OptionClaim.
Context `{MemBus} (Hbus : ADDR_RIGHT_SHIFT = 6%nat).
Implicit Types (s : Jobs.hw).

End OptionClaim.

(** ** Setting options *)

Section SetOption.
Import Operator.
Implicit Types (op : operator).

Lemma assoc_is_Some {A} k (l : list (string * A)) : is_Some (assoc k l) ↔ k ∈ l.*1.
Proof.
  induction l as [|[k' a] l IH]; [simpl; split; [by intros [? ?]|by intros ?%elem_of_nil]|].
  rewrite fmap_cons, elem_of_cons. cbn [assoc fst]. case_decide as E.
  - subst. split; [by left|done].
  - rewrite IH. split; [by right|]. intros [?|?]; [congruence|done].
Qed.

Lemma assoc_set_spec {A} k k' (a : A) (l : list (string * A)) :
  assoc k' (assoc_set k a l)
  = if decide (k = k') then (λ _, a) <$> assoc k l else assoc k' l.
Proof.
  induction l as [|[k2 a2] l IH]; cbn [assoc assoc_set]; [by case_decide|].
  repeat (case_decide; cbn [assoc]; simplify_eq; try done).
  all: rewrite ?IH; by repeat (case_decide; simplify_eq).
Qed.

Lemma assoc_set_keys {A} k (a : A) (l : list (string * A)) : (assoc_set k a l).*1 = l.*1.
Proof.
  induction l as [|[k2 a2] l IH]; [done|]. cbn [assoc_set]. case_decide; [done|].
  by rewrite !fmap_cons, IH.
Qed.

(** Whatever the reads from freed memory give, the options of an operator are those of
    its specification: setting one throws, or gives the value to the option of that
    name, which exists, and changes no other one. *)
Lemma setOption_changes_one `{FreedMemory} op option arg :
  (∃ what, setOption option arg op = Fault (Throw what)) ∨
  ∃ op', setOption option arg op = Ok op' ∧ op_spec op' = op_spec op ∧
    option ∈ (op_options op).*1 ∧ (op_options op').*1 = (op_options op).*1 ∧
    assoc option (op_options op') = Some (Some arg) ∧
    ∀ k, k ≠ option → assoc k (op_options op') = assoc k (op_options op).
Proof.
  unfold setOption. destruct (freed_is_end op option); [left; by eexists|].
  destruct (_ =? _); [|left; by eexists]. cbn [negb].
  destruct (assoc option (op_options op)) as [old|] eqn:E; [|left; by eexists].
  right. eexists. split; [done|]. cbn [op_options op_spec]. split; [done|].
  split; [apply assoc_is_Some; by rewrite E|]. split; [apply assoc_set_keys|]. split.
  - rewrite assoc_set_spec, decide_True by done. by rewrite E.
  - intros k Hk. by rewrite assoc_set_spec, decide_False.
Qed.

(** As long as the freed memory still holds the map, the checks are those that the
    source means. *)
Lemma setOption_intact op option arg :
  setOption (H := intact_memory) option arg op
  = match assoc option (sp_options (op_spec op)) with
    | None => Fault (Throw "Unknown option")
    | Some d =>
        if negb (type_number (od_type d) =? arg_index arg) then Fault (Throw "Invalid option")
        else match assoc option (op_options op) with
             | None => Fault (Throw "out_of_range")
             | Some _ => Ok (MkOperator (op_spec op) (assoc_set option (Some arg) (op_options op)))
             end
    end.
Proof.
  unfold setOption, intact_memory. cbn [freed_is_end freed_type].
  by destruct (assoc option (sp_options (op_spec op))).
Qed.

(** Other contents, the number of another type: a value of the wrong type is stored
    and one of the right type is refused. *)
Example freed_memory_decides :
  let other := {| freed_is_end _ _ := false; freed_type _ _ := 1; freed_offset _ _ := 0 |} in
  let op := create (Spec "op" "" 1 false [("count", OptionDefinition 256 OTUint "count" "c" "" None)]) in
  setOption (H := other) "count" (AVBool true) op
  = Ok (MkOperator (op_spec op) [("count", Some (AVBool true))]) ∧
  setOption (H := other) "count" (AVUint 5) op = Fault (Throw "Invalid option").
Proof. split; reflexivity. Qed.
End SetOption.
End JobFacts.

(** ** Concrete jobs *)

Import Endian Extmap OpMem Jobs Pipeline.

#[local] Existing Instance Transfers.Demo.bus.

Module Demo.
#[local] Instance silent : Device :=
  {| device_freed := Operator.intact_memory; device := λ _ _, None; snap_malloc_byte := λ _, 0 |}.

Lemma six : ADDR_RIGHT_SHIFT = 6%nat.
Proof. reflexivity. Qed.

(** A block at address zero of a memory that is zero elsewhere. *)
Definition memory_with (block : list Z) : Z → Z := λ a, nth (Z.to_nat a) block 0.

Lemma memory_holds block : JobFacts.holds (memory_with block) 0 block.
Proof. intros i Hi. unfold memory_with. f_equal. lia. Qed.

Definition empty_map : mtl_extmap_t := ExtmapT 0 0 [] [] [].
Definition no_maps : maps := Maps empty_map empty_map.

(** An idle card. *)
Definition card (block : list Z) : Jobs.hw :=
  Jobs.Hw (memory_with block) (λ _, 7) no_maps no_maps no_address no_address 0 [] [] [] [] [] [].

(** An operator on stream [i] with a number, a flag and a buffer. *)
Definition spec (i : Z) : OperatorSpecification :=
  Spec "blowfish" "Encrypts" i true
    [("key", OptionDefinition 256 OTBuffer "key" "k" "Key" (Some 64)); ("count", OptionDefinition 32 OTUint "count" "c" "Count" None)].

Definition context (i : Z) : OperatorContext := make_context (Operator.create (spec i)).

Definition buffer (words : nat) : list Z :=
  mjoin ((λ j, le_bytes 4 (Z.of_nat j + 1)) <$> seq 0 words).

Definition key_block (words : nat) : list Z :=
  match option_block (spec 1) (OptionDefinition 256 OTBuffer "key" "k" "Key" (Some 64)) (AVBuffer (buffer words))
          (repeat 0 128) with
  | Ok b => b
  | Fault _ => []
  end.

(** The registers of the key after a run. *)
Definition key_registers (r : result (unit * Jobs.hw)) : list Z :=
  match r with
  | Ok (_, s) => (λ j, JobFacts.op_register s 0 (64 + Z.of_nat j)) <$> seq 0 16
  | Fault _ => []
  end.
End Demo.
#[local] Existing Instance Demo.silent.

Lemma map_job_installs_extents_witness :
  ∃ r s', Jobs.action_map true 0 (Demo.card (DataContexts.map_block 3 [FileExtent 10 2; FileExtent 50 2]))
          = Ok (r, s') ∧
    r = SNAP_RETC_SUCCESS ∧
    Extmap.represents (JobFacts.slot_map 3 s') (JobFacts.pairs [FileExtent 10 2; FileExtent 50 2]).
Proof.
  destruct (JobFacts.map_job_installs_extents Demo.six true
    (Demo.card (DataContexts.map_block 3 [FileExtent 10 2; FileExtent 50 2])) 0 3 [FileExtent 10 2; FileExtent 50 2])
    as (r & s' & Hr & Hok & Hrep & _).
  - apply Demo.memory_holds.
  - reflexivity.
  - lia.
  - lia.
  - lia.
  - simpl. lia.
  - unfold JobFacts.pairs. apply Forall_app. split; [repeat constructor; unfold JobFacts.ext_ok; simpl; lia|].
    apply Forall_forall. intros x Hx%list_elem_of_In%repeat_spec. subst.
    unfold JobFacts.ext_ok. simpl. lia.
  - by vm_compute.
  - exists r, s'. done.
Defined.

Lemma switch_reaches_hardware_witness :
  ∃ block, switch_block [Demo.context 3; Demo.context 1] = Ok block ∧
    (JobFacts.holds (Jobs.h_mem (Demo.card block)) 0 block →
     ∃ s', Jobs.action_configure_streams 0 (Demo.card block) = Ok (SNAP_RETC_SUCCESS, s') ∧
       JobFacts.switch_register s' 3 = 0 ∧ JobFacts.switch_register s' 1 = 3 ∧
       JobFacts.switch_register s' 0 = 1 ∧ JobFacts.switch_register s' 2 = disable).
Proof.
  destruct (switch_block [Demo.context 3; Demo.context 1]) as [block|] eqn:E.
  2: { exfalso. apply (f_equal (λ r : result (list Z), match r with Ok _ => true | _ => false end)) in E.
       by vm_compute in E. }
  exists block. split; [done|]. intros Hm.
  destruct (JobFacts.switch_reaches_hardware Demo.six [Demo.context 3; Demo.context 1]
    (Demo.card block) 0) as (block' & Hb & Hs).
  - by apply (bool_decide_unpack _); vm_compute.
  - repeat constructor; reflexivity.
  - reflexivity.
  - rewrite E in Hb. injection Hb as <-. destruct (Hs Hm) as (s' & Hr & Hin & Hout).
    exists s'. split; [done|]. split; [|split; [|split]].
    + apply Hin. left.
    + apply Hin. right. left.
    + apply Hin. right. right. left.
    + apply Hout; [lia|]. by apply (bool_decide_unpack _); vm_compute.
Defined.


(** A buffer option of sixteen words, which fits the block the host
    writes, does not arrive: the copying loop takes the four words of metadata
    for one and loads the next line three words late, so that words 12, 13 and
    14 become zero and word 15 becomes word 12. *)
Theorem long_option_corrupted :
  ∃ block s',
    option_block (Demo.spec 1) (OptionDefinition 256 OTBuffer "key" "k" "Key" (Some 64)) (AVBuffer (Demo.buffer 16))
      (repeat 0 128) = Ok block ∧
    Jobs.configure_operators 0 (Demo.card block) = Ok (tt, s') ∧
    JobFacts.word (Demo.buffer 16) <$> seq 0 16
    = [1; 2; 3; 4; 5; 6; 7; 8; 9; 10; 11; 12; 13; 14; 15; 16] ∧
    (λ j, JobFacts.op_register s' 0 (64 + Z.of_nat j)) <$> seq 0 16
    = [1; 2; 3; 4; 5; 6; 7; 8; 9; 10; 11; 12; 0; 0; 0; 13].
Proof.
  exists (Demo.key_block 16).
  destruct (Jobs.configure_operators 0 (Demo.card (Demo.key_block 16))) as [[[] s']|] eqn:E.
  - exists s'. split; [by vm_compute|]. split; [done|]. split; [by vm_compute|].
    apply (f_equal Demo.key_registers) in E. cbn [Demo.key_registers] in E.
    rewrite <-E. by vm_compute.
  - exfalso. apply (f_equal Demo.key_registers) in E. by vm_compute in E.
Qed.
