(* ===== verification/CardJobs.v ===== *)
(** * Jobs carried out on memory

    [Jobs] decodes a job into register writes and DataMover commands;
    [CardMemory] says what the commands do to memory. Here both are put
    together: [performs] is one job of the card on one address space (host
    memory below 2^63, the card's memory above), and [executes] the jobs of the
    host, each with its parameter block copied to the place that was allocated
    for it. What lies between the two channels (the stream switch and the
    operators) is a function on streams. *)
From S2P Require Import Prelude Tiling Structs Inode Endian Extmap OpMem Jobs Pipeline Runner.
From S2P Require Import DataContexts TransferProofs CardMemory JobsProofs.

Module CardJobs.
Import Endian Extmap OpMem Jobs Pipeline Card.

(** The answers of the write channel are an input of the action. *)
Definition set_statuses (sts : list IbttStatus) (s : hw) : hw :=
  Hw (h_mem s) (h_regs s) (h_read_maps s) (h_write_maps s) (h_read_config s)
     (h_write_config s) (h_direct2 s) (h_interrupts s) sts (h_nvme_read s) (h_nvme_write s)
     (h_mm2s s) (h_s2mm s).

(** What was issued between two states. *)
Definition issued_since {A} (queue : hw → list A) (s s' : hw) : list A :=
  drop (length (queue s)) (queue s').

Section Jobs.
Context `{MemBus} (nvme_enabled : bool) `{DataMover}.

(** The action processes the job, the stream the read channel sends goes
    through [f] to the write channel, and that channel's answers are the ones
    the action got. [garbage] is what its result held before. *)
Definition performs (f : list Z → list Z) (garbage : Z) (j : Job) (s : hw) (rc : Z) (s' : hw) : Prop :=
  ∃ sts s1 mem',
    process_action nvme_enabled garbage j (set_statuses sts s) = Ok (rc, s1) ∧
    received (issued_since h_s2mm s s1) (f (sent (issued_since h_mm2s s s1) (h_mem s1))) (h_mem s1)
      = (mem', sts) ∧
    s' = set_mem mem' s1.

(** The job as the card sees it, its parameters at [a]. *)
Definition card_job (a : Z) (j : HostJob) : Job :=
  MkJob a (hj_type j) (hj_source j) (hj_destination j) (hj_data0 j) (hj_data1 j).

(** Host jobs with the addresses of their parameter blocks; each succeeds. *)
Inductive executes (f : list Z → list Z) (garbage : Z) : list (HostJob * Z) → hw → hw → Prop :=
  | executes_nil s : executes f garbage [] s s
  | executes_cons j a js s s1 s2 :
      performs f garbage (card_job a j) (set_mem (store (h_mem s) a (hj_parameters j)) s)
        SNAP_RETC_SUCCESS s1 →
      executes f garbage js s1 s2 → executes f garbage ((j, a) :: js) s s2.
End Jobs.
End CardJobs.

Module CardFacts.
Import Endian Extmap OpMem Jobs Pipeline Card JobFacts CardJobs.

Lemma memory_holds_store mem a block : holds (store mem a block) a block.
Proof.
  intros i Hi. unfold store.
  destruct (Z.leb_spec a (a + Z.of_nat i)), (Z.ltb_spec (a + Z.of_nat i) (a + Z.of_nat (length block)));
    try lia. cbn [andb]. f_equal. lia.
Qed.

Lemma issued_since_app {A} (queue : hw → list A) s s' l :
  queue s' = queue s ++ l → issued_since queue s s' = l.
Proof. intros E. unfold issued_since. by rewrite E, drop_app_length. Qed.

Lemma issued_since_same {A} (queue : hw → list A) s s' :
  queue s' = queue s → issued_since queue s s' = [].
Proof. intros E. unfold issued_since. by rewrite E, drop_all. Qed.

(** The parts of the state a job without a transfer leaves alone. *)
Record untouched (s s' : hw) : Prop := {
  un_mem : ∀ x, h_mem s' x = h_mem s x;
  un_interrupts : h_interrupts s' = h_interrupts s;
}.

Section Run.
Context `{MemBus} (Hbus : ADDR_RIGHT_SHIFT = 6%nat) (nvme_enabled : bool).
Context `{Device} {channels : DataMover} {laws : DataMoverLaws}.
Context (f : list Z → list Z) (garbage : Z).

(** A job that issues no commands. *)
Lemma performs_quiet j s rc s' :
  process_action nvme_enabled garbage j (set_statuses [] s) = Ok (rc, s') →
  h_s2mm s' = h_s2mm s →
  performs nvme_enabled f garbage j s rc (set_mem (h_mem s') s').
Proof.
  intros E Hq. exists [], s', (h_mem s'). split; [done|]. split; [|done].
  by rewrite (issued_since_same h_s2mm).
Qed.

Lemma action_map_frame a s r s' : action_map nvme_enabled a s = Ok (r, s') →
  ∃ rm wm, s' = set_maps rm wm s.
Proof.
  unfold action_map, mbind, M_bind, m_get, m_put, mret, M_ret.
  repeat case_match; intros E; simplify_eq; eauto.
  exists (h_read_maps s'), (h_write_maps s'). by destruct s'.
Qed.

(** A [Map] job installs the extents in its slot and does nothing else. *)
Lemma map_processed s a slot xs :
  holds (h_mem s) a (DataContexts.map_block slot xs) →
  a mod 64 = 0 → 0 ≤ a → a + 8256 < 2 ^ 64 → 0 ≤ slot < (if nvme_enabled then 4 else 2) →
  (length xs ≤ 512)%nat → Forall ext_ok (pairs xs) → total (pairs xs) < 2 ^ 64 →
  ∃ rm wm, let s' := set_maps rm wm s in
    process_action nvme_enabled garbage (card_job a (indirect Map (DataContexts.map_block slot xs))) s
      = Ok (SNAP_RETC_SUCCESS, s') ∧
    represents (slot_map slot s') (pairs xs) ∧
    ∀ slot', 0 ≤ slot' < 4 → slot' ≠ slot → slot_map slot' s' = slot_map slot' s.
Proof using Hbus.
  intros Hm Ha Hnn Hend Hslot Hlen Hok Ht.
  destruct (action_map_run Hbus nvme_enabled s a slot xs)
    as (r & s' & E & Hr); [done..|destruct nvme_enabled; lia|done|done|done|].
  destruct (action_map_frame _ _ _ _ E) as (rm & wm & ->).
  rewrite (proj2 (Z.ltb_lt _ _)) in Hr by lia. destruct Hr as (-> & Hrep & Hother).
  by exists rm, wm.
Qed.

Lemma map_performed s a slot xs :
  holds (h_mem s) a (DataContexts.map_block slot xs) →
  a mod 64 = 0 → 0 ≤ a → a + 8256 < 2 ^ 64 → 0 ≤ slot < 2 →
  (length xs ≤ 512)%nat → Forall ext_ok (pairs xs) → total (pairs xs) < 2 ^ 64 →
  ∃ s', performs nvme_enabled f garbage
          (card_job a (indirect Map (DataContexts.map_block slot xs))) s SNAP_RETC_SUCCESS s' ∧
    untouched s s' ∧ represents (slot_map slot s') (pairs xs).
Proof using Hbus.
  intros Hm Ha Hnn Hend Hslot Hlen Hok Ht.
  destruct (map_processed (set_statuses [] s) a slot xs)
    as (rm & wm & E & Hrep & _); [done..|destruct nvme_enabled; lia|done|done|done|].
  exists (set_mem (h_mem s) (set_maps rm wm (set_statuses [] s))).
  split; [by apply (performs_quiet _ _ _ (set_maps rm wm (set_statuses [] s)))|].
  split; [by split|]. exact Hrep.
Qed.

(** *** A run of the operators *)

Definition plain (a : Address) : Prop := a_type a = ATHost ∨ a_type a = ATCardDRAM.

(** The interrupts the run waits for: one of each operator, if there are any. *)
Definition polled (mask : Z) (irqs irqs' : list Z) : Prop :=
  if negb (mask =? 1) && negb (mask =? 0)
  then wait_equal irqs (Z.shiftr mask 1) = Ok irqs' else irqs' = irqs.

Lemma clear_none s irqs : h_interrupts s = 0 :: irqs →
  clear_operator_interrupts s = Ok (tt, set_interrupts irqs s).
Proof.
  intros E. unfold clear_operator_interrupts, read_interrupt, clear_one.
  unfold mbind, M_bind, m_get, m_put. rewrite E. reflexivity.
Qed.

Lemma poll_run mask s irqs' : polled mask (h_interrupts s) irqs' →
  ∃ s', poll_interrupts mask s = Ok (tt, s') ∧ s' = set_interrupts irqs' s.
Proof.
  unfold polled, poll_interrupts. destruct (_ && _).
  - intros E. eexists. split; [|done]. unfold mbind, M_bind, m_get, m_put, m_lift. by rewrite E.
  - intros ->. exists s. split; [done|]. by destruct s.
Qed.

Lemma do_run_operators_run s ri rm r wi n wm :
  op_mem_read nvme_enabled RandomBaseAddr (h_read_config s) (h_read_maps s) (h_regs s) = Ok (ri, rm, r) →
  op_mem_write nvme_enabled (h_write_config s) (h_statuses s) (h_write_maps s) = Ok (wi, n, wm) →
  do_run_operators nvme_enabled s
  = Ok (n, issue_write wi (issue_read ri (set_maps rm wm (map_regs (λ _, r) s)))).
Proof.
  intros Er Ew. unfold do_run_operators, mbind, M_bind, m_get, m_put, m_lift, mret, M_ret.
  by rewrite Er, Ew.
Qed.

Lemma action_run_operators_run mask s irqs' n s' :
  polled (u8 mask) (h_interrupts s) irqs' → Z.testbit mask 0 = true →
  do_run_operators nvme_enabled
    (map_regs (λ r, foldl (start_operator mask) r operator_indices) (set_interrupts irqs' s))
    = Ok (n, s') →
  action_run_operators nvme_enabled mask garbage s
  = Ok (n, map_regs (λ r, foldl (end_preparation mask) r operator_indices) s').
Proof.
  intros Hpoll Hbit Hdo. unfold action_run_operators.
  destruct (poll_run (u8 mask) s irqs' Hpoll) as (s3 & E3 & ->). run_step E3.
  unfold do_configure_and_run_operators. rewrite Hbit.
  rewrite (bind_run (m_modify _) _ _ _ _ eq_refl). by run_step Hdo.
Qed.

(** A transfer leaves the registers alone, whatever they are. *)
Lemma op_mem_read_regs rc config m r ri rm r' r2 : plain config →
  op_mem_read nvme_enabled rc config m r = Ok (ri, rm, r') →
  op_mem_read nvme_enabled rc config m r2 = Ok (ri, rm, r2).
Proof.
  intros Hp. unfold op_mem_read. rewrite !decide_False by (intros E; destruct Hp; congruence).
  destruct (load_data nvme_enabled config m) as [[i m']|]; cbn; [|done]. by intros [= <- <- <-].
Qed.

(** The boundary blocks that are fetched first, and the maps after that. *)
Definition preload_of (dst : Address) (wm : maps) : list NVMeCommand * maps :=
  if nvme_enabled && bool_decide (a_type dst = ATNVMe) then preload_nvme_blocks dst wm
  else ([], wm).

(** The whole job, for the state its transfers are issued in. *)
Lemma run_operators_job_run j s irqs irqs' pre wm0 ri rm wi n wm :
  preload_of (job_destination j) (h_write_maps s) = (pre, wm0) →
  Z.testbit (direct_data0 j) 0 = true →
  h_interrupts s = 0 :: irqs → polled (u8 (direct_data0 j)) irqs irqs' →
  (∀ r, op_mem_read nvme_enabled RandomBaseAddr (job_source j) (h_read_maps s) r = Ok (ri, rm, r)) →
  op_mem_write nvme_enabled (job_destination j) (h_statuses s) wm0 = Ok (wi, n, wm) →
  ∃ s', run_operators_job nvme_enabled garbage j s = Ok (SNAP_RETC_SUCCESS, s') ∧
    h_mem s' = h_mem s ∧ h_direct2 s' = n ∧ h_interrupts s' = irqs' ∧
    h_mm2s s' = h_mm2s s ++ i_dm ri ∧ h_s2mm s' = h_s2mm s ++ i_dm wi ∧
    h_nvme_read s' = h_nvme_read s ++ pre ++ i_nvme ri ∧
    h_nvme_write s' = h_nvme_write s ++ i_nvme wi.
Proof.
  intros Hpre Hbit Hirq Hpoll Hr Hw. unfold run_operators_job.
  do 4 (rewrite (bind_run (m_modify _) _ _ _ _ eq_refl)).
  match goal with |- ∃ s', ?m ?x = _ ∧ _ => set (s0 := x) end.
  run_step (clear_none s0 irqs Hirq). rewrite (bind_run m_get _ _ _ _ eq_refl).
  set (s1 := set_interrupts irqs s0).
  set (s1' := issue_read (Issued pre []) (set_maps (h_read_maps s1) wm0 s1)).
  rewrite (bind_run _ _ s1 tt s1').
  2: { change (h_write_config s1) with (job_destination j). change (h_write_maps s1) with (h_write_maps s).
       unfold preload_of in Hpre. destruct (nvme_enabled && _); [by rewrite Hpre|].
       injection Hpre as <- <-. unfold s1', issue_read. cbn. by rewrite !app_nil_r. }
  assert (∃ g, (if direct_data1 j =? 1 then perfmon_enable else mret tt) s1' = Ok (tt, map_regs g s1')) as [g E2].
  { destruct (direct_data1 j =? 1); [by eexists|]. by exists (λ r, r). }
  run_step E2.
  match goal with |- ∃ s', ?m ?x = _ ∧ _ => set (s2 := x) end.
  set (s3 := map_regs (λ r, foldl (start_operator (direct_data0 j)) r operator_indices)
               (set_interrupts irqs' s2)).
  pose proof (do_run_operators_run s3 ri rm (h_regs s3) wi n wm (Hr (h_regs s3)) Hw) as Hdo.
  run_step (action_run_operators_run _ s2 irqs' _ _ Hpoll Hbit Hdo).
  rewrite (bind_run (m_modify _) _ _ _ _ eq_refl).
  assert (h_mm2s s ++ [] = h_mm2s s) as Hq by apply app_nil_r.
  destruct (direct_data1 j =? 1); eexists; (split; [reflexivity|]); cbn; rewrite ?Hq, ?app_assoc;
    by split_and!.
Qed.

(** A run moves the bytes of the source through [f] to the destination. *)
Lemma run_performed j s irqs irqs' src dst :
  job_type j = RunOperators → plain (job_source j) → plain (job_destination j) →
  Z.testbit (direct_data0 j) 0 = true →
  h_interrupts s = 0 :: irqs → polled (u8 (direct_data0 j)) irqs irqs' →
  0 < a_size (job_source j) → a_size (job_destination j) < 2 ^ 63 →
  reaches nvme_enabled (job_source j) src Read (h_read_maps s) →
  reaches nvme_enabled (job_destination j) dst Write (h_write_maps s) →
  let bs := f (fetch (h_mem s) src (a_size (job_source j))) in
  bs ≠ [] → Z.of_nat (length bs) ≤ a_size (job_destination j) →
  ∃ s', performs nvme_enabled f garbage j s SNAP_RETC_SUCCESS s' ∧
    h_direct2 s' = Z.of_nat (length bs) ∧ h_interrupts s' = irqs' ∧
    ∀ x, h_mem s' x = store (h_mem s) dst bs x.
Proof.
  intros Hj Hsrc Hdst Hbit Hirq Hpoll Hs1 Hs2 Hr Hw bs Hne Hlen.
  destruct (op_mem_write_run nvme_enabled (job_destination j) dst bs (h_write_maps s)
    Hdst Hs2 Hw Hne Hlen) as (sts & wi & wm & Ew & _ & Hmem). destruct (Hmem (h_mem s)) as (mem' & Erec & Hm).
  destruct (op_mem_read_run nvme_enabled (job_source j) src RandomBaseAddr (h_mem s)
    (h_read_maps s) (h_regs s) Hsrc Hr Hs1) as (ri & rm & Er & _ & Esent).
  destruct (run_operators_job_run j (set_statuses sts s) irqs irqs' [] (h_write_maps s)
    ri rm wi (Z.of_nat (length bs)) wm) as (s1 & E & Em & Ed & Ei & Eq1 & Eq2 & _); try done.
  { unfold preload_of. rewrite bool_decide_eq_false_2, andb_false_r; [done|].
    destruct Hdst as [-> | ->]; done. }
  { intros r. by apply (op_mem_read_regs _ _ _ _ _ _ _ _ Hsrc Er). }
  exists (set_mem mem' s1). split; [|by split_and!].
  exists sts, s1, mem'. split; [by unfold process_action; rewrite Hj|]. split; [|done].
  rewrite (issued_since_app h_s2mm s s1 _ Eq2), (issued_since_app h_mm2s s s1 _ Eq1), Em.
  cbn [set_statuses h_mem]. by rewrite Esent.
Qed.

(** *** The jobs of a pipeline without operators *)

Lemma configure_processed s a block : ∃ g,
  process_action nvme_enabled garbage (card_job a (indirect ConfigureStreams block)) s
    = Ok (SNAP_RETC_SUCCESS, map_regs g s).
Proof.
  cbn [process_action card_job job_type indirect hj_type]. unfold action_configure_streams.
  rewrite (bind_run m_get _ _ _ _ eq_refl).
  rewrite (bind_run (m_modify _) _ _ _ _ eq_refl). by eexists.
Qed.

Lemma configure_performed s a block : ∃ s',
  performs nvme_enabled f garbage (card_job a (indirect ConfigureStreams block)) s SNAP_RETC_SUCCESS s' ∧
  untouched s s'.
Proof.
  destruct (configure_processed (set_statuses [] s) a block) as [g E].
  exists (set_mem (h_mem s) (map_regs g (set_statuses [] s))). split; [|by split].
  by apply (performs_quiet _ _ _ (map_regs g (set_statuses [] s))).
Qed.

(** A parameter block fits at [a] in host memory, clear of a range. *)
Definition allocated (a : Z) (lo n : Z) : Prop :=
  a mod 64 = 0 ∧ 0 ≤ a ∧ a + 8256 < 2 ^ 63 ∧ (a + 8256 ≤ lo ∨ lo + n ≤ a).

Lemma length_list_bytes es : length (list_bytes es) = (16 * length es)%nat.
Proof.
  unfold list_bytes. induction es as [|x es IH]; [done|].
  rewrite bind_cons, length_app, IH, length_ext_bytes. cbn [length]. lia.
Qed.

Lemma length_map_block slot xs : (length xs ≤ 512)%nat →
  Z.of_nat (length (DataContexts.map_block slot xs)) = 8256.
Proof.
  intros Hl. unfold DataContexts.map_block. rewrite extent_words_pairs by done.
  rewrite !length_app, length_be_bytes, length_fmap, length_seq, length_list_bytes, length_pairs by done. reflexivity.
Qed.

(** Outside the parameter blocks of the first two jobs. *)
Definition clear_of (a1 a2 x : Z) : Prop := ¬ (a1 ≤ x < a1 + 8256) ∧ ¬ (a2 ≤ x < a2 + 8256).

(** What a runner does for a storage: switch, extents, run. *)
Definition transfer_jobs (slot : Z) xs (block : list Z) (src dst : Address) (a1 a2 a3 : Z) :
    list (HostJob * Z) :=
  [(indirect ConfigureStreams block, a1);
   (indirect Map (DataContexts.map_block slot xs), a2);
   (MkHostJob RunOperators [] src dst 1 1, a3)].

Lemma transfer_executed s irqs slot xs block source dest src dst a1 a2 a3 :
  h_interrupts s = 0 :: irqs → 0 ≤ slot < 2 → Z.of_nat (length block) ≤ 8256 →
  (length xs ≤ 512)%nat → Forall ext_ok (pairs xs) → total (pairs xs) < 2 ^ 64 →
  plain source → plain dest → 0 < a_size source → a_size dest < 2 ^ 63 →
  (∀ s2, represents (slot_map slot s2) (pairs xs) →
     reaches nvme_enabled source src Read (h_read_maps s2) ∧
     reaches nvme_enabled dest dst Write (h_write_maps s2)) →
  allocated a1 src (a_size source) → allocated a2 src (a_size source) →
  let bs := f (fetch (h_mem s) src (a_size source)) in
  bs ≠ [] → Z.of_nat (length bs) ≤ a_size dest →
  ∃ s', executes nvme_enabled f garbage (transfer_jobs slot xs block source dest a1 a2 a3) s s' ∧
    h_direct2 s' = Z.of_nat (length bs) ∧ h_interrupts s' = irqs ∧
    ∀ x, clear_of a1 a2 x → h_mem s' x = store (h_mem s) dst bs x.
Proof using Hbus laws.
  intros Hirq Hslot Hblk Hxs Hok Ht Hsrc Hdst Hn Hd Hreach (Ha1 & Hp1 & He1 & Hc1)
    (Ha2 & Hp2 & He2 & Hc2) bs Hne Hlen.
  destruct (configure_performed (set_mem (store (h_mem s) a1 block) s) a1 block)
    as (s1 & E1 & [Hm1 Hi1]).
  destruct (map_performed (set_mem (store (h_mem s1) a2 (DataContexts.map_block slot xs)) s1) a2 slot xs)
    as (s2 & E2 & [Hm2 Hi2] & Hrep); [apply memory_holds_store|done..|lia|done|done|done|done|].
  destruct (Hreach s2 Hrep) as [Hr Hw].
  assert (∀ x, clear_of a1 a2 x → h_mem s2 x = h_mem s x) as Hmem.
  { intros x [Hx1 Hx2]. rewrite Hm2. cbn [set_mem h_mem].
    rewrite store_outside by (rewrite length_map_block; lia || done).
    rewrite Hm1. cbn [set_mem h_mem]. rewrite store_outside; [done|]. lia. }
  assert (fetch (store (h_mem s2) a3 []) src (a_size source) = fetch (h_mem s) src (a_size source)) as Hf.
  { apply fetch_range. intros x Hx. rewrite store_outside by (cbn; lia). apply Hmem.
    unfold clear_of. lia. }
  destruct (run_performed (card_job a3 (MkHostJob RunOperators [] source dest 1 1))
    (set_mem (store (h_mem s2) a3 []) s2) irqs irqs src dst) as (s3 & E3 & Hd3 & Hi3 & Hm3); try done.
  { etransitivity; [exact Hi2|]. etransitivity; [exact Hi1|]. exact Hirq. }
  { cbn. by rewrite Hf. }
  { cbn. by rewrite Hf. }
  cbn [card_job job_source hj_source set_mem h_mem] in Hd3, Hm3. rewrite Hf in Hd3, Hm3.
  exists s3. split; [by do 3 (eapply executes_cons; [done|]); apply executes_nil|].
  split; [done|]. split; [done|]. intros x Hx. rewrite Hm3.
  unfold store at 1. unfold store at 2. destruct (_ && _); [done|].
  rewrite store_outside by (cbn; lia). by apply Hmem.
Qed.
End Run.
End CardFacts.
