(* ===== verification/ManifestProofs.v ===== *)
(** * The factory reads back the operators of an image

    The laws of the JSON library the factory relies on, an instance of them,
    and the round trip from operators to a manifest and back. *)
From stdpp Require Import countable.
From Stdlib Require Import Ascii.
From S2P Require Import Prelude Endian Extmap OpMem Jobs Pipeline Manifest JobsProofs.

(** What is documented of the library: objects are unordered, the value of a
    key that is not there is null, and what was written can be read. Writing
    throws for strings that are not UTF-8, wherever they are. *)
Class JsonLaws `{Json} := {
  parse_dump v s : json_dump v = Some s → json_parse s = Some v;
  dump_member l k v : is_Some (json_dump (js_object l)) → (k, v) ∈ l → is_Some (json_dump v);
  is_null_null : json_is_null js_null = true;
  is_null_bool b : json_is_null (js_bool b) = false;
  is_null_object l : json_is_null (js_object l) = false;
  is_object_object l : json_is_object (js_object l) = true;
  is_string_string s : json_is_string (js_string s) = true;
  is_string_object l : json_is_string (js_object l) = false;
  at_object l k : NoDup l.*1 → json_at (js_object l) k = Some (default js_null (assoc k l));
  items_object l : NoDup l.*1 → json_items (js_object l) ≡ₚ l;
  get_string_string s : json_get_string (js_string s) = Some s;
  get_string_null : json_get_string js_null = None;
  get_bool_bool b : json_get_bool (js_bool b) = Some b;
  get_u8_uint n : 0 ≤ n < 2 ^ 64 → json_get_u8 (js_uint n) = Some (u8 n);
  get_u64_uint n : 0 ≤ n < 2 ^ 64 → json_get_u64 (js_uint n) = Some n;
}.

(** ** Association lists *)

Lemma assoc_app {A} k (l l' : list (string * A)) :
  assoc k (l ++ l') = match assoc k l with Some a => Some a | None => assoc k l' end.
Proof. induction l as [|[k' a] l IH]; cbn; [done|]. by case_decide. Qed.

Lemma assoc_None {A} k (l : list (string * A)) : assoc k l = None ↔ k ∉ l.*1.
Proof. rewrite eq_None_not_Some, <-JobFacts.assoc_is_Some. done. Qed.

Lemma assoc_elem {A} k a (l : list (string * A)) :
  NoDup l.*1 → assoc k l = Some a ↔ (k, a) ∈ l.
Proof.
  induction l as [|[k' a'] l IH]; intros Hnd; cbn.
  - split; [done|by intros ?%elem_of_nil].
  - apply NoDup_cons in Hnd as [Hk Hnd]. rewrite elem_of_cons. case_decide as E.
    + subst. split; [intros [= ->]; by left|]. intros [[= ->]|Hin]; [done|].
      exfalso. apply Hk. apply list_elem_of_fmap. by exists (k', a).
    + rewrite IH by done. split; [by right|]. by intros [[= -> ->]|?].
Qed.

Lemma assoc_perm {A} k (l l' : list (string * A)) : NoDup l.*1 → l ≡ₚ l' → assoc k l = assoc k l'.
Proof.
  intros Hnd Hl. assert (NoDup l'.*1) as Hnd' by (by rewrite <-Hl).
  destruct (assoc k l) as [a|] eqn:E; symmetry.
  - apply assoc_elem in E; [|done]. apply assoc_elem; [done|]. by rewrite <-Hl.
  - apply assoc_None. rewrite <-Hl. by apply assoc_None.
Qed.

Lemma emplace_new_keys {A} k (a : A) l : k ∉ l.*1 → emplace_new k a l = l ++ [(k, a)].
Proof. intros Hk. unfold emplace_new. by rewrite (proj2 (assoc_None k l) Hk). Qed.

Module ManifestFacts.
Import Manifest.

Section Image.
Context `{JsonLaws}.

(** ** The manifest of an operator, the image of a card *)

Definition type_of (d : OperatorOptionDefinition) : json :=
  match od_type d with
  | OTBool => js_string "bool"
  | OTUint => js_string "int"
  | OTBuffer => js_object [("type", js_string "buffer"); ("size", js_uint (default 0 (od_bufferSize d)))]
  end.

Definition option_of (d : OperatorOptionDefinition) : json :=
  js_object [("short", js_string (od_short d)); ("type", type_of d);
             ("description", js_string (od_description d)); ("offset", js_uint (od_offset d))].

Definition manifest_of (sp : OperatorSpecification) : json :=
  js_object [("internal_id", js_uint (sp_streamID sp));
             ("description", js_string (sp_description sp));
             ("prepare_required", js_bool (sp_prepareRequired sp));
             ("options", js_object (prod_map id option_of <$> sp_options sp))].

Definition image_of (specs : list (string * OperatorSpecification)) (dram nvme : bool) : json :=
  js_object [("operators", js_object (prod_map id manifest_of <$> specs));
             ("target", js_object [("dram", js_bool dram); ("nvme", js_bool nvme)])].

Record option_ok (o : string * OperatorOptionDefinition) : Prop := {
  oo_key : od_key o.2 = o.1;
  oo_offset : 0 ≤ od_offset o.2 < 2 ^ 64;
  oo_size : match od_type o.2, od_bufferSize o.2 with
            | OTBuffer, Some n => 0 ≤ n < 2 ^ 64
            | OTBuffer, None => False
            | _, size => size = None
            end;
}.

Record spec_ok (x : string * OperatorSpecification) : Prop := {
  so_id : sp_id x.2 = x.1;
  so_stream : 0 ≤ sp_streamID x.2 < 256;
  so_keys : NoDup (sp_options x.2).*1;
  so_options : Forall option_ok (sp_options x.2);
}.

(** Maps of options are the same if all lookups are. *)
Definition same_spec (sp sp' : OperatorSpecification) : Prop :=
  sp_id sp = sp_id sp' ∧ sp_description sp = sp_description sp' ∧
  sp_streamID sp = sp_streamID sp' ∧ sp_prepareRequired sp = sp_prepareRequired sp' ∧
  sp_options sp ≡ₚ sp_options sp'.

Lemma fst_prod_map {A B} (f : A → B) (l : list (string * A)) : (prod_map id f <$> l).*1 = l.*1.
Proof. rewrite <-list_fmap_compose. by apply list_fmap_ext. Qed.

(** ** Reading members *)

Lemma member_object {A} (get : json → option A) l k a :
  NoDup l.*1 → get (default js_null (assoc k l)) = Some a → member get (js_object l) k = Ok a.
Proof. intros Hnd E. unfold member. rewrite at_object by done. cbn. by rewrite E. Qed.

Lemma at_member l k v : NoDup l.*1 → default js_null (assoc k l) = v →
  json_at (js_object l) k = Some v.
Proof. intros Hnd <-. by apply at_object. Qed.

Ltac no_dup := apply (bool_decide_unpack _); vm_compute; exact I.

Lemma option_read k d : option_ok (k, d) → option_definition k (option_of d) = Ok (Some d).
Proof.
  intros [Hk Ho Hs]. cbn [fst snd] in *. unfold option_definition, option_of.
  set (l := [("short", _); ("type", _); ("description", _); ("offset", _)]).
  assert (NoDup l.*1) as Hl by no_dup.
  rewrite (member_object json_get_string l "short" (od_short d)), (member_object json_get_string l "description"
    (od_description d)), (member_object json_get_u64 l "offset" (od_offset d));
    [|done|by apply get_u64_uint|done|apply get_string_string|done|apply get_string_string].
  rewrite (at_member l "type" (type_of d)) by done. cbn. unfold type_of.
  destruct d as [offset type key short desc size]. cbn in *. subst key. destruct type.
  - rewrite is_string_string. cbn. rewrite get_string_string. cbn. by rewrite Hs.
  - rewrite is_string_string. cbn. rewrite get_string_string. cbn. by rewrite Hs.
  - destruct size as [n|]; [|done]. cbn. rewrite is_string_object, is_object_object. cbn.
    set (l' := [("type", _); ("size", _)]). assert (NoDup l'.*1) as Hl' by no_dup.
    rewrite (member_object json_get_string l' "type" "buffer"), (member_object json_get_u64 l' "size" n);
      [done|done|by apply get_u64_uint|done|apply get_string_string].
Qed.

Lemma options_read l : ∀ res,
  NoDup (res ++ l).*1 → Forall option_ok l →
  option_loop (prod_map id option_of <$> l) res = Ok (res ++ l).
Proof.
  induction l as [|[k d] l IH]; intros res Hnd Hok; [by rewrite app_nil_r|].
  apply Forall_cons in Hok as [Hd Hok].
  change (prod_map id option_of <$> (k, d) :: l) with ((k, option_of d) :: (prod_map id option_of <$> l)).
  cbn [option_loop]. rewrite option_read by done.
  change (option_loop (prod_map id option_of <$> l) (emplace_new k d res) = Ok (res ++ (k, d) :: l)).
  rewrite emplace_new_keys; [rewrite IH|].
  - by rewrite <-app_assoc.
  - by rewrite <-app_assoc.
  - done.
  - rewrite fmap_app in Hnd. apply NoDup_app in Hnd as (_ & Hd' & _). intros Hin.
    apply (Hd' k Hin). by left.
Qed.

(** The items of an object that was built from a list of values. *)
Lemma items_of {A} (f : A → json) (l : list (string * A)) : NoDup l.*1 →
  ∃ l', l' ≡ₚ l ∧ json_items (js_object (prod_map id f <$> l)) = prod_map id f <$> l'.
Proof.
  intros Hnd. pose proof (items_object (prod_map id f <$> l)) as Hp.
  rewrite fst_prod_map in Hp. specialize (Hp Hnd).
  apply Permutation_map_inv in Hp as (l' & -> & Hl'). by exists l'.
Qed.
(** ** Operators *)

Lemma spec_read id sp text : spec_ok (id, sp) → json_dump (manifest_of sp) = Some text →
  ∃ sp', create_specification id text = Ok sp' ∧ same_spec sp sp'.
Proof.
  intros [Hid Hs Hkeys Hopts] Ht. cbn [fst snd] in *. unfold create_specification, parse_manifest.
  rewrite (parse_dump _ _ Ht). cbn. unfold manifest_of at 1. rewrite is_object_object. cbn.
  unfold description, streamID, prepareRequired, optionDefinitions, manifest_of.
  set (l := [("internal_id", _); ("description", _); ("prepare_required", _); ("options", _)]).
  assert (NoDup l.*1) as Hl by no_dup.
  rewrite (member_object json_get_string l "description" (sp_description sp)) by (done || apply get_string_string).
  cbn. rewrite (member_object json_get_u8 l "internal_id" (u8 (sp_streamID sp)));
    [|done|apply get_u8_uint; lia].
  cbn. rewrite (at_member l "prepare_required" (js_bool (sp_prepareRequired sp))) by done. cbn.
  rewrite is_null_bool, get_bool_bool. cbn.
  rewrite (at_member l "options" (js_object (prod_map Datatypes.id option_of <$> sp_options sp))) by done. cbn.
  rewrite is_null_object.
  destruct (items_of option_of (sp_options sp) Hkeys) as (l' & Hl' & ->).
  rewrite (options_read l' []) by (cbn; by rewrite Hl'). cbn.
  eexists. split; [done|]. unfold same_spec. cbn.
  split; [done|]. split; [done|]. split; [symmetry; by apply wrap_small|]. by split.
Qed.

Lemma specs_read l : ∀ specs,
  NoDup (specs.*1 ++ l.*1) → Forall spec_ok l →
  (∀ x, x ∈ l → is_Some (json_dump (manifest_of x.2))) →
  ∃ l', specification_loop (prod_map id manifest_of <$> l) specs = Ok (specs ++ l') ∧
    Forall2 (λ x y, x.1 = y.1 ∧ same_spec x.2 y.2) l l'.
Proof.
  induction l as [|[id sp] l IH]; intros specs Hnd Hok Hd; [exists []; by rewrite app_nil_r|].
  apply Forall_cons in Hok as [Hsp Hok]. destruct (Hd (id, sp)) as [text Ht]; [by left|].
  destruct (spec_read id sp text Hsp Ht) as (sp' & E & Hsame).
  assert (sp_id sp' = id) as Hid by (destruct Hsame as [<- _]; apply Hsp).
  assert (id ∉ specs.*1) as Hnew.
  { intros Hin. apply NoDup_app in Hnd as (_ & Hnd & _). apply (Hnd id Hin). by left. }
  destruct (IH (specs ++ [(id, sp')])) as (l' & E' & Hl'); [|done| |].
  - by rewrite fmap_app, <-app_assoc.
  - intros x Hx. apply Hd. by right.
  - exists ((id, sp') :: l'). split; [|by constructor].
    change (prod_map Datatypes.id manifest_of <$> (id, sp) :: l)
      with ((id, manifest_of sp) :: (prod_map Datatypes.id manifest_of <$> l)).
    cbn [specification_loop]. cbn in Ht. rewrite Ht. cbn. rewrite E. cbn.
    rewrite Hid, emplace_new_keys, E' by done. by rewrite <-app_assoc.
Qed.

Lemma assoc_Forall2 (l l' : list (string * OperatorSpecification)) :
  Forall2 (λ x y, x.1 = y.1 ∧ same_spec x.2 y.2) l l' → ∀ k,
  option_Forall2 same_spec (assoc k l) (assoc k l').
Proof.
  induction 1 as [|[k1 a1] [k2 a2] l l' [Hk Ha] _ IH]; intros k; [constructor|].
  cbn in *. subst. by case_decide; [constructor|].
Qed.

(** C17: an image that was written for a set of operators, with distinct
    names, streams and options of the types there are, is read back by the
    factory: it has exactly these operators, each with its description, stream,
    need for preparation and options, and the card's DRAM and NVMe flags. *)
Theorem factory_reads_image specs dram nvme text :
  NoDup specs.*1 → Forall spec_ok specs →
  json_dump (image_of specs dram nvme) = Some text →
  ∃ f, fromManifestString text = Ok f ∧ isDRAMEnabled f = dram ∧ isNVMeEnabled f = nvme ∧
    ∀ k, option_Forall2 same_spec (assoc k specs) (assoc k (operatorSpecifications f)).
Proof.
  intros Hnd Hok Ht. unfold fromManifestString, create_factory. rewrite (parse_dump _ _ Ht). cbn.
  unfold image_of in *. set (l := [("operators", _); ("target", _)]) in *.
  assert (NoDup l.*1) as Hl by no_dup. rewrite is_object_object. cbn.
  assert (∀ x, x ∈ specs → is_Some (json_dump (manifest_of x.2))) as Hd.
  { intros [k sp] Hx. eapply dump_member; [eapply (dump_member l "operators"); [by eexists|by left]|].
    apply list_elem_of_fmap. by exists (k, sp). }
  set (t := [("dram", _); ("nvme", _)]) in *. assert (NoDup t.*1) as Ht' by no_dup.
  rewrite (at_member l "operators" (js_object (prod_map id manifest_of <$> specs))) by done. cbn.
  rewrite is_null_object. cbn. rewrite (at_member l "target" (js_object t)) by done.
  destruct (items_of manifest_of specs Hnd) as (specs' & Hp & ->).
  destruct (specs_read specs' []) as (l' & -> & Hl').
  - cbn. by rewrite Hp.
  - by rewrite Hp.
  - intros x Hx. apply Hd. by rewrite <-Hp.
  - cbn. rewrite (member_object json_get_bool t "dram" dram) by (done || apply get_bool_bool). cbn.
    rewrite (member_object json_get_bool t "nvme" nvme) by (done || apply get_bool_bool). cbn.
    eexists. split; [done|]. split; [done|]. split; [done|]. cbn. intros k.
    rewrite (assoc_perm k specs specs') by done. by apply assoc_Forall2.
Qed.
(** Contrary to the documentation of the manifest, "short" is not optional. *)
Theorem option_without_short k l :
  NoDup l.*1 → assoc "short" l = None →
  option_definition k (js_object l) = Fault (Throw "type_error").
Proof.
  intros Hnd E. unfold option_definition, member.
  rewrite (at_member l "short" js_null) by (done || by rewrite E). cbn. by rewrite get_string_null.
Qed.
End Image.
End ManifestFacts.

(** ** Values as trees, texts as encoded trees *)

Module RefJson.
Definition tree : Type := gen_tree (bool + Z + string).

Definition of_member (m : string * tree) : tree := GenNode 2 [GenLeaf (inr m.1); m.2].

Definition to_member (t : tree) : option (string * tree) :=
  match t with GenNode 2 [GenLeaf (inr k); v] => Some (k, v) | _ => None end.

Definition members (t : tree) : list (string * tree) :=
  match t with GenNode 1 ms => omap to_member ms | _ => [] end.

Lemma members_object l : members (GenNode 1 (of_member <$> l)) = l.
Proof. cbn. induction l as [|[k v] l IH]; [done|]. cbn. by rewrite IH. Qed.

Fixpoint write (p : positive) : string :=
  match p with
  | xH => ""
  | xO p => String "0"%char (write p)
  | xI p => String "1"%char (write p)
  end.

Fixpoint read (s : string) : option positive :=
  match s with
  | "" => Some xH
  | String "0"%char s => xO <$> read s
  | String "1"%char s => xI <$> read s
  | _ => None
  end%string.

Lemma read_write p : read (write p) = Some p.
Proof. induction p as [p IH|p IH|]; cbn; by rewrite ?IH. Qed.

#[export] Instance ref_json : Json := {|
  json := tree;
  js_null := GenNode 0 [];
  js_bool b := GenLeaf (inl (inl b));
  js_uint n := GenLeaf (inl (inr n));
  js_string s := GenLeaf (inr s);
  js_object l := GenNode 1 (of_member <$> l);
  json_parse s := read s ≫= decode;
  json_dump t := Some (write (encode t));
  json_is_null t := match t with GenNode 0 [] => true | _ => false end;
  json_is_object t := match t with GenNode 1 _ => true | _ => false end;
  json_is_string t := match t with GenLeaf (inr _) => true | _ => false end;
  json_at t k := Some (default (GenNode 0 []) (assoc k (members t)));
  json_items := members;
  json_get_string t := match t with GenLeaf (inr s) => Some s | _ => None end;
  json_get_bool t := match t with GenLeaf (inl (inl b)) => Some b | _ => None end;
  json_get_u8 t := match t with GenLeaf (inl (inr n)) => Some (u8 n) | _ => None end;
  json_get_u64 t := match t with GenLeaf (inl (inr n)) => Some n | _ => None end;
|}.

#[export] Instance ref_laws : @JsonLaws ref_json.
Proof.
  split; cbn [json js_object js_null json_at json_items json_dump json_parse ref_json]; try done.
  - intros v s [= <-]. rewrite read_write. cbn. by rewrite decode_encode.
  - intros l k _. by rewrite members_object.
  - intros l _. by rewrite members_object.
Qed.
End RefJson.

Section Witnesses.
Import Manifest ManifestFacts RefJson.

(** The image of test/metal-pipeline-test/operator_factory_test.cpp, with an
    operator that has a buffer. *)
Definition test_operators : list (string * OperatorSpecification) :=
  [("changecase", Spec "changecase" "Transform ASCII strings to lower- or uppercase (default)" 1 false
      [("lowercase", OptionDefinition 256 OTBool "lowercase" "l" "Transform to lowercase" None)]);
   ("encrypt", Spec "encrypt" "Encrypt the data" 2 true
      [("key", OptionDefinition 256 OTBuffer "key" "k" "The encryption key to use" (Some 16))])].

Lemma factory_reads_image_witness :
  ∃ text f, fromManifestString text = Ok f ∧ isDRAMEnabled f = false ∧ isNVMeEnabled f = false ∧
    ∀ k, option_Forall2 same_spec (assoc k test_operators) (assoc k (operatorSpecifications f)).
Proof.
  exists (write (encode (image_of test_operators false false))).
  apply (factory_reads_image test_operators false false).
  - apply (bool_decide_unpack _). vm_compute. exact I.
  - repeat constructor; cbn; try lia; try done; apply (bool_decide_unpack _); vm_compute; exact I.
  - reflexivity.
Defined.
End Witnesses.
