(* ===== verification/Main.v ===== *)
(** * The driver's entry point (metal_fs.cpp)

    What [main] makes of its configuration: the file systems it creates, where
    it mounts them, and whether it serves agents. [fuse_opt_parse] and
    [fuse_main] are FUSE's; the objects that [main] creates are named by the
    arguments of their constructors. *)
From S2P Require Import Prelude Fuse Endian Extmap OpMem Jobs Pipeline Runner Manifest.

(** [Card]. *)
Record Card := MkCard { card : Z; timeout : Z }.

Record metal_config := MetalConfig {
  mc_card : Z;
  mc_timeout : Z;
  mc_metadata_dir : option string;
  mc_in_memory : Z;
  mc_verbosity : Z;
}.

(** The constructors of [PipelineStorage] and [InMemoryFilesystem]. *)
Record filesystem := MkFilesystem {
  f_card : option Card;              (* none for the file system in memory *)
  f_type : AddressType;
  f_map : MapType;
  f_metadataDir : string;
  f_deleteMetadataIfExists : bool;
  f_onDram : bool;                   (* its page files are on the DRAM one *)
}.

(** The handler of a mount point. *)
Inductive mounted :=
  | SocketHandler (socketFilename : string)
  | OperatorHandler (operators : list string)
  | FilesystemHandler (fs : filesystem).

Inductive log_level := LogTrace | LogDebug | LogInfo | LogWarn.

Module Main.
Section Main.
Context `{Json} `{Device}.

Definition verbosity_level (verbosity : Z) : log_level :=
  if 3 <=? verbosity then LogTrace
  else if verbosity =? 2 then LogDebug
  else if verbosity =? 1 then LogInfo
  else LogWarn.

(** What runs once [main] has come to [fuse_main]. *)
Record running := Running {
  rn_level : log_level;
  rn_handlers : list (cstr * mounted);
  rn_server : option (Card * list (string * OperatorSpecification));
}.

Inductive started := Exit (code : Z) | Mounted (r : running).

Definition context_addHandler := CombinedFuse.addHandler (T := mounted).

(** The handlers of a card with the given operators and memories. *)
Definition fpga_handlers (c : Card) (metadataDir socketFilename : string)
    (factory : Manifest.OperatorFactory) : list (cstr * mounted) :=
  let metadataDirDRAM := (metadataDir ++ "_tmp")%string in
  let operators := foldl (λ l s, set_emplace s l) [] (Manifest.operatorSpecifications factory).*1 in
  let operators := set_emplace "metal-cat" (set_emplace "datagen" operators) in
  let hs := context_addHandler [] (str "/.hello") (SocketHandler socketFilename) in
  let hs := context_addHandler hs (str "/operators") (OperatorHandler operators) in
  if Manifest.isDRAMEnabled factory then
    let dram := MkFilesystem (Some c) ATCardDRAM MTDRAM metadataDirDRAM true false in
    let hs := context_addHandler hs (str "/tmp") (FilesystemHandler dram) in
    if Manifest.isNVMeEnabled factory then
      let nvme := MkFilesystem (Some c) ATNVMe MTDRAMAndNVMe metadataDir false true in
      context_addHandler hs (str "/files") (FilesystemHandler nvme)
    else hs
  else hs.

(** [None] of the options: [fuse_opt_parse] fails. *)
Definition main (conf : option metal_config) (socketFilename : string) :
    M Pipeline.state started :=
  match conf with
  | None => mret (Exit 1)
  | Some conf =>
      let level := verbosity_level (mc_verbosity conf) in
      match mc_metadata_dir conf with
      | None => mret (Exit 1)
      | Some metadataDir =>
          let timeout := if mc_timeout conf =? 0 then 2 else mc_timeout conf in
          if mc_in_memory conf =? 0 then
            let c := MkCard (mc_card conf) timeout in
            factory ← Manifest.fromFPGA;
            mret (Mounted (Running level (fpga_handlers c metadataDir socketFilename factory)
                             (Some (c, Manifest.operatorSpecifications factory))))
          else
            let fs := MkFilesystem None ATHost MTNone metadataDir true false in
            mret (Mounted (Running level (context_addHandler [] (str "/files") (FilesystemHandler fs)) None))
      end
  end.
End Main.
End Main.
