(* ===== verification/SnapAction.v ===== *)
(** * Access to the card (snap_action.cpp)

    A [SnapAction] owns a card that libsnap has opened and the action attached to
    it. Objects are named by their index; what libsnap is asked for and whether it
    succeeds is logged, and [replay] is what libsnap allows: a handle is used,
    detached or freed only while it is open, and a card is freed after its action. *)
From stdpp Require Import gmap pretty.
From S2P Require Import Prelude Endian Extmap OpMem Jobs Pipeline Main.

(** The codes of libsnap. *)
Inductive snap_rc :=
  | SNAP_OK | SNAP_EBUSY | SNAP_ENODEV | SNAP_EIO | SNAP_ENOENT | SNAP_EFAULT
  | SNAP_ETIMEDOUT | SNAP_EINVAL | SNAP_EATTACH | SNAP_EDETACH | SNAP_OTHER (n : Z).
#[export] Instance snap_rc_eq_dec : EqDecision snap_rc.
Proof. solve_decision. Defined.

Module SnapAction.

(** A call of libsnap and the handle it returned, if any. *)
Inductive event :=
  | AllocDev (device : string) (card : option Z)
  | AttachAction (card : Z) (type : Z) (action : option Z)
  | ExecuteJob (action : Z) (job : HostJob) (timeout : Z)
  | CardIoctl (card : Z)
  | DetachAction (action : Z)
  | FreeCard (card : Z).

(** Its answers, after the calls so far. *)
Class Libsnap := {
  card_opens : list event → string → bool;
  action_attaches : list event → Z → bool;
  job_answer : list event → Z → HostJob → snap_rc * bool * Z * Z;
  nvme_enabled : list event → bool;
}.

Record snap_object := MkSnapAction { action : option Z; card : option Z; timeout : Z }.

Section SnapAction.
Context `{Libsnap}.
Abbreviation E := (Exc (list event)).

Definition record_event (e : event) : E unit := e_modify (λ log, log ++ [e]).

(** A new handle: no earlier call returned it. *)
Definition fresh_handle (log : list event) : Z := Z.of_nat (length log).

Definition snap_card_alloc_dev (device : string) : E (option Z) :=
  log ← e_get;
  let c := if card_opens log device then Some (fresh_handle log) else None in
  _ ← record_event (AllocDev device c); mret c.

Definition snap_attach_action (card type : Z) : E (option Z) :=
  log ← e_get;
  let a := if action_attaches log card then Some (fresh_handle log) else None in
  _ ← record_event (AttachAction card type a); mret a.

Definition device_name (card : Z) : string := "/dev/cxl/afu" ++ pretty card ++ ".0s".

(** The constructor. *)
Definition create_action (c : Card) : E snap_object :=
  card ← snap_card_alloc_dev (device_name (Main.card c));
  match card with
  | None => e_throw (RuntimeError "Failed to open card")
  | Some card =>
      action ← snap_attach_action card Jobs.ActionType;
      match action with
      | None => _ ← record_event (FreeCard card); e_throw (RuntimeError "Failed to attach action")
      | Some action => mret (MkSnapAction (Some action) (Some card) (Main.timeout c))
      end
  end.

(** The move constructor: the new object and what is left of the other. *)
Definition move_action (other : snap_object) : snap_object * snap_object :=
  (other, MkSnapAction None None (timeout other)).

(** The destructor. *)
Definition destroy_action (x : snap_object) : E snap_object :=
  _ ← (match action x with Some a => record_event (DetachAction a) | None => mret tt end);
  _ ← (match card x with Some c => record_event (FreeCard c) | None => mret tt end);
  mret (MkSnapAction None None (timeout x)).

Definition jobTypeToString (job : JobType) : string :=
  match job with
  | ReadImageInfo => "ReadImageInfo"
  | Map => "Map"
  | ConfigureStreams => "ConfigureStreams"
  | ResetPerfmon => "ResetPerfmon"
  | ConfigurePerfmon => "ConfigurePerfmon"
  | ReadPerfmonCounters => "ReadPerfmonCounters"
  | RunOperators => "RunOperators"
  | ConfigureOperator => "ConfigureOperator"
  | UnknownJob _ => "Unknown"
  end.

Definition addressTypeToString (addressType : AddressType) : string :=
  match addressType with
  | ATHost => "Host" | ATCardDRAM => "CardDRAM" | ATNVMe => "NVMe"
  | ATNull => "Null" | ATRandom => "Random"
  end.

Definition mapTypeToString (mapType : MapType) : string :=
  match mapType with
  | MTNone => "None" | MTDRAM => "DRAM" | MTNVMe => "NVMe" | MTDRAMAndNVMe => "DRAMAndNVMe"
  end.

Definition snapReturnCodeToString (rc : snap_rc) : string :=
  match rc with
  | SNAP_OK => ""
  | SNAP_EBUSY => "Resource is busy"
  | SNAP_ENODEV => "No such device"
  | SNAP_EIO => "Problem accessing the card"
  | SNAP_ENOENT => "Entry not found"
  | SNAP_EFAULT => "Illegal address"
  | SNAP_ETIMEDOUT => "Timeout error"
  | SNAP_EINVAL => "Invalid parameters"
  | SNAP_EATTACH => "Attach error"
  | SNAP_EDETACH => "Detach error"
  | SNAP_OTHER _ => "Unknown error"
  end.

(** [executeJob]: the words that the card wrote to [direct_data] 2 and 3. *)
Definition execute_job (x : snap_object) (j : HostJob) : E (Z * Z) :=
  a ← e_deref (action x);
  log ← e_get;
  let '(rc, success, out0, out1) := job_answer log a j in
  _ ← record_event (ExecuteJob a j (timeout x));
  if negb (bool_decide (rc = SNAP_OK)) then
    e_throw (RuntimeError ("Error starting job: " ++ snapReturnCodeToString rc))
  else if negb success then e_throw (RuntimeError "Job was unsuccessful")
  else mret (out0, out1).

Definition action_isNVMeEnabled (x : snap_object) : E bool :=
  c ← e_deref (card x);
  log ← e_get;
  _ ← record_event (CardIoctl c);
  mret (nvme_enabled log).

(** ** Objects in use *)

(** What the program does with its objects; the moved-from one stays until it is
    destroyed. *)
Inductive use :=
  | Construct (c : Card)
  | Move (i : nat)
  | Run (i : nat) (j : HostJob)
  | AskNVMe (i : nat)
  | Destroy (i : nat).

(** The objects and the calls after it; an exception is caught outside. *)
Definition use_step (u : use) (objects : list snap_object) (log : list event) :
    result (list snap_object * list event) :=
  let caught {A} (o : outcome (list event) A) (f : A → list snap_object) :=
    match o with
    | Done a log => Ok (f a, log)
    | Thrown _ log => Ok (objects, log)
    | Stuck f => Fault f
    end in
  match u with
  | Construct c => caught (create_action c log) (λ x, objects ++ [x])
  | Move i =>
      match objects !! i with
      | Some x => let '(new, old) := move_action x in Ok (<[i:=old]> objects ++ [new], log)
      | None => Fault OutOfBounds
      end
  | Run i j =>
      match objects !! i with
      | Some x => caught (execute_job x j log) (λ _, objects)
      | None => Fault OutOfBounds
      end
  | AskNVMe i =>
      match objects !! i with
      | Some x => caught (action_isNVMeEnabled x log) (λ _, objects)
      | None => Fault OutOfBounds
      end
  | Destroy i =>
      match objects !! i with
      | Some x => caught (destroy_action x log) (λ y, <[i:=y]> objects)
      | None => Fault OutOfBounds
      end
  end.

Fixpoint use_steps (us : list use) (objects : list snap_object) (log : list event) :
    result (list snap_object * list event) :=
  match us with
  | [] => Ok (objects, log)
  | u :: us => '(objects, log) ← use_step u objects log; use_steps us objects log
  end.
End SnapAction.

(** ** What libsnap allows *)

(** The open cards, and the attached actions with their cards. *)
Record opened := Opened { op_cards : gset Z; op_actions : gmap Z Z }.

(** One call; [None]: not allowed. *)
Definition allowed (s : opened) (e : event) : option opened :=
  let '(Opened cards actions) := s in
  match e with
  | AllocDev _ None => Some s
  | AllocDev _ (Some c) => Some (Opened ({[c]} ∪ cards) actions)
  | AttachAction c _ a =>
      if decide (c ∈ cards) then
        Some (match a with Some a => Opened cards (<[a:=c]> actions) | None => s end)
      else None
  | ExecuteJob a _ _ => if decide (is_Some (actions !! a)) then Some s else None
  | CardIoctl c => if decide (c ∈ cards) then Some s else None
  | DetachAction a =>
      if decide (is_Some (actions !! a)) then Some (Opened cards (delete a actions)) else None
  | FreeCard c =>
      if decide (c ∈ cards ∧ map_Forall (λ _ c', c' ≠ c) actions)
      then Some (Opened (cards ∖ {[c]}) actions) else None
  end.

Definition replay (log : list event) : option opened :=
  foldl (λ s e, s ≫= λ s, allowed s e) (Some (Opened ∅ ∅)) log.

(** ** Ownership *)

Lemma replay_snoc log e : replay (log ++ [e]) = replay log ≫= λ s, allowed s e.
Proof. unfold replay. by rewrite foldl_app. Qed.

Implicit Types (objects : list snap_object) (s : opened) (log : list event).

(** Every handle that is open belongs to exactly one object, and an object has
    both of its handles or none. *)
Record owned objects s : Prop := {
  ow_handles i x : objects !! i = Some x →
    action x = None ∧ card x = None ∨
    ∃ a c, action x = Some a ∧ card x = Some c ∧ op_actions s !! a = Some c ∧ c ∈ op_cards s;
  ow_actions a c : op_actions s !! a = Some c →
    ∃ i x, objects !! i = Some x ∧ action x = Some a ∧ card x = Some c;
  ow_cards c : c ∈ op_cards s → ∃ i x, objects !! i = Some x ∧ card x = Some c;
  ow_unique i j x y c : objects !! i = Some x → objects !! j = Some y →
    card x = Some c → card y = Some c → i = j;
}.

(** Handles are numbered by the calls. *)
Definition numbered (n : nat) s : Prop :=
  (∀ c : Z, c ∈ op_cards s → 0 ≤ c < Z.of_nat n) ∧
  (∀ a c : Z, op_actions s !! a = Some c → 0 ≤ a < Z.of_nat n).

Definition holds_handles objects log : Prop :=
  ∃ s, replay log = Some s ∧ owned objects s ∧ numbered (length log) s.

Lemma numbered_mono n m s : (n ≤ m)%nat → numbered n s → numbered m s.
Proof. intros Hn [H1 H2]. split; intros; [specialize (H1 c)|specialize (H2 a c)]; naive_solver lia. Qed.

(** A call that opens and closes nothing. *)
Lemma handles_unchanged objects log e :
  (∀ s, replay log = Some s → owned objects s → allowed s e = Some s) →
  holds_handles objects log → holds_handles objects (log ++ [e]).
Proof.
  intros He (s & Hr & Ho & Hn). exists s. split; [|split; [done|]].
  - rewrite replay_snoc, Hr. by apply He.
  - eapply numbered_mono; [|done]. rewrite length_app. lia.
Qed.

Lemma action_card objects s a c : owned objects s → op_actions s !! a = Some c → c ∈ op_cards s.
Proof.
  intros Ho Ha. destruct (ow_actions _ _ Ho a c Ha) as (i & x & Hi & _ & Hc).
  destruct (ow_handles _ _ Ho i x Hi) as [[_ ?]|(a' & c' & _ & ? & _ & ?)]; [congruence|]. naive_solver.
Qed.

Lemma card_held objects s i x c : owned objects s → objects !! i = Some x → card x = Some c → c ∈ op_cards s.
Proof.
  intros Ho Hi Hc. destruct (ow_handles _ _ Ho i x Hi) as [[_ ?]|(a' & c' & _ & ? & _ & ?)]; naive_solver.
Qed.

Lemma lookup_snoc_Some {A} (l : list A) x i y :
  (l ++ [x]) !! i = Some y ↔ (l !! i = Some y ∧ (i < length l)%nat) ∨ (i = length l ∧ y = x).
Proof.
  destruct (decide (i < length l)%nat) as [Hi|Hi].
  - rewrite lookup_app_l by done. split; [by left|]. intros [[? _]|[-> _]]; [done|lia].
  - rewrite lookup_app_r by lia. rewrite list_lookup_singleton_Some. split.
    + intros [? <-]. right. split; [lia|done].
    + intros [[_ ?]|[-> ->]]; [lia|]. split; [lia|done].
Qed.

(** An object with new handles. *)
Lemma owned_new objects cards actions a c n :
  owned objects (Opened cards actions) → c ∉ cards → actions !! a = None →
  owned (objects ++ [MkSnapAction (Some a) (Some c) n]) (Opened ({[c]} ∪ cards) (<[a:=c]> actions)).
Proof.
  intros Ho Hc Ha. split; cbn [op_cards op_actions] in *.
  - intros i x [[Hi _]|[-> ->]]%lookup_snoc_Some.
    + destruct (ow_handles _ _ Ho i x Hi) as [?|(a' & c' & ? & ? & Ha' & Hc')]; [by left|right].
      exists a', c'. cbn [op_cards op_actions] in *. split_and!; [done|done| |set_solver].
      rewrite lookup_insert_ne; [done|congruence].
    + right. exists a, c. rewrite lookup_insert_eq. set_solver.
  - intros a' c'. rewrite lookup_insert_Some. intros [[<- <-]|[Hne Ha']].
    + exists (length objects), (MkSnapAction (Some a) (Some c) n). by rewrite lookup_snoc_Some; naive_solver.
    + destruct (ow_actions _ _ Ho a' c' Ha') as (i & x & Hi & ?). exists i, x. split; [|done].
      apply lookup_snoc_Some. left. split; [done|by eapply lookup_lt_Some].
  - intros c' [->%elem_of_singleton|Hc']%elem_of_union.
    + exists (length objects), (MkSnapAction (Some a) (Some c) n). by rewrite lookup_snoc_Some; naive_solver.
    + destruct (ow_cards _ _ Ho c' Hc') as (i & x & Hi & ?). exists i, x. split; [|done].
      apply lookup_snoc_Some. left. split; [done|by eapply lookup_lt_Some].
  - intros i j x y c' [[Hi _]|[-> ->]]%lookup_snoc_Some [[Hj _]|[-> ->]]%lookup_snoc_Some Hx Hy; [|..|done].
    + by eapply (ow_unique _ _ Ho).
    + injection Hy as <-. by pose proof (card_held _ _ _ _ _ Ho Hi Hx).
    + injection Hx as <-. by pose proof (card_held _ _ _ _ _ Ho Hj Hy).
Qed.

(** The handles handed over to a new object. *)
Lemma owned_move objects s i x : owned objects s → objects !! i = Some x →
  owned (<[i:=(move_action x).2]> objects ++ [(move_action x).1]) s.
Proof.
  intros Ho Hx. assert (i < length objects)%nat as Hlt by by eapply lookup_lt_Some.
  assert (∀ j y, (<[i:=(move_action x).2]> objects ++ [(move_action x).1]) !! j = Some y ↔
    (objects !! j = Some y ∧ j ≠ i) ∨ (j = i ∧ y = MkSnapAction None None (timeout x)) ∨
    (j = length objects ∧ y = x)) as Hl.
  { intros j y. rewrite lookup_snoc_Some, length_insert, list_lookup_insert_Some. cbn.
    split; [naive_solver|]. intros [[Hj ?]|[[-> ->]|[-> ->]]]; [|naive_solver..].
    left. split; [by naive_solver|by eapply lookup_lt_Some]. }
  assert (∀ j y, objects !! j = Some y → card y ≠ None ∨ action y ≠ None → ∃ j',
    (<[i:=(move_action x).2]> objects ++ [(move_action x).1]) !! j' = Some y) as Hkeep.
  { intros j y Hj _. destruct (decide (j = i)) as [->|].
    - exists (length objects). apply Hl. right. right. naive_solver.
    - exists j. apply Hl. by left. }
  split.
  - intros j y [[Hj _]|[[-> ->]|[-> ->]]]%Hl; [by eapply ow_handles|by left|by eapply ow_handles].
  - intros a c Ha. destruct (ow_actions _ _ Ho a c Ha) as (j & y & Hj & Hy & Hc).
    destruct (Hkeep j y Hj) as [j' ?]; [left; congruence|]. by exists j', y.
  - intros c Hc. destruct (ow_cards _ _ Ho c Hc) as (j & y & Hj & Hy).
    destruct (Hkeep j y Hj) as [j' ?]; [left; congruence|]. by exists j', y.
  - intros j k y z c [[Hj ?]|[[-> ->]|[-> ->]]]%Hl [[Hk ?]|[[-> ->]|[-> ->]]]%Hl Hy Hz; try done.
    + by eapply (ow_unique _ _ Ho).
    + by pose proof (ow_unique _ _ Ho _ _ _ _ _ Hj Hx Hy Hz).
    + by pose proof (ow_unique _ _ Ho _ _ _ _ _ Hk Hx Hz Hy).
Qed.

(** The handles of an object closed. *)
Lemma owned_destroy objects cards actions i x a c :
  owned objects (Opened cards actions) → objects !! i = Some x → action x = Some a → card x = Some c →
  owned (<[i:=MkSnapAction None None (timeout x)]> objects) (Opened (cards ∖ {[c]}) (delete a actions)) ∧
  actions !! a = Some c ∧ c ∈ cards ∧ map_Forall (λ _ c', c' ≠ c) (delete a actions).
Proof.
  intros Ho Hx Ha Hc.
  destruct (ow_handles _ _ Ho i x Hx) as [[? ?]|(a0 & c0 & Ea & Ec & Hac & Hcc)]; [congruence|].
  rewrite Ha in Ea. rewrite Hc in Ec. injection Ea as <-. injection Ec as <-. cbn in Hac, Hcc.
  assert (∀ j y, <[i:=MkSnapAction None None (timeout x)]> objects !! j = Some y ↔
    (objects !! j = Some y ∧ j ≠ i) ∨ (j = i ∧ y = MkSnapAction None None (timeout x))) as Hl.
  { assert (i < length objects)%nat by by eapply lookup_lt_Some.
    intros j y. rewrite list_lookup_insert_Some. naive_solver. }
  split; [|split_and!; [done|done|]].
  2: { intros a' c' [Hne Ha']%lookup_delete_Some ->.
       destruct (ow_actions _ _ Ho a' c Ha') as (j & y & Hj & Hya & Hyc).
       pose proof (ow_unique _ _ Ho _ _ _ _ _ Hj Hx Hyc Hc) as ->. congruence. }
  split; cbn [op_cards op_actions].
  - intros j y [[Hj Hne]|[-> ->]]%Hl; [|by left].
    destruct (ow_handles _ _ Ho j y Hj) as [?|(a' & c' & Hya & Hyc & Ha' & Hc')]; [by left|right].
    cbn in Ha', Hc'. assert (c' ≠ c).
    { intros ->. apply Hne. by eapply (ow_unique _ _ Ho). }
    exists a', c'. split_and!; [done|done| |set_solver].
    rewrite lookup_delete_ne; [done|]. intros ->. congruence.
  - intros a' c' [Hne Ha']%lookup_delete_Some.
    destruct (ow_actions _ _ Ho a' c' Ha') as (j & y & Hj & Hya & Hyc).
    exists j, y. split; [|done]. apply Hl. left. split; [done|]. intros ->. congruence.
  - intros c' [Hc' Hne]%elem_of_difference. destruct (ow_cards _ _ Ho c' Hc') as (j & y & Hj & Hyc).
    exists j, y. split; [|done]. apply Hl. left. split; [done|]. intros ->. set_solver.
  - intros j k y z d [[Hj ?]|[-> ->]]%Hl [[Hk ?]|[-> ->]]%Hl Hy Hz; try done.
    by eapply (ow_unique _ _ Ho).
Qed.

Section Ownership.
Context `{Libsnap}.

Lemma construct_owned c objects log r :
  holds_handles objects log → use_step (Construct c) objects log = Ok r → holds_handles r.1 r.2.
Proof.
  intros (s & Hr & Ho & Hn).
  unfold use_step, create_action, snap_card_alloc_dev, snap_attach_action, record_event, e_modify, e_get.
  unfold mbind, exc_bind, mret, exc_ret.
  set (h := fresh_handle log). assert (h ∉ op_cards s) as Hh.
  { intros Hin%Hn. unfold h, fresh_handle in Hin. lia. }
  destruct (card_opens _ _).
  2: { intros [= <-]. apply handles_unchanged; [by intros [? ?]|]. by exists s. }
  destruct s as [cards actions]. cbn [op_cards] in Hh.
  set (log1 := log ++ _). assert (replay log1 = Some (Opened ({[h]} ∪ cards) actions)) as Hr1
    by (unfold log1; by rewrite replay_snoc, Hr).
  assert (length log1 = S (length log)) as Hlen by (unfold log1; rewrite length_app; cbn; lia).
  destruct (action_attaches _ _); cbn [e_throw].
  - intros [= <-]. set (a := fresh_handle log1). cbn [fst snd].
    assert (actions !! a = None) as Ha.
    { apply eq_None_not_Some. intros [c' E]. apply Hn in E. unfold a, fresh_handle in E. lia. }
    exists (Opened ({[h]} ∪ cards) (<[a:=h]> actions)).
    split; [rewrite replay_snoc, Hr1; cbn; by rewrite decide_True by set_solver|].
    split; [by apply owned_new|]. rewrite length_app, Hlen. cbn [length]. split; cbn [op_cards op_actions].
    + intros c' [->%elem_of_singleton|Hc%Hn]%elem_of_union; unfold h, fresh_handle in *; lia.
    + intros a' c' [[<- _]|[_ Ha'%Hn]]%lookup_insert_Some; unfold a, fresh_handle in *; lia.
  - intros [= <-]. exists (Opened cards actions). cbn [fst snd].
    split; [|split; [done|eapply numbered_mono; [|done]; rewrite !length_app; lia]].
    rewrite !replay_snoc, Hr1. cbn. rewrite decide_True by set_solver. cbn. rewrite decide_True.
    + do 2 f_equal. set_solver.
    + split; [set_solver|]. intros a c' Ha ->. apply Hh. by eapply (action_card objects (Opened cards actions)).
Qed.

Lemma destroy_owned i objects log r :
  holds_handles objects log → use_step (Destroy i) objects log = Ok r → holds_handles r.1 r.2.
Proof.
  intros (s & Hr & Ho & Hn). cbn [use_step]. destruct (objects !! i) as [x|] eqn:Hx; [|done].
  unfold destroy_action, record_event, e_modify, mbind, exc_bind, mret, exc_ret.
  destruct (ow_handles _ _ Ho i x Hx) as [[Ha Hc]|(a & c & Ha & Hc & _)].
  - rewrite Ha, Hc. intros [= <-]. cbn [fst snd].
    replace (MkSnapAction None None (timeout x)) with x by (destruct x; cbn in *; by subst).
    rewrite list_insert_id by done. by exists s.
  - rewrite Ha, Hc. intros [= <-]. cbn [fst snd]. destruct s as [cards actions].
    destruct (owned_destroy objects cards actions i x a c Ho Hx Ha Hc) as (Ho' & Hac & Hcc & Hnone).
    exists (Opened (cards ∖ {[c]}) (delete a actions)).
    split; [|split; [done|]].
    + rewrite !replay_snoc, Hr. cbn. rewrite decide_True by (by eexists). cbn. by rewrite decide_True.
    + eapply (numbered_mono (length log)); [rewrite !length_app; lia|]. destruct Hn as [Hn1 Hn2].
      split; cbn [op_cards op_actions] in *; [set_solver|].
      intros a' c' [_ ?]%lookup_delete_Some. by eapply Hn2.
Qed.

(** A step keeps the ownership. *)
Lemma use_step_owned u objects log r :
  holds_handles objects log → use_step u objects log = Ok r → holds_handles r.1 r.2.
Proof.
  intros Hh. pose proof Hh as (s & Hr & Ho & Hn). destruct u as [c|i|i j|i|i].
  - by apply construct_owned.
  - cbn [use_step]. destruct (objects !! i) as [x|] eqn:Hx; [|done]. intros [= <-].
    exists s. split; [done|]. split; [by apply owned_move|done].
  - cbn [use_step]. destruct (objects !! i) as [x|] eqn:Hx; [|done].
    unfold execute_job, record_event, e_deref, e_modify, e_get, mbind, exc_bind, mret, exc_ret.
    destruct (ow_handles _ _ Ho i x Hx) as [[-> _]|(a & c & -> & _ & Ha & _)]; [done|].
    destruct (job_answer log a j) as [[[rc ok] o0] o1].
    assert (holds_handles objects (log ++ [ExecuteJob a j (timeout x)])) as Hh'.
    { apply handles_unchanged; [|done]. intros s' Hs' _. rewrite Hr in Hs'. injection Hs' as <-.
      destruct s as [cards actions]. cbn in *. by rewrite decide_True by (by eexists). }
    destruct (negb _); [by intros [= <-]|]. destruct ok; by intros [= <-].
  - cbn [use_step]. destruct (objects !! i) as [x|] eqn:Hx; [|done].
    unfold action_isNVMeEnabled, record_event, e_deref, e_modify, e_get, mbind, exc_bind, mret, exc_ret.
    destruct (ow_handles _ _ Ho i x Hx) as [[_ ->]|(a & c & _ & -> & _ & Hc)]; [done|].
    intros [= <-]. apply handles_unchanged; [|done]. intros s' Hs' _. rewrite Hr in Hs'. injection Hs' as <-.
    destruct s as [cards actions]. cbn in *. by rewrite decide_True.
  - by apply destroy_owned.
Qed.

Lemma use_steps_owned us : ∀ objects log r,
  holds_handles objects log → use_steps us objects log = Ok r → holds_handles r.1 r.2.
Proof.
  induction us as [|u us IH]; intros objects log r Hh; cbn [use_steps]; [by intros [= <-]|].
  destruct (use_step u objects log) as [[objects' log']|] eqn:E; [|done]. cbn [mbind result_bind].
  apply IH. by apply (use_step_owned u objects log (objects', log')).
Qed.

(** C21: however a program constructs, moves, uses and destroys its SnapActions,
    and whatever libsnap answers: no handle is used, detached or freed that is not
    open, no card is freed before its action is detached, what is open always
    belongs to exactly one object, also after constructors and jobs that threw,
    and once no object holds a card nothing is left open. *)
Theorem handles_released us objects log :
  use_steps us [] [] = Ok (objects, log) →
  ∃ s, replay log = Some s ∧ owned objects s ∧
    (Forall (λ x, card x = None) objects → op_cards s = ∅ ∧ op_actions s = ∅).
Proof.
  intros E. destruct (use_steps_owned us [] [] (objects, log)) as (s & Hr & Ho & _); [|done|].
  { exists (Opened ∅ ∅). split; [done|]. split; [|split; intros; set_solver].
    split; cbn [op_cards op_actions]; [done|by intros ? ? ?%lookup_empty_Some|set_solver|done]. }
  exists s. split; [done|]. split; [done|]. intros Hall.
  assert (∀ c, c ∉ op_cards s) as Hc.
  { intros c Hc. destruct (ow_cards _ _ Ho c Hc) as (i & x & Hx & Hcx).
    pose proof (proj1 (Forall_lookup _ _) Hall i x Hx) as Hn. cbn in Hn. congruence. }
  split; [set_solver|]. apply map_empty. intros a. apply eq_None_not_Some. intros [c Ha].
  by apply (Hc c), (action_card objects s a c).
Qed.
End Ownership.

(** A card whose second action cannot be attached, and whose jobs time out. *)
#[local] Instance failing : Libsnap := {
  card_opens log device := true;
  action_attaches log card := bool_decide (length log < 2)%nat;
  job_answer log a j := (SNAP_ETIMEDOUT, true, 0, 0);
  nvme_enabled log := false;
}.

Definition some_job : HostJob := MkHostJob ResetPerfmon [] no_address no_address 0 0.

Lemma handles_released_witness :
  ∃ objects log s,
    use_steps [Construct (MkCard 0 10); Move 0; Run 1 some_job; Construct (MkCard 1 10); Destroy 1; Destroy 0]
      [] [] = Ok (objects, log) ∧ length log = 8%nat ∧
    replay log = Some s ∧ op_cards s = ∅ ∧ op_actions s = ∅.
Proof.
  destruct (use_steps [Construct (MkCard 0 10); Move 0; Run 1 some_job; Construct (MkCard 1 10); Destroy 1; Destroy 0]
    [] []) as [[objects log]|] eqn:E; [|by vm_compute in E].
  destruct (handles_released _ objects log E) as (s & Hr & _ & Hnone).
  pose proof E as E'. vm_compute in E'. injection E' as <- <-.
  do 3 eexists. split; [reflexivity|]. split; [reflexivity|]. split; [exact Hr|].
  apply Hnone. by repeat constructor.
Defined.
End SnapAction.
