(* ===== verification/RunProofs.v ===== *)
(** * What a run of a pipeline hands to the card

    [Pipeline::run] as the sequence of jobs it executes, for pipelines of any
    operators with any options set, on a card that does every job. *)
From S2P Require Import Prelude Endian Extmap OpMem Jobs Pipeline Runner JobsProofs.

Module RunFacts.
Import Pipeline JobFacts.

Section Run.
Context `{Device}.
Implicit Types (c : OperatorContext) (cs : list OperatorContext) (log : list HostJob).

(** The card answers every job. *)
Definition card_works : Prop := ∀ log j, is_Some (device log j).

(** What an operator with this option value can be configured with: the option
    is one of its specification, and fits into the page of the job. *)
Definition option_ok (spec : OperatorSpecification) (o : string * option OperatorArgumentValue) : Prop :=
  match o.2 with
  | None => True
  | Some v =>
      is_Some (assoc o.1 (sp_options spec)) ∧
      match v with AVBuffer bytes => (length bytes ≤ 4080)%nat | _ => True end
  end.

Definition runnable c : Prop :=
  0 ≤ stream_of c < 8 ∧ Forall (option_ok (Operator.op_spec (oc_op c))) (Operator.op_options (oc_op c)).

Definition set_count c : nat :=
  length (List.filter (λ o : string * option OperatorArgumentValue,
    bool_decide (is_Some o.2)) (Operator.op_options (oc_op c))).

(** Whether a run asks for a preparation of the operator: it needs one, and
    had none since an option was last configured, which every run does. *)
Definition to_prepare c : bool :=
  (negb (oc_is_prepared c) || (0 <? set_count c)%nat) && sp_prepareRequired (Operator.op_spec (oc_op c)).

Lemma length_set_word_at i p block :
  (4 * i + length p ≤ length block)%nat → length (set_word i p block) = length block.
Proof. intros Hi. unfold set_word. by rewrite length_put_bytes. Qed.

Lemma option_block_ok spec d v config :
  length config = 4096%nat →
  match v with AVBuffer bytes => (length bytes ≤ 4080)%nat | _ => True end →
  ∃ config', option_block spec d v config = Ok config' ∧ length config' = 4096%nat.
Proof.
  intros Hl Hv. unfold option_block.
  set (c := set_word 3 _ (set_word 2 _ (set_word 0 _ config))).
  assert (length c = 4096%nat) as Hc.
  { unfold c. repeat (rewrite length_set_word_at; rewrite ?Endian.length_be_bytes); rewrite ?Hl; lia. }
  assert (∀ x p, (16 + length p ≤ 4096)%nat →
    length (set_word 1 (Endian.be_bytes 4 x) (Endian.put_bytes c 16 p)) = 4096%nat) as Hput.
  { intros x p Hp. rewrite length_set_word_at; rewrite length_put_bytes; rewrite ?Endian.length_be_bytes; lia. }
  destruct v as [n|b|bytes].
  - eexists. split; [done|]. apply Hput. rewrite length_le_bytes. lia.
  - eexists. split; [done|]. apply Hput. rewrite length_le_bytes. lia.
  - rewrite Hl, (proj2 (Nat.leb_le _ _)) by lia. eexists. split; [done|]. apply Hput. lia.
Qed.

Lemma executeJob_run (Hcard : card_works) j s :
  ∃ r, executeJob_throw j s = Ok (r, State (p_log s ++ [j]) (p_operators s) (p_cachedSwitchConfiguration s)) ∧
       executeJob j s = Ok (Some r, State (p_log s ++ [j]) (p_operators s) (p_cachedSwitchConfiguration s)) ∧
       device (p_log s) j = Some r.
Proof.
  destruct (Hcard (p_log s) j) as [r Hr]. exists r.
  assert (executeJob j s = Ok (Some r, State (p_log s ++ [j]) (p_operators s) (p_cachedSwitchConfiguration s))) as E.
  { unfold executeJob, mbind, M_bind, m_get, m_put, mret, M_ret. by rewrite Hr. }
  split; [|done]. unfold executeJob_throw, mbind, M_bind. by rewrite E.
Qed.

(** Configuration jobs, and nothing else. *)
Definition configuration (n : nat) (jobs : list HostJob) : Prop :=
  length jobs = n ∧ Forall (λ j, hj_type j = ConfigureOperator) jobs.

Lemma configuration_app n m l k : configuration n l → configuration m k → configuration (n + m) (l ++ k).
Proof. intros [Hl Fl] [Hk Fk]. split; [rewrite length_app; lia|by apply Forall_app]. Qed.

Lemma configure_options_run (Hcard : card_works) spec : ∀ options config configured s,
  length config = 4096%nat → Forall (option_ok spec) options →
  let n := length (List.filter (λ o : string * option OperatorArgumentValue, bool_decide (is_Some o.2)) options) in
  ∃ jobs, configure_options spec options config configured s
    = Ok (configured || (0 <? n)%nat, State (p_log s ++ jobs) (p_operators s) (p_cachedSwitchConfiguration s)) ∧
    configuration n jobs.
Proof.
  induction options as [|[key [v|]] options IH]; intros config configured s Hl Hok n; cbn [configure_options].
  - exists []. rewrite app_nil_r, orb_false_r. split; [by destruct s|by split].
  - apply Forall_cons in Hok as [[[d Hd] Hv] Hok]. cbn [fst] in Hd. rewrite Hd.
    destruct (option_block_ok spec (with_offset (Operator.freed_offset spec key) d) v config Hl Hv) as (config' & E & Hl').
    rewrite (bind_run (m_lift _) _ s config' s) by (unfold m_lift; by rewrite E).
    destruct (executeJob_run Hcard (indirect ConfigureOperator config') s) as (r & _ & Ej & _).
    run_step Ej.
    destruct (IH config' true (State (p_log s ++ [indirect ConfigureOperator config']) (p_operators s)
      (p_cachedSwitchConfiguration s)) Hl' Hok) as (jobs & Er & Hj).
    exists (indirect ConfigureOperator config' :: jobs). rewrite Er. cbn [orb]. split.
    + subst n. cbn [List.filter snd]. rewrite bool_decide_eq_true_2 by done. cbn [length Nat.ltb Nat.leb].
      rewrite orb_true_r. cbn [p_log p_operators p_cachedSwitchConfiguration]. by rewrite <-app_assoc.
    + subst n. cbn [List.filter snd]. rewrite bool_decide_eq_true_2 by done.
      apply (configuration_app 1 _ [_]); [|done]. by split; [|constructor].
  - apply Forall_cons in Hok as [_ Hok]. destruct (IH config configured s Hl Hok) as (jobs & Er & Hj).
    exists jobs. split; [|done]. subst n. rewrite Er. done.
Qed.

Definition configured_context c : OperatorContext :=
  if (0 <? set_count c)%nat then set_prepared false c else c.

Lemma configure_all_run (Hcard : card_works) cs : ∀ s, Forall runnable cs →
  ∃ jobs, configure_all cs s
    = Ok (configured_context <$> cs, State (p_log s ++ jobs) (p_operators s) (p_cachedSwitchConfiguration s)) ∧
    configuration (sum_list (set_count <$> cs)) jobs.
Proof.
  induction cs as [|c cs IH]; intros s Hok; cbn [configure_all].
  - exists []. rewrite app_nil_r. split; [by destruct s|by split].
  - apply Forall_cons in Hok as [[Hs Hc] Hok].
    assert (length (allocateMemory 4096) = 4096%nat) as Hl
      by (unfold allocateMemory; by rewrite length_fmap, length_seq).
    destruct (configure_options_run Hcard _ _ (allocateMemory 4096) false s Hl Hc) as (jobs & E & Hj).
    destruct (IH (State (p_log s ++ jobs) (p_operators s) (p_cachedSwitchConfiguration s)) Hok)
      as (jobs' & E' & Hj').
    exists (jobs ++ jobs'). split; [|by apply configuration_app].
    assert (configure_operator c s = Ok (configured_context c,
      State (p_log s ++ jobs) (p_operators s) (p_cachedSwitchConfiguration s))) as Ec.
    { unfold configure_operator. run_step E. done. }
    run_step Ec. run_step E'. cbn [p_log p_operators p_cachedSwitchConfiguration]. by rewrite app_assoc.
Qed.

(** *** The masks *)

Lemma stream_bit_testbit c i :
  0 ≤ stream_of c < 8 → 0 ≤ i → Z.testbit (stream_bit c) i = (stream_of c =? i).
Proof.
  intros Hs Hi. unfold stream_bit. rewrite Z.shiftl_1_l.
  unfold u32. rewrite wrap_small.
  2: { split; [lia|]. apply (Z.pow_lt_mono_r 2); lia. }
  rewrite Z.pow2_bits_eqb by lia. done.
Qed.

Lemma mask_testbit (f : OperatorContext → bool) cs i : ∀ m, 0 ≤ i → Forall runnable cs →
  Z.testbit (foldl (λ m c, if f c then Z.lor m (stream_bit c) else m) m cs) i
  = Z.testbit m i || existsb (λ c, f c && (stream_of c =? i)) cs.
Proof.
  induction cs as [|c cs IH]; intros m Hi Hok; cbn [foldl existsb]; [by rewrite orb_false_r|].
  apply Forall_cons in Hok as [[Hs _] Hok]. rewrite IH by done. destruct (f c); cbn [andb]; [|done].
  rewrite Z.lor_spec, stream_bit_testbit by done. by rewrite orb_assoc.
Qed.

Lemma configured_stream c : stream_of (configured_context c) = stream_of c.
Proof. unfold configured_context. by destruct (0 <? set_count c)%nat. Qed.

Lemma configured_needs c : needs_preparation (configured_context c) = to_prepare c.
Proof.
  unfold configured_context, to_prepare, needs_preparation. destruct (0 <? set_count c)%nat; cbn.
  - by rewrite orb_true_r.
  - by rewrite orb_false_r.
Qed.

Lemma fold_configured (f g : OperatorContext → bool) cs : ∀ m,
  (∀ c, f (configured_context c) = g c) →
  foldl (λ m c, if f c then Z.lor m (stream_bit c) else m) m (configured_context <$> cs)
  = foldl (λ m c, if g c then Z.lor m (stream_bit c) else m) m cs.
Proof.
  induction cs as [|c cs IH]; intros m Hfg; [done|]. cbn [fmap list_fmap foldl].
  fold (configured_context <$> cs). rewrite Hfg.
  assert (stream_bit (configured_context c) = stream_bit c) as ->
    by (unfold stream_bit; by rewrite configured_stream).
  by apply IH.
Qed.

(** The operators a preparation job enables, and those a run does. *)
Definition prepared_mask cs : Z :=
  foldl (λ m c, if to_prepare c then Z.lor m (stream_bit c) else m) 0 cs.

Lemma run_mask_configured cs : run_mask (configured_context <$> cs) = run_mask cs.
Proof.
  pose proof (fold_configured (λ _, true) (λ _, true) cs 1 (λ _, eq_refl)) as E. exact E.
Qed.

Lemma prepared_mask_zero cs :
  Forall runnable cs → (prepared_mask cs =? 0) = negb (existsb to_prepare cs).
Proof.
  intros Hok. destruct (existsb to_prepare cs) eqn:Ex; cbn [negb].
  - apply Z.eqb_neq. intros E. apply existsb_exists in Ex as (c & Hc & Ht).
    pose proof (mask_testbit to_prepare cs (stream_of c) 0) as Hb.
    fold (prepared_mask cs) in Hb. rewrite E, Z.bits_0 in Hb.
    assert (runnable c) as [Hs _] by (eapply Forall_forall; [exact Hok|by apply list_elem_of_In]).
    specialize (Hb ltac:(lia) Hok). symmetry in Hb. cbn [orb] in Hb.
    assert (existsb (λ c0, to_prepare c0 && (stream_of c0 =? stream_of c)) cs = true) as Ht'
      by (apply existsb_exists; exists c; by rewrite Ht, Z.eqb_refl).
    congruence.
  - apply Z.eqb_eq. apply Z.bits_inj'. intros i Hi. rewrite Z.bits_0.
    unfold prepared_mask. rewrite mask_testbit by done. rewrite Z.bits_0. cbn [orb].
    apply not_true_iff_false. intros (c & Hc & [Ht _]%andb_true_iff)%existsb_exists.
    apply not_true_iff_false in Ex. apply Ex, existsb_exists. by exists c.
Qed.

(** *** The jobs of a run *)

Definition preparation cs : list HostJob :=
  if existsb to_prepare cs
  then [MkHostJob RunOperators [] no_address no_address (prepared_mask cs) 0] else [].

Lemma switch_configured cs block :
  switch_block cs = Ok block → switch_block (configured_context <$> cs) = Ok block.
Proof.
  intros E. rewrite <-E. unfold switch_block.
  generalize (foldl (λ b i, set_word i (Endian.be_bytes 4 disable) b) (allocateMemory 32) (seq 0 8)).
  generalize IOStreamID. clear E. induction cs as [|c cs IH]; intros prev b; [done|].
  cbn [fmap list_fmap connect]. fold (configured_context <$> cs). rewrite configured_stream.
  destruct (set_switch b (stream_of c) prev); cbn; [apply IH|done].
Qed.

Lemma run_log (Hcard : card_works) log cs cached src dst :
  Forall runnable cs →
  ∃ n configured block, switch_block cs = Ok block ∧
    Pipeline.run src dst (State log cs cached)
    = Ok (n, State (log ++ configured ++ preparation cs
                     ++ (if cached then [] else [indirect ConfigureStreams block])
                     ++ [MkHostJob RunOperators [] src dst (run_mask cs) 1])
               (set_prepared true <$> cs) cached) ∧
    configuration (sum_list (set_count <$> cs)) configured.
Proof.
  intros Hok.
  destruct (switch_block_run cs) as (block & Hsw & _).
  { eapply Forall_impl; [exact Hok|]. by intros c [? _]. }
  destruct (configure_all_run Hcard cs (State log cs cached) Hok) as (jobs & Ec & Hj).
  assert (preparation_mask (configured_context <$> cs) = prepared_mask cs) as Hmask
    by (apply fold_configured, configured_needs).
  unfold Pipeline.run. rewrite (bind_run m_get _ _ _ _ eq_refl). cbn [p_operators]. run_step Ec.
  rewrite (bind_run (m_modify _) _ _ tt (State (log ++ jobs) (configured_context <$> cs) cached)) by done.
  rewrite Hmask, prepared_mask_zero by done. rewrite negb_involutive.
  set (s1 := State (log ++ jobs) (configured_context <$> cs) cached).
  assert (∃ s2, (if existsb to_prepare cs then
      _ ← executeJob_throw (MkHostJob RunOperators [] no_address no_address (prepared_mask cs) 0); mret tt
    else mret tt) s1 = Ok (tt, s2) ∧
    s2 = State ((log ++ jobs) ++ preparation cs) (configured_context <$> cs) cached) as (s2 & E2 & ->).
  { unfold preparation. destruct (existsb to_prepare cs); [|by eexists; rewrite app_nil_r].
    destruct (executeJob_run Hcard (MkHostJob RunOperators [] no_address no_address (prepared_mask cs) 0) s1)
      as (r & E & _). eexists. split; [|done]. by run_step E. }
  run_step E2. rewrite (bind_run m_get _ _ _ _ eq_refl). cbn [p_cachedSwitchConfiguration].
  set (s2 := State ((log ++ jobs) ++ preparation cs) (configured_context <$> cs) cached).
  set (sw := if cached then [] else [indirect ConfigureStreams block]).
  assert ((if negb cached then configureSwitch false else mret tt) s2
    = Ok (tt, State (((log ++ jobs) ++ preparation cs) ++ sw) (configured_context <$> cs) cached)) as E3.
  { unfold sw. destruct cached; cbn [negb]; [by rewrite app_nil_r|]. unfold configureSwitch.
    rewrite (bind_run m_get _ _ _ _ eq_refl). cbn [p_log p_operators s2].
    rewrite (bind_run (m_put _) _ _ _ _ eq_refl).
    rewrite (bind_run (m_lift _) _ _ block _) by (unfold m_lift; by rewrite (switch_configured _ _ Hsw)).
    destruct (executeJob_run Hcard (indirect ConfigureStreams block)
      (State ((log ++ jobs) ++ preparation cs) (configured_context <$> cs) false)) as (r & E & _).
    by run_step E. }
  run_step E3. rewrite run_mask_configured.
  rewrite (bind_run (m_modify _) _ _ _ _ eq_refl).
  destruct (executeJob_run Hcard (MkHostJob RunOperators [] src dst (run_mask cs) 1)
    (set_operators (set_prepared true <$> (configured_context <$> cs))
      (State (((log ++ jobs) ++ preparation cs) ++ sw) (configured_context <$> cs) cached))) as (r & E & _).
  run_step E. exists (jr_out0 r), jobs, block. split; [done|]. split; [|done].
  unfold mret, M_ret. cbn [p_log p_operators p_cachedSwitchConfiguration set_operators]. do 2 f_equal. f_equal.
  - by rewrite <-!app_assoc.
  - rewrite <-list_fmap_compose. apply list_fmap_ext. intros i c _. cbn.
    unfold configured_context. by destruct (0 <? set_count c)%nat.
Qed.

(** C11: a run configures every option that is set, each with one job and in
    the order of the pipeline, then prepares exactly the operators that need it
    (again in every run if an option is set), in one job and only if there are
    any, then configures the switch unless that was cached, and last runs all
    operators and the I/O system in one job from the source to the sink;
    afterwards every operator counts as prepared. *)
Theorem run_jobs log cs cached src dst :
  card_works → Forall runnable cs →
  ∃ n configured block, switch_block cs = Ok block ∧
    Pipeline.run src dst (State log cs cached)
    = Ok (n, State (log ++ configured ++ preparation cs
                     ++ (if cached then [] else [indirect ConfigureStreams block])
                     ++ [MkHostJob RunOperators [] src dst (run_mask cs) 1])
               (set_prepared true <$> cs) cached) ∧
    configuration (sum_list (set_count <$> cs)) configured ∧
    ∀ i, 0 ≤ i →
      Z.testbit (prepared_mask cs) i = existsb (λ c, to_prepare c && (stream_of c =? i)) cs ∧
      Z.testbit (run_mask cs) i = (i =? 0) || existsb (λ c, stream_of c =? i) cs.
Proof.
  intros Hcard Hok. destruct (run_log Hcard log cs cached src dst Hok) as (n & jobs & block & Hs & E & Hj).
  exists n, jobs, block. split; [done|]. split; [done|]. split; [done|]. intros i Hi. split.
  - unfold prepared_mask. by rewrite mask_testbit, Z.bits_0.
  - pose proof (mask_testbit (λ _, true) cs i 1 Hi Hok) as Hm. cbn [andb] in Hm.
    unfold run_mask. rewrite Hm. f_equal.
Qed.
End Run.

End RunFacts.

(** ** Instances *)

Module RunDemo.
#[local] Instance card : Device :=
  {| device_freed := Operator.intact_memory; device := λ _ j, Some (MkJobResult (a_size (hj_source j)) 0 []); snap_malloc_byte := λ _, 0 |}.

Lemma works : RunFacts.card_works.
Proof. by eexists. Qed.

(** "blowfish" on stream 2 with its number set, and a plain operator on 1. *)
Definition operators : list Pipeline.OperatorContext :=
  [Pipeline.MkOperatorContext
     (Operator.MkOperator (Demo.spec 2) [("key", None); ("count", Some (AVUint 7))]) true false "";
   Pipeline.make_context (Operator.create (Spec "plain" "" 1 false []))].

Lemma operators_run : Forall RunFacts.runnable operators.
Proof.
  repeat constructor; cbn; try (split; lia); try done.
Qed.
End RunDemo.

Section Witnesses.
Import Pipeline RunFacts.
#[local] Existing Instance RunDemo.card.

Lemma run_jobs_witness :
  ∃ n configured block, switch_block RunDemo.operators = Ok block ∧
    Pipeline.run no_address no_address (State [] RunDemo.operators true)
    = Ok (n, State ([] ++ configured ++ preparation RunDemo.operators ++ []
               ++ [MkHostJob RunOperators [] no_address no_address (run_mask RunDemo.operators) 1])
               (set_prepared true <$> RunDemo.operators) true) ∧
    configuration (sum_list (set_count <$> RunDemo.operators)) configured ∧
    ∀ i, 0 ≤ i →
      Z.testbit (prepared_mask RunDemo.operators) i
      = existsb (λ c, to_prepare c && (stream_of c =? i)) RunDemo.operators ∧
      Z.testbit (run_mask RunDemo.operators) i
      = (i =? 0) || existsb (λ c, stream_of c =? i) RunDemo.operators.
Proof.
  apply (run_jobs [] RunDemo.operators true no_address no_address);
    [exact RunDemo.works|exact RunDemo.operators_run].
Defined.
End Witnesses.
