(* ===== verification/CardStorage.v ===== *)
(** * A storage on the card

    [storage_write] and [storage_read] of metal_pipeline_storage.cpp run an
    empty pipeline between a buffer of the host and a file on the card. The jobs
    they hand to the card are determined ([storage_write_run], [storage_read_run]), and carried
    out there ([CardJobs]) they move the bytes. *)
From S2P Require Import Prelude Tiling Lmdb Structs Dirent Inode Metal File.
From S2P Require Import Endian Extmap OpMem Jobs Pipeline Runner DataContexts.
From S2P Require Import TransferProofs CardMemory JobsProofs CardJobs RunProofs.

Module CardStorage.
Import Extmap OpMem Transfers Pipeline DataContexts Card JobFacts CardJobs CardFacts RunFacts.

Section Host.
Context `{Lmdb} `{Machine} `{Device} {B : Type} (Hcard : card_works).
Context (formatted : Runner.ProfilingResults → bool → bool → string).
Abbreviation storage_t := (PipelineStorage (B := B)).
Implicit Types (st : storage_t).

(** The jobs of an empty pipeline, those that install extents between the others. *)
Definition mapped_log (maps : list HostJob) (block : list Z) (src dst : Address) : list HostJob :=
  indirect ConfigureStreams block :: maps ++ [MkHostJob RunOperators [] src dst 1 1].

Definition transfer_log (slot : Z) (xs : list mtl_file_extent) : list Z → Address → Address → list HostJob :=
  mapped_log [indirect Map (map_block slot xs)].

(** [transfer_extents] hands over these jobs. *)
Definition hands_over (maps : list HostJob) (m : M Pipeline.state unit) : Prop :=
  ∀ log, m (State log [] true) = Ok (tt, State (log ++ maps) [] true).

Lemma on_pipeline_run {A} (m : M Pipeline.state A) s a s' :
  m s = Ok (a, s') → on_pipeline m s = Done a s'.
Proof. intros E. unfold on_pipeline, e_part. cbn. by rewrite E. Qed.

Lemma configureSwitch_run cached s block : switch_block (p_operators s) = Ok block →
  configureSwitch cached s =
    Ok (tt, State (p_log s ++ [indirect ConfigureStreams block]) (p_operators s) cached).
Proof using Hcard.
  intros E. unfold configureSwitch. rewrite (bind_run m_get _ _ _ _ eq_refl).
  rewrite (bind_run (m_put _) _ _ _ _ eq_refl).
  rewrite (bind_run (m_lift _) _ _ block _) by (unfold m_lift; by rewrite E).
  destruct (executeJob_run Hcard (indirect ConfigureStreams block)
    (State (p_log s) (p_operators s) cached)) as (r & Er & _). by run_step Er.
Qed.

Lemma mapExtents_run slot xs s :
  mapExtents slot xs s =
    Ok (tt, State (p_log s ++ [indirect Map (map_block slot xs)]) (p_operators s)
              (p_cachedSwitchConfiguration s)).
Proof using Hcard.
  unfold mapExtents.
  destruct (executeJob_run Hcard (indirect Map (map_block slot xs)) s) as (r & Er & _). by run_step Er.
Qed.

(** An empty pipeline whose switch is configured runs with one job. *)
Lemma run_empty log src dst : ∃ n,
  Pipeline.run src dst (State log [] true) =
    Ok (n, State (log ++ [MkHostJob RunOperators [] src dst 1 1]) [] true).
Proof using Hcard.
  destruct (run_log Hcard log [] true src dst) as (n & configured & block & _ & E & Hc & _); [done|].
  exists n. rewrite E. destruct configured; [|done]. done.
Qed.

(** What the operations of a sink leave alone. *)
Definition same_sink (c c' : file_sink (B := B)) : Prop :=
  fk_dataSink c' = fk_dataSink c ∧ fk_truncateOnFinalize c' = fk_truncateOnFinalize c.

Lemma loadExtents_same c c' : loadExtents c = Ok c' → same_sink c c'.
Proof.
  unfold loadExtents, mbind, result_bind, mret, result_ret. intros E.
  repeat case_match; by simplify_eq.
Qed.

Lemma truncate_same n c c' : truncate_sink n c = Ok c' → same_sink c c'.
Proof.
  unfold truncate_sink, mbind, result_bind, mret, result_ret. intros E.
  repeat case_match; by simplify_eq.
Qed.

Lemma prepare_same n c c' : prepareForTotalSize n c = Ok c' → same_sink c c'.
Proof.
  unfold prepareForTotalSize. destruct (_ <=? _); [by intros [= ->]|].
  unfold mbind, result_bind. intros E. destruct (truncate_sink n c) as [c1|] eqn:E1; [|done].
  apply truncate_same in E1 as [??]. apply loadExtents_same in E as [??].
  split; congruence.
Qed.

Lemma created_sink st ino off len trunc c : create_file_sink (Some st) ino off len trunc = Ok c →
  fk_dataSink c = MkAddress off len (ps_type st) (ps_map st) ∧ fk_truncateOnFinalize c = trunc.
Proof.
  unfold create_file_sink. destruct (ino =? 0); [by intros [= <-]|].
  unfold mbind, result_bind. intros E.
  destruct (loadExtents _) as [c1|] eqn:E1; [|done].
  apply loadExtents_same in E1 as [??]. apply prepare_same in E as [??]. cbn in *. split; congruence.
Qed.

(** The first round of a runner on an empty pipeline, from what the contexts do. *)
Lemma run_once_empty {C D} (sops : DataSourceContext Pipeline.state C)
    (kops : DataSinkContext Pipeline.state D) c d c1 c2 d1 (d2 : Z → D) e block S K l1 l2 :
  switch_block [] = Ok block → sc_reportTotalSize sops c = 0 →
  sc_configure sops true c (State [indirect ConfigureStreams block] [] true) = Done c1 (State l1 [] true) →
  (∀ s, sc_dataSource sops c1 s = Ok S) → 0 < u32 (a_size S) → sc_endOfInput sops c1 = e →
  kc_configure kops (u32 (a_size S)) true d (State l1 [] true) = Done d1 (State l2 [] true) →
  (∀ s, kc_dataSink kops d1 s = Ok K) →
  (∀ s, sc_finalize sops c1 s = Done c2 s) → (∀ n s, kc_finalize kops n e d1 s = Done (d2 n) s) →
  ∃ n r, Runner.run_once formatted sops kops false c d
           (Runner.MkRunner false None Runner.no_results) fresh_state =
    Done (n, e, c2, d2 n, r)
         (State (l2 ++ [MkHostJob RunOperators [] (address S) (address K) 1 1]) [] true).
Proof using Hcard.
  intros Hsw Ht Ec Es Hsz He Ek EK Hf1 Hf2. unfold Runner.run_once. cbn zeta.
  cbn [Runner.rn_initialized negb]. rewrite Ht. cbn [Z.ltb Z.compare].
  rewrite (e_bind_run _ _ _ d (State [indirect ConfigureStreams block] [] true)).
  2: { rewrite (e_bind_run (mret _) _ _ d fresh_state) by done.
       rewrite (e_bind_run _ _ _ tt (State [indirect ConfigureStreams block] [] true)); [done|].
       apply on_pipeline_run. by rewrite (configureSwitch_run _ _ block). }
  rewrite (e_bind_run _ _ _ _ _ Ec).
  assert (∀ s, Runner.source_address sops c1 s = Done (address S) s) as Hsrc.
  { intros s. unfold Runner.source_address. rewrite (e_bind_run e_get _ _ _ _ eq_refl).
    rewrite (e_bind_run (e_lift _) _ _ S s) by (by rewrite Es). done. }
  assert (∀ s, Runner.sink_address kops d1 s = Done (address K) s) as Hsink.
  { intros s. unfold Runner.sink_address. rewrite (e_bind_run e_get _ _ _ _ eq_refl).
    rewrite (e_bind_run (e_lift _) _ _ K s) by (by rewrite EK). done. }
  rewrite (e_bind_run _ _ _ _ _ (Hsrc _)). rewrite He. cbn [address a_size].
  rewrite (e_bind_run _ _ _ _ _ Ek). rewrite (e_bind_run (mret _) _ _ _ _ eq_refl).
  destruct (run_empty l2 (address S) (address K)) as (n & En).
  rewrite (proj2 (Z.ltb_lt _ _) Hsz).
  rewrite (e_bind_run _ _ _ n (State (l2 ++ [MkHostJob RunOperators [] (address S) (address K) 1 1]) [] true)).
  2: { rewrite (e_bind_run _ _ _ _ _ (Hsrc _)), (e_bind_run _ _ _ _ _ (Hsink _)).
       by apply on_pipeline_run. }
  rewrite (e_bind_run (mret _) _ _ _ _ eq_refl). cbn beta iota.
  rewrite (e_bind_run _ _ _ _ _ (Hf1 _)), (e_bind_run _ _ _ _ _ (Hf2 _ _)). eauto.
Qed.

(** [write]: the jobs are the switch, the extents of the file for the writing
    side, and a run from the buffer to the range of the file. *)
Lemma storage_write_mapped st ino off buffer len c maps :
  0 < len < 2 ^ 32 → 0 ≤ off → off + len < 2 ^ 63 →
  create_file_sink (Some st) ino off len false = Ok c → off + len ≤ fk_cachedTotalSize c →
  hands_over maps (transfer_extents (fk_storage c) (ps_map st) PagefileWritePath CardDRAMWrite NVMeWrite
    (fk_extents c)) →
  ∃ n ctx c' r block,
    switch_block [] = Ok block ∧
    Runner.run_once formatted DefaultDataSourceContext FileDataSinkContext false
      (host_context buffer len) c (Runner.MkRunner false None Runner.no_results) fresh_state =
      Done (n, true, ctx, c', r)
           (State (mapped_log maps block (in_host buffer len)
                     (MkAddress off len (ps_type st) (ps_map st))) [] true) ∧
    storage_write formatted st ino off buffer len = Ok (MTL_SUCCESS, fk_storage c).
Proof using Hcard.
  intros Hlen Hoff Hend Ec Hcached Hmaps.
  destruct (created_sink _ _ _ _ _ _ Ec) as [Ed Et].
  destruct (switch_block_run []) as (block & Hsw & _); [done|].
  assert (u32 len = len) as Hu by (apply wrap_small; lia).
  set (log := [indirect ConfigureStreams block]).
  set (d1 := with_sink (withSize (fk_dataSink c) len) c).
  assert (address (fk_dataSink d1) = MkAddress off len (ps_type st) (ps_map st)) as Ea.
  { cbn. rewrite Ed. unfold address, withSize. cbn. by rewrite Hu. }
  destruct (run_once_empty DefaultDataSourceContext FileDataSinkContext
    (host_context buffer len) c (host_context buffer len) (host_context buffer len) d1
    (λ n, with_sink (MkAddress (off +ᵤ n) len (ps_type st) (ps_map st)) d1) true block
    (MkAddress buffer len ATHost MTNone) (fk_dataSink d1) log
    (log ++ maps) Hsw) as (n & r & E); try done.
  - cbn [a_size]. lia.
  - cbn [a_size kc_configure FileDataSinkContext]. rewrite Hu. apply on_pipeline_run.
    unfold sink_configure. fold d1. rewrite Ea. cbn [a_addr a_size a_map].
    rewrite u64_small by (unfold in_u64; lia).
    change (fk_cachedTotalSize d1) with (fk_cachedTotalSize c).
    rewrite (proj2 (Z.ltb_ge _ _)) by lia.
    rewrite (bind_run (m_lift _) _ _ d1 _) by done.
    change (fk_extents d1) with (fk_extents c). change (fk_storage d1) with (fk_storage c).
    by rewrite (bind_run _ _ _ _ _ (Hmaps log)).
  - intros n s. apply on_pipeline_run. unfold sink_finalize. rewrite Ea. cbn [fk_truncateOnFinalize with_sink d1].
    rewrite Et, andb_false_r. done.
  - rewrite <-app_assoc, Ea in E. unfold address in E. cbn [a_addr a_size a_type a_map] in E. rewrite Hu in E.
    do 5 eexists. split; [exact Hsw|]. split; [exact E|].
    unfold storage_write. rewrite Ec. cbn [mbind result_bind]. by rewrite E.
Qed.

(** [read]: the other way, with the extents for the reading side. *)
Lemma storage_read_mapped st ino off buffer len c n x xs maps :
  create_file_source (Some st) ino off len = Ok c →
  fs_dataSource c = MkAddress off n (ps_type st) (ps_map st) →
  fs_extents c = x :: xs → 0 < n < 2 ^ 32 → 0 < len < 2 ^ 32 →
  hands_over maps (transfer_extents (fs_storage c) (ps_map st) PagefileReadPath CardDRAMRead NVMeRead
    (x :: xs)) →
  ∃ m c' ctx r block,
    switch_block [] = Ok block ∧
    Runner.run_once formatted FileDataSourceContext DefaultDataSinkContext false
      c (host_context buffer len) (Runner.MkRunner false None Runner.no_results) fresh_state =
      Done (m, source_endOfInput c, c', ctx, r)
           (State (mapped_log maps block (MkAddress off n (ps_type st) (ps_map st))
                     (in_host buffer len)) [] true) ∧
    storage_read formatted st ino off buffer len = Ok MTL_SUCCESS.
Proof using Hcard.
  intros Ec Ed Ex Hn Hlen Hmaps.
  destruct (switch_block_run []) as (block & Hsw & _); [done|].
  assert (u32 len = len ∧ u32 n = n) as [Hu Hv] by (split; apply wrap_small; lia).
  set (log := [indirect ConfigureStreams block]).
  destruct (run_once_empty FileDataSourceContext DefaultDataSinkContext
    c (host_context buffer len) c
    (with_source (MkAddress (off +ᵤ n) n (ps_type st) (ps_map st)) c) (host_context buffer len)
    (λ _, host_context buffer len) (source_endOfInput c) block
    (MkAddress off n (ps_type st) (ps_map st)) (MkAddress buffer len ATHost MTNone)
    (log ++ maps) (log ++ maps) Hsw)
    as (m & r & E); try done.
  - apply on_pipeline_run. unfold source_configure. rewrite Ex, Ed. cbn [a_map].
    by rewrite (bind_run _ _ _ _ _ (Hmaps log)).
  - intros s. cbn. by rewrite Ed.
  - cbn [a_size]. lia.
  - intros s. apply on_pipeline_run. unfold source_finalize. rewrite Ed. unfold address.
    cbn [a_addr a_size a_type a_map]. by rewrite Hv.
  - rewrite <-app_assoc in E. unfold address in E. cbn [a_addr a_size a_type a_map] in E.
    rewrite Hu, Hv in E.
    do 5 eexists. split; [exact Hsw|]. split; [exact E|].
    unfold storage_read. rewrite Ec. cbn [mbind result_bind]. by rewrite E.
Qed.

(** On a storage in the card's memory there is one job with extents. *)
Lemma dram_hands_over storage pagefile d n xs :
  hands_over [indirect Map (map_block d xs)]
    (transfer_extents (B := B) storage MTDRAM pagefile d n xs).
Proof using Hcard. intros log. apply mapExtents_run. Qed.

Lemma storage_write_run st ino off buffer len c :
  ps_type st = ATCardDRAM → ps_map st = MTDRAM → 0 < len < 2 ^ 32 → 0 ≤ off → off + len < 2 ^ 63 →
  create_file_sink (Some st) ino off len false = Ok c → off + len ≤ fk_cachedTotalSize c →
  ∃ n ctx c' r block,
    switch_block [] = Ok block ∧
    Runner.run_once formatted DefaultDataSourceContext FileDataSinkContext false
      (host_context buffer len) c (Runner.MkRunner false None Runner.no_results) fresh_state =
      Done (n, true, ctx, c', r)
           (State (transfer_log 1 (fk_extents c) block (in_host buffer len) (on_card off len)) [] true) ∧
    storage_write formatted st ino off buffer len = Ok (MTL_SUCCESS, fk_storage c).
Proof using Hcard.
  intros Hty Hmap Hlen Hoff Hend Ec Hcached.
  pose proof (storage_write_mapped st ino off buffer len c [indirect Map (map_block 1 (fk_extents c))]
    Hlen Hoff Hend Ec Hcached) as Hw. rewrite Hty, Hmap in Hw. apply Hw, dram_hands_over.
Qed.

Lemma created_source st ino off len c : create_file_source (Some st) ino off len = Ok c →
  a_type (fs_dataSource c) = ps_type st ∧ a_map (fs_dataSource c) = ps_map st.
Proof.
  unfold create_file_source. destruct (ino =? 0); [by intros [= <-]|].
  unfold mbind, result_bind, mret, result_ret. intros E. repeat case_match; by simplify_eq.
Qed.

Lemma storage_read_run st ino off buffer len c n x xs :
  create_file_source (Some st) ino off len = Ok c → fs_dataSource c = on_card off n →
  fs_extents c = x :: xs → 0 < n < 2 ^ 32 → 0 < len < 2 ^ 32 →
  ∃ m c' ctx r block,
    switch_block [] = Ok block ∧
    Runner.run_once formatted FileDataSourceContext DefaultDataSinkContext false
      c (host_context buffer len) (Runner.MkRunner false None Runner.no_results) fresh_state =
      Done (m, source_endOfInput c, c', ctx, r)
           (State (transfer_log 0 (x :: xs) block (on_card off n) (in_host buffer len)) [] true) ∧
    storage_read formatted st ino off buffer len = Ok MTL_SUCCESS.
Proof using Hcard.
  intros Ec Ed Ex Hn Hlen. destruct (created_source _ _ _ _ _ Ec) as [Hty Hmap].
  rewrite Ed in Hty, Hmap. cbn in Hty, Hmap. symmetry in Hty, Hmap.
  pose proof (storage_read_mapped st ino off buffer len c n x xs [indirect Map (map_block 0 (x :: xs))]
    Ec) as Hr. rewrite Hty, Hmap in Hr. apply Hr; try done. apply dram_hands_over.
Qed.

(** The jobs the two operations hand to the card. *)
Definition jobs_of {A} (r : outcome Pipeline.state A) : list HostJob :=
  match r with Done _ s | Thrown _ s => p_log s | Stuck _ => [] end.

Definition write_jobs st ino off buffer len : list HostJob :=
  match create_file_sink (Some st) ino off len false with
  | Ok c => jobs_of (Runner.run_once formatted DefaultDataSourceContext FileDataSinkContext false
      (host_context buffer len) c (Runner.MkRunner false None Runner.no_results) fresh_state)
  | Fault _ => []
  end.

Definition read_jobs st ino off buffer len : list HostJob :=
  match create_file_source (Some st) ino off len with
  | Ok c => jobs_of (Runner.run_once formatted FileDataSourceContext DefaultDataSinkContext false
      c (host_context buffer len) (Runner.MkRunner false None Runner.no_results) fresh_state)
  | Fault _ => []
  end.
End Host.

(** ** Carried out by the card *)
Section EndToEnd.
Context `{Lmdb} `{Machine} `{Device} {B : Type} (Hcard : card_works).
Context (formatted : Runner.ProfilingResults → bool → bool → string).
Context `{MemBus} (nvme_enabled : bool) (garbage : Z).
Context (xs : list mtl_file_extent) (off len : Z) (e : nat) (p b c : Z).

(** The extents of a file, and the range of it that is accessed. *)
Record file_range : Prop := {
  fr_length : (length xs ≤ 512)%nat;
  fr_extents : Forall ext_ok (pairs xs);
  fr_total : total (pairs xs) < 2 ^ 64;
  fr_off : 0 ≤ off;
  fr_len : 0 < len < 2 ^ 32;
  fr_end : off + len < 2 ^ 63;
  fr_placed : placed (pairs xs) off len e p b c;
}.
Context (Hrange : file_range).

(** A buffer of the host. *)
Definition buffer_ok (buffer : Z) : Prop := 0 ≤ buffer ∧ buffer + len < 2 ^ 63.

(** Where the range begins in the card's memory. *)
Definition base : Z := byte_address off p off.

Lemma base_above x : base ≤ x < base + len → 2 ^ 63 ≤ x.
Proof using Hrange.
  destruct Hrange as [_ Hok _ ? ? ? Hp]. intros Hx.
  destruct (card_range_inside (pairs xs) off len e p b c ltac:(done) Hp x Hok Hx) as [? ?].
  unfold DRAMBaseOffset in *. change StorageBlockSize with 262144 in *. lia.
Qed.

Lemma clear_of_card a1 a2 lo n x : allocated a1 lo n → allocated a2 lo n → 2 ^ 63 ≤ x → clear_of a1 a2 x.
Proof. intros (_ & ? & ? & _) (_ & ? & ? & _) ?. unfold clear_of. lia. Qed.

Lemma card_slot_reached n T m : 0 < n ≤ len → represents (dram_map m) (pairs xs) →
  reaches nvme_enabled (on_card off n) base T m.
Proof using Hrange.
  intros Hn Hrep. destruct Hrange as [_ _ _ ? ? ? Hp].
  by apply (card_reached nvme_enabled (pairs xs) off len e p b c).
Qed.

Context (Hbus : ADDR_RIGHT_SHIFT = 6%nat) {channels : DataMover} {laws : DataMoverLaws}.

(** The jobs of a write leave the bytes of the buffer in the blocks of the file. *)
Lemma write_executed s irqs buffer block a1 a2 a3 :
  buffer_ok buffer → Jobs.h_interrupts s = 0 :: irqs → Z.of_nat (length block) ≤ 8256 →
  allocated a1 buffer len → allocated a2 buffer len →
  ∃ s', executes nvme_enabled id garbage
          (zip (transfer_log 1 xs block (in_host buffer len) (on_card off len)) [a1; a2; a3]) s s' ∧
    Jobs.h_direct2 s' = len ∧ Jobs.h_interrupts s' = irqs ∧
    ∀ x, clear_of a1 a2 x →
      Jobs.h_mem s' x = store (Jobs.h_mem s) base (fetch (Jobs.h_mem s) buffer len) x.
Proof using Hrange Hbus laws.
  intros [Hb1 Hb2] Hirq Hblk Ha1 Ha2. pose proof Hrange as [Hl Hok Ht ? ? ? _].
  destruct (transfer_executed Hbus nvme_enabled id garbage s irqs 1 xs block
    (in_host buffer len) (on_card off len) buffer base a1 a2 a3) as (s' & E & Hd & Hi & Hm); try done.
  - by left.
  - by right.
  - cbn [in_host a_size]. lia.
  - cbn [on_card a_size]. lia.
  - intros s2 Hrep. split; [apply host_reached; lia|]. apply card_slot_reached; [lia|exact Hrep].
  - apply fetch_nonempty. cbn [in_host a_size]. lia.
  - unfold id. rewrite fetch_length; cbn [in_host on_card a_size]; lia.
  - exists s'. unfold id in Hd. rewrite fetch_length in Hd by (cbn [in_host a_size]; lia). done.
Qed.

(** The jobs of a read leave them in the buffer. *)
Lemma read_executed s irqs buffer block a1 a2 a3 :
  buffer_ok buffer → Jobs.h_interrupts s = 0 :: irqs → Z.of_nat (length block) ≤ 8256 →
  allocated a1 buffer len → allocated a2 buffer len →
  ∃ s', executes nvme_enabled id garbage
          (zip (transfer_log 0 xs block (on_card off len) (in_host buffer len)) [a1; a2; a3]) s s' ∧
    Jobs.h_direct2 s' = len ∧ Jobs.h_interrupts s' = irqs ∧
    ∀ x, clear_of a1 a2 x →
      Jobs.h_mem s' x = store (Jobs.h_mem s) buffer (fetch (Jobs.h_mem s) base len) x.
Proof using Hrange Hbus laws.
  intros [Hb1 Hb2] Hirq Hblk Ha1 Ha2. pose proof Hrange as [Hl Hok Ht ? ? ? _].
  assert (∀ a lo n, allocated a lo n → allocated a base len) as Hal.
  { intros a lo n (? & ? & ? & _). split_and!; try done. left.
    pose proof (base_above base). lia. }
  destruct (transfer_executed Hbus nvme_enabled id garbage s irqs 0 xs block
    (on_card off len) (in_host buffer len) base buffer a1 a2 a3) as (s' & E & Hd & Hi & Hm); try done.
  - by right.
  - by left.
  - cbn [on_card a_size]. lia.
  - cbn [in_host a_size]. lia.
  - intros s2 Hrep. split; [|apply host_reached; lia]. apply card_slot_reached; [lia|exact Hrep].
  - by eapply Hal.
  - by eapply Hal.
  - apply fetch_nonempty. cbn [on_card a_size]. lia.
  - unfold id. rewrite fetch_length; cbn [in_host on_card a_size]; lia.
  - exists s'. unfold id in Hd. rewrite fetch_length in Hd by (cbn [on_card a_size]; lia). done.
Qed.

Lemma switch_block_small block : switch_block [] = Ok block → Z.of_nat (length block) ≤ 8256.
Proof.
  intros E. destruct (switch_block_run []) as (block' & E' & Hl & _); [done|].
  rewrite E in E'. injection E' as <-. rewrite Hl. lia.
Qed.

(** A write and the read of the same range that follows it. *)
Lemma storage_round_trip_run (st st' : PipelineStorage (B := B)) ino k src buffer1 buffer2 s irqs places1 places2 :
  ps_type st = ATCardDRAM → ps_map st = MTDRAM →
  create_file_sink (Some st) ino off len false = Ok k → fk_storage k = Some st' →
  off + len ≤ fk_cachedTotalSize k → fk_extents k = xs →
  create_file_source (Some st') ino off len = Ok src →
  fs_dataSource src = on_card off len → fs_extents src = xs → xs ≠ [] →
  buffer_ok buffer1 → buffer_ok buffer2 → Jobs.h_interrupts s = 0 :: 0 :: irqs →
  length places1 = 3%nat → Forall (λ a, allocated a buffer1 len) places1 →
  length places2 = 3%nat → Forall (λ a, allocated a buffer2 len) places2 →
  storage_write formatted st ino off buffer1 len = Ok (MTL_SUCCESS, Some st') ∧
  storage_read formatted st' ino off buffer2 len = Ok MTL_SUCCESS ∧
  ∃ s1 s2,
    executes nvme_enabled id garbage
      (zip (write_jobs formatted st ino off buffer1 len) places1) s s1 ∧
    executes nvme_enabled id garbage
      (zip (read_jobs formatted st' ino off buffer2 len) places2) s1 s2 ∧
    fetch (Jobs.h_mem s2) buffer2 len = fetch (Jobs.h_mem s) buffer1 len ∧
    ∀ x, Forall (λ a, ¬ (a ≤ x < a + 8256)) (places1 ++ places2) →
      ¬ (buffer2 ≤ x < buffer2 + len) → ¬ (base ≤ x < base + len) →
      Jobs.h_mem s2 x = Jobs.h_mem s x.
Proof using Hrange Hbus laws Hcard.
  intros Hty Hmap Ek Est Hk Hkx Es Eds Esx Hne Hb1 Hb2 Hirq Hl1 Hp1 Hl2 Hp2.
  pose proof Hrange as [_ _ _ ? ? ? _].
  destruct (storage_write_run Hcard formatted st ino off buffer1 len k)
    as (n1 & ctx1 & k' & r1 & bl1 & Hsw1 & Ew & Hw); try done.
  assert (∃ x0 xs', xs = x0 :: xs') as (x0 & xs' & Exs) by (destruct xs; [done|eauto]).
  destruct (storage_read_run Hcard formatted st' ino off buffer2 len src len x0 xs')
    as (n2 & src' & ctx2 & r2 & bl2 & Hsw2 & Er & Hr); try done; [by rewrite Esx|].
  rewrite <-Exs in Er. rewrite Hkx in Ew. rewrite Est in Hw.
  destruct places1 as [|a1 [|a2 [|a3 [|]]]]; try done.
  destruct places2 as [|a4 [|a5 [|a6 [|]]]]; try done.
  apply Forall_cons in Hp1 as [A1 [A2 [A3 _]%Forall_cons]%Forall_cons].
  apply Forall_cons in Hp2 as [A4 [A5 [A6 _]%Forall_cons]%Forall_cons].
  destruct (write_executed s (0 :: irqs) buffer1 bl1 a1 a2 a3) as (s1 & X1 & _ & I1 & M1);
    [done|done|by apply switch_block_small|done..|].
  destruct (read_executed s1 irqs buffer2 bl2 a4 a5 a6) as (s2 & X2 & _ & _ & M2);
    [done|done|by apply switch_block_small|done..|].
  assert (fetch (Jobs.h_mem s1) base len = fetch (Jobs.h_mem s) buffer1 len) as Hcard1.
  { set (bs := fetch (Jobs.h_mem s) buffer1 len) in *.
    assert (Z.of_nat (length bs) = len) as Hbs by (apply fetch_length; lia).
    transitivity (fetch (store (Jobs.h_mem s) base bs) base len).
    - apply fetch_range. intros x Hx. apply M1. apply (clear_of_card _ _ _ _ _ A1 A2).
      by apply base_above.
    - pose proof (fetch_store (Jobs.h_mem s) base bs) as Hfs. by rewrite Hbs in Hfs. }
  split; [done|]. split; [done|]. exists s1, s2.
  split; [unfold write_jobs; rewrite Ek, Ew; exact X1|].
  split; [unfold read_jobs; rewrite Es, Er; exact X2|]. rewrite Hcard1 in M2. split.
  - set (bs := fetch (Jobs.h_mem s) buffer1 len) in *.
    assert (Z.of_nat (length bs) = len) as Hbs by (apply fetch_length; lia).
    transitivity (fetch (store (Jobs.h_mem s1) buffer2 bs) buffer2 len).
    + apply fetch_range. intros x Hx. apply M2. destruct A4 as (_ & _ & _ & ?), A5 as (_ & _ & _ & ?).
      unfold clear_of. lia.
    + pose proof (fetch_store (Jobs.h_mem s1) buffer2 bs) as Hfs. by rewrite Hbs in Hfs.
  - intros x Hx Hx2 Hx3. rewrite !Forall_app, !Forall_cons in Hx.
    destruct Hx as [(? & ? & _) (? & ? & _)].
    rewrite M2, store_outside, M1, store_outside;
      rewrite ?fetch_length by lia; by unfold clear_of.
Qed.

(** C6: on a storage in the card's memory, [write] of a host buffer to a range
    of a file that is long enough and whose range lies in one extent succeeds, so
    does the [read] of that range that follows, and when the card carries out
    the jobs the two hand to it, with the parameter blocks wherever the host
    allocates them, the second buffer holds the bytes of the first; host memory
    outside the blocks and that buffer, and card memory outside the range, keep
    their contents. *)
Theorem card_storage_round_trip (st st' : PipelineStorage (B := B)) ino k src buffer1 buffer2 s irqs places1 places2 :
  ps_type st = ATCardDRAM → ps_map st = MTDRAM →
  create_file_sink (Some st) ino off len false = Ok k → fk_storage k = Some st' →
  off + len ≤ fk_cachedTotalSize k → fk_extents k = xs →
  create_file_source (Some st') ino off len = Ok src →
  fs_dataSource src = on_card off len → fs_extents src = xs → xs ≠ [] →
  buffer_ok buffer1 → buffer_ok buffer2 → Jobs.h_interrupts s = 0 :: 0 :: irqs →
  length places1 = 3%nat → Forall (λ a, allocated a buffer1 len) places1 →
  length places2 = 3%nat → Forall (λ a, allocated a buffer2 len) places2 →
  storage_write formatted st ino off buffer1 len = Ok (MTL_SUCCESS, Some st') ∧
  storage_read formatted st' ino off buffer2 len = Ok MTL_SUCCESS ∧
  ∃ s1 s2,
    executes nvme_enabled id garbage
      (zip (write_jobs formatted st ino off buffer1 len) places1) s s1 ∧
    executes nvme_enabled id garbage
      (zip (read_jobs formatted st' ino off buffer2 len) places2) s1 s2 ∧
    fetch (Jobs.h_mem s2) buffer2 len = fetch (Jobs.h_mem s) buffer1 len ∧
    ∀ x, Forall (λ a, ¬ (a ≤ x < a + 8256)) (places1 ++ places2) →
      ¬ (buffer2 ≤ x < buffer2 + len) → ¬ (base ≤ x < base + len) →
      Jobs.h_mem s2 x = Jobs.h_mem s x.
Proof using Hrange Hbus laws Hcard. exact (storage_round_trip_run st st' ino k src buffer1 buffer2 s irqs places1 places2). Qed.
End EndToEnd.
End CardStorage.

(** ** A file of four blocks *)

Module StorageDemo.
Import Extmap OpMem Transfers Pipeline DataContexts Card JobFacts CardJobs CardFacts.

#[local] Instance machine : Machine :=
  {| stack_limit := 8388608; garbage := λ _, 165; uninit := λ _, 77 |}.
#[local] Existing Instance RunDemo.card.
#[local] Existing Instance Transfers.Demo.bus.

Definition extents : list mtl_file_extent := [FileExtent 6 4].

Definition world : Metal.world (B := unit) :=
  Metal.World
    (set_inodes (mdb_put mdb_empty 3
       (Inode MTL_FILE 1000000 0 0 7 7 7 33188, extents_bytes extents)) empty_txn, false)
    (StorageMetadata (64 * 1024 * 1024) StorageBlockSize) tt.

Definition storage : PipelineStorage (B := unit) := MkPipelineStorage ATCardDRAM MTDRAM world None.

(** A card whose memory holds the number of each address. *)
Definition card : Jobs.hw :=
  Jobs.Hw (λ a, a mod 256) (λ _, 0) Demo.no_maps Demo.no_maps no_address no_address 0 [0; 0] [] [] [] [] [].

Lemma range : CardStorage.file_range extents 262140 100 0 6 6 4.
Proof.
  split; [cbn; lia| |by vm_compute|lia|lia|lia|].
  - unfold pairs. apply Forall_app. split.
    { repeat constructor; cbn; lia. }
    apply Forall_forall. intros x Hx%list_elem_of_In%repeat_spec. subst. unfold ext_ok. cbn. lia.
  - split; [reflexivity..|by vm_compute|by vm_compute].
Qed.

Lemma card_storage_round_trip_witness :
  ∃ s1 s2,
    executes true id 0 (zip (CardStorage.write_jobs (λ _ _ _, "") storage 3 262140 1000 100)
                            [65536; 131072; 196608]) card s1 ∧
    executes true id 0 (zip (CardStorage.read_jobs (λ _ _ _, "") storage 3 262140 4000 100)
                            [65536; 131072; 196608]) s1 s2 ∧
    fetch (Jobs.h_mem s2) 4000 100 = (λ i, (1000 + i) mod 256) <$> seqZ 0 100.
Proof.
  destruct (create_file_sink (Some storage) 3 262140 100 false) as [k|] eqn:Ek; [|by vm_compute in Ek].
  destruct (create_file_source (Some storage) 3 262140 100) as [c|] eqn:Ec; [|by vm_compute in Ec].
  pose proof Ek as Fk. pose proof Ec as Fc. vm_compute in Fk, Fc.
  injection Fk as Fk. injection Fc as Fc.
  destruct (CardStorage.card_storage_round_trip RunDemo.works
    (λ _ _ _, "") true 0 extents 262140 100 0 6 6 4 range Demo.six storage storage 3
    k c 1000 4000 card [] [65536; 131072; 196608] [65536; 131072; 196608]
    eq_refl eq_refl Ek) as (_ & _ & s1 & s2 & E1 & E2 & Hm & _).
  - by subst k.
  - subst k. cbn. lia.
  - by subst k.
  - exact Ec.
  - by subst c.
  - by subst c.
  - done.
  - unfold CardStorage.buffer_ok. lia.
  - unfold CardStorage.buffer_ok. lia.
  - done.
  - done.
  - repeat constructor; cbn; lia.
  - done.
  - repeat constructor; cbn; lia.
  - exists s1, s2. split; [exact E1|]. split; [exact E2|]. rewrite Hm. reflexivity.
Defined.
End StorageDemo.
