(* ===== verification/CardNvme.v ===== *)
(** * Jobs of a card with an NVMe drive

    [CardJobs] carries jobs out on the card's memory. With a drive the
    controller and the DataMover share the work, and the order in which they get
    on is not determined: [performs_all] says that one job succeeds whatever the
    order, and that every state the card and the drive can then be in has a
    property; [executes_all] says it of the jobs of the host. The jobs of a file
    on the drive go through the page files ([Nvme]). *)
From S2P Require Import Prelude Tiling Structs Inode Endian Extmap OpMem Jobs Pipeline Runner.
From S2P Require Import DataContexts TransferProofs CardMemory NvmeMemory JobsProofs CardJobs.
From S2P Require Import CardStorage.

Module NvmeJobs.
Import Endian Extmap OpMem Jobs Pipeline Card Nvme CardJobs CardFacts.

Section Jobs.
Context `{MemBus, DataMover, NVMeController} (f : list Z → list Z) (garbage : Z).

(** What the controller fetches on its own. *)
Definition fetched (pre : list NVMeCommand) (d : disk) (mem : memory) : memory :=
  foldl (λ m c, nvme_load c d m) mem pre.

(** The boundary blocks that [action_run_operators] fetches first. *)
Definition preloaded (j : Job) (s : hw) : list NVMeCommand :=
  match job_type j with
  | RunOperators => (preload_of true (job_destination j) (h_write_maps s)).1
  | _ => []
  end.

(** The engines at the commands that a job has issued since [s]: the boundary
    blocks first, then the stream from the source, through [f], to the
    destination. At most one of the two is on the drive. *)
Definition engines (j : Job) (s s1 : hw) (d : disk) (ss : list IbttStatus) (mem' : memory) (d' : disk) : Prop :=
  let pre := preloaded j s in
  ∃ out mem1,
    delivers d (drop (length pre) (issued_since h_nvme_read s s1)) (issued_since h_mm2s s s1)
      (fetched pre d (h_mem s1)) out mem1 ∧
    persists (issued_since h_s2mm s s1) (issued_since h_nvme_write s s1) (f out) mem1 d ss mem' d'.

(** The job succeeds with the answers that the engines give, in every order, and
    leaves a state with the property. *)
Definition performs_all (j : Job) (s : hw) (d : disk) (post : hw → disk → Prop) : Prop :=
  ∃ sts s1,
    process_action true garbage j (set_statuses sts s) = Ok (SNAP_RETC_SUCCESS, s1) ∧
    (∃ ss mem' d', engines j s s1 d ss mem' d') ∧
    ∀ ss mem' d', engines j s s1 d ss mem' d' → ss = sts ∧ post (set_mem mem' s1) d'.

(** Host jobs with the addresses of their parameter blocks. *)
Fixpoint executes_all (js : list (HostJob * Z)) (s : hw) (d : disk) (post : hw → disk → Prop) : Prop :=
  match js with
  | [] => post s d
  | (j, a) :: js =>
      performs_all (card_job a j) (set_mem (store (h_mem s) a (hj_parameters j)) s) d
        (λ s d, executes_all js s d post)
  end.
End Jobs.
End NvmeJobs.

Module NvmeJobFacts.
Import Endian Extmap OpMem Transfers Jobs Pipeline Card Nvme JobFacts CardJobs CardFacts NvmeJobs.

Section Facts.
Context `{MemBus} (Hbus : ADDR_RIGHT_SHIFT = 6%nat) `{Device}.
Context {channels : DataMover} {laws : DataMoverLaws}.
Context {controller : NVMeController} {nvme_laws : NVMeLaws}.
Context (garbage : Z).

Lemma performs_impl (f : list Z → list Z) j s d (post post' : hw → disk → Prop) :
  performs_all f garbage j s d post → (∀ s d, post s d → post' s d) → performs_all f garbage j s d post'.
Proof.
  intros (sts & s1 & Hp & Hex & Hall) Himp. exists sts, s1. split; [done|]. split; [done|].
  intros ss mem' d' He. destruct (Hall ss mem' d' He). auto.
Qed.

Lemma executes_impl (f : list Z → list Z) js (post post' : hw → disk → Prop) :
  (∀ s d, post s d → post' s d) → ∀ s d, executes_all f garbage js s d post → executes_all f garbage js s d post'.
Proof.
  intros Himp. induction js as [|[j a] js IH]; intros s d; [by apply Himp|].
  cbn [executes_all]. intros Hp. eapply performs_impl; [exact Hp|]. intros. by apply IH.
Qed.

Lemma fetched_host pre d mem x : x < DRAMBaseOffset → fetched pre d mem x = mem x.
Proof using nvme_laws.
  intros Hx. unfold fetched. revert mem. induction pre as [|c pre IH]; intros mem; [done|].
  cbn [foldl]. rewrite IH. by apply nvme_load_host.
Qed.

(** A job that issues no commands. *)
Lemma quiet_all (f : list Z → list Z) j s d s1 (post : hw → disk → Prop) :
  job_type j ≠ RunOperators →
  process_action true garbage j (set_statuses [] s) = Ok (SNAP_RETC_SUCCESS, s1) →
  h_mm2s s1 = h_mm2s s → h_s2mm s1 = h_s2mm s → h_nvme_read s1 = h_nvme_read s →
  h_nvme_write s1 = h_nvme_write s → post (set_mem (h_mem s1) s1) d →
  performs_all f garbage j s d post.
Proof.
  intros Hj E Q1 Q2 Q3 Q4 Hpost. exists [], s1. split; [done|].
  assert (preloaded j s = []) as Epre by (unfold preloaded; by destruct (job_type j)).
  unfold engines. rewrite Epre, !(issued_since_same _ s s1) by done. cbn [drop length fetched foldl].
  split; [exists [], (h_mem s1), d; do 2 eexists; split; constructor|].
  intros ss mem' d' (out & mem1 & Hd & Hp).
  destruct (delivers_alone _ _ _ _ _ _ Hd eq_refl) as [_ ->].
  pose proof (persists_alone _ _ _ _ _ _ _ _ Hp eq_refl) as ->.
  apply persists_received in Hp. injection Hp as <- <-. done.
Qed.

Lemma represents_like m m' extents : represents m extents → extents_begin m' = extents_begin m →
  extents_count m' = extents_count m → extents_nextlblock m' = extents_nextlblock m →
  represents m' extents.
Proof. intros [] ???. split; congruence. Qed.

Lemma seek_represents m extents l : represents m extents → 0 ≤ l →
  represents (mtl_extmap_seek m l).2 extents.
Proof.
  intros Hrep Hl. rewrite (seek_run _ _ _ Hrep Hl).
  destruct (translate extents l) as [[e p]|]; [|done]. by eapply represents_like.
Qed.

(** Fetching the boundary blocks moves the maps and keeps what they are. *)
Lemma preload_represents addr n m dext fext : 0 ≤ addr →
  represents (dram_map m) dext → represents (nvme_map m) fext →
  let m' := (preload_of true (on_nvme addr n) m).2 in
  represents (dram_map m') dext ∧ represents (nvme_map m') fext.
Proof.
  intros Ha Hd Hf. pose proof block_size_pos as HB.
  set (both m := represents (dram_map m) dext ∧ represents (nvme_map m) fext).
  assert (∀ a m c m', 0 ≤ a → both m → preload_block MTDRAMAndNVMe a m = (c, m') → both m') as Hb.
  { intros a m1 c m' Hp [H1 H2] [= _ <-]. split; cbn [dram_map nvme_map];
      apply seek_represents; try done; apply Z.div_pos; try lia. by apply Z.mod_pos_bound. }
  assert (0 ≤ addr +ᵤ n) as Hu by apply u64_range. assert (both m) as Hm by done.
  cbn zeta. fold (both (preload_of true (on_nvme addr n) m).2).
  unfold preload_of. cbn [andb on_nvme a_type]. rewrite bool_decide_eq_true_2 by done.
  unfold preload_nvme_blocks. cbn [a_addr a_size a_map].
  set (last := addr +ᵤ n) in *. repeat case_match; simplify_eq/=; eauto.
Qed.

(** The parameter block of a job is not where the transfers read or write. *)
Definition clear_of_all (places : list Z) (x : Z) : Prop := Forall (λ a, ¬ (a ≤ x < a + 8256)) places.

(** What installing extents leaves as it was. *)
Definition like (places : list Z) (s s' : hw) : Prop :=
  h_interrupts s' = h_interrupts s ∧ ∀ x, clear_of_all places x → h_mem s' x = h_mem s x.

Definition place_ok (a : Z) : Prop := a mod 64 = 0 ∧ 0 ≤ a ∧ a + 8256 < 2 ^ 63.

Lemma like_stored places s s' a block : like places s s' → Z.of_nat (length block) ≤ 8256 →
  like (a :: places) s (set_mem (store (h_mem s') a block) s').
Proof.
  intros [Hi Hm] Hl. split; [done|]. intros x [Hx Hc]%Forall_cons. cbn [set_mem h_mem].
  rewrite store_outside by lia. auto.
Qed.

(** The job for the switch. *)
Lemma configure_all (f : list Z → list Z) s d block a js post :
  Z.of_nat (length block) ≤ 8256 →
  (∀ s', like [a] s s' → executes_all f garbage js s' d post) →
  executes_all f garbage ((indirect ConfigureStreams block, a) :: js) s d post.
Proof.
  intros Hl Hpost. cbn [executes_all hj_parameters indirect].
  set (s0 := set_mem (store (h_mem s) a block) s).
  destruct (configure_processed true garbage (set_statuses [] s0) a block) as [g E].
  eapply quiet_all; [done|exact E|done..|]. apply Hpost.
  change (like [a] s (set_mem (h_mem s0) (map_regs g (set_statuses [] s0)))).
  destruct (like_stored [] s s a block) as [Hi Hm]; [by split|done|]. by split.
Qed.

(** A job with the extents for a slot. *)
Lemma map_all (f : list Z → list Z) s d slot xs a js post :
  place_ok a → 0 ≤ slot < 4 →
  (length xs ≤ 512)%nat → Forall ext_ok (pairs xs) → total (pairs xs) < 2 ^ 64 →
  (∀ s', like [a] s s' → represents (slot_map slot s') (pairs xs) →
     (∀ slot', 0 ≤ slot' < 4 → slot' ≠ slot → slot_map slot' s' = slot_map slot' s) →
     executes_all f garbage js s' d post) →
  executes_all f garbage ((indirect Map (DataContexts.map_block slot xs), a) :: js) s d post.
Proof using Hbus.
  intros (Ha & Hp & Hend) Hslot Hxs Hok Ht Hpost. cbn [executes_all hj_parameters indirect].
  set (s0 := set_mem (store (h_mem s) a (DataContexts.map_block slot xs)) s).
  destruct (map_processed Hbus true garbage (set_statuses [] s0) a slot xs)
    as (rm & wm & E & Hrep & Hother); [apply memory_holds_store|done..|lia|done|done|done|done|].
  eapply quiet_all; [done|exact E|done..|]. apply Hpost; [|exact Hrep|exact Hother].
  change (like [a] s (set_mem (h_mem s0) (set_maps rm wm (set_statuses [] s0)))).
  destruct (like_stored [] s s a (DataContexts.map_block slot xs)) as [Hi Hm];
    [by split|by rewrite length_map_block|]. by split.
Qed.

(** The jobs before the run: the switch, the extents of the page file and of the
    file. *)
Lemma prepared_all (f : list Z → list Z) s d block pext xs dslot nslot src dst a1 a2 a3 a4 post :
  Z.of_nat (length block) ≤ 8256 → place_ok a2 → place_ok a3 →
  0 ≤ dslot < 4 → 0 ≤ nslot < 4 → dslot ≠ nslot →
  (length pext ≤ 512)%nat → Forall ext_ok (pairs pext) → total (pairs pext) < 2 ^ 64 →
  (length xs ≤ 512)%nat → Forall ext_ok (pairs xs) → total (pairs xs) < 2 ^ 64 →
  (∀ s', like [a1; a2; a3; a4] s s' →
     represents (slot_map dslot s') (pairs pext) → represents (slot_map nslot s') (pairs xs) →
     performs_all f garbage (card_job a4 (MkHostJob RunOperators [] src dst 1 1)) s' d post) →
  executes_all f garbage
    (zip (CardStorage.mapped_log [indirect Map (DataContexts.map_block dslot pext);
            indirect Map (DataContexts.map_block nslot xs)] block src dst) [a1; a2; a3; a4]) s d post.
Proof using Hbus.
  intros Hl A2 A3 Hd Hn Hne P1 P2 P3 X1 X2 X3 Hpost. cbn [CardStorage.mapped_log app zip zip_with].
  apply configure_all; [done|]. intros s1 [I1 M1].
  apply map_all; [done..|]. intros s2 [I2 M2] R2 _.
  apply map_all; [done..|]. intros s3 [I3 M3] R3 O3.
  cbn [executes_all]. apply Hpost; [|by rewrite <-O3 in R2|exact R3].
  split; [cbn; congruence|]. intros x Hx. unfold clear_of_all in *. rewrite !Forall_cons in Hx.
  destruct Hx as (C1 & C2 & C3 & _). cbn [set_mem h_mem]. rewrite store_outside by (cbn; lia).
  by rewrite M3, M2, M1 by by apply Forall_singleton.
Qed.

(** ** The run *)

(** A run of the operators between [src] and [dst] without operators. *)
Definition run_job (a : Z) (src dst : Address) : Job := card_job a (MkHostJob RunOperators [] src dst 1 1).

(** What the engines get, from what the two halves of the transfer issue. *)
Lemma engines_run (f : list Z → list Z) a src dst s sts irqs pre wm0 ri rm wi n wm :
  preload_of true dst (h_write_maps s) = (pre, wm0) → h_interrupts s = 0 :: irqs →
  (∀ r, op_mem_read true RandomBaseAddr src (h_read_maps s) r = Ok (ri, rm, r)) →
  op_mem_write true dst sts wm0 = Ok (wi, n, wm) →
  ∃ s1, process_action true garbage (run_job a src dst) (set_statuses sts s) = Ok (SNAP_RETC_SUCCESS, s1) ∧
    h_direct2 s1 = n ∧ h_interrupts s1 = irqs ∧
    ∀ d ss mem' d', engines f (run_job a src dst) s s1 d ss mem' d' ↔
      ∃ out mem1, delivers d (i_nvme ri) (i_dm ri) (fetched pre d (h_mem s)) out mem1 ∧
        persists (i_dm wi) (i_nvme wi) (f out) mem1 d ss mem' d'.
Proof.
  intros Hpre Hirq Hr Hw.
  destruct (run_operators_job_run true garbage (run_job a src dst) (set_statuses sts s) irqs irqs pre wm0
    ri rm wi n wm) as (s1 & E & Hm & Hd & Hi & Q1 & Q2 & Q3 & Q4); try done.
  exists s1. split; [exact E|]. split; [done|]. split; [done|]. intros d ss mem' d'.
  unfold engines. change (preloaded (run_job a src dst) s) with (preload_of true dst (h_write_maps s)).1.
  rewrite Hpre. cbn [fst]. cbn [set_statuses h_mem h_mm2s h_s2mm h_nvme_read h_nvme_write] in *.
  rewrite (issued_since_app h_mm2s s s1 _ Q1), (issued_since_app h_s2mm s s1 _ Q2),
    (issued_since_app h_nvme_read s s1 _ Q3), (issued_since_app h_nvme_write s s1 _ Q4).
  by rewrite drop_app_length, Hm.
Qed.

(** From host memory to a range of a file on the drive. *)
Lemma run_to_drive a s irqs d buffer addr n fext fe pf fb fc wext we pw wb wc :
  h_interrupts s = 0 :: irqs → 0 ≤ buffer → buffer + n < 2 ^ 63 →
  0 ≤ addr → 0 < n → addr + n < 2 ^ 63 →
  placed fext addr n fe pf fb fc → placed wext (window addr) n we pw wb wc →
  represents (slot_map 3 s) fext → represents (slot_map 1 s) wext →
  performs_all id garbage (run_job a (in_host buffer n) (on_nvme addr n)) s d (λ s' d',
    h_interrupts s' = irqs ∧ h_direct2 s' = n ∧
    (∀ x, x < DRAMBaseOffset → h_mem s' x = h_mem s x) ∧
    (∀ i, 0 ≤ i < n → d' (first_byte addr pf + i) = h_mem s (buffer + i)) ∧
    ∀ y, ¬ (pf * StorageBlockSize ≤ y < end_block addr n pf * StorageBlockSize) → d' y = d y).
Proof using Hbus laws nvme_laws.
  intros Hirq Hb Hbn Ha Hn Han Hf Hw Rf Rw.
  destruct (preload_of true (on_nvme addr n) (h_write_maps s)) as [pre wm0] eqn:Epre.
  destruct (preload_represents addr n (h_write_maps s) wext fext Ha Rw Rf) as [W0 F0].
  rewrite Epre in W0, F0. cbn [snd] in W0, F0.
  set (bs := fetch (h_mem s) buffer n).
  assert (Z.of_nat (length bs) = n) as Hbs by (apply fetch_length; lia).
  assert (bs ≠ []) as Hne by (by apply fetch_nonempty).
  pose proof (nvme_write_run addr bs (fetched pre d (h_mem s)) d wm0 fext fe pf fb fc wext we pw wb wc) as Hwr.
  rewrite Hbs in Hwr.
  destruct Hwr as (sts & wi & wm & Ew & (ss0 & mem0 & d0 & Hex) & Hall); try done.
  destruct (op_mem_read_run true (in_host buffer n) buffer RandomBaseAddr (fetched pre d (h_mem s))
    (h_read_maps s) (λ _, 0) (or_introl eq_refl) (host_reached true Read buffer n (h_read_maps s) Hb Hn Hbn) Hn)
    as (ri & rm & Er & Hri & Hsent).
  assert (sent (i_dm ri) (fetched pre d (h_mem s)) = bs) as Hbytes.
  { rewrite Hsent. apply fetch_range. intros x Hx. cbn [in_host a_size] in Hx. apply fetched_host.
    unfold DRAMBaseOffset. lia. }
  destruct (engines_run id a (in_host buffer n) (on_nvme addr n) s sts irqs pre wm0 ri rm wi n wm Epre Hirq)
    as (s1 & E & Hd & Hi & Heng); [|exact Ew|].
  { intros r. by eapply op_mem_read_regs; [left|exact Er]. }
  exists sts, s1. split; [exact E|]. split.
  { exists ss0, mem0, d0. apply Heng. exists bs, (fetched pre d (h_mem s)). split; [|exact Hex].
    destruct (delivers_exists d (i_dm ri) (i_nvme ri) (fetched pre d (h_mem s))) as (out & mem1 & Hdel).
    pose proof Hdel as Hdel'. apply delivers_alone in Hdel' as [-> ->]; [|done]. by rewrite Hbytes in Hdel. }
  intros ss mem' d' (out & mem1 & Hdel & Hp)%Heng.
  apply delivers_alone in Hdel as [-> ->]; [|done]. rewrite Hbytes in Hp.
  destruct (Hall ss mem' d' Hp) as (-> & Hh & Hd' & Hout). split; [done|].
  split; [done|]. split; [done|]. split; [intros x Hx; cbn; rewrite Hh by done; by apply fetched_host|].
  split; [|exact Hout]. intros i Hi'. rewrite Hd' by done. unfold bs, fetch.
  rewrite nth_lookup, list_lookup_fmap, lookup_seqZ_lt by lia. cbn. f_equal. lia.
Qed.

(** From a range of a file on the drive to host memory. *)
Lemma run_from_drive a s irqs d buffer addr n fext fe pf fb fc rext re pr rb rc :
  h_interrupts s = 0 :: irqs → 0 ≤ buffer → buffer + n < 2 ^ 63 →
  0 ≤ addr → 0 < n → addr + n < 2 ^ 63 →
  placed fext addr n fe pf fb fc → placed rext (window addr) n re pr rb rc →
  represents (slot_map 2 s) fext → represents (slot_map 0 s) rext →
  performs_all id garbage (run_job a (on_nvme addr n) (in_host buffer n)) s d (λ s' d',
    h_interrupts s' = irqs ∧ h_direct2 s' = n ∧ d' = d ∧
    ∀ x, x < DRAMBaseOffset →
      h_mem s' x = store (h_mem s) buffer (fetch d (first_byte addr pf) n) x).
Proof using Hbus laws nvme_laws.
  intros Hirq Hb Hbn Ha Hn Han Hf Hr Rf Rr.
  destruct (nvme_read_run addr n d (h_read_maps s) RandomBaseAddr fext fe pf fb fc rext re pr rb rc)
    as (ri & rm & Er & Hex & Hread); try done.
  set (bs := fetch d (first_byte addr pf) n) in *.
  assert (Z.of_nat (length bs) = n) as Hbs by (apply fetch_length; lia).
  assert (bs ≠ []) as Hne by (by apply fetch_nonempty).
  destruct (op_mem_write_run true (in_host buffer n) buffer bs (h_write_maps s) (or_introl eq_refl))
    as (sts & wi & wm & Ew & Hwi & Hall); [cbn; lia|by apply host_reached|done|cbn; lia|].
  rewrite Hbs in Ew.
  destruct (engines_run id a (on_nvme addr n) (in_host buffer n) s sts irqs [] (h_write_maps s) ri rm wi n wm)
    as (s1 & E & Hd & Hi & Heng); try done.
  exists sts, s1. split; [exact E|]. split.
  { destruct (Hex (h_mem s)) as (out & mem1 & Hdel).
    destruct (persists_exists (i_dm wi) (i_nvme wi) out mem1 d) as (ss & mem' & d' & Hp).
    exists ss, mem', d'. apply Heng. by exists out, mem1. }
  intros ss mem' d' (out & mem1 & Hdel & Hp)%Heng.
  pose proof (Hread _ _ _ Hdel) as ->. rewrite (persists_alone _ _ _ _ _ _ _ _ Hp Hwi).
  apply persists_received in Hp. destruct (Hall mem1) as (mem2 & Hrec & Hm).
  unfold id in Hp. rewrite Hrec in Hp. injection Hp as <- <-. split; [done|].
  split; [done|]. split; [done|]. split; [done|]. intros x Hx. cbn [set_mem h_mem]. rewrite Hm.
  unfold store. destruct (_ && _); [done|]. by rewrite (delivers_host _ _ _ _ _ _ _ Hdel Hx).
Qed.
End Facts.
End NvmeJobFacts.
