(* ===== verification/CardFiles.v ===== *)
(** * Files on a storage on the card

    The calls of metal.h on a file system whose backend is a storage in the card's
    memory: the metadata are changed by [File] and [ExtentDb], the contents by the
    jobs that the backend's callbacks hand to the card ([CardStorage]). The state
    of the backend is the list of these jobs; the bytes that a callback moves are
    at an address of the host. *)
From S2P Require Import Prelude Tiling Lmdb Structs Heap Extent ExtentInv AllocProofs Dirent Inode.
From S2P Require Import Metal File Namespace FileProofs.
From S2P Require Import Endian Extmap OpMem Jobs Pipeline Runner DataContexts StorageSetup.
From S2P Require Import TransferProofs CardMemory JobsProofs CardJobs RunProofs CardStorage.

Module CardFiles.
Import Extmap OpMem Transfers Pipeline DataContexts Card JobFacts CardJobs CardFacts RunFacts CardStorage.
Import Metal File Ns Files.

Section Backend.
Context `{Lmdb} `{Machine} `{Device}.
Context (formatted : Runner.ProfilingResults → bool → bool → string).
Context (type : AddressType) (map : MapType) (dram : option (Metal.world (B := unit))).

(** The storage whose callbacks run, between two transactions. *)
Definition storage_of (env : mdb_env txn) : PipelineStorage (B := unit) :=
  MkPipelineStorage type map (World env storage_get_metadata.2 tt) dram.

(** The callbacks, called with buffers at [source] and [target]. The callers pass
    no range behind the end of the file, so that the sink does not change the
    metadata; a range that does is left out here. *)
Definition card_write (source : Z) (env : mdb_env txn) (ino off : Z) (bytes : list Z) (len : Z) :
    M (list HostJob) Z := λ jobs,
  let st := storage_of env in
  '((_, p), _) ← mtl_load_extent_list ino (ps_world st);
  match p with
  | Some (_, file_length) =>
      if off + len <=? file_length then
        '(rc, _) ← storage_write formatted st ino off source len;
        Ok (rc, jobs ++ write_jobs formatted st ino off source len)
      else Fault OutOfBounds
  | None => Fault NullDeref
  end.

Definition card_read (target : Z) (env : mdb_env txn) (ino off len : Z) :
    M (list HostJob) (Z * list Z) := λ jobs,
  let st := storage_of env in
  rc ← storage_read formatted st ino off target len;
  Ok ((rc, []), jobs ++ read_jobs formatted st ino off target len).

Definition card_backend (source target : Z) : mtl_storage_backend (list HostJob) :=
  StorageSetup.pipeline_backend (card_write source) (card_read target).
End Backend.

Section RoundTrip.
Context `{LmdbLaws} `{Machine} `{Device} (Hcard : card_works).
Context (formatted : Runner.ProfilingResults → bool → bool → string).

(** ** The calls on a storage of any kind *)

Section Calls.
Context (type : AddressType) (map : MapType) (dram : option (Metal.world (B := unit))).
#[local] Abbreviation storage_of := (storage_of type map dram).
#[local] Abbreviation card_backend := (card_backend formatted type map dram).

Lemma extents_loaded env ino inode xs :
  file_at (mdb_committed env) ino inode xs → (length xs ≤ 512)%nat →
  mtl_load_extent_list ino (ps_world (storage_of env)) =
    Ok ((MTL_SUCCESS, Some (xs, i_length inode)), ps_world (storage_of env)).
Proof.
  intros Hf Hx. unfold mtl_load_extent_list, m_lift, mbind, M_bind, m_get. cbn [ps_world storage_of w_env].
  by rewrite (load_extent_list_run _ _ _ _ Hf Hx).
Qed.

(** The contexts of both callbacks for a range inside the file. *)
Lemma contexts_created env ino inode xs off len :
  file_at (mdb_committed env) ino inode xs → (length xs ≤ 512)%nat → ino ≠ 0 →
  0 ≤ off → 0 < len < 2 ^ 32 → off + len ≤ i_length inode → off + len < 2 ^ 63 →
  (∃ k, create_file_sink (Some (storage_of env)) ino off len false = Ok k ∧
     fk_storage k = Some (storage_of env) ∧ fk_extents k = xs ∧
     fk_cachedTotalSize k = i_length inode) ∧
  (∃ src, create_file_source (Some (storage_of env)) ino off len = Ok src ∧
     fs_dataSource src = MkAddress off len type map ∧ fs_extents src = xs ∧
     fs_storage src = Some (storage_of env)).
Proof.
  intros Hf Hx Hino Hoff Hlen Hin Hend.
  pose proof (extents_loaded env ino inode xs Hf Hx) as Hload.
  split.
  - unfold create_file_sink, loadExtents, prepareForTotalSize.
    rewrite (proj2 (Z.eqb_neq ino 0)) by done. cbn [fk_storage r_deref fk_inode_id mbind result_bind].
    rewrite Hload. cbn [mbind result_bind mret result_ret fk_cachedTotalSize].
    rewrite u64_small by (unfold in_u64; lia). rewrite (proj2 (Z.leb_le _ _)) by lia. eauto.
  - unfold create_file_source. rewrite (proj2 (Z.eqb_neq ino 0)) by done. cbn [r_deref mbind result_bind].
    rewrite Hload. cbn [mbind result_bind mret result_ret]. eexists. split; [done|]. split; [|done].
    cbn [fs_dataSource]. unfold file_address, withSize. cbn [storage_of ps_type ps_map a_addr a_type a_map].
    rewrite (u64_small (off + len)) by (unfold in_u64; lia). rewrite Z.min_l by lia.
    rewrite u64_small by (unfold in_u64; lia). by replace (off + len - off) with len by lia.
Qed.

(** The one extent of a new file is a range for transfers. *)
Lemma new_file_range N o blocks size :
  0 ≤ o → 0 < blocks → o + blocks ≤ N → N ≤ 2 ^ 26 → 0 < size < 2 ^ 32 →
  blocks = blocks_up size StorageBlockSize →
  file_range [FileExtent o blocks] 0 size 0 o o blocks.
Proof.
  intros Ho Hb HoN HN Hs Eb. assert (StorageBlockSize = 262144) as HB by done.
  destruct (blocks_up_spec size StorageBlockSize) as [Hup Hup2]; [lia|lia|]. rewrite <-Eb in Hup, Hup2.
  assert (pairs [FileExtent o blocks] = (o, blocks) :: repeat (0, 0) 511) as Epairs by reflexivity.
  split; [cbn; lia| | |lia|lia|lia|]; rewrite ?Epairs.
  - apply Forall_cons. split; [unfold ext_ok; cbn; lia|]. apply Forall_forall.
    intros x Hx%list_elem_of_In%repeat_spec. subst. unfold ext_ok. cbn. lia.
  - change (blocks + total (repeat (0, 0) 511) < 2 ^ 64).
    assert (total (repeat (0, 0) 511) = 0) as -> by reflexivity. lia.
  - split; rewrite ?Z.add_0_l, ?Zdiv_0_l, ?Z.sub_0_r.
    + cbn [translate]. rewrite (proj2 (Z.ltb_lt _ _)) by lia. by rewrite Z.add_0_r.
    + done.
    + assert ((size - 1) / StorageBlockSize < blocks) by (apply Z.div_lt_upper_bound; lia). lia.
    + rewrite HB. lia.
Qed.

(** A read of the whole of a file with the bytes at [target]. *)
Lemma card_read_run source target w id ino xs size out code :
  file_at (committed w) id ino xs → i_length ino = size → 0 < size < 2 ^ 62 →
  storage_read formatted (storage_of (w_env w)) id 0 target size = Ok code →
  mtl_read (card_backend source target) id out size 0 w =
    Ok ((size, out), World (w_env w) (w_metadata w)
      (w_store w ++ read_jobs formatted (storage_of (w_env w)) id 0 target size)).
Proof.
  intros Hf Hlen Hs Hr. unfold mtl_read. run_step (rdonly_run w).
  rewrite (in_txn_bind _ _ _ _ _ _ (load_file_run _ _ _ _ Hf)).
  unfold c_deref. rewrite (bind_run _ _ _ _ _ (ret_run _ w)). rewrite Hlen.
  rewrite read_length_spec by lia. replace (Z.max 0 _) with size by lia.
  rewrite (proj2 (Z.ltb_lt _ _)) by lia. rewrite (bind_run m_get _ w w w) by done.
  unfold on_store, mbind, M_bind. cbn [st_read card_backend StorageSetup.pipeline_backend].
  unfold card_read. by rewrite Hr.
Qed.

(** Writing to an empty file and reading it back: what becomes of the metadata, and
    of the calls when those of the storage succeed. *)
Lemma calls_run N w inode_id ino o e source target bytes out size :
  let t := committed w in
  let blocks := blocks_up size StorageBlockSize in
  let xs := [FileExtent o blocks] in
  let backend := card_backend source target in
  locked w = false → w_metadata w = StorageMetadata N StorageBlockSize → N ≤ 2 ^ 26 →
  Alloc.inv N t → file_at t inode_id ino [] → inode_id ≠ 0 →
  mdb_cursor_last (tx_heap t) = Some (node_of o e, o) → Alloc.ext_of t o = Some e →
  blocks ≤ ext_length e → 1024 ≤ stack_limit < 2 ^ 40 → 0 < size < 2 ^ 32 →
  ∃ w0 : Metal.world (B := list HostJob), let st := storage_of (w_env w0) in
    locked w0 = false ∧ Alloc.inv N (committed w0) ∧
    AllocSpec.reserves (Alloc.free_in t) o blocks (Alloc.free_in (committed w0)) ∧
    file_at (committed w0) inode_id (with_length ino size) xs ∧
    file_range xs 0 size 0 o o blocks ∧
    (∃ k, create_file_sink (Some st) inode_id 0 size false = Ok k ∧
       fk_storage k = Some st ∧ fk_extents k = xs ∧ fk_cachedTotalSize k = size) ∧
    (∃ src, create_file_source (Some st) inode_id 0 size = Ok src ∧
       fs_dataSource src = MkAddress 0 size type map ∧ fs_extents src = xs ∧ fs_storage src = Some st) ∧
    (storage_write formatted st inode_id 0 source size = Ok (MTL_SUCCESS, Some st) →
     storage_read formatted st inode_id 0 target size = Ok MTL_SUCCESS →
     let w1 := World (w_env w0) (w_metadata w0) (w_store w ++ write_jobs formatted st inode_id 0 source size) in
     mtl_write backend inode_id bytes size 0 w = Ok (MTL_SUCCESS, w1) ∧
     mtl_read backend inode_id out size 0 w1 =
       Ok ((size, out), World (w_env w0) (w_metadata w0)
         (w_store w1 ++ read_jobs formatted st inode_id 0 target size))).
Proof.
  intros t blocks xs backend Hl Hmd HN Hi Hf Hid Hlast He Hle Hst Hs.
  pose proof (Alloc.inv_range N t o e Hi He) as Hr. assert (StorageBlockSize = 262144) as HB by done.
  pose proof (blocks_up_pos size StorageBlockSize ltac:(lia) ltac:(lia)) as Hpos. fold blocks in Hpos.
  destruct (expand_first N StorageBlockSize inode_id ino size o e t Hi Hf Hlast He)
    as (t' & Hexp & Hinv & Hres & Hf' & _ & _); [lia|lia|done|fold blocks; nia|done|].
  fold blocks in Hres, Hf'.
  assert (0 +ᵤ size = size) as Hz by (apply u64_small; unfold in_u64; lia). rewrite <-Hz in Hexp.
  assert (block_size (w_metadata w) = StorageBlockSize) as Hbs by by rewrite Hmd.
  rewrite <-Hbs in Hexp at 1.
  destruct (file_write_run backend w inode_id ino [] bytes size 0 t' Hl Hf Hexp)
    as (w0 & Hc0 & Hl0 & [Hm0 Hs0] & Hw).
  rewrite <-Hc0 in Hf', Hinv, Hres. fold xs in Hf'.
  assert (i_length (with_length ino size) = size) as Hlen by done.
  destruct (contexts_created (w_env w0) inode_id _ xs 0 size Hf')
    as [(k & Ek & Hks & Hkx & Hkc) Hsrc]; [cbn; lia|done|lia|lia|cbn; lia|lia|].
  rewrite Hlen in Hkc.
  exists w0. split; [done|]. split; [done|]. split; [done|]. split; [exact Hf'|].
  split; [apply (new_file_range N); done || lia|]. split; [by exists k|]. split; [exact Hsrc|].
  intros Hwr Hrd w1. split; [|exact (card_read_run source target w1 inode_id _ xs size out MTL_SUCCESS Hf' Hlen ltac:(lia) Hrd)].
  rewrite Hw. rewrite (bind_run _ _ w0 MTL_SUCCESS w1); [done|].
  unfold on_store. cbn [st_write backend CardFiles.card_backend StorageSetup.pipeline_backend]. unfold card_write.
  rewrite (extents_loaded _ _ _ _ Hf') by (cbn; lia). cbn [mbind result_bind].
  rewrite Hlen, (proj2 (Z.leb_le _ _)), Hwr by lia. by rewrite Hs0.
Qed.
End Calls.

(** C4: the layers together, on a storage in the card's memory: writing a
    buffer to an empty file, when the free extent that the heap gives holds it,
    commits a file of exactly that length in one extent taken from the free blocks
    and keeps the allocator's invariant; reading the file returns its length; and
    when the card carries out the jobs that the two calls hand to it, the reader's
    buffer holds the bytes of the writer's, while host memory outside of it and of
    the parameter blocks, and card memory outside the extent, keep their contents. *)
Theorem card_file_round_trip `{MemBus} (nvme_enabled : bool) (garbage : Z) (Hbus : ADDR_RIGHT_SHIFT = 6%nat)
    {channels : DataMover} {laws : DataMoverLaws}
    N w inode_id ino o e source target bytes out size s irqs places1 places2 :
  let t := committed w in
  let blocks := blocks_up size StorageBlockSize in
  let backend := card_backend formatted ATCardDRAM MTDRAM None source target in
  locked w = false → w_metadata w = StorageMetadata N StorageBlockSize → N ≤ 2 ^ 26 →
  Alloc.inv N t → file_at t inode_id ino [] → inode_id ≠ 0 →
  mdb_cursor_last (tx_heap t) = Some (node_of o e, o) → Alloc.ext_of t o = Some e →
  blocks ≤ ext_length e → 1024 ≤ stack_limit < 2 ^ 40 → 0 < size < 2 ^ 32 →
  buffer_ok size source → buffer_ok size target → Jobs.h_interrupts s = 0 :: 0 :: irqs →
  length places1 = 3%nat → Forall (λ a, allocated a source size) places1 →
  length places2 = 3%nat → Forall (λ a, allocated a target size) places2 →
  ∃ w1 w2 jobs1 jobs2 s1 s2,
    mtl_write backend inode_id bytes size 0 w = Ok (MTL_SUCCESS, w1) ∧
    locked w1 = false ∧ Alloc.inv N (committed w1) ∧
    AllocSpec.reserves (Alloc.free_in t) o blocks (Alloc.free_in (committed w1)) ∧
    file_at (committed w1) inode_id (with_length ino size) [FileExtent o blocks] ∧
    mtl_read backend inode_id out size 0 w1 = Ok ((size, out), w2) ∧
    w_store w1 = w_store w ++ jobs1 ∧ w_store w2 = w_store w1 ++ jobs2 ∧
    executes nvme_enabled id garbage (zip jobs1 places1) s s1 ∧
    executes nvme_enabled id garbage (zip jobs2 places2) s1 s2 ∧
    fetch (Jobs.h_mem s2) target size = fetch (Jobs.h_mem s) source size ∧
    ∀ x, Forall (λ a, ¬ (a ≤ x < a + 8256)) (places1 ++ places2) →
      ¬ (target ≤ x < target + size) →
      ¬ (o * StorageBlockSize ≤ x - DRAMBaseOffset < (o + blocks) * StorageBlockSize) →
      Jobs.h_mem s2 x = Jobs.h_mem s x.
Proof.
  intros t blocks backend Hl Hmd HN Hi Hf Hid Hlast He Hle Hst Hs Hb1 Hb2 Hirq Hp1 Ha1 Hp2 Ha2.
  destruct (calls_run ATCardDRAM MTDRAM None N w inode_id ino o e source target bytes out size)
    as (w0 & Hl0 & Hinv & Hres & Hf' & Hrange & (k & Ek & Hks & Hkx & Hkc) & (src & Es & Hsd & Hsx & _) & Hcalls);
    try done.
  set (xs := [FileExtent o _]) in *. set (st := storage_of ATCardDRAM MTDRAM None (w_env w0)) in *.
  destruct (storage_round_trip_run Hcard formatted nvme_enabled garbage xs 0 size 0 o o _ Hrange Hbus
    st st inode_id k src source target s irqs places1 places2)
    as (Hwr & Hrd & s1 & s2 & X1 & X2 & Hm & Hout); try done; [by rewrite Hkc; lia|].
  destruct (Hcalls Hwr Hrd) as [Ew Er].
  do 2 eexists. exists (write_jobs formatted st inode_id 0 source size),
    (read_jobs formatted st inode_id 0 target size), s1, s2.
  split; [exact Ew|]. do 4 (split; [done|]). split; [exact Er|]. do 5 (split; [done|]).
  intros x Hx1 Hx2 Hx3. apply Hout; [done|done|].
  intros Hx4. apply Hx3. destruct Hrange as [_ Hok _ _ _ _ Hpl].
  by destruct (card_range_inside (pairs xs) 0 size 0 o o _ ltac:(lia) Hpl x Hok Hx4).
Qed.
End RoundTrip.
End CardFiles.

(** ** An empty file on a volume of 12 blocks *)

Module CardFilesDemo.
Import Extmap OpMem Transfers Pipeline DataContexts Card JobFacts CardJobs CardFacts CardStorage.
Import Metal File Ns CardFiles.

#[local] Existing Instance Files.Demo.machine.
#[local] Existing Instance RunDemo.card.
#[local] Existing Instance Transfers.Demo.bus.

Definition volume : Metal.world (B := list HostJob) :=
  World (Files.Demo.none, false) (StorageMetadata 12 StorageBlockSize) [].

Lemma card_file_round_trip_witness :
  ∃ w1 w2 jobs1 jobs2 s1 s2,
    mtl_write (card_backend (λ _ _ _, ""%string) ATCardDRAM MTDRAM None 1000 4000) 1 [] 100 0 volume = Ok (MTL_SUCCESS, w1) ∧
    mtl_read (card_backend (λ _ _ _, ""%string) ATCardDRAM MTDRAM None 1000 4000) 1 [] 100 0 w1 = Ok ((100, []), w2) ∧
    w_store w1 = jobs1 ∧ w_store w2 = jobs1 ++ jobs2 ∧
    executes true id 0 (zip jobs1 [65536; 131072; 196608]) StorageDemo.card s1 ∧
    executes true id 0 (zip jobs2 [65536; 131072; 196608]) s1 s2 ∧
    fetch (Jobs.h_mem s2) 4000 100 = (λ i, (1000 + i) mod 256) <$> seqZ 0 100.
Proof.
  destruct (card_file_round_trip RunDemo.works (λ _ _ _, ""%string) true 0 Demo.six 12 volume 1
    (Files.Demo.file_inode 0) 0 (Extent 12 MTL_FREE (NodeId 12 0)) 1000 4000 [] [] 100
    StorageDemo.card [] [65536; 131072; 196608] [65536; 131072; 196608])
    as (w1 & w2 & jobs1 & jobs2 & s1 & s2 & Hw & _ & _ & _ & _ & Hr & E1 & E2 & X1 & X2 & Hm & _).
  - reflexivity.
  - reflexivity.
  - lia.
  - apply AllocProofs.Demo.fresh_inv.
  - by apply (Files.Demo.f_at _ _ []).
  - done.
  - vm_compute. reflexivity.
  - vm_compute. reflexivity.
  - vm_compute. congruence.
  - vm_compute. split; congruence.
  - lia.
  - unfold buffer_ok. lia.
  - unfold buffer_ok. lia.
  - reflexivity.
  - done.
  - repeat constructor; cbn; lia.
  - done.
  - repeat constructor; cbn; lia.
  - exists w1, w2, jobs1, jobs2, s1, s2. split; [exact Hw|]. split; [exact Hr|].
    split; [exact E1|]. split; [by rewrite E2, E1|]. split; [exact X1|]. split; [exact X2|].
    rewrite Hm. reflexivity.
Defined.
End CardFilesDemo.
