(* ===== verification/NvmeFiles.v ===== *)
(** * Files on the NVMe storage

    The calls of metal.h on a file system whose backend is the NVMe storage: as in
    [CardFiles], but the contents go through the page files on the DRAM storage,
    and the card carries its jobs out with a drive ([CardNvme]), in whatever order
    its engines get on. *)
From S2P Require Import Prelude Tiling Lmdb Structs Heap Extent ExtentInv AllocProofs Dirent Inode.
From S2P Require Import Metal File Namespace FileProofs.
From S2P Require Import Endian Extmap OpMem Jobs Pipeline Runner DataContexts StorageSetup.
From S2P Require Import TransferProofs CardMemory NvmeMemory JobsProofs CardJobs RunProofs CardStorage.
From S2P Require Import CardNvme CardFiles.

Module NvmeFiles.
Import Extmap OpMem Transfers Pipeline DataContexts Card Nvme JobFacts CardJobs CardFacts RunFacts CardStorage.
Import NvmeJobs NvmeJobFacts Metal File Ns Files CardFiles.

(** ** The jobs of a transfer *)

(** The page files are extents of 128 blocks of the card's memory. *)
Definition page_extents (b : Z) : list mtl_file_extent := [FileExtent b 128].

Section Jobs.
Context `{MemBus} (Hbus : ADDR_RIGHT_SHIFT = 6%nat) `{Device}.
Context {channels : DataMover} {laws : DataMoverLaws}.
Context {controller : NVMeController} {nvme_laws : NVMeLaws}.
Context (garbage : Z) (xs : list mtl_file_extent) (off len : Z) (e : nat) (p b c : Z).
Context (Hrange : file_range xs off len e p b c) (page : Z) (Hpage : 0 ≤ page < 2 ^ 44).
Context (Hwindow : window off + len ≤ PagefileSize).

Lemma page_extents_ok : Forall ext_ok (pairs (page_extents page)) ∧ total (pairs (page_extents page)) < 2 ^ 64.
Proof using Hbus Hpage.
  assert (pairs (page_extents page) = (page, 128) :: repeat (0, 0) 511) as -> by reflexivity. split.
  - apply Forall_cons. split; [unfold ext_ok; cbn; lia|]. apply Forall_forall.
    intros x Hx%list_elem_of_In%repeat_spec. subst. unfold ext_ok. cbn. lia.
  - change (128 + total (repeat (0, 0) 511) < 2 ^ 64). by vm_compute.
Qed.

Lemma page_placed : placed (pairs (page_extents page)) (window off) len 0
  (page + window off / StorageBlockSize) page 128.
Proof using Hbus Hrange Hpage Hwindow.
  destruct Hrange as [_ _ _ _ ? _ _]. by apply page_file_placed; [..|lia|].
Qed.

(** The jobs to and from the drive, [slot] being 1 and 3 or 0 and 2. *)
Definition nvme_log (dslot nslot : Z) : list Z → Address → Address → list HostJob :=
  mapped_log [indirect Map (map_block dslot (page_extents page)); indirect Map (map_block nslot xs)].

Lemma nvme_prepared s d block dslot nslot src dst places post :
  Z.of_nat (length block) ≤ 8256 → length places = 4%nat → Forall place_ok places →
  0 ≤ dslot < 4 → 0 ≤ nslot < 4 → dslot ≠ nslot →
  (∀ s' a, like places s s' →
     represents (slot_map dslot s') (pairs (page_extents page)) → represents (slot_map nslot s') (pairs xs) →
     performs_all id garbage (run_job a src dst) s' d post) →
  executes_all id garbage (zip (nvme_log dslot nslot block src dst) places) s d post.
Proof using Hbus Hrange Hpage.
  intros Hblk Hl Hp Hd Hn Hne Hpost. destruct page_extents_ok as [Hok Ht], Hrange as [? ? ? _ _ _ _].
  destruct places as [|a1 [|a2 [|a3 [|a4 [|]]]]]; try done. rewrite !Forall_cons in Hp.
  destruct Hp as (_ & ? & ? & _).
  apply (prepared_all Hbus); try done; [cbn; lia|]. intros s' Hs'. by apply Hpost.
Qed.

Lemma in_place_clear places buffer x : Forall (λ a, allocated a buffer len) places →
  buffer ≤ x < buffer + len → clear_of_all places x.
Proof.
  intros Hp Hx. unfold clear_of_all. eapply Forall_impl; [exact Hp|]. intros a (_ & _ & _ & ?). cbn. lia.
Qed.

Lemma places_ok places buffer : Forall (λ a, allocated a buffer len) places → Forall place_ok places.
Proof. intros Hp. eapply Forall_impl; [exact Hp|]. by intros a (? & ? & ? & _). Qed.

(** A write leaves the bytes of the buffer in the blocks of the file. *)
Lemma write_all s irqs d buffer block places :
  buffer_ok len buffer → Jobs.h_interrupts s = 0 :: irqs → Z.of_nat (length block) ≤ 8256 →
  length places = 4%nat → Forall (λ a, allocated a buffer len) places →
  executes_all id garbage (zip (nvme_log 1 3 block (in_host buffer len) (on_nvme off len)) places) s d (λ s' d',
    Jobs.h_interrupts s' = irqs ∧
    (∀ x, x < DRAMBaseOffset → clear_of_all places x → Jobs.h_mem s' x = Jobs.h_mem s x) ∧
    fetch d' (first_byte off p) len = fetch (Jobs.h_mem s) buffer len ∧
    ∀ y, ¬ (p * StorageBlockSize ≤ y < end_block off len p * StorageBlockSize) → d' y = d y).
Proof using Hbus Hrange Hpage Hwindow laws nvme_laws.
  intros [Hb1 Hb2] Hirq Hblk Hl Hp. pose proof Hrange as [_ _ _ ? ? ? Hpl].
  apply nvme_prepared; [done..|by eapply places_ok|lia|lia|done|].
  intros s' a [Hi Hm] Rd Rf. eapply performs_impl.
  - eapply (run_to_drive Hbus garbage a s' irqs d buffer off len); try done; [congruence|lia|exact page_placed].
  - cbn beta. intros s2 d2 (I2 & _ & M2 & D2 & O2). split; [done|].
    split; [intros x Hx Hc; rewrite M2 by done; auto|]. split; [|done].
    apply list_fmap_ext. intros i x [-> ?]%lookup_seqZ. rewrite D2 by lia.
    apply Hm. eapply in_place_clear; [done|]. lia.
Qed.

(** A read leaves the bytes of the file in the buffer. *)
Lemma read_all s irqs d buffer block places :
  buffer_ok len buffer → Jobs.h_interrupts s = 0 :: irqs → Z.of_nat (length block) ≤ 8256 →
  length places = 4%nat → Forall (λ a, allocated a buffer len) places →
  executes_all id garbage (zip (nvme_log 0 2 block (on_nvme off len) (in_host buffer len)) places) s d (λ s' d',
    Jobs.h_interrupts s' = irqs ∧ d' = d ∧
    fetch (Jobs.h_mem s') buffer len = fetch d (first_byte off p) len ∧
    ∀ x, x < DRAMBaseOffset → clear_of_all places x → ¬ (buffer ≤ x < buffer + len) →
      Jobs.h_mem s' x = Jobs.h_mem s x).
Proof using Hbus Hrange Hpage Hwindow laws nvme_laws.
  intros [Hb1 Hb2] Hirq Hblk Hl Hp. pose proof Hrange as [_ _ _ ? ? ? Hpl].
  apply nvme_prepared; [done..|by eapply places_ok|lia|lia|done|].
  intros s' a [Hi Hm] Rd Rf. eapply performs_impl.
  - eapply (run_from_drive Hbus garbage a s' irqs d buffer off len); try done; [congruence|lia|exact page_placed].
  - cbn beta. set (bs := fetch d (first_byte off p) len).
    assert (Z.of_nat (length bs) = len) as Hbs by (apply fetch_length; lia).
    intros s2 d2 (I2 & _ & -> & M2). split; [done|]. split; [done|]. split.
    + transitivity (fetch (store (Jobs.h_mem s') buffer bs) buffer len).
      * apply fetch_range. intros x Hx. apply M2. unfold DRAMBaseOffset. lia.
      * pose proof (fetch_store (Jobs.h_mem s') buffer bs) as Hfs. by rewrite Hbs in Hfs.
    + intros x Hx Hc Hout. rewrite M2, store_outside by (rewrite ?Hbs; done). auto.
Qed.
End Jobs.

(** ** The calls *)

(** The page file at [path] is the extent of 128 blocks from block [b] on. *)
Definition page_file `{Lmdb} `{Machine} (dram : Metal.world (B := unit)) (path : cstr) (b : Z) : Prop :=
  ∃ inode size code w1 w2,
    mtl_open path dram = Ok ((MTL_SUCCESS, inode), w1) ∧
    mtl_load_extent_list inode dram = Ok ((code, Some (page_extents b, size)), w2).

Section RoundTrip.
Context `{LmdbLaws} `{Machine} `{Device} (Hcard : card_works).
Context (formatted : Runner.ProfilingResults → bool → bool → string).
Context (dram : Metal.world (B := unit)).

(** The blocks of a file from its first byte on. *)
Lemma end_of_file size o : 0 < size → end_block 0 size o = o + blocks_up size StorageBlockSize.
Proof using.
  intros Hs. destruct (blocks_up_spec size StorageBlockSize) as [Hup _]; [lia|done|].
  unfold end_block. rewrite Z.add_0_l, Zdiv_0_l.
  assert ((size - 1) / StorageBlockSize = blocks_up size StorageBlockSize - 1); [|lia].
  symmetry. apply Z.div_unique with (size - 1 - StorageBlockSize * (blocks_up size StorageBlockSize - 1)); lia.
Qed.

Lemma nvme_hands_over env path b dslot nslot xs : page_file dram path b →
  hands_over [indirect Map (map_block dslot (page_extents b)); indirect Map (map_block nslot xs)]
    (transfer_extents (Some (storage_of ATNVMe MTDRAMAndNVMe (Some dram) env)) MTDRAMAndNVMe path
       dslot nslot xs).
Proof using Hcard.
  intros (inode & size & code & w1 & w2 & Eo & Ex) log.
  unfold transfer_extents, c_deref. rewrite (bind_run _ _ _ _ _ (ret_run _ _)).
  cbn [ps_dram storage_of].
  rewrite (bind_run (m_lift _) _ _ ((MTL_SUCCESS, inode), w1) _) by (unfold m_lift; by rewrite Eo).
  cbn beta iota. rewrite Z.eqb_refl. cbn [negb].
  rewrite (bind_run (m_lift _) _ _ ((code, Some (page_extents b, size)), w2) _) by (unfold m_lift; by rewrite Ex).
  cbn beta iota. rewrite (bind_run _ _ _ _ _ (mapExtents_run Hcard _ _ _)), (mapExtents_run Hcard).
  cbn [p_log p_operators p_cachedSwitchConfiguration]. by rewrite <-app_assoc.
Qed.

(** C5: on the NVMe storage, writing a buffer of up to 32 MiB to an empty file,
    when the free extent that the heap gives holds it, commits a file of exactly
    that length in one extent taken from the free blocks and keeps the allocator's
    invariant, and reading the file returns its length. Both calls hand jobs for
    the switch, the page file, the file and the run to the card, which succeed
    there in whatever order the controller and the DataMover get on with their
    commands: then the blocks of the file on the drive hold the bytes of the
    buffer and the other blocks are as they were; and then, although the card's
    memory may hold anything, the reader's buffer holds these bytes, the drive is
    as the write left it, and host memory outside of the buffer and of the
    parameter blocks keeps its contents. *)
Theorem nvme_file_round_trip `{MemBus} (garbage : Z) (Hbus : ADDR_RIGHT_SHIFT = 6%nat)
    {channels : DataMover} {laws : DataMoverLaws}
    {controller : NVMeController} {nvme_laws : NVMeLaws}
    N w inode_id ino o e source target bytes out size s irqs d places1 places2 page1 page2 :
  let t := committed w in
  let blocks := blocks_up size StorageBlockSize in
  let backend := card_backend formatted ATNVMe MTDRAMAndNVMe (Some dram) source target in
  locked w = false → w_metadata w = StorageMetadata N StorageBlockSize → N ≤ 2 ^ 26 →
  Alloc.inv N t → file_at t inode_id ino [] → inode_id ≠ 0 →
  mdb_cursor_last (tx_heap t) = Some (node_of o e, o) → Alloc.ext_of t o = Some e →
  blocks ≤ ext_length e → 1024 ≤ stack_limit < 2 ^ 40 → 0 < size ≤ PagefileSize →
  page_file dram PagefileWritePath page1 → 0 ≤ page1 < 2 ^ 44 →
  page_file dram PagefileReadPath page2 → 0 ≤ page2 < 2 ^ 44 →
  buffer_ok size source → buffer_ok size target → Jobs.h_interrupts s = 0 :: 0 :: irqs →
  length places1 = 4%nat → Forall (λ a, allocated a source size) places1 →
  length places2 = 4%nat → Forall (λ a, allocated a target size) places2 →
  ∃ w1 w2 jobs1 jobs2,
    mtl_write backend inode_id bytes size 0 w = Ok (MTL_SUCCESS, w1) ∧
    locked w1 = false ∧ Alloc.inv N (committed w1) ∧
    AllocSpec.reserves (Alloc.free_in t) o blocks (Alloc.free_in (committed w1)) ∧
    file_at (committed w1) inode_id (with_length ino size) [FileExtent o blocks] ∧
    mtl_read backend inode_id out size 0 w1 = Ok ((size, out), w2) ∧
    w_store w1 = w_store w ++ jobs1 ∧ w_store w2 = w_store w1 ++ jobs2 ∧
    executes_all id garbage (zip jobs1 places1) s d (λ s1 d1,
      fetch d1 (o * StorageBlockSize) size = fetch (Jobs.h_mem s) source size ∧
      (∀ y, ¬ (o * StorageBlockSize ≤ y < (o + blocks) * StorageBlockSize) → d1 y = d y) ∧
      executes_all id garbage (zip jobs2 places2) s1 d1 (λ s2 d2,
        fetch (Jobs.h_mem s2) target size = fetch (Jobs.h_mem s) source size ∧ d2 = d1 ∧
        ∀ x, x < DRAMBaseOffset → clear_of_all (places1 ++ places2) x →
          ¬ (target ≤ x < target + size) → Jobs.h_mem s2 x = Jobs.h_mem s x)).
Proof using Hcard H0.
  intros t blocks backend Hl Hmd HN Hi Hf Hid Hlast He Hle Hst Hs Hpf1 Hpg1 Hpf2 Hpg2 Hb1 Hb2 Hirq Hp1 Ha1 Hp2 Ha2.
  assert (size < 2 ^ 32) as Hsize by (change PagefileSize with 33554432 in Hs; lia).
  destruct (calls_run formatted ATNVMe MTDRAMAndNVMe (Some dram) N w inode_id ino o e source target bytes out size)
    as (w0 & Hl0 & Hinv & Hres & Hf' & Hrange & (k & Ek & Hks & Hkx & Hkc) & (src & Es & Hsd & Hsx & Hss) & Hcalls);
    [done..|lia|].
  fold blocks in Hres, Hf', Hkx, Hrange, Hsx. set (xs := [FileExtent o blocks]) in *.
  set (st := storage_of ATNVMe MTDRAMAndNVMe (Some dram) (w_env w0)) in *.
  destruct (storage_write_mapped Hcard formatted st inode_id 0 source size k _ ltac:(lia) ltac:(lia) ltac:(lia) Ek
    ltac:(lia) ltac:(rewrite Hks, Hkx; by apply nvme_hands_over)) as (n1 & ctx1 & k' & r1 & bl1 & Hsw1 & Ew & Hw).
  destruct (storage_read_mapped Hcard formatted st inode_id 0 target size src size _ _ _ Es Hsd Hsx ltac:(lia) ltac:(lia)
    ltac:(rewrite Hss; by apply nvme_hands_over)) as (n2 & src' & ctx2 & r2 & bl2 & Hsw2 & Er & Hr).
  rewrite Hks in Hw. destruct (Hcalls Hw Hr) as [Cw Cr].
  do 2 eexists. exists (write_jobs formatted st inode_id 0 source size), (read_jobs formatted st inode_id 0 target size).
  split; [exact Cw|]. do 4 (split; [done|]). split; [exact Cr|]. do 2 (split; [done|]).
  assert (first_byte 0 o = o * StorageBlockSize ∧ end_block 0 size o = o + blocks) as [Ef Ee].
  { split; [by unfold first_byte; rewrite Zmod_0_l, Z.add_0_r|].
    apply end_of_file; lia. }
  assert (window 0 + size ≤ PagefileSize) as Hwin by (change (window 0) with 0; lia).
  unfold write_jobs, read_jobs. rewrite Ek, Ew, Es, Er. cbn [jobs_of p_log].
  eapply executes_impl; [|apply (write_all Hbus garbage xs 0 size 0 o o blocks Hrange page1 Hpg1 Hwin s (0 :: irqs)); try done;
    by eapply switch_block_small].
  cbn beta. intros s1 d1 (I1 & M1 & D1 & O1). rewrite Ef in D1. rewrite Ee in O1. split; [done|]. split; [done|].
  eapply executes_impl; [|apply (read_all Hbus garbage xs 0 size 0 o o blocks Hrange page2 Hpg2 Hwin s1 irqs); try done;
    by eapply switch_block_small].
  cbn beta. intros s2 d2 (I2 & -> & F2 & M2). rewrite Ef, D1 in F2. split; [done|]. split; [done|].
  intros x Hx [C1 C2]%Forall_app Hout. rewrite M2, M1; done.
Qed.
End RoundTrip.
End NvmeFiles.

(** ** An empty file on a volume of 12 blocks *)

Module NvmeFilesDemo.
Import Extmap OpMem Transfers Pipeline DataContexts Card Nvme JobFacts CardJobs CardFacts CardStorage.
Import NvmeJobs NvmeJobFacts Metal File Ns CardFiles NvmeFiles.

#[local] Existing Instance Files.Demo.machine.
#[local] Existing Instance RunDemo.card.
#[local] Existing Instance Transfers.Demo.bus.

(** The storages that [SetupFacts] sets up. *)
Lemma set_up_page_files dram : SetupFacts.two_page_files (λ _, 170) (λ _, 4711) dram →
  page_file dram PagefileReadPath 0 ∧ page_file dram PagefileWritePath 128.
Proof.
  intros [_ _ Hr Hw Hrx Hwx].
  split; do 5 eexists; (split; [first [exact Hr|exact Hw]|first [exact Hrx|exact Hwx]]).
Qed.

Lemma nvme_file_round_trip_witness :
  ∃ dram w1 w2 jobs1 jobs2,
    let backend := card_backend (λ _ _ _, ""%string) ATNVMe MTDRAMAndNVMe (Some dram) 1000 4000 in
    mtl_write backend 1 [] 100 0 CardFilesDemo.volume = Ok (MTL_SUCCESS, w1) ∧
    mtl_read backend 1 [] 100 0 w1 = Ok ((100, []), w2) ∧
    w_store w1 = jobs1 ∧ w_store w2 = jobs1 ++ jobs2 ∧
    executes_all id 0 (zip jobs1 [65536; 131072; 196608; 262144]) StorageDemo.card (λ _, 9) (λ s1 d1,
      d1 (12 * StorageBlockSize) = 9 ∧
      executes_all id 0 (zip jobs2 [65536; 131072; 196608; 262144]) s1 d1 (λ s2 _,
        fetch (Jobs.h_mem s2) 4000 100 = (λ i, (1000 + i) mod 256) <$> seqZ 0 100)).
Proof.
  destruct (SetupFacts.page_files_run (λ _, true) (λ _, 170) (λ _, 4711) SetupDemo.no_write SetupDemo.no_read 1000)
    as (dram & _ & Hpf).
  destruct (set_up_page_files dram Hpf) as [Hr Hw]. exists dram.
  destruct (nvme_file_round_trip RunDemo.works (λ _ _ _, ""%string) dram 0 Demo.six 12 CardFilesDemo.volume 1
    (Files.Demo.file_inode 0) 0 (Extent 12 MTL_FREE (NodeId 12 0)) 1000 4000 [] [] 100
    StorageDemo.card [] (λ _, 9) [65536; 131072; 196608; 262144] [65536; 131072; 196608; 262144] 128 0)
    as (w1 & w2 & jobs1 & jobs2 & Ew & _ & _ & _ & _ & Er & E1 & E2 & X).
  - reflexivity.
  - reflexivity.
  - lia.
  - apply AllocProofs.Demo.fresh_inv.
  - by apply (Files.Demo.f_at _ _ []).
  - done.
  - vm_compute. reflexivity.
  - vm_compute. reflexivity.
  - vm_compute. congruence.
  - vm_compute. split; congruence.
  - vm_compute. split; congruence.
  - exact Hw.
  - lia.
  - exact Hr.
  - lia.
  - unfold buffer_ok. lia.
  - unfold buffer_ok. lia.
  - reflexivity.
  - done.
  - repeat constructor; cbn; lia.
  - done.
  - repeat constructor; cbn; lia.
  - exists w1, w2, jobs1, jobs2. split; [exact Ew|]. split; [exact Er|].
    split; [exact E1|]. split; [by rewrite E2, E1|].
    eapply executes_impl; [|exact X]. cbn beta. intros s1 d1 (_ & D1 & X2).
    split; [apply D1; change (Files.blocks_up 100 StorageBlockSize) with 1; lia|].
    eapply executes_impl; [|exact X2]. cbn beta. intros s2 d2 (Hm & _). rewrite Hm. reflexivity.
Defined.
End NvmeFilesDemo.
