(* ===== verification/Messages.v ===== *)
(** * Messages and shared buffers (metal-driver-messages)

    What passes between the driver and the programs that stand for operators:
    the header of a message, the messages themselves as protobuf delivers them,
    and the double-buffered memory shared for data. The encoding of a message's
    body is generated code and not modelled. *)
From S2P Require Import Prelude Endian.

Inductive MessageType :=
  | MTRegistrationRequest | MTRegistrationResponse
  | MTProcessingRequest | MTProcessingResponse.

#[export] Instance message_type_eq_dec : EqDecision MessageType.
Proof. solve_decision. Defined.

Definition message_type_code (t : MessageType) : Z :=
  match t with
  | MTRegistrationRequest => 0 | MTRegistrationResponse => 1
  | MTProcessingRequest => 2 | MTProcessingResponse => 3
  end.

Record RegistrationRequest := MkRegistrationRequest {
  rq_pid : Z;
  rq_cwd : string;
  rq_metal_mountpoint : string;
  rq_operator_type : string;
  rq_input_pid : Z;
  rq_output_pid : Z;
  rq_args : list string;
  rq_metal_input_filename : option string;
  rq_metal_output_filename : option string;
}.

#[export] Instance registration_request_eq_dec : EqDecision RegistrationRequest.
Proof. solve_decision. Defined.

Record RegistrationResponse := MkRegistrationResponse {
  rs_error_msg : option string;
  rs_valid : bool;
  rs_input_buffer_filename : option string;
  rs_output_buffer_filename : option string;
  rs_agent_read_filename : option string;
}.

(** A field that is not set reads as 0, false or the empty string. *)
Record ProcessingRequest := MkProcessingRequest { pq_size : Z; pq_eof : bool }.

Record ProcessingResponse := MkProcessingResponse {
  ps_size : Z;
  ps_eof : bool;
  ps_message : option string;
}.

Module Messages.
(** ** message_header.cpp *)

(** [sendHeader]: the two fields in network byte order. *)
Definition sendHeader (type length : Z) : list Z :=
  Endian.be_bytes 4 (u32 type) ++ Endian.be_bytes 4 (u32 length).

(** [ntohl] of four bytes. *)
Definition ntohl (bytes : list Z) : Z := le_val (reverse bytes).

(** The value of a 32-bit pattern as an [int]. *)
Definition to_int (x : Z) : Z := if x <? 2 ^ 31 then x else x - 2 ^ 32.

(** [receive]: the type and the length, from what [recv] delivers for eight
    bytes. *)
Definition receive (bytes : list Z) : result (Z * Z) :=
  if negb (length bytes =? 8)%nat
  then Fault (Throw "Could not read message header from socket")
  else Ok (to_int (ntohl (take 4 bytes)), to_int (ntohl (drop 4 bytes))).

(** The check of [receiveMessage] before the body of [length] bytes is read;
    [length()] is a conversion of the [int] to 64 bits. *)
Definition receiveMessage (T : MessageType) (bytes : list Z) : result Z :=
  '(type, len) ← receive bytes;
  if negb (type =? message_type_code T) then Fault (Throw "Unexpected message")
  else Ok (u64 len).

(** ** buffer.hpp *)

Definition BufferSize : Z := 64 * 1024 * 1024.

Record Buffer := MkBuffer {
  bf_filename : string;
  bf_buffer : Z;       (* address of the mapping of twice the size *)
  bf_current : bool;
}.

Definition current (b : Buffer) : Z := bf_buffer b +ᵤ (if bf_current b then BufferSize else 0).
Definition next (b : Buffer) : Z := bf_buffer b +ᵤ (if bf_current b then 0 else BufferSize).
Definition swap (b : Buffer) : Buffer :=
  MkBuffer (bf_filename b) (bf_buffer b) (negb (bf_current b)).

(** ** Facts *)

Lemma ntohl_be_bytes n x : 0 ≤ x < 256 ^ Z.of_nat n → ntohl (Endian.be_bytes n x) = x.
Proof.
  intros Hx. unfold ntohl, Endian.be_bytes. rewrite reverse_involutive. by apply le_val_bytes_small.
Qed.

Lemma length_header type len : length (sendHeader type len) = 8%nat.
Proof. done. Qed.

(** What one side sends as the header of a message the other side receives,
    and takes for that message only. *)
Lemma header_roundtrip T T' len :
  0 ≤ len < 2 ^ 31 →
  receiveMessage T (sendHeader (message_type_code T') len)
  = if decide (T = T') then Ok len else Fault (Throw "Unexpected message").
Proof.
  intros Hl. unfold receiveMessage, receive. rewrite length_header. cbn [Nat.eqb negb].
  change (take 4 (sendHeader (message_type_code T') len))
    with (Endian.be_bytes 4 (u32 (message_type_code T'))).
  change (drop 4 (sendHeader (message_type_code T') len)) with (Endian.be_bytes 4 (u32 len)).
  rewrite !ntohl_be_bytes by (apply (wrap_range 32); lia).
  assert (to_int (u32 len) = len) as ->.
  { unfold to_int, u32. rewrite wrap_small by lia. by rewrite (proj2 (Z.ltb_lt _ _)) by lia. }
  assert (u64 len = len) as Hu by (apply u64_small; unfold in_u64; lia).
  unfold mbind, result_bind. rewrite Hu. by destruct T, T'.
Qed.

(** The halves of a buffer are disjoint and change places. *)
Lemma swap_exchanges b :
  current (swap b) = next b ∧ next (swap b) = current b ∧ swap (swap b) = b.
Proof. destruct b as [f a []]; done. Qed.
End Messages.
