(* ===== verification/Sockets.v ===== *)
(** * Messages over a socket (socket.hpp)

    [sendMessage] and [receiveMessage] on the bytes of a connection. What protobuf
    makes of a message is the class [Protobuf] (generated code); how many of the
    bytes that are asked for [recv] delivers at once is the class [Network]. *)
From stdpp Require Import countable.
From S2P Require Import Prelude Endian Messages.

Module Sockets.

(** [MessageTypeAssignment]. *)
Definition message (T : MessageType) : Type :=
  match T with
  | MTRegistrationRequest => RegistrationRequest
  | MTRegistrationResponse => RegistrationResponse
  | MTProcessingRequest => ProcessingRequest
  | MTProcessingResponse => ProcessingResponse
  end.

(** [ParseFromArray] leaves some message, also where it fails. *)
Class Protobuf := {
  SerializeToArray (T : MessageType) : message T → list Z;
  ParseFromArray (T : MessageType) : list Z → message T;
}.

Class ProtobufLaws `{Protobuf} : Prop := {
  parse_serialized T m : ParseFromArray T (SerializeToArray T m) = m;
}.

(** The bytes that [recv] delivers of those the peer sends, when asked for some:
    at least one, at most what was asked for. *)
Class Network := { recv_count : list Z → nat → nat }.

Class NetworkLaws `{Network} : Prop := {
  recv_count_range l n : l ≠ [] → (0 < n)%nat → (0 < recv_count l n ≤ n `min` length l)%nat;
}.

(** What the peer sends and was not received yet, and whether it hangs up then. *)
Record inbound := Inbound { in_bytes : list Z; in_ended : bool }.

Section Sockets.
Context `{Protobuf, Network}.

(** [recv] without flags: waits for the first byte. *)
Definition recv (n : nat) : Exc inbound (list Z) := λ c,
  match n, in_bytes c with
  | O, _ => Done [] c
  | _, [] => if in_ended c then Done [] c else Stuck WouldBlock
  | _, l =>
      let k := recv_count l n in
      Done (take k l) (Inbound (drop k l) (in_ended c))
  end.

(** [MessageHeader::receive]. *)
Definition receive_header : Exc inbound (Z * Z) :=
  bytes ← recv 8; e_lift (Messages.receive bytes).

(** A vector of more elements than there can be is an exception. The result of the
    second [recv] is ignored; the vector was filled with zeros. *)
Definition receiveMessage (T : MessageType) : Exc inbound (message T) :=
  '(type, len) ← receive_header;
  if negb (type =? message_type_code T) then e_throw (RuntimeError "Unexpected message")
  else if 2 ^ 63 <=? u64 len then e_throw (RuntimeError "vector::_M_default_append")
  else
    bytes ← recv (Z.to_nat (u64 len));
    mret (ParseFromArray T (bytes ++ repeat 0 (Z.to_nat (u64 len) - length bytes))).

(** The bytes that [sendMessage] puts on the socket. *)
Definition sendMessage (T : MessageType) (m : message T) : list Z :=
  let buffer := SerializeToArray T m in
  Messages.sendHeader (message_type_code T) (Z.of_nat (length buffer)) ++ buffer.

(** ** What arrives *)

(** A message whose length fits the header. *)
Definition fits_header (T : MessageType) (m : message T) : Prop :=
  Z.of_nat (length (SerializeToArray T m)) < 2 ^ 31.

(** [recv] delivers all that is there, up to what was asked for. *)
Definition whole_delivery : Prop := ∀ l n, recv_count l n = (n `min` length l)%nat.

Lemma recv_run n l c : in_bytes c = l → l ≠ [] → (0 < n)%nat →
  recv n c = Done (take (recv_count l n) l) (Inbound (drop (recv_count l n) l) (in_ended c)).
Proof. intros <- Hl Hn. unfold recv. destruct n; [lia|]. by destruct (in_bytes c). Qed.

Lemma recv_whole n l rest ended : whole_delivery → length l = n →
  recv n (Inbound (l ++ rest) ended) = Done l (Inbound rest ended).
Proof.
  intros Hw <-. destruct l as [|x l]; [done|].
  rewrite (recv_run _ ((x :: l) ++ rest)) by (done || (cbn; lia)). rewrite Hw, length_app.
  rewrite Nat.min_l by lia. by rewrite take_app_length, drop_app_length.
Qed.

(** The first eight bytes are there: the header that was sent. *)
Lemma header_received T len rest ended : (∀ l, (8 ≤ length l)%nat → recv_count l 8 = 8%nat) → 0 ≤ len < 2 ^ 31 →
  receive_header (Inbound (Messages.sendHeader (message_type_code T) len ++ rest) ended)
  = Done (message_type_code T, len) (Inbound rest ended).
Proof.
  intros Hrecv Hlen. unfold receive_header.
  set (h := Messages.sendHeader (message_type_code T) len).
  assert (length h = 8%nat) as Hh by done.
  rewrite (e_bind_run _ _ _ h (Inbound rest ended)).
  - unfold e_lift, Messages.receive. rewrite Hh. cbn [Nat.eqb negb].
    change (take 4 h) with (Endian.be_bytes 4 (u32 (message_type_code T))).
    change (drop 4 h) with (Endian.be_bytes 4 (u32 len)).
    rewrite !Messages.ntohl_be_bytes by (apply (wrap_range 32); lia).
    unfold u32. rewrite (wrap_small 32 len) by lia. unfold Messages.to_int.
    rewrite (proj2 (Z.ltb_lt len _)) by lia. by destruct T.
  - rewrite (recv_run _ (h ++ rest)) by (done || lia || by destruct h).
    rewrite Hrecv by (rewrite length_app; lia). by rewrite take_app_length', drop_app_length' by done.
Qed.

(** A message that is there as a whole. *)
Lemma message_received `{!ProtobufLaws} T m rest ended : whole_delivery → fits_header T m →
  receiveMessage T (Inbound (sendMessage T m ++ rest) ended) = Done m (Inbound rest ended).
Proof.
  intros Hw Hm. unfold sendMessage, receiveMessage. rewrite <-app_assoc.
  unfold fits_header in Hm. set (buffer := SerializeToArray T m) in *.
  rewrite (e_bind_run _ _ _ _ _ (header_received T (Z.of_nat (length buffer)) (buffer ++ rest) ended
    ltac:(intros l ?; rewrite Hw; lia) ltac:(lia))).
  cbn beta iota. rewrite Z.eqb_refl. cbn [negb].
  rewrite u64_small by (unfold in_u64; lia). rewrite (proj2 (Z.leb_gt _ _)) by lia. rewrite Nat2Z.id.
  rewrite (e_bind_run _ _ _ _ _ (recv_whole (length buffer) buffer rest ended Hw eq_refl)).
  rewrite Nat.sub_diag. cbn [repeat]. rewrite app_nil_r. unfold mret, exc_ret.
  unfold buffer. by rewrite parse_serialized.
Qed.

(** A sequence of messages, as the two sides of a dialogue expect them. *)
Definition sent_messages (ms : list (sigT message)) : list Z :=
  ms ≫= λ m, sendMessage (projT1 m) (projT2 m).

Fixpoint receive_messages (Ts : list MessageType) : Exc inbound (list (sigT message)) :=
  match Ts with
  | [] => mret []
  | T :: Ts => m ← receiveMessage T; ms ← receive_messages Ts; mret (existT T m :: ms)
  end.

Lemma messages_received `{!ProtobufLaws} ms rest ended : whole_delivery →
  Forall (λ m, fits_header (projT1 m) (projT2 m)) ms →
  receive_messages (projT1 <$> ms) (Inbound (sent_messages ms ++ rest) ended)
  = Done ms (Inbound rest ended).
Proof.
  intros Hw. induction 1 as [|[T m] ms Hm Hms IH]; [done|].
  cbn [fmap list_fmap receive_messages projT1]. unfold sent_messages. rewrite bind_cons, <-app_assoc.
  fold (sent_messages ms). cbn [projT1 projT2] in *.
  rewrite (e_bind_run _ _ _ _ _ (message_received T m _ ended Hw Hm)).
  by rewrite (e_bind_run _ _ _ _ _ IH).
Qed.

(** A message of another type than the one that is waited for. *)
Lemma other_message_refused T T' m rest ended : whole_delivery → fits_header T m → T ≠ T' →
  receiveMessage T' (Inbound (sendMessage T m ++ rest) ended)
  = Thrown (RuntimeError "Unexpected message") (Inbound (SerializeToArray T m ++ rest) ended).
Proof.
  intros Hw Hm HT. unfold sendMessage, receiveMessage. rewrite <-app_assoc.
  unfold fits_header in Hm.
  rewrite (e_bind_run _ _ _ _ _ (header_received T (Z.of_nat (length (SerializeToArray T m))) _ ended
    ltac:(intros l ?; rewrite Hw; lia) ltac:(lia))).
  cbn beta iota. rewrite (proj2 (Z.eqb_neq _ _)) by (by destruct T, T'). done.
Qed.

(** The peer hangs up before a header is complete, or says nothing at all. *)
Lemma hung_up T l : whole_delivery → (length l < 8)%nat →
  receiveMessage T (Inbound l true) = Thrown (RuntimeError "Could not read message header from socket") (Inbound [] true).
Proof.
  intros Hw Hl. unfold receiveMessage, receive_header. apply e_bind_thrown.
  rewrite (e_bind_run _ _ _ l (Inbound [] true)).
  - unfold e_lift, Messages.receive. by rewrite (proj2 (Nat.eqb_neq _ 8)) by lia.
  - destruct l as [|x l]; [done|]. rewrite (recv_run _ (x :: l)) by (done || lia). cbn [in_bytes in_ended].
    rewrite Hw, Nat.min_r by lia. by rewrite firstn_all, drop_all.
Qed.

Lemma silent_peer T : receiveMessage T (Inbound [] false) = Stuck WouldBlock.
Proof. done. Qed.

(** The result of [recv] is not looked at: when only a part of the body is there, the
    message is read from that part and zeros, and the next message from its rest. *)
Lemma body_cut `{!NetworkLaws} T m rest ended : fits_header T m →
  let buffer := SerializeToArray T m in
  (∀ l, (8 ≤ length l)%nat → recv_count l 8 = 8%nat) → buffer ++ rest ≠ [] → buffer ≠ [] →
  ∃ k, (0 < k)%nat ∧ k = recv_count (buffer ++ rest) (length buffer) ∧ (k ≤ length buffer)%nat ∧
  receiveMessage T (Inbound (sendMessage T m ++ rest) ended) =
    Done (ParseFromArray T (take k buffer ++ repeat 0 (length buffer - k)))
         (Inbound (drop k buffer ++ rest) ended).
Proof.
  intros Hm buffer Hhead Hne Hb. unfold fits_header in Hm. fold buffer in Hm.
  assert (0 < length buffer)%nat by (by destruct buffer; [|cbn; lia]).
  destruct (recv_count_range (buffer ++ rest) (length buffer) Hne) as [Hk1 Hk2]; [lia|].
  set (k := recv_count (buffer ++ rest) (length buffer)) in *. exists k.
  split; [done|]. split; [done|]. split; [lia|].
  unfold sendMessage, receiveMessage. rewrite <-app_assoc. fold buffer.
  rewrite (e_bind_run _ _ _ _ _ (header_received T (Z.of_nat (length buffer)) (buffer ++ rest) ended Hhead ltac:(lia))).
  cbn beta iota. rewrite Z.eqb_refl. cbn [negb].
  rewrite u64_small by (unfold in_u64; lia). rewrite (proj2 (Z.leb_gt _ _)) by lia. rewrite Nat2Z.id.
  rewrite (e_bind_run _ _ _ _ _ (recv_run (length buffer) (buffer ++ rest) (Inbound (buffer ++ rest) ended) eq_refl Hne ltac:(lia))). fold k. cbn [in_ended].
  rewrite take_app_le, drop_app_le, length_take, Nat.min_l by lia. done.
Qed.

(** C37: A dialogue over a socket: the messages that one side sends, whatever their
    types and contents, are what the other side receives when it expects their
    types in that order and the bytes are there, and nothing behind them is
    consumed; a message of another type than the expected one is refused with an
    exception once its header was read; a peer that hangs up before the header of
    a message is complete is noticed. *)
Theorem message_transport `{!ProtobufLaws} (ms : list (sigT message)) T' rest ended :
  whole_delivery → Forall (λ m, fits_header (projT1 m) (projT2 m)) ms →
  receive_messages (projT1 <$> ms) (Inbound (sent_messages ms ++ rest) ended) = Done ms (Inbound rest ended) ∧
  (∀ m, m ∈ ms → projT1 m ≠ T' →
     receiveMessage T' (Inbound (sendMessage (projT1 m) (projT2 m) ++ rest) ended)
     = Thrown (RuntimeError "Unexpected message") (Inbound (SerializeToArray (projT1 m) (projT2 m) ++ rest) ended)) ∧
  ∀ l, (length l < 8)%nat →
    receiveMessage T' (Inbound l true)
    = Thrown (RuntimeError "Could not read message header from socket") (Inbound [] true).
Proof.
  intros Hw Hms. split; [by apply messages_received|]. split; [|intros l; by apply hung_up].
  intros m Hm Hne. rewrite Forall_forall in Hms. by apply other_message_refused; [|apply Hms|].
Qed.
End Sockets.

(** ** An encoding and a network *)

(** Any code of the messages by bytes will do; here the one of their fields. *)
#[local] Instance registration_request_countable : Countable RegistrationRequest.
Proof.
  refine (inj_countable' (λ r, (rq_pid r, rq_cwd r, rq_metal_mountpoint r, rq_operator_type r,
      (rq_input_pid r, rq_output_pid r, rq_args r, rq_metal_input_filename r, rq_metal_output_filename r)))
    (λ '(a, b, c, d, (e, f, g, h, i)), MkRegistrationRequest a b c d e f g h i) _). by intros [].
Defined.

#[local] Instance registration_response_eq_dec : EqDecision RegistrationResponse.
Proof. solve_decision. Defined.

#[local] Instance registration_response_countable : Countable RegistrationResponse.
Proof.
  refine (inj_countable' (λ r, (rs_error_msg r, rs_valid r, rs_input_buffer_filename r,
      rs_output_buffer_filename r, rs_agent_read_filename r))
    (λ '(a, b, c, d, e), MkRegistrationResponse a b c d e) _). by intros [].
Defined.

#[local] Instance processing_request_eq_dec : EqDecision ProcessingRequest.
Proof. solve_decision. Defined.

#[local] Instance processing_request_countable : Countable ProcessingRequest.
Proof.
  refine (inj_countable' (λ r, (pq_size r, pq_eof r)) (λ '(a, b), MkProcessingRequest a b) _). by intros [].
Defined.

#[local] Instance processing_response_eq_dec : EqDecision ProcessingResponse.
Proof. solve_decision. Defined.

#[local] Instance processing_response_countable : Countable ProcessingResponse.
Proof.
  refine (inj_countable' (λ r, (ps_size r, ps_eof r, ps_message r)) (λ '(a, b, c), MkProcessingResponse a b c) _).
  by intros [].
Defined.

Fixpoint bits (p : positive) : list Z :=
  match p with xH => [] | xO p => 0 :: bits p | xI p => 1 :: bits p end.

Fixpoint of_bits (l : list Z) : positive :=
  match l with [] => xH | b :: l => if b =? 0 then xO (of_bits l) else xI (of_bits l) end.

Lemma of_bits_bits p : of_bits (bits p) = p.
Proof. induction p as [p IH|p IH|]; cbn; by rewrite ?IH. Qed.

Definition write_code {A} `{Countable A} (a : A) : list Z := bits (encode a).
Definition read_code {A} `{Countable A} (none : A) (l : list Z) : A := default none (decode (of_bits l)).

Lemma read_write_code {A} `{Countable A} (none a : A) : read_code none (write_code a) = a.
Proof. unfold read_code, write_code. by rewrite of_bits_bits, decode_encode. Qed.

Definition reference_protobuf : Protobuf := {|
  SerializeToArray T := match T with
    | MTRegistrationRequest | MTRegistrationResponse | MTProcessingRequest | MTProcessingResponse => write_code
    end;
  ParseFromArray T := match T with
    | MTRegistrationRequest => read_code (MkRegistrationRequest 0 "" "" "" 0 0 [] None None)
    | MTRegistrationResponse => read_code (MkRegistrationResponse None false None None None)
    | MTProcessingRequest => read_code (MkProcessingRequest 0 false)
    | MTProcessingResponse => read_code (MkProcessingResponse 0 false None)
    end;
|}.

Lemma reference_protobuf_laws : ProtobufLaws (H := reference_protobuf).
Proof. split. intros [] m; apply read_write_code. Qed.

Definition whole_network : Network := {| recv_count l n := (n `min` length l)%nat |}.

Lemma whole_network_laws : NetworkLaws (H := whole_network).
Proof. split. intros l n Hl Hn. cbn. destruct l; [done|cbn; lia]. Qed.

(** The first messages of a program. *)
Definition first_messages : list (sigT message) :=
  [existT MTRegistrationRequest (MkRegistrationRequest 11 "/" "/mnt" "changecase" 0 0 ["changecase"] None None);
   existT MTProcessingRequest (MkProcessingRequest 5 true)].

Lemma message_transport_witness :
  let _ := reference_protobuf in let _ := whole_network in
  receive_messages [MTRegistrationRequest; MTProcessingRequest]
    (Inbound (sent_messages first_messages) false) = Done first_messages (Inbound [] false).
Proof.
  intros pb net.
  destruct (message_transport (H := pb) (H0 := net) (H1 := reference_protobuf_laws)
    first_messages MTProcessingResponse [] false) as (Hr & _ & _).
  - intros l n. reflexivity.
  - repeat constructor; vm_compute; reflexivity.
  - rewrite app_nil_r in Hr. exact Hr.
Defined.
End Sockets.
