(* ===== verification/SharedMemory.v ===== *)
(** * Shared buffers and what they hold (buffer.cpp, buffer.hpp)

    [Messages] has the two halves of a buffer; here a buffer is the descriptor and
    the mapping it holds, from its creation by the driver or its mapping by a
    program to its destruction. The memory that is mapped is a set of bytes. *)
From S2P Require Import Prelude Endian Messages.

Module SharedMemory.
Import Messages.

(** What the process holds: the files it made, its descriptors with the number of
    times each was closed too often, the bytes that are mapped. *)
Record os := Os {
  os_files : list string;
  os_open : list Z;
  os_bad_closes : nat;
  os_mapped : Z → bool;
}.

(** The answers of the operating system: [mkstemp]'s name and descriptor, and
    whether the others succeed; [open] and [mmap] give a descriptor, an address. *)
Class SharedHost := {
  mkstemp : os → string * Z;
  ftruncate_works : os → Z → bool;
  open_file : os → string → option Z;
  mmap : os → Z → option Z;
}.

Record buffer := MkSharedBuffer {
  sb_filename : string;
  sb_file : Z;
  sb_buffer : Z;
  sb_current : bool;
}.

Definition in_range (a n x : Z) : bool := (a <=? x) && (x <? a + n).

Section SharedMemory.
Context `{SharedHost}.
Abbreviation E := (Exc os).

Definition close_file (fd : Z) : E unit := e_modify (λ s,
  if decide (fd ∈ os_open s)
  then Os (os_files s) (filter (λ f, (f ≠ fd)) (os_open s)) (os_bad_closes s) (os_mapped s)
  else Os (os_files s) (os_open s) (S (os_bad_closes s)) (os_mapped s)).

Definition add_open (fd : Z) (s : os) : os :=
  Os (os_files s) (fd :: os_open s) (os_bad_closes s) (os_mapped s).

Definition map_bytes (a n : Z) (v : bool) (s : os) : os :=
  Os (os_files s) (os_open s) (os_bad_closes s) (λ x, if in_range a n x then v else os_mapped s x).

(** Twice the size: both halves. The mapping, or an exception after the file was
    closed. *)
Definition map_file (file_name : string) (file : Z) : E buffer :=
  s ← e_get;
  match mmap s file with
  | None => _ ← close_file file; e_throw (RuntimeError "Failed to memory-map file")
  | Some a =>
      _ ← e_modify (map_bytes a (2 * BufferSize) true);
      mret (MkSharedBuffer file_name file a false)
  end.

(** The result of [mkstemp] is not checked, and the file stays. *)
Definition create_shared_buffer : E buffer :=
  s ← e_get;
  let '(name, file) := mkstemp s in
  _ ← (if 0 <=? file then e_modify (λ s, add_open file (Os (name :: os_files s) (os_open s) (os_bad_closes s) (os_mapped s)))
       else mret tt);
  s ← e_get;
  if negb ((0 <=? file) && ftruncate_works s file)
  then _ ← close_file file; e_throw (RuntimeError "Failed to extend buffer file")
  else map_file name file.

Definition mapSharedBuffer (file_name : string) : E buffer :=
  s ← e_get;
  match open_file s file_name with
  | None => e_throw (RuntimeError "Failed to open file")
  | Some file => _ ← e_modify (add_open file); map_file file_name file
  end.

(** The move constructor, and the assignment that the compiler makes: it copies the
    handles. *)
Definition move_buffer (other : buffer) : buffer * buffer :=
  (other, MkSharedBuffer "" 0 0 (sb_current other)).
Definition assign_buffer (this other : buffer) : buffer * buffer :=
  (other, MkSharedBuffer "" (sb_file other) (sb_buffer other) (sb_current other)).

(** The destructor unmaps [size()] bytes. *)
Definition destroy_buffer (b : buffer) : E unit :=
  _ ← (if negb (sb_buffer b =? 0) then e_modify (map_bytes (sb_buffer b) BufferSize false) else mret tt);
  if negb (sb_file b =? 0) then close_file (sb_file b) else mret tt.

(** ** What is left *)

(** Handles the process does not use yet. *)
Definition fresh_host : Prop :=
  (∀ s, ((mkstemp s).2 ∉ os_open s) ∧ (mkstemp s).2 ≠ 0) ∧
  (∀ s n fd, open_file s n = Some fd → (fd ∉ os_open s) ∧ fd ≠ 0) ∧
  (∀ s fd a, mmap s fd = Some a → a ≠ 0 ∧ ∀ x, in_range a (2 * BufferSize) x = true → os_mapped s x = false).

Lemma filter_fresh (fd : Z) (l : list Z) : fd ∉ l → filter (λ f, f ≠ fd) l = l.
Proof.
  induction l as [|x l IH]; [done|]. intros [Hx Hl]%not_elem_of_cons.
  rewrite filter_cons_True by done. by rewrite IH.
Qed.

Lemma close_run (fd : Z) s : fd ∉ os_open s →
  close_file fd (add_open fd s) = Done tt s.
Proof.
  intros Hf. unfold close_file, e_modify, add_open. cbn [os_open os_files os_bad_closes os_mapped].
  rewrite decide_True by (by left). rewrite filter_cons_False by (by intros ?).
  rewrite filter_fresh by done. by destruct s.
Qed.

(** A mapping that fails gives the descriptor back; one that succeeds is undone by
    the destructor but for its second half. *)
Lemma map_file_run name fd s : fresh_host → fd ∉ os_open s → fd ≠ 0 →
  match map_file name fd (add_open fd s) with
  | Done b s' =>
      ∃ s'', destroy_buffer b s' = Done tt s'' ∧ os_files s'' = os_files s ∧
        os_open s'' = os_open s ∧ os_bad_closes s'' = os_bad_closes s ∧
        ∀ x, os_mapped s'' x = in_range (sb_buffer b + BufferSize) BufferSize x || os_mapped s x
  | Thrown _ s' => s' = s
  | Stuck _ => False
  end.
Proof.
  intros (_ & _ & Hmap) Hfd H0. unfold map_file, e_get, mbind, exc_bind.
  destruct (mmap (add_open fd s) fd) as [a|] eqn:Ea.
  - destruct (Hmap _ _ _ Ea) as [Ha Hfree]. unfold mret, exc_ret, e_modify.
    unfold destroy_buffer, mbind, exc_bind, e_modify. cbn [sb_buffer sb_file].
    rewrite (proj2 (Z.eqb_neq a 0)), (proj2 (Z.eqb_neq fd 0)) by done. cbn [negb].
    eexists. split.
    { exact (close_run fd (map_bytes a BufferSize false (map_bytes a (2 * BufferSize) true s)) Hfd). }
    split; [done|]. split; [done|]. split; [done|]. intros x. cbn [map_bytes os_mapped].
    specialize (Hfree x). unfold in_range in *. cbn [add_open os_mapped] in Hfree. unfold BufferSize in *.
    destruct (Z.leb_spec a x), (Z.ltb_spec x (a + 64 * 1024 * 1024)), (Z.ltb_spec x (a + 2 * (64 * 1024 * 1024))),
      (Z.leb_spec (a + 64 * 1024 * 1024) x), (Z.ltb_spec x (a + 64 * 1024 * 1024 + 64 * 1024 * 1024));
      cbn [andb orb] in *; try lia; try done; by rewrite Hfree.
  - by rewrite (close_run fd s Hfd).
Qed.

(** The driver makes a buffer and destroys it: every descriptor is closed once,
    whatever failed, but the second half of the mapping stays mapped and the file
    stays where it is. *)
Theorem created_buffer_left s : fresh_host → 0 <= (mkstemp s).2 →
  match create_shared_buffer s with
  | Done b s' =>
      ∃ s'', destroy_buffer b s' = Done tt s'' ∧ os_files s'' = (mkstemp s).1 :: os_files s ∧
        os_open s'' = os_open s ∧ os_bad_closes s'' = os_bad_closes s ∧
        ∀ x, os_mapped s'' x = in_range (sb_buffer b + BufferSize) BufferSize x || os_mapped s x
  | Thrown _ s' =>
      os_files s' = (mkstemp s).1 :: os_files s ∧ os_open s' = os_open s ∧
      os_bad_closes s' = os_bad_closes s ∧ os_mapped s' = os_mapped s
  | Stuck _ => False
  end.
Proof.
  intros Hf Hfd. pose proof Hf as (Hm & _). specialize (Hm s). destruct Hm as [Hm H0].
  unfold create_shared_buffer, e_get, mbind, exc_bind. destruct (mkstemp s) as [name fd]. cbn [fst snd] in *.
  rewrite (proj2 (Z.leb_le _ _)) by done. cbn [andb e_modify].
  set (s1 := Os (name :: os_files s) (os_open s) (os_bad_closes s) (os_mapped s)).
  unfold e_modify. destruct (ftruncate_works (add_open fd s1) fd); cbn [negb].
  - pose proof (map_file_run name fd s1 Hf Hm H0) as Hr.
    destruct (map_file name fd (add_open fd s1)); [done| |done]. by subst.
  - by rewrite (close_run fd s1 Hm).
Qed.

(** After an assignment both buffers hold the handles: destroying both closes the
    descriptor a second time. *)
Lemma assigned_closed_twice this name fd a cur s : fd ∉ os_open s → fd ≠ 0 →
  let '(b, other) := assign_buffer this (MkSharedBuffer name fd a cur) in
  ∃ s', (_ ← destroy_buffer other; destroy_buffer b) (add_open fd s) = Done tt s' ∧
    os_bad_closes s' = S (os_bad_closes s).
Proof.
  intros Hfd H0. unfold assign_buffer, destroy_buffer. cbn [sb_file sb_buffer].
  rewrite (proj2 (Z.eqb_neq fd 0)) by done. cbn [negb].
  destruct (Z.eqb_spec a 0) as [->|Ha]; cbn [negb]; unfold mbind, exc_bind, mret, exc_ret, e_modify.
  - rewrite (close_run fd s Hfd). unfold close_file, e_modify. rewrite decide_False by done. by eexists.
  - change (map_bytes a BufferSize false (add_open fd s)) with (add_open fd (map_bytes a BufferSize false s)).
    rewrite close_run by done. unfold close_file, e_modify. cbn [os_open map_bytes].
    rewrite decide_False by done. by eexists.
Qed.
End SharedMemory.

(** A host that grants everything, as long as the addresses are free. *)
Definition next_descriptor (s : os) : Z := 3 + foldr Z.max 0 (os_open s).

Definition granting (free : os → bool) : SharedHost := {|
  mkstemp s := ("/tmp/metal-mmap-1"%string, next_descriptor s);
  ftruncate_works s fd := true;
  open_file s name := Some (next_descriptor s);
  mmap s fd := if free s then Some 4096 else None;
|}.

Lemma next_descriptor_fresh s : (next_descriptor s ∉ os_open s) ∧ next_descriptor s ≠ 0.
Proof.
  assert (Hle : ∀ l x, x ∈ l → x <= foldr Z.max 0 l).
  { induction l as [|y l IH]; intros x [->|Hx]%elem_of_cons || intros x []%elem_of_nil; cbn; [lia|].
    specialize (IH x Hx). lia. }
  assert (Hpos : ∀ l, 0 <= foldr Z.max 0 l) by (induction l; cbn; lia).
  unfold next_descriptor. specialize (Hpos (os_open s)).
  split; [|lia]. intros Hin%Hle. lia.
Qed.

Lemma granting_fresh :
  fresh_host (H := granting (λ s, forallb (λ x, negb (os_mapped s x)) (seqZ 4096 (2 * BufferSize)))).
Proof.
  split; [exact next_descriptor_fresh|].
  split; [intros s n fd [= <-]; apply next_descriptor_fresh|].
  intros s fd a. cbn [mmap granting]. destruct (forallb _ _) eqn:Hall; [|done].
  intros [= <-]. split; [done|]. intros x Hx. rewrite forallb_True in Hall || rewrite forallb_forall in Hall.
  apply negb_true_iff, Hall. rewrite <- list_elem_of_In. apply elem_of_seqZ.
  unfold in_range in Hx. lia.
Qed.

Example half_stays_mapped :
  let host := granting (λ s, negb (os_mapped s 4096)) in
  match create_shared_buffer (Os [] [] 0 (λ _, false)) with
  | Done b s' =>
      match destroy_buffer b s' with
      | Done _ s'' => os_open s'' = [] ∧ os_mapped s'' 4096 = false ∧
                      os_mapped s'' (4096 + BufferSize) = true
      | _ => False
      end
  | _ => False
  end.
Proof. vm_compute. done. Qed.
End SharedMemory.
