(* ===== verification/Agents.v ===== *)
(** * Operator agents and their pool (operator_agent.cpp, agent_pool.cpp,
    pseudo_operators.cpp, pipeline_builder.cpp)

    An agent is the driver's end of a program that stands for an operator in a
    shell pipeline. Agents are shared objects: the driver's state keeps them in
    a list, and a [shared_ptr] to an agent is its index. A socket is what is
    received from it, given as an argument, and the log of what was sent. *)
From Stdlib Require Import Ascii.
From S2P Require Import Prelude Pipeline Messages.

(** The order in which a hash set is walked is not specified: where a new
    element comes to stand is the parameter [emplace]. *)
Class HashOrder := {
  emplace : nat → list nat → list nat;
  emplace_perm i l : emplace i l ≡ₚ i :: l;
}.

Module Agents.
Section Agents.
Context `{HashOrder}.

(** ** operator_agent.hpp, operator_agent.cpp *)

(** Buffers and files; a [shared_ptr] to a storage is its index. *)
Record agent_files := AgentFiles {
  ag_inputBuffer : option Messages.Buffer;
  ag_outputBuffer : option Messages.Buffer;
  ag_internalInputFile : Z * option nat;
  ag_internalOutputFile : Z * option nat;
  ag_agentLoadFile : string;
}.

Definition no_files : agent_files := AgentFiles None None (0, None) (0, None) "".

Record OperatorAgent := MkOperatorAgent {
  ag_pid : Z;                       (* uint *)
  ag_operatorType : string;
  ag_cwd : string;
  ag_metalMountpoint : string;
  ag_args : list string;
  ag_inputAgentPid : Z;
  ag_outputAgentPid : Z;
  ag_internalInputFilename : string;
  ag_internalOutputFilename : string;
  ag_outputAgent : option nat;
  ag_error : string;
  ag_terminated : bool;
  ag_files : agent_files;
}.

(** The constructor, from the request received. *)
Definition create_agent (r : RegistrationRequest) : OperatorAgent :=
  MkOperatorAgent (u32 (rq_pid r)) (rq_operator_type r) (rq_cwd r) (rq_metal_mountpoint r)
    (rq_args r) (u32 (rq_input_pid r)) (u32 (rq_output_pid r))
    (default "" (rq_metal_input_filename r)) (default "" (rq_metal_output_filename r))
    None "" false no_files.

Definition setOutputAgent (o : option nat) (a : OperatorAgent) : OperatorAgent :=
  MkOperatorAgent (ag_pid a) (ag_operatorType a) (ag_cwd a) (ag_metalMountpoint a) (ag_args a)
    (ag_inputAgentPid a) (ag_outputAgentPid a) (ag_internalInputFilename a)
    (ag_internalOutputFilename a) o (ag_error a) (ag_terminated a) (ag_files a).

Definition setTerminated (a : OperatorAgent) : OperatorAgent :=
  MkOperatorAgent (ag_pid a) (ag_operatorType a) (ag_cwd a) (ag_metalMountpoint a) (ag_args a)
    (ag_inputAgentPid a) (ag_outputAgentPid a) (ag_internalInputFilename a)
    (ag_internalOutputFilename a) (ag_outputAgent a) (ag_error a) true (ag_files a).

Definition setError (e : string) (a : OperatorAgent) : OperatorAgent :=
  MkOperatorAgent (ag_pid a) (ag_operatorType a) (ag_cwd a) (ag_metalMountpoint a) (ag_args a)
    (ag_inputAgentPid a) (ag_outputAgentPid a) (ag_internalInputFilename a)
    (ag_internalOutputFilename a) (ag_outputAgent a) e (ag_terminated a) (ag_files a).

Definition setFiles (f : agent_files) (a : OperatorAgent) : OperatorAgent :=
  MkOperatorAgent (ag_pid a) (ag_operatorType a) (ag_cwd a) (ag_metalMountpoint a) (ag_args a)
    (ag_inputAgentPid a) (ag_outputAgentPid a) (ag_internalInputFilename a)
    (ag_internalOutputFilename a) (ag_outputAgent a) (ag_error a) (ag_terminated a) f.

Definition isOutputConnectedTo (a other : OperatorAgent) : bool :=
  ag_pid other =? ag_outputAgentPid a.
Definition isInputAgent (a : OperatorAgent) : bool := ag_inputAgentPid a =? 0.
Definition isOutputAgent (a : OperatorAgent) : bool := ag_outputAgentPid a =? 0.

(** A path of the program's, which may be relative to its directory. *)
Definition resolvePath (path : string) (a : OperatorAgent) : string :=
  match path with
  | EmptyString => ag_cwd a
  | String c _ =>
      if decide (c = "/"%char) then path
      else String.append (ag_cwd a) (String.append "/" path)
  end.

(** ** pseudo_operators.cpp *)

Definition isDatagenAgent (a : OperatorAgent) : bool :=
  bool_decide (ag_operatorType a = "datagen").
Definition isMetalCatAgent (a : OperatorAgent) : bool :=
  bool_decide (ag_operatorType a = "metal-cat").
Definition isNullOutput (a : OperatorAgent) : bool :=
  bool_decide (ag_internalOutputFilename a = "$NULL").

(** ** agent_pool.cpp *)

Record pool := Pool {
  po_agents : list OperatorAgent;
  po_registered : list nat;                     (* _registered_agents *)
  po_pipeline : list nat;                       (* _pipeline_agents *)
  po_cached : bool;                             (* _contains_valid_pipeline_cached *)
  po_sent : list (nat * RegistrationResponse);
}.

(** The flag of a new pool is not initialised. *)
Definition new_pool (garbage : bool) : pool := Pool [] [] [] garbage [].

(** One round of the loop over the agents registered: the new agent [i] and
    the other one [j]. *)
Definition connect_agents (i : nat) (agents : list OperatorAgent) (j : nat) :
    list OperatorAgent :=
  match agents !! j, agents !! i with
  | Some other, Some agent =>
      if isOutputConnectedTo other agent then <[j := setOutputAgent (Some i) other]> agents
      else if isOutputConnectedTo agent other then <[i := setOutputAgent (Some j) agent]> agents
      else agents
  | _, _ => agents
  end.

(** [None]: no proper request is received, and the constructor throws. *)
Definition registerAgent (request : option RegistrationRequest) : M pool unit :=
  match request with
  | None => m_fault (Throw "Could not read message header from socket")
  | Some r =>
      s ← m_get;
      let i := length (po_agents s) in
      m_put (Pool (foldl (connect_agents i) (po_agents s ++ [create_agent r]) (po_registered s))
                  (emplace i (po_registered s)) (po_pipeline s) false (po_sent s))
  end.

Definition agent_is (f : OperatorAgent → bool) (agents : list OperatorAgent) (i : nat) : bool :=
  match agents !! i with Some a => f a | None => false end.

(** The walk along the outputs; a cycle of agents is walked for ever. *)
Fixpoint walk_outputs (fuel : nat) (agents : list OperatorAgent) (o : option nat) :
    result (list nat) :=
  match o with
  | None => Ok []
  | Some i =>
      match fuel with
      | O => Fault OutOfFuel
      | S fuel' =>
          match agents !! i with
          | None => Fault OutOfBounds
          | Some a =>
              if isOutputAgent a then Ok [i]
              else rest ← walk_outputs fuel' agents (ag_outputAgent a); mret (i :: rest)
          end
      end
  end.

Definition containsValidPipeline : M pool bool :=
  s ← m_get;
  if po_cached s then mret true
  else
    match List.find (agent_is isInputAgent (po_agents s)) (po_registered s) with
    | None =>
        _ ← m_put (Pool (po_agents s) (po_registered s) (po_pipeline s) false (po_sent s));
        mret false
    | Some pipelineStart =>
        pipeline_agents ←
          m_lift (walk_outputs (length (po_agents s)) (po_agents s) (Some pipelineStart));
        match last pipeline_agents with
        | None => m_fault OutOfBounds
        | Some back =>
            if agent_is isOutputAgent (po_agents s) back then
              _ ← m_put (Pool (po_agents s)
                           (filter (λ i, i ∉ pipeline_agents) (po_registered s))
                           pipeline_agents true (po_sent s));
              mret true
            else
              _ ← m_put (Pool (po_agents s) (po_registered s) (po_pipeline s) false (po_sent s));
              mret false
        end
    end.

Definition refusal (a : OperatorAgent) : RegistrationResponse :=
  MkRegistrationResponse
    (Some (if bool_decide (ag_error a = "")
           then String.append "An invalid operator chain was specified." (String "010" "")
           else ag_error a))
    false None None None.

Definition sendRegistrationInvalid (i : nat) : M pool unit :=
  s ← m_get;
  a ← c_deref (po_agents s !! i);
  m_put (Pool (<[i := setTerminated a]> (po_agents s)) (po_registered s) (po_pipeline s)
              (po_cached s) (po_sent s ++ [(i, refusal a)])).

Fixpoint send_all (agents : list nat) : M pool unit :=
  match agents with
  | [] => mret tt
  | i :: rest => _ ← sendRegistrationInvalid i; send_all rest
  end.

(** [sendAllAgentsInvalid(_registered_agents)]. *)
Definition releaseUnusedAgents : M pool unit :=
  s ← m_get;
  _ ← send_all (po_registered s);
  m_modify (λ s, Pool (po_agents s) [] (po_pipeline s) (po_cached s) (po_sent s)).

Fixpoint send_unterminated (agents : list nat) : M pool unit :=
  match agents with
  | [] => mret tt
  | i :: rest =>
      s ← m_get;
      a ← c_deref (po_agents s !! i);
      _ ← (if negb (ag_terminated a) then sendRegistrationInvalid i else mret tt);
      send_unterminated rest
  end.

Definition reset : M pool unit :=
  s ← m_get;
  _ ← send_unterminated (po_pipeline s);
  _ ← m_modify (λ s, Pool (po_agents s) (po_registered s) [] (po_cached s) (po_sent s));
  releaseUnusedAgents.

(** ** pipeline_builder.cpp *)

(** [_registry->operatorSpecifications()]: the key stands for the object. *)
Definition registry : Type := list (string * OperatorSpecification).

Fixpoint resolve_loop (reg : registry) (agents : list OperatorAgent) (used : list string)
    (res : list (option OperatorSpecification * OperatorAgent)) :
    result (list (option OperatorSpecification * OperatorAgent)) :=
  match agents with
  | [] => Ok res
  | agent :: rest =>
      if isDatagenAgent agent || isMetalCatAgent agent then
        if (0 <? length res)%nat
        then Fault (Throw "Operator can only be used as the start of an FPGA pipeline")
        else resolve_loop reg rest used (res ++ [(None, agent)])
      else
        match assoc (ag_operatorType agent) reg with
        | None => Fault (Throw "Unknown operator was requested")
        | Some op =>
            if bool_decide (ag_operatorType agent ∈ used)
            then Fault (Throw "Operator was used more than once")
            else resolve_loop reg rest (ag_operatorType agent :: used) (res ++ [(Some op, agent)])
        end
  end.

Definition resolveOperatorSpecifications (reg : registry) (agents : list OperatorAgent) :
    result (list (option OperatorSpecification * OperatorAgent)) :=
  resolve_loop reg agents [] [].
End Agents.
End Agents.
