(* ===== verification/AgentProofs.v ===== *)
(** * Registration of agents

    The programs of a shell pipeline connect to the driver in any order. The
    theorems state that the pool puts them into the order of the pipeline, and
    what it answers to those it does not use. *)
From S2P Require Import Prelude Pipeline Messages Agents.

Module AgentFacts.
Import Agents.

Section Requests.
Implicit Types (r : RegistrationRequest) (l rs : list RegistrationRequest).

Definition pid_of r : Z := u32 (rq_pid r).
Definition in_of r : Z := u32 (rq_input_pid r).
Definition out_of r : Z := u32 (rq_output_pid r).

(** The requests of a shell pipeline, in its order: every program names the
    one before and the one after it. *)
Record pipe_chain rs : Prop := PipeChain {
  pc_nodup : NoDup (pid_of <$> rs);
  pc_pid : ∀ r, r ∈ rs → pid_of r ≠ 0;
  pc_nonempty : rs ≠ [];
  pc_first : ∀ r, head rs = Some r → in_of r = 0;
  pc_last : ∀ r, last rs = Some r → out_of r = 0;
  pc_link : ∀ k r r', rs !! k = Some r → rs !! S k = Some r' →
    out_of r = pid_of r' ∧ in_of r' = pid_of r;
}.

Lemma pid_inj rs r r' : NoDup (pid_of <$> rs) → r ∈ rs → r' ∈ rs → pid_of r = pid_of r' → r = r'.
Proof.
  intros Hnd [i Hi]%list_elem_of_lookup [j Hj]%list_elem_of_lookup E.
  assert (i = j) as ->; [|congruence].
  apply (NoDup_lookup _ _ _ (pid_of r) Hnd); rewrite list_lookup_fmap; [by rewrite Hi|].
  rewrite Hj. simpl. by rewrite E.
Qed.

(** An output leads to the next program, or to none at the end. *)
Lemma chain_output rs r :
  pipe_chain rs → r ∈ rs →
  out_of r = 0 ∧ last rs = Some r ∨
  ∃ k r', rs !! k = Some r ∧ rs !! S k = Some r' ∧ out_of r = pid_of r'.
Proof.
  intros Hc [k Hk]%list_elem_of_lookup. destruct (rs !! S k) as [r'|] eqn:E.
  - right. exists k, r'. split; [done|]. split; [done|]. by destruct (pc_link _ Hc k r r' Hk E).
  - left. apply lookup_ge_None in E. pose proof (lookup_lt_Some _ _ _ Hk).
    assert (last rs = Some r) as Hl.
    { rewrite last_lookup. by replace (pred (length rs)) with k by lia. }
    split; [by apply (pc_last _ Hc)|done].
Qed.

(** No two programs of a pipeline feed each other. *)
Lemma chain_one_way rs r r' :
  pipe_chain rs → r ∈ rs → r' ∈ rs → out_of r = pid_of r' → out_of r' ≠ pid_of r.
Proof.
  intros Hc Hr Hr' E E'.
  assert (∀ x y, x ∈ rs → y ∈ rs → out_of x = pid_of y →
    ∃ k, rs !! k = Some x ∧ rs !! S k = Some y) as Hstep.
  { intros x y Hx Hy Exy. destruct (chain_output rs x Hc Hx) as [[E0 _]|(k & z & Hk & Hz & Ez)].
    - exfalso. apply (pc_pid _ Hc y Hy). congruence.
    - exists k. split; [done|]. replace y with z; [done|].
      apply (pid_inj rs); [apply Hc|by eapply list_elem_of_lookup_2|done|congruence]. }
  destruct (Hstep r r' Hr Hr' E) as (k & Hk1 & Hk2).
  destruct (Hstep r' r Hr' Hr E') as (j & Hj1 & Hj2).
  assert (∀ a b x, rs !! a = Some x → rs !! b = Some x → a = b) as Huniq.
  { intros a b x Ha Hb. apply (NoDup_lookup _ _ _ (pid_of x) (pc_nodup _ Hc));
      rewrite list_lookup_fmap; [by rewrite Ha|by rewrite Hb]. }
  pose proof (Huniq _ _ _ Hk2 Hj1). pose proof (Huniq _ _ _ Hk1 Hj2). lia.
Qed.
End Requests.

(** ** Connecting a new agent *)

Section Connect.
Implicit Types (a o : OperatorAgent) (agents : list OperatorAgent).

Lemma connected_set_output x a o : isOutputConnectedTo (setOutputAgent x a) o = isOutputConnectedTo a o.
Proof. done. Qed.
Lemma connected_to_set_output x a o : isOutputConnectedTo o (setOutputAgent x a) = isOutputConnectedTo o a.
Proof. done. Qed.

Lemma set_output_twice x y a : setOutputAgent x (setOutputAgent y a) = setOutputAgent x a.
Proof. done. Qed.

(** The agent [j] of the list gets the input of [a]. *)
Definition links agents a j : Prop :=
  ∃ o, agents !! j = Some o ∧ isOutputConnectedTo o a = false ∧ isOutputConnectedTo a o = true.

(** One round of the loop, on the agent [o] registered before. *)
Lemma connect_round i j agents a o :
  i ≠ j → agents !! i = Some a → agents !! j = Some o →
  let agents' := connect_agents i agents j in
  ∃ y, agents' !! i = Some (setOutputAgent y a) ∧
    agents' !! j = Some (if isOutputConnectedTo o a then setOutputAgent (Some i) o else o) ∧
    (∀ k, k ≠ i → k ≠ j → agents' !! k = agents !! k) ∧ length agents' = length agents ∧
    (y = ag_outputAgent a ∧ ¬ links agents a j ∨ y = Some j ∧ links agents a j).
Proof.
  intros Hij Ha Ho agents'. unfold agents', connect_agents, links. rewrite Ho, Ha.
  destruct (isOutputConnectedTo o a) eqn:E1; [|destruct (isOutputConnectedTo a o) eqn:E2].
  - exists (ag_outputAgent a). rewrite list_lookup_insert_ne, list_lookup_insert_eq, length_insert
      by (done || by eapply lookup_lt_Some).
    split; [rewrite Ha; by destruct a|]. split; [done|].
    split; [intros k Hk1 Hk2; by rewrite list_lookup_insert_ne|]. split; [done|].
    left. split; [done|]. intros (o' & ? & ? & ?). simplify_eq. congruence.
  - exists (Some j). rewrite list_lookup_insert_eq by (by eapply lookup_lt_Some).
    rewrite list_lookup_insert_ne, length_insert by done.
    split; [done|]. split; [done|].
    split; [intros k Hk1 Hk2; by rewrite list_lookup_insert_ne|]. split; [done|].
    right. split; [done|]. by exists o.
  - exists (ag_outputAgent a). split; [rewrite Ha; by destruct a|]. split; [done|].
    split; [done|]. split; [done|]. left. split; [done|].
    intros (o' & ? & ? & ?). simplify_eq. congruence.
Qed.

(** The whole loop: every agent of [js] whose output is the new one is
    connected to it, and the new one to an agent of [js] that is its output. *)
Lemma connect_fold i js : ∀ agents a,
  NoDup js → i ∉ js → agents !! i = Some a → (∀ j, j ∈ js → is_Some (agents !! j)) →
  let agents' := foldl (connect_agents i) agents js in
  length agents' = length agents ∧
  (∀ k, k ∉ js → k ≠ i → agents' !! k = agents !! k) ∧
  (∀ j o, j ∈ js → agents !! j = Some o →
     agents' !! j = Some (if isOutputConnectedTo o a then setOutputAgent (Some i) o else o)) ∧
  ∃ x, agents' !! i = Some (setOutputAgent x a) ∧
    ((x = ag_outputAgent a ∧ ∀ j, j ∈ js → ¬ links agents a j) ∨
     ∃ j, j ∈ js ∧ x = Some j ∧ links agents a j).
Proof.
  induction js as [|j js IH]; intros agents a Hnd Hi Ha Hjs agents'.
  { split; [done|]. split; [done|]. split; [intros j o Hj; by apply elem_of_nil in Hj|].
    exists (ag_outputAgent a). split; [by destruct a|]. left.
    split; [done|]. intros j Hj. by apply elem_of_nil in Hj. }
  apply NoDup_cons in Hnd as [Hj Hnd]. apply not_elem_of_cons in Hi as [Hij Hi].
  destruct (Hjs j) as [o Ho]; [by left|].
  set (agents1 := connect_agents i agents j).
  destruct (connect_round i j agents a o Hij Ha Ho) as (y & Hy & Hj1 & Hother & Hlen & Hcase).
  fold agents1 in Hy, Hj1, Hother, Hlen.
  assert (∀ k, k ∈ js → agents1 !! k = agents !! k) as Hjs1
    by (intros k Hk; apply Hother; intros ->; done).
  destruct (IH agents1 (setOutputAgent y a) Hnd Hi Hy) as (Hl & Ho' & Hj' & x & Hx & Hxc).
  { intros k Hk. rewrite Hjs1 by done. apply Hjs. by right. }
  assert (∀ k, k ∈ js → links agents1 (setOutputAgent y a) k ↔ links agents a k) as Hlinks
    by (intros k Hk; unfold links; by rewrite Hjs1).
  subst agents'. cbn [foldl]. fold agents1.
  split; [by rewrite Hl|]. split; [|split].
  - intros k [Hk1 Hk2]%not_elem_of_cons Hk. by rewrite Ho', Hother.
  - intros k o' [->|Hk]%elem_of_cons Hk'.
    + rewrite Ho' by done. rewrite Hj1. by simplify_eq.
    + rewrite (Hj' k o') by (done || by rewrite Hjs1). done.
  - exists x. rewrite set_output_twice in Hx. split; [done|].
    destruct Hxc as [[-> Hno]|(k & Hk & -> & Hlk)].
    + destruct Hcase as [[-> Hn]|[-> Hlj]].
      * left. split; [done|]. intros k [->|Hk]%elem_of_cons; [done|]. rewrite <-Hlinks by done. auto.
      * right. exists j. split; [by left|done].
    + right. exists k. split; [by right|]. split; [done|]. by apply Hlinks.
Qed.
End Connect.
(** ** The agents that wait *)

Section Waiting.
Context `{HashOrder}.
Implicit Types (r : RegistrationRequest) (l rs : list RegistrationRequest) (s : pool).

(** The position of the program with a process number. *)
Definition find_pid l (p : Z) : option nat := fst <$> list_find (λ r, pid_of r = p) l.

Lemma find_pid_Some l k r :
  NoDup (pid_of <$> l) → l !! k = Some r → find_pid l (pid_of r) = Some k.
Proof.
  intros Hnd Hk. unfold find_pid. destruct (list_find _ l) as [[j r']|] eqn:E.
  - apply list_find_Some in E as (Hj & E & _). cbn. f_equal.
    apply (NoDup_lookup _ _ _ (pid_of r) Hnd); rewrite list_lookup_fmap; [|by rewrite Hk].
    rewrite Hj. simpl. by rewrite E.
  - apply list_find_None in E. rewrite Forall_lookup in E. by destruct (E k r Hk).
Qed.

Lemma find_pid_None l p : (∀ r, r ∈ l → pid_of r ≠ p) → find_pid l p = None.
Proof.
  intros Hl. unfold find_pid. replace (list_find _ l) with (@None (nat * RegistrationRequest)); [done|].
  symmetry. apply list_find_None, Forall_forall. auto.
Qed.

Lemma fresh_pid l r :
  NoDup (pid_of <$> l ++ [r]) → NoDup (pid_of <$> l) ∧ ∀ r', r' ∈ l → pid_of r' ≠ pid_of r.
Proof.
  rewrite fmap_app. intros (Hl & Hd & _)%NoDup_app. split; [done|]. intros r' Hr' E.
  apply (Hd (pid_of r')); [by apply list_elem_of_fmap_2|]. rewrite E. by left.
Qed.

Lemma find_pid_inv l p k : find_pid l p = Some k → ∃ r, l !! k = Some r ∧ pid_of r = p.
Proof.
  unfold find_pid. destruct (list_find _ l) as [[j r]|] eqn:E; [|done].
  intros [= <-]. apply list_find_Some in E as (Hj & E & _). by exists r.
Qed.

(** The position of an output once [r] has joined. *)
Lemma find_pid_snoc l r p :
  NoDup (pid_of <$> l ++ [r]) →
  find_pid (l ++ [r]) p = if decide (p = pid_of r) then Some (length l) else find_pid l p.
Proof.
  intros Hnd. destruct (fresh_pid _ _ Hnd) as [Hndl _]. case_decide as E.
  - rewrite E. apply find_pid_Some; [done|]. rewrite lookup_app_r by lia. by rewrite Nat.sub_diag.
  - destruct (find_pid l p) as [k|] eqn:Ek.
    + destruct (find_pid_inv _ _ _ Ek) as (x & Hx & <-).
      apply find_pid_Some; [done|]. by apply lookup_app_l_Some.
    + apply find_pid_None. intros x [Hx|Hx]%elem_of_app.
      * intros <-. apply list_elem_of_lookup in Hx as [k Hk].
        by rewrite (find_pid_Some l k) in Ek.
      * apply list_elem_of_singleton in Hx as ->. congruence.
Qed.

Definition next_of (base : nat) l r : option nat := (λ k, (base + k)%nat) <$> find_pid l (out_of r).

(** The agents of the requests [l], the first of them at [base]. *)
Definition agents_of (base : nat) l : list OperatorAgent :=
  (λ r, setOutputAgent (next_of base l r) (create_agent r)) <$> l.

Lemma agents_of_lookup base l k :
  agents_of base l !! k = (λ r, setOutputAgent (next_of base l r) (create_agent r)) <$> l !! k.
Proof. unfold agents_of. by rewrite list_lookup_fmap. Qed.

(** The programs [l] wait, on top of the pool [s0], in which none does. *)
Definition waiting s0 l s : Prop :=
  let base := length (po_agents s0) in
  po_agents s = po_agents s0 ++ agents_of base l ∧
  po_registered s ≡ₚ seq base (length l) ∧
  po_pipeline s = po_pipeline s0 ∧ po_sent s = po_sent s0.

(** Two programs that may be together in a pipeline. *)
Definition compatible r r' : Prop := out_of r = pid_of r' → out_of r' ≠ pid_of r.

(** Where the agents of [l] stand, before a new one. *)
Lemma before_last A0 l r k :
  ((A0 ++ agents_of (length A0) l) ++ [create_agent r]) !! (length A0 + k)%nat
  = if decide (k < length l)%nat then agents_of (length A0) l !! k
    else [create_agent r] !! (k - length l)%nat.
Proof.
  assert (length (agents_of (length A0) l) = length l) as Hlen by apply length_fmap. case_decide.
  - rewrite lookup_app_l by (rewrite length_app, Hlen; lia).
    rewrite lookup_app_r by lia. f_equal. lia.
  - rewrite lookup_app_r by (rewrite length_app, Hlen; lia). f_equal.
    rewrite length_app, Hlen. lia.
Qed.

(** The output the loop finds for the new agent is the one with its pid. *)
Lemma new_output A0 l r (js : list nat) x :
  let A := (A0 ++ agents_of (length A0) l) ++ [create_agent r] in
  NoDup (pid_of <$> l) → (∀ r', r' ∈ l → compatible r r') →
  (∀ j, j ∈ js ↔ (length A0 ≤ j < length A0 + length l)%nat) →
  (x = None ∧ (∀ j, j ∈ js → ¬ links A (create_agent r) j)) ∨
   (∃ j, j ∈ js ∧ x = Some j ∧ links A (create_agent r) j) →
  x = next_of (length A0) l r.
Proof.
  intros A Hnd Hcomp Hin Hx. unfold next_of. destruct Hx as [[-> Hno]|(q & Hq & -> & o & Ho & _ & Eo)].
  - rewrite find_pid_None; [done|]. intros r' Hr' E. pose proof Hr' as [q Hq]%list_elem_of_lookup.
    apply (Hno (length A0 + q)%nat).
    { apply Hin. pose proof (lookup_lt_Some _ _ _ Hq). lia. }
    eexists. split; [|split].
    + unfold A. rewrite before_last, decide_True by (by eapply lookup_lt_Some).
      by rewrite agents_of_lookup, Hq.
    + apply Z.eqb_neq. cbn. intros E'. apply (Hcomp r'); [done|by symmetry|by symmetry].
    + by apply Z.eqb_eq.
  - apply Hin in Hq. replace q with (length A0 + (q - length A0))%nat in Ho by lia.
    unfold A in Ho. rewrite before_last, decide_True, agents_of_lookup in Ho by lia.
    destruct (l !! (q - length A0)%nat) as [r'|] eqn:Er; [|done]. injection Ho as <-.
    apply Z.eqb_eq in Eo. cbn in Eo. unfold out_of.
    rewrite <-Eo. change (u32 (rq_pid r')) with (pid_of r').
    rewrite (find_pid_Some l (q - length A0)%nat) by done. cbn. f_equal. lia.
Qed.

(** An agent that waited is connected to the new one if that is its output. *)
Lemma old_output base l r r' :
  NoDup (pid_of <$> l ++ [r]) →
  (let a := setOutputAgent (next_of base l r') (create_agent r') in
   if isOutputConnectedTo a (create_agent r) then setOutputAgent (Some (base + length l)%nat) a else a)
  = setOutputAgent (next_of base (l ++ [r]) r') (create_agent r').
Proof.
  intros Hnd. unfold next_of. rewrite find_pid_snoc by done. cbv zeta. rewrite connected_set_output.
  unfold isOutputConnectedTo, create_agent. cbn [ag_pid ag_outputAgentPid].
  change (u32 (rq_pid r)) with (pid_of r). change (u32 (rq_output_pid r')) with (out_of r').
  case_decide as E; [rewrite E, Z.eqb_refl; done|].
  by rewrite (proj2 (Z.eqb_neq _ _)) by congruence.
Qed.

Lemma connect_all base A0 l r js :
  NoDup (pid_of <$> l ++ [r]) → (∀ r', r' ∈ l → compatible r r') → out_of r ≠ pid_of r →
  base = length A0 → js ≡ₚ seq base (length l) →
  foldl (connect_agents (base + length l)) ((A0 ++ agents_of base l) ++ [create_agent r]) js
  = A0 ++ agents_of base (l ++ [r]).
Proof.
  intros Hnd Hcomp Hself -> Hjs.
  assert (length (agents_of (length A0) l) = length l) as Hlen by apply length_fmap.
  set (A := (A0 ++ agents_of (length A0) l) ++ [create_agent r]).
  assert (∀ j, j ∈ js ↔ (length A0 ≤ j < length A0 + length l)%nat) as Hin
    by (intros j; by rewrite Hjs, elem_of_seq).
  assert (∀ k, (length A ≤ k)%nat ↔ (length A0 + length l < k)%nat) as HlenA
    by (intros k; unfold A; rewrite !length_app, Hlen; simpl; lia).
  destruct (fresh_pid _ _ Hnd) as [Hndl _].
  destruct (connect_fold (length A0 + length l) js A (create_agent r)) as (Hl & Hout & Hjo & x & Hx & Hc).
  { rewrite Hjs. apply NoDup_ListNoDup, seq_NoDup. }
  { rewrite Hin. lia. }
  { unfold A. rewrite before_last, decide_False by lia. by rewrite Nat.sub_diag. }
  { intros j Hj%Hin. apply lookup_lt_is_Some. apply Nat.nle_gt. rewrite HlenA. lia. }
  apply (new_output A0 l r js x Hndl Hcomp Hin) in Hc as ->.
  apply list_eq. intros k. destruct (decide (k < length A0)%nat) as [Hk|Hk].
  { rewrite Hout by (rewrite ?Hin; lia). unfold A. rewrite <-app_assoc.
    rewrite !lookup_app_l by lia. done. }
  replace k with (length A0 + (k - length A0))%nat by lia. set (j := (k - length A0)%nat).
  rewrite (lookup_app_r A0) by lia. replace (length A0 + j - length A0)%nat with j by lia.
  rewrite agents_of_lookup. destruct (lt_eq_lt_dec j (length l)) as [[Hj| ->]|Hj].
  - destruct (lookup_lt_is_Some_2 l j Hj) as [r' Hr']. rewrite (lookup_app_l_Some _ _ _ _ Hr').
    rewrite (Hjo (length A0 + j)%nat (setOutputAgent (next_of (length A0) l r') (create_agent r'))).
    + cbn [fmap option_fmap option_map]. f_equal. by apply old_output.
    + apply Hin. lia.
    + unfold A. rewrite before_last, decide_True by done. by rewrite agents_of_lookup, Hr'.
  - rewrite lookup_app_r, Nat.sub_diag, Hx by lia. cbn [lookup list_lookup fmap option_fmap option_map].
    unfold next_of. by rewrite find_pid_snoc, decide_False by done.
  - rewrite lookup_app_r by lia.
    rewrite (lookup_ge_None_2 (foldl _ _ _)) by (rewrite Hl, HlenA; lia).
    by rewrite (lookup_ge_None_2 [r]) by (simpl; lia).
Qed.

(** A request brings the pool from [l] waiting to [l ++ [r]]. *)
Lemma register_run s0 l s r :
  waiting s0 l s → NoDup (pid_of <$> l ++ [r]) → (∀ r', r' ∈ l → compatible r r') →
  out_of r ≠ pid_of r →
  ∃ s', registerAgent (Some r) s = Ok (tt, s') ∧ waiting s0 (l ++ [r]) s' ∧ po_cached s' = false.
Proof.
  intros (Ha & Hr & Hp & Hsent) Hnd Hcomp Hself. unfold registerAgent.
  rewrite (bind_run m_get _ s s s) by done. eexists. split; [done|]. split; [|done].
  set (base := length (po_agents s0)) in *.
  assert (length (po_agents s) = (base + length l)%nat) as Hi
    by (rewrite Ha, length_app; unfold agents_of; by rewrite length_fmap).
  unfold waiting. cbn [po_agents po_registered po_pipeline po_sent]. fold base.
  rewrite Hi, Ha. split; [by apply connect_all|]. split; [|done].
  rewrite emplace_perm, Hr, length_app, seq_app. cbn. by rewrite Permutation_cons_append.
Qed.
End Waiting.

(** ** Looking for a pipeline *)

Section Valid.
Context `{HashOrder}.
Implicit Types (r : RegistrationRequest) (l rs t : list RegistrationRequest) (s : pool).

Lemma find_unique (f : nat → bool) js i :
  i ∈ js → f i = true → (∀ j, j ∈ js → f j = true → j = i) → List.find f js = Some i.
Proof.
  intros Hi Hf Hu. destruct (List.find f js) as [j|] eqn:E.
  - apply find_some in E as [Hj%list_elem_of_In Hfj]. by rewrite (Hu j).
  - apply list_elem_of_In in Hi. by rewrite (find_none _ _ E i Hi) in Hf.
Qed.

Lemma find_absent (f : nat → bool) js : (∀ j, j ∈ js → f j = false) → List.find f js = None.
Proof.
  intros Hf. destruct (List.find f js) as [j|] eqn:E; [|done].
  apply find_some in E as [Hj%list_elem_of_In Hfj]. by rewrite Hf in Hfj.
Qed.

(** Only the first program of a pipeline has no input. *)
Lemma chain_input rs r : pipe_chain rs → r ∈ rs → in_of r = 0 → head rs = Some r.
Proof.
  intros Hc [k Hk]%list_elem_of_lookup H0. destruct k as [|k].
  - destruct rs; [done|]. done.
  - destruct (rs !! k) as [r'|] eqn:E.
    + exfalso. destruct (pc_link _ Hc k r' r E Hk) as [_ Ei].
      apply (pc_pid _ Hc r'); [by eapply list_elem_of_lookup_2|congruence].
    + apply lookup_ge_None in E. apply lookup_lt_Some in Hk. lia.
Qed.

(** The programs from the first of [t] on that wait without a gap. *)
Fixpoint within l t : list RegistrationRequest :=
  match t with
  | [] => []
  | r :: t' => if decide (r ∈ l) then r :: within l t' else []
  end.

Lemma within_app l t : ∃ q, t = within l t ++ q ∧ (∀ r, head q = Some r → r ∉ l).
Proof.
  induction t as [|r t (q & Hq & Hh)]; [by exists []|]. cbn [within]. case_decide as Hr.
  - exists q. split; [|done]. cbn. by f_equal.
  - exists (r :: t). split; [done|]. by intros r' [= <-].
Qed.

Lemma within_elem l t r : r ∈ within l t → r ∈ l.
Proof.
  induction t as [|x t IH]; cbn [within]; [by intros ?%elem_of_nil|].
  case_decide; [|by intros ?%elem_of_nil]. intros [->|?]%elem_of_cons; auto.
Qed.

Lemma within_all l t : (∀ r, r ∈ t → r ∈ l) → within l t = t.
Proof.
  induction t as [|x t IH]; intros Ht; cbn [within]; [done|].
  rewrite decide_True by (apply Ht; by left). rewrite IH; [done|]. intros r Hr. apply Ht. by right.
Qed.

Lemma within_length l t : NoDup t → (length (within l t) ≤ length l)%nat.
Proof.
  intros Hnd. apply submseteq_length, NoDup_submseteq.
  - destruct (within_app l t) as (q & Hq & _). rewrite Hq in Hnd. by apply NoDup_app in Hnd as [? _].
  - intros r. apply within_elem.
Qed.

Definition position base l r : nat := (base + default 0%nat (find_pid l (pid_of r)))%nat.

(** [agents] holds the agents of [l] from [base] on. *)
Definition holds_agents (agents : list OperatorAgent) (base : nat) l : Prop :=
  ∀ k r, l !! k = Some r →
    agents !! (base + k)%nat = Some (setOutputAgent (next_of base l r) (create_agent r)).

Lemma waiting_holds s0 l s :
  waiting s0 l s → holds_agents (po_agents s) (length (po_agents s0)) l.
Proof.
  intros (Ha & _) k r Hk. rewrite Ha, lookup_app_r by lia.
  replace (_ + k - _)%nat with k by lia. by rewrite agents_of_lookup, Hk.
Qed.

Lemma find_pid_missing rs l r :
  pipe_chain rs → (∀ x, x ∈ l → x ∈ rs) → r ∈ rs → r ∉ l → find_pid l (pid_of r) = None.
Proof.
  intros Hc Hl Hr Hn. apply find_pid_None. intros x Hx E. apply Hn.
  replace r with x; [done|]. apply (pid_inj rs); auto. apply Hc.
Qed.

Lemma walk_run agents base rs l :
  pipe_chain rs → NoDup (pid_of <$> l) → (∀ r, r ∈ l → r ∈ rs) → holds_agents agents base l →
  ∀ t pre fuel, rs = pre ++ t → (length (within l t) ≤ fuel)%nat →
    walk_outputs fuel agents
      (r ← head t; (λ k, (base + k)%nat) <$> find_pid l (pid_of r))
    = Ok (position base l <$> within l t).
Proof.
  intros Hc Hnd Hl Hag t. induction t as [|r t IH]; intros pre fuel Hrs Hfuel; [by destruct fuel|].
  assert (r ∈ rs) as Hr by (rewrite Hrs; apply elem_of_app; right; by left).
  cbn [within] in *. destruct (decide (r ∈ l)) as [Hin|Hout].
  2: { cbn. rewrite (find_pid_missing rs) by done. by destruct fuel. }
  apply list_elem_of_lookup in Hin as [k Hk].
  assert (find_pid l (pid_of r) = Some k) as Hp by by apply find_pid_Some.
  destruct fuel as [|fuel]; [cbn in Hfuel; lia|].
  cbn [head mbind option_bind]. rewrite Hp. cbn [fmap option_fmap option_map walk_outputs].
  rewrite (Hag k r Hk). unfold isOutputAgent. cbn [setOutputAgent create_agent ag_outputAgentPid ag_outputAgent].
  change (u32 (rq_output_pid r)) with (out_of r). rewrite fmap_cons.
  assert (position base l r = (base + k)%nat) as -> by (unfold position; by rewrite Hp).
  destruct t as [|r2 t].
  - assert (out_of r = 0) as -> by (apply (pc_last _ Hc); by rewrite Hrs, last_snoc). done.
  - assert (out_of r = pid_of r2) as Eo.
    { apply (pc_link _ Hc (length pre)); rewrite Hrs.
      - rewrite lookup_app_r by lia. by rewrite Nat.sub_diag.
      - rewrite lookup_app_r by lia. by replace (S (length pre) - length pre)%nat with 1%nat by lia. }
    rewrite Eo, (proj2 (Z.eqb_neq _ _)).
    2: { apply (pc_pid _ Hc). rewrite Hrs. apply elem_of_app. right. right. by left. }
    unfold next_of. rewrite Eo.
    specialize (IH (pre ++ [r]) fuel). cbn [head mbind option_bind] in IH.
    rewrite IH; [done| |cbn [length] in Hfuel; lia]. rewrite Hrs. by rewrite <-app_assoc.
Qed.
End Valid.

(** ** The registration of a whole pipeline *)

Section Registration.
Context `{HashOrder}.
Implicit Types (r : RegistrationRequest) (l rs : list RegistrationRequest) (s : pool).

Definition input_agent_iff base l rs agents : Prop :=
  ∀ k r, l !! k = Some r → agent_is isInputAgent agents (base + k)%nat = true ↔ head rs = Some r.

Lemma holds_input agents base rs l :
  pipe_chain rs → (∀ r, r ∈ l → r ∈ rs) → holds_agents agents base l →
  input_agent_iff base l rs agents.
Proof.
  intros Hc Hl Hag k r Hk. unfold agent_is. rewrite (Hag k r Hk).
  unfold isInputAgent. cbn [setOutputAgent create_agent ag_inputAgentPid].
  change (u32 (rq_input_pid r)) with (in_of r). rewrite Z.eqb_eq. split.
  - intros E. apply (chain_input rs); [done| |done]. apply Hl. by eapply list_elem_of_lookup_2.
  - apply (pc_first _ Hc).
Qed.

Lemma registered_elem s0 l s i :
  waiting s0 l s → i ∈ po_registered s ↔
  ∃ k, i = (length (po_agents s0) + k)%nat ∧ (k < length l)%nat.
Proof.
  intros (_ & Hr & _). rewrite Hr, elem_of_seq. split.
  - intros Hi. exists (i - length (po_agents s0))%nat. lia.
  - intros (k & -> & Hk). lia.
Qed.

(** The search for the start finds the first program if it waits. *)
Lemma find_start s0 l s rs r0 :
  pipe_chain rs → (∀ r, r ∈ l → r ∈ rs) → NoDup (pid_of <$> l) → waiting s0 l s →
  head rs = Some r0 →
  List.find (agent_is isInputAgent (po_agents s)) (po_registered s)
  = (λ k, (length (po_agents s0) + k)%nat) <$> find_pid l (pid_of r0).
Proof.
  intros Hc Hl Hnd Hw H0. pose proof (holds_input _ _ _ _ Hc Hl (waiting_holds _ _ _ Hw)) as Hin.
  assert (r0 ∈ rs) as Hr0 by (destruct rs; [done|]; injection H0 as ->; by left).
  destruct (decide (r0 ∈ l)) as [[k Hk]%list_elem_of_lookup|Hn].
  - rewrite (find_pid_Some l k) by done. cbn. apply find_unique.
    + apply (registered_elem _ _ _ _ Hw). exists k. split; [done|by eapply lookup_lt_Some].
    + by apply (Hin k r0).
    + intros j (q & -> & Hq)%(registered_elem _ _ _ _ Hw) Hj.
      destruct (lookup_lt_is_Some_2 l q Hq) as [r Hr]. apply (Hin q r Hr) in Hj.
      assert (r = r0) as -> by congruence. f_equal.
      apply (NoDup_lookup _ _ _ (pid_of r0) Hnd); rewrite list_lookup_fmap; [by rewrite Hr|by rewrite Hk].
  - rewrite (find_pid_missing rs) by done. cbn. apply find_absent.
    intros j (q & -> & Hq)%(registered_elem _ _ _ _ Hw).
    destruct (lookup_lt_is_Some_2 l q Hq) as [r Hr].
    apply not_true_iff_false. intros Hj%(Hin q r Hr). apply Hn.
    assert (r = r0) as <- by congruence. by eapply list_elem_of_lookup_2.
Qed.

(** As long as a program of the pipeline is missing nothing is found. *)
Lemma contains_incomplete s0 l s rs :
  pipe_chain rs → (∀ r, r ∈ l → r ∈ rs) → NoDup (pid_of <$> l) → waiting s0 l s →
  po_cached s = false → ¬ (∀ r, r ∈ rs → r ∈ l) →
  ∃ s', containsValidPipeline s = Ok (false, s') ∧ waiting s0 l s' ∧ po_cached s' = false.
Proof.
  intros Hc Hl Hnd Hw Hcached Hmiss.
  destruct rs as [|r0 rest] eqn:Ers; [by destruct (pc_nonempty _ Hc)|].
  pose proof (find_start s0 l s (r0 :: rest) r0 Hc Hl Hnd Hw eq_refl) as Hfind.
  unfold containsValidPipeline. rewrite (bind_run m_get _ s s s) by done. rewrite Hcached, Hfind.
  destruct (find_pid l (pid_of r0)) as [k|] eqn:Ek; cbn [fmap option_fmap option_map].
  2: { eexists. split; [done|]. split; [|done]. destruct Hw as (? & ? & ? & ?). by split. }
  pose proof (walk_run (po_agents s) (length (po_agents s0)) (r0 :: rest) l Hc Hnd Hl
    (waiting_holds _ _ _ Hw) (r0 :: rest) [] (length (po_agents s)) eq_refl) as Hwalk.
  cbn [head mbind option_bind] in Hwalk. rewrite Ek in Hwalk. cbn [fmap option_fmap option_map] in Hwalk.
  assert (NoDup (r0 :: rest)) as Hnd' by (eapply NoDup_fmap_1, (pc_nodup _ Hc)).
  rewrite (bind_run (m_lift _) _ s _ s) by
    (unfold m_lift; rewrite Hwalk; [done|];
     etransitivity; [by apply within_length|];
     destruct Hw as (-> & _); rewrite length_app; unfold agents_of; rewrite length_fmap; lia).
  destruct (within_app l (r0 :: rest)) as (q & Hq & Hhead).
  set (w := within l (r0 :: rest)) in *.
  destruct (find_pid_inv _ _ _ Ek) as (x & Hx & Ex).
  assert (r0 ∈ l) as Hr0.
  { replace r0 with x; [by eapply list_elem_of_lookup_2|].
    apply (pid_inj (r0 :: rest)); [apply Hc|apply Hl; by eapply list_elem_of_lookup_2|by left|done]. }
  destruct (last w) as [b|] eqn:Elast.
  2: { exfalso. apply last_None in Elast. rewrite Elast in Hq. destruct q as [|y q]; [done|].
       injection Hq as -> ->. by apply (Hhead y). }
  rewrite fmap_last, Elast. cbn [fmap option_fmap option_map].
  destruct q as [|y q].
  { exfalso. apply Hmiss. intros r Hr. rewrite app_nil_r in Hq. rewrite Hq in Hr.
    by eapply within_elem. }
  apply last_Some in Elast as [w' Ew].
  assert (b ∈ l) as Hb by (apply (within_elem l (r0 :: rest)); fold w; rewrite Ew; apply elem_of_app; right; by left).
  assert (out_of b ≠ 0) as Hout.
  { destruct (pc_link _ Hc (length w') b y) as [-> _].
    - rewrite Hq, Ew, <-app_assoc, lookup_app_r by lia. by rewrite Nat.sub_diag.
    - rewrite Hq, Ew, <-app_assoc, lookup_app_r by lia.
      by replace (S (length w') - length w')%nat with 1%nat by lia.
    - apply (pc_pid _ Hc). rewrite Hq. apply elem_of_app. right. by left. }
  apply list_elem_of_lookup in Hb as [kb Hkb].
  unfold agent_is, position. rewrite (find_pid_Some l kb) by done.
  change (default 0%nat (Some kb)) with kb. rewrite (waiting_holds _ _ _ Hw kb b Hkb). unfold isOutputAgent.
  cbn [setOutputAgent create_agent ag_outputAgentPid]. change (u32 (rq_output_pid b)) with (out_of b).
  rewrite (proj2 (Z.eqb_neq _ _)) by done.
  eexists. split; [done|]. split; [|done]. destruct Hw as (? & ? & ? & ?). by split.
Qed.

(** When the last program has said hello the whole pipeline is found, in its
    order, and no program waits any more. *)
Lemma contains_complete s0 l s rs :
  pipe_chain rs → l ≡ₚ rs → waiting s0 l s → po_cached s = false →
  ∃ s', containsValidPipeline s = Ok (true, s') ∧ po_registered s' = [] ∧
    po_sent s' = po_sent s0 ∧
    (λ i, setOutputAgent None <$> po_agents s' !! i) <$> po_pipeline s' = Some ∘ create_agent <$> rs.
Proof.
  intros Hc Hperm Hw Hcached.
  assert (NoDup (pid_of <$> l)) as Hnd by (rewrite Hperm; apply Hc).
  assert (∀ r, r ∈ l ↔ r ∈ rs) as Hl by (intros r; by rewrite Hperm).
  destruct (head rs) as [r0|] eqn:Hhead; [|by apply head_None, (pc_nonempty _ Hc) in Hhead].
  assert (find_pid l (pid_of r0) = Some (default 0%nat (find_pid l (pid_of r0)))) as Hp.
  { destruct (find_pid l (pid_of r0)) eqn:E; [done|]. exfalso.
    assert (r0 ∈ l) as [k Hk]%list_elem_of_lookup.
    { apply Hl. destruct rs; [done|]. injection Hhead as ->. by left. }
    by rewrite (find_pid_Some l k r0 Hnd Hk) in E. }
  unfold containsValidPipeline. rewrite (bind_run m_get _ s s s) by done. rewrite Hcached.
  rewrite (find_start s0 l s rs r0); [|done|by intros r ?%Hl|done|done|done].
  pose proof (walk_run (po_agents s) (length (po_agents s0)) rs l Hc Hnd (λ r, proj1 (Hl r))
    (waiting_holds _ _ _ Hw) rs [] (length (po_agents s)) eq_refl) as Hwalk.
  rewrite Hhead in Hwalk. cbn [mbind option_bind] in Hwalk.
  rewrite (within_all l rs) in Hwalk by (by intros r ?%Hl).
  rewrite Hp in Hwalk |- *. cbn [fmap option_fmap option_map] in Hwalk |- *.
  rewrite (bind_run (m_lift _) _ s (position (length (po_agents s0)) l <$> rs) s).
  2: { unfold m_lift. rewrite Hwalk; [done|]. destruct Hw as (-> & _).
       rewrite length_app; unfold agents_of; rewrite length_fmap, Hperm. lia. }
  destruct (last rs) as [b|] eqn:Elast; [|by apply last_None, (pc_nonempty _ Hc) in Elast].
  rewrite fmap_last, Elast. cbn [fmap option_fmap option_map].
  assert (b ∈ l) as [kb Hkb]%list_elem_of_lookup.
  { apply Hl. apply last_Some in Elast as [w' ->]. apply elem_of_app. right. by left. }
  assert (∀ k r, l !! k = Some r → position (length (po_agents s0)) l r = (length (po_agents s0) + k)%nat)
    as Hpos by (intros k r Hk; unfold position; by rewrite (find_pid_Some l k r)).
  rewrite (Hpos kb b Hkb). unfold agent_is at 1.
  rewrite (waiting_holds _ _ _ Hw kb b Hkb). unfold isOutputAgent.
  cbn [setOutputAgent create_agent ag_outputAgentPid]. change (u32 (rq_output_pid b)) with (out_of b).
  rewrite (pc_last _ Hc b Elast). cbn [Z.eqb].
  eexists. split; [done|]. cbn [po_registered po_sent po_agents po_pipeline].
  split; [|split; [by destruct Hw as (_ & _ & _ & ->)|]].
  - apply Permutation_nil. symmetry. destruct (filter _ _) as [|i q] eqn:E; [done|]. exfalso.
    assert (i ∈ i :: q) as Hi by (by left). rewrite <-E in Hi. apply list_elem_of_filter in Hi as [Hn Hi].
    apply (registered_elem _ _ _ _ Hw) in Hi as (k & -> & Hk).
    destruct (lookup_lt_is_Some_2 l k Hk) as [r Hr]. apply Hn, list_elem_of_fmap.
    exists r. split; [by rewrite (Hpos k r Hr)|]. apply Hl. by eapply list_elem_of_lookup_2.
  - rewrite <-list_fmap_compose. apply list_fmap_ext. intros j r Hr. cbn.
    assert (r ∈ l) as [k Hk]%list_elem_of_lookup by (apply Hl; by eapply list_elem_of_lookup_2).
    rewrite (Hpos k r Hk), (waiting_holds _ _ _ Hw k r Hk). done.
Qed.

(** The programs say hello one after the other; after each the driver looks
    for a pipeline. *)
Fixpoint hello_all (requests : list RegistrationRequest) : M pool (list bool) :=
  match requests with
  | [] => mret []
  | r :: rest =>
      _ ← registerAgent (Some r);
      found ← containsValidPipeline;
      founds ← hello_all rest;
      mret (found :: founds)
  end.

Lemma hello_all_run s0 rs : pipe_chain rs → ∀ l2 l1 s,
  waiting s0 l1 s → l1 ++ l2 ≡ₚ rs → l2 ≠ [] →
  ∃ s', hello_all l2 s = Ok (replicate (length l2 - 1) false ++ [true], s') ∧
    po_registered s' = [] ∧ po_sent s' = po_sent s0 ∧
    (λ i, setOutputAgent None <$> po_agents s' !! i) <$> po_pipeline s' = Some ∘ create_agent <$> rs.
Proof.
  intros Hc l2. induction l2 as [|r l2 IH]; intros l1 s Hw Hperm Hne; [done|].
  assert (NoDup (pid_of <$> l1 ++ r :: l2)) as Hnd by (rewrite Hperm; apply Hc).
  assert (∀ x, x ∈ l1 ++ r :: l2 → x ∈ rs) as Hin by (intros x; by rewrite Hperm).
  rewrite (cons_middle r), app_assoc in Hnd. rewrite (cons_middle r), app_assoc in Hin, Hperm.
  assert (NoDup (pid_of <$> l1 ++ [r])) as Hnd1 by (rewrite fmap_app in Hnd; by apply NoDup_app in Hnd as [? _]).
  assert (r ∈ rs) as Hr by (apply Hin, elem_of_app; left; apply elem_of_app; right; by left).
  destruct (register_run s0 l1 s r) as (s1 & E1 & Hw1 & Hc1); [done|done| | |].
  { intros r' Hr' E. apply (chain_one_way rs); [done|done| |done].
    apply Hin, elem_of_app. left. apply elem_of_app. by left. }
  { intros E. by apply (chain_one_way rs r r). }
  cbn [hello_all]. run_step E1. destruct l2 as [|r2 l2].
  - rewrite app_nil_r in Hperm. destruct (contains_complete s0 _ s1 rs Hc Hperm Hw1 Hc1) as (s2 & E2 & Hs2).
    run_step E2. by exists s2.
  - destruct (contains_incomplete s0 (l1 ++ [r]) s1 rs) as (s2 & E2 & Hw2 & Hc2); [done| |done|done|done| |].
    { intros x Hx. apply Hin, elem_of_app. by left. }
    { intros Hall. apply NoDup_fmap_1 in Hnd. apply NoDup_app in Hnd as (_ & Hd & _).
      apply (Hd r2); [|by left]. apply Hall, Hin, elem_of_app. right. by left. }
    run_step E2. destruct (IH (l1 ++ [r]) s2 Hw2 Hperm) as (s3 & E3 & Hs3); [done|].
    run_step E3. exists s3. split; [|done]. cbn. by rewrite Nat.sub_0_r.
Qed.
End Registration.

(** C12: in whatever order the programs of a shell pipeline say hello to an
    idle driver, and in whatever order a hash set is walked, the driver finds
    no pipeline until the last of them has, then it finds all of them, in the
    order of the shell pipeline; nobody is left waiting and nobody is sent an
    answer before. *)
Theorem registration_any_order `{HashOrder} (rs l : list RegistrationRequest) (s0 : pool) :
  pipe_chain rs → l ≡ₚ rs → po_registered s0 = [] →
  ∃ s, hello_all l s0 = Ok (replicate (length l - 1) false ++ [true], s) ∧
    po_registered s = [] ∧ po_sent s = po_sent s0 ∧
    (λ i, setOutputAgent None <$> po_agents s !! i) <$> po_pipeline s = Some ∘ create_agent <$> rs.
Proof.
  intros Hc Hperm H0. apply (hello_all_run s0 rs Hc l []); [|done|].
  - split; [by rewrite app_nil_r|]. by rewrite H0.
  - intros ->. by apply (pc_nonempty _ Hc), Permutation_nil.
Qed.

(** ** The operators of a pipeline *)

Section Resolve.
Implicit Types (reg : registry) (a : OperatorAgent) (agents : list OperatorAgent).

Definition is_pseudo a : bool := isDatagenAgent a || isMetalCatAgent a.

(** What a pipeline means: its operators are known, none is there twice, and
    the pseudo operators that only produce data stand in front. *)
Record well_formed reg agents : Prop := WellFormed {
  wf_front : ∀ i a, agents !! S i = Some a → is_pseudo a = false;
  wf_known : ∀ a, a ∈ agents → is_pseudo a = false → is_Some (assoc (ag_operatorType a) reg);
  wf_once : NoDup (ag_operatorType <$> List.filter (λ a, negb (is_pseudo a)) agents);
}.

Definition entry reg a : option OperatorSpecification * OperatorAgent :=
  (if is_pseudo a then None else assoc (ag_operatorType a) reg, a).

Definition unusable : list string :=
  ["Operator can only be used as the start of an FPGA pipeline";
   "Unknown operator was requested"; "Operator was used more than once"].

(** The agents after the first. *)
Definition good_rest reg agents (used : list string) : Prop :=
  (∀ a, a ∈ agents → is_pseudo a = false ∧ is_Some (assoc (ag_operatorType a) reg)) ∧
  NoDup (ag_operatorType <$> agents) ∧ (∀ t, t ∈ used → t ∉ ag_operatorType <$> agents).

Lemma resolve_loop_rest reg agents : ∀ used res, res ≠ [] →
  match resolve_loop reg agents used res with
  | Ok out => good_rest reg agents used ∧ out = res ++ (entry reg <$> agents)
  | Fault (Throw m) => ¬ good_rest reg agents used ∧ m ∈ unusable
  | Fault _ => False
  end.
Proof.
  induction agents as [|a agents IH]; intros used res Hres; cbn [resolve_loop].
  { split; [|by rewrite app_nil_r]. split; [by intros ? ?%elem_of_nil|]. split; [constructor|].
    intros t _ ?%elem_of_nil. done. }
  fold (is_pseudo a). destruct (is_pseudo a) eqn:Ep.
  { destruct res; [done|]. cbn. split; [|by left]. intros (Hg & _).
    destruct (Hg a) as [? _]; [by left|congruence]. }
  destruct (assoc (ag_operatorType a) reg) as [op|] eqn:Ea.
  2: { split; [|right; by left]. intros (Hg & _).
       destruct (Hg a) as [_ [? ?]]; [by left|congruence]. }
  case_bool_decide as Hu.
  { split; [|right; right; by left]. intros (_ & _ & Hg). apply (Hg _ Hu). by left. }
  specialize (IH (ag_operatorType a :: used) (res ++ [(Some op, a)])).
  assert (good_rest reg (a :: agents) used ↔ good_rest reg agents (ag_operatorType a :: used)) as Hiff.
  { unfold good_rest. rewrite fmap_cons, NoDup_cons. split.
    - intros (H1 & [H2 H3] & H4). split; [intros x Hx; apply H1; by right|]. split; [done|].
      intros t [->|Ht]%elem_of_cons; [done|]. intros Hin. apply (H4 t Ht). by right.
    - intros (H1 & H2 & H3). split; [intros x [->|Hx]%elem_of_cons; [by split|by apply H1]|].
      split; [split; [apply H3; by left|done]|].
      intros t Ht [->|Hin]%elem_of_cons; [done|]. apply (H3 t); [by right|done]. }
  assert (entry reg a = (Some op, a)) as He by (unfold entry; by rewrite Ep, Ea).
  destruct (resolve_loop _ _ _ _) as [out|[]]; try (apply IH; by destruct res).
  - destruct IH as [Hg ->]; [by destruct res|]. split; [by apply Hiff|].
    rewrite fmap_cons, He, <-app_assoc. done.
  - destruct IH as [Hg Hm]; [by destruct res|]. by rewrite Hiff.
Qed.

Lemma well_formed_cons reg a agents :
  well_formed reg (a :: agents) ↔
  (is_pseudo a = false → is_Some (assoc (ag_operatorType a) reg)) ∧
  good_rest reg agents (if is_pseudo a then [] else [ag_operatorType a]).
Proof.
  assert ((∀ x, x ∈ agents → is_pseudo x = false) →
    List.filter (λ x, negb (is_pseudo x)) agents = agents) as Hfilter.
  { intros Hx. induction agents as [|y q IH]; [done|]. cbn. rewrite (Hx y) by (by left). cbn.
    f_equal. apply IH. intros z Hz. apply Hx. by right. }
  split.
  - intros [Hf Hk Ho]. split; [apply Hk; by left|].
    assert (∀ x, x ∈ agents → is_pseudo x = false) as Hp
      by (intros x [i Hi]%list_elem_of_lookup; by apply (Hf i)).
    cbn in Ho. rewrite (Hfilter Hp) in Ho. split; [|split].
    + intros x Hx. split; [by apply Hp|]. apply Hk; [by right|by apply Hp].
    + destruct (is_pseudo a); cbn in Ho; [done|]. by apply NoDup_cons in Ho as [_ ?].
    + destruct (is_pseudo a); cbn in Ho; [by intros ? ?%elem_of_nil|].
      apply NoDup_cons in Ho as [Ho _]. by intros t ->%list_elem_of_singleton.
  - intros (Ha & Hg & Hnd & Hu). split.
    + intros i x Hx. apply Hg. by eapply list_elem_of_lookup_2.
    + intros x [->|Hx]%elem_of_cons Hp; [by apply Ha|]. by apply Hg.
    + cbn. rewrite (Hfilter (λ x Hx, proj1 (Hg x Hx))).
      destruct (is_pseudo a); cbn; [done|]. constructor; [|done]. apply Hu. by left.
Qed.

(** C31: the agents of a pipeline are accepted exactly when every operator
    is known, none is used twice and the pseudo operators stand at the head
    only; the operators then come in the order of the agents, and every other
    pipeline is refused with one of the three errors. *)
Theorem resolve_specs_exact reg agents :
  match resolveOperatorSpecifications reg agents with
  | Ok out => well_formed reg agents ∧ out = entry reg <$> agents
  | Fault (Throw m) => ¬ well_formed reg agents ∧ m ∈ unusable
  | Fault _ => False
  end.
Proof.
  unfold resolveOperatorSpecifications. destruct agents as [|a agents]; cbn [resolve_loop].
  { split; [|done]. split; [done|by intros ? ?%elem_of_nil|constructor]. }
  fold (is_pseudo a). cbn [length Nat.ltb Nat.leb app].
  destruct (is_pseudo a) eqn:Ep.
  - pose proof (resolve_loop_rest reg agents [] [(None, a)]) as Hr.
    assert (entry reg a = (None, a)) as He by (unfold entry; by rewrite Ep).
    destruct (resolve_loop _ _ _ _) as [out|[]]; try (by apply Hr).
    + destruct Hr as [Hg ->]; [done|]. rewrite well_formed_cons, Ep. split; [by split; [rewrite ?Ea|]|]. by rewrite fmap_cons, He.
    + destruct Hr as [Hg Hm]; [done|]. rewrite well_formed_cons, Ep. split; [by intros [_ ?]|done].
  - destruct (assoc (ag_operatorType a) reg) as [op|] eqn:Ea.
    2: { rewrite well_formed_cons, Ep. split; [|right; by left]. intros [Hk _]. by destruct (Hk eq_refl) as [? ?]; congruence. }
    rewrite bool_decide_eq_false_2 by (by intros ?%elem_of_nil).
    pose proof (resolve_loop_rest reg agents [ag_operatorType a] [(Some op, a)]) as Hr.
    assert (entry reg a = (Some op, a)) as He by (unfold entry; by rewrite Ep, Ea).
    destruct (resolve_loop _ _ _ _) as [out|[]]; try (by apply Hr).
    + destruct Hr as [Hg ->]; [done|]. rewrite well_formed_cons, Ep. split; [by split; [rewrite ?Ea|]|]. by rewrite fmap_cons, He.
    + destruct Hr as [Hg Hm]; [done|]. rewrite well_formed_cons, Ep. split; [by intros [_ ?]|done].
Qed.
End Resolve.

(** ** Answers to those not used *)

Section Reset.
Context `{HashOrder}.
Implicit Types (agents A : list OperatorAgent) (js : list nat) (s : pool).

Definition is_terminated A i : bool := agent_is ag_terminated A i.

(** The refusals of the agents [js], each with its own error. *)
Definition refusals A js : list (nat * RegistrationResponse) :=
  omap (λ i, (λ a, (i, refusal a)) <$> A !! i) js.

Definition terminate js A : list OperatorAgent := foldl (λ A i, alter setTerminated i A) A js.

Lemma terminate_twice a : setTerminated (setTerminated a) = setTerminated a.
Proof. done. Qed.

Lemma terminate_lookup js : ∀ A i,
  terminate js A !! i = if decide (i ∈ js) then setTerminated <$> A !! i else A !! i.
Proof.
  induction js as [|j js IH]; intros A i; cbn [terminate foldl].
  { by rewrite decide_False by (by intros ?%elem_of_nil). }
  fold (terminate js (alter setTerminated j A)). rewrite IH. destruct (decide (i = j)) as [->|Hij].
  - rewrite (decide_True (P := j ∈ j :: js)) by (by left). rewrite list_lookup_alter_eq.
    case_decide; [|done]. by destruct (A !! j).
  - rewrite list_lookup_alter_ne by done. destruct (decide (i ∈ js)) as [Hi|Hi].
    + by rewrite decide_True by (by right).
    + by rewrite decide_False by (by intros [?|?]%elem_of_cons).
Qed.

Lemma length_terminate js A : length (terminate js A) = length A.
Proof.
  revert A. induction js as [|j js IH]; intros A; [done|].
  cbn. fold (terminate js (alter setTerminated j A)). by rewrite IH, length_alter.
Qed.

Lemma refusals_terminate js js' A : refusals (terminate js A) js' = refusals A js'.
Proof.
  unfold refusals. induction js' as [|j js' IH]; cbn; [done|]. rewrite IH, terminate_lookup.
  case_decide; [|done]. by destruct (A !! j).
Qed.

Lemma refusals_app A js js' : refusals A (js ++ js') = refusals A js ++ refusals A js'.
Proof. apply omap_app. Qed.

Lemma send_one i s :
  is_Some (po_agents s !! i) →
  sendRegistrationInvalid i s
  = Ok (tt, Pool (terminate [i] (po_agents s)) (po_registered s) (po_pipeline s) (po_cached s)
                 (po_sent s ++ refusals (po_agents s) [i])).
Proof.
  intros [a Ha]. unfold sendRegistrationInvalid. rewrite (bind_run m_get _ s s s) by done.
  rewrite Ha. cbn [c_deref]. rewrite (bind_run _ _ s a s) by done.
  unfold m_put, refusals. cbn. rewrite Ha. cbn. do 3 f_equal.
  apply list_eq. intros k. destruct (decide (k = i)) as [->|Hk].
  - rewrite list_lookup_insert_eq by (by eapply lookup_lt_Some). by rewrite list_lookup_alter_eq, Ha.
  - by rewrite list_lookup_insert_ne, list_lookup_alter_ne.
Qed.

Lemma send_all_run js : ∀ s,
  (∀ i, i ∈ js → is_Some (po_agents s !! i)) →
  send_all js s = Ok (tt, Pool (terminate js (po_agents s)) (po_registered s) (po_pipeline s)
                        (po_cached s) (po_sent s ++ refusals (po_agents s) js)).
Proof.
  induction js as [|j js IH]; intros s Hjs; cbn [send_all].
  { cbn. rewrite app_nil_r. by destruct s. }
  run_step (send_one j s (Hjs j ltac:(by left))). rewrite IH; cbn [po_agents po_sent po_registered po_pipeline po_cached].
  - rewrite refusals_terminate, <-app_assoc, <-refusals_app. done.
  - intros i Hi. rewrite terminate_lookup. case_decide; [apply fmap_is_Some|]; apply Hjs; by right.
Qed.

Lemma send_unterminated_run js : ∀ s,
  (∀ i, i ∈ js → is_Some (po_agents s !! i)) → NoDup js →
  let js' := List.filter (λ i, negb (is_terminated (po_agents s) i)) js in
  send_unterminated js s
  = Ok (tt, Pool (terminate js' (po_agents s)) (po_registered s) (po_pipeline s) (po_cached s)
                 (po_sent s ++ refusals (po_agents s) js')).
Proof.
  induction js as [|j js IH]; intros s Hjs Hnd js'; cbn [send_unterminated].
  { cbn. rewrite app_nil_r. by destruct s. }
  apply NoDup_cons in Hnd as [Hj Hnd]. destruct (Hjs j) as [a Ha]; [by left|].
  rewrite (bind_run m_get _ s s s) by done. rewrite Ha. cbn [c_deref].
  rewrite (bind_run _ _ s a s) by done. unfold js'. cbn [List.filter].
  assert (is_terminated (po_agents s) j = ag_terminated a) as Et
    by (unfold is_terminated, agent_is; by rewrite Ha).
  rewrite Et. destruct (ag_terminated a); cbn [negb].
  - rewrite (bind_run _ _ s tt s) by done. apply IH; [|done]. intros i Hi. apply Hjs. by right.
  - run_step (send_one j s (Hjs j ltac:(by left))).
    rewrite IH; cbn [po_agents po_sent po_registered po_pipeline po_cached]; [| |done].
    + rewrite refusals_terminate, <-app_assoc, <-refusals_app.
      assert (List.filter (λ i, negb (is_terminated (terminate [j] (po_agents s)) i)) js
        = List.filter (λ i, negb (is_terminated (po_agents s) i)) js) as ->; [|done].
      apply filter_ext_in. intros i Hi%list_elem_of_In. unfold is_terminated, agent_is.
      rewrite terminate_lookup, decide_False; [done|]. intros ->%list_elem_of_singleton. done.
    + intros i Hi. rewrite terminate_lookup. case_decide; [apply fmap_is_Some|]; apply Hjs; by right.
Qed.

(** The agents a pool refers to exist. *)
Definition pool_ok s : Prop :=
  NoDup (po_pipeline s) ∧ ∀ i, i ∈ po_pipeline s ++ po_registered s → is_Some (po_agents s !! i).

(** [AgentPool::reset] leaves an idle pool. It refuses, once each, exactly the
    agents of the pipeline that are not marked as terminated and then those
    that still wait, with their own error or else the general one, and every
    agent of both groups is marked. *)
Lemma reset_run s :
  pool_ok s →
  let A := po_agents s in
  let refused := List.filter (λ i, negb (is_terminated A i)) (po_pipeline s) ++ po_registered s in
  ∃ A', reset s = Ok (tt, Pool A' [] [] (po_cached s) (po_sent s ++ refusals A refused)) ∧
    length A' = length A ∧
    ∀ i, A' !! i = if decide (i ∈ po_pipeline s ++ po_registered s)
                   then setTerminated <$> A !! i else A !! i.
Proof.
  intros [Hnd Hok] A refused. unfold reset. rewrite (bind_run m_get _ s s s) by done.
  run_step (send_unterminated_run (po_pipeline s) s ltac:(intros i Hi; apply Hok, elem_of_app; by left) Hnd).
  rewrite (bind_run (m_modify _) _ _ tt _) by done. cbn [po_agents po_sent po_registered po_pipeline po_cached].
  fold A. set (js := List.filter _ (po_pipeline s)).
  unfold releaseUnusedAgents. rewrite (bind_run m_get _ _ _ _ eq_refl). cbn [po_registered].
  erewrite (bind_run (send_all _)); [|apply send_all_run].
  2: { cbn [po_agents]. intros i Hi. rewrite terminate_lookup. fold A.
       case_decide; [apply fmap_is_Some|]; apply Hok, elem_of_app; by right. }
  cbn [po_agents po_sent po_registered po_pipeline po_cached m_modify].
  eexists. split; [|split].
  - unfold m_modify. cbn. fold A. rewrite refusals_terminate, <-app_assoc, <-refusals_app. done.
  - by rewrite !length_terminate.
  - intros i. fold A. rewrite !terminate_lookup.
    assert (i ∈ js ↔ i ∈ po_pipeline s ∧ is_terminated A i = false) as Hjs.
    { unfold js. rewrite list_elem_of_In, filter_In, <-list_elem_of_In, negb_true_iff. done. }
    assert (i ∈ po_pipeline s → i ∉ js → setTerminated <$> A !! i = A !! i) as Hdone.
    { intros Hp Hn. destruct (A !! i) as [a|] eqn:Ea; [|done]. cbn. f_equal.
      assert (ag_terminated a = true) as Et.
      { apply not_false_iff_true. intros Ef. apply Hn, Hjs. split; [done|].
        unfold is_terminated, agent_is. by rewrite Ea. }
      destruct a; cbn in *. by rewrite Et. }
    destruct (decide (i ∈ po_registered s)) as [Hr|Hr].
    + rewrite (decide_True (P := i ∈ _ ++ _)) by (apply elem_of_app; by right).
      case_decide; [|done]. by destruct (A !! i).
    + destruct (decide (i ∈ po_pipeline s)) as [Hp|Hp].
      * rewrite (decide_True (P := i ∈ _ ++ _)) by (apply elem_of_app; by left).
        case_decide; [done|]. symmetry. auto.
      * rewrite (decide_False (P := i ∈ _ ++ _)) by (intros [?|?]%elem_of_app; done).
        rewrite decide_False; [done|]. rewrite Hjs. tauto.
Qed.
End Reset.
End AgentFacts.
