(* ===== verification/MainProofs.v ===== *)
(** * What the driver mounts, and which programs it accepts *)
From S2P Require Import Prelude Structs Dirent Path Fuse FuseProofs Endian Extmap OpMem Jobs Pipeline Runner Manifest JobsProofs Main.
From S2P Require Import Messages Agents.

Module MainFacts.
Import Main CombinedFuse Agents.

(** The mount point a path belongs to, if the card has DRAM and NVMe. *)
Definition mount_point (dram nvme : bool) (path : cstr) : option cstr :=
  if starts_with (str "/.hello") path then Some (str "/.hello")
  else if starts_with (str "/operators") path then Some (str "/operators")
  else if dram && starts_with (str "/tmp") path then Some (str "/tmp")
  else if dram && nvme && starts_with (str "/files") path then Some (str "/files")
  else None.

(** The mount points differ in their second character. *)
Lemma second_char p p' path :
  (1 < length p)%nat → (1 < length p')%nat →
  starts_with p path = true → starts_with p' path = true → nth 1 p 0 = nth 1 p' 0.
Proof.
  destruct p as [|? [|c p]], p' as [|? [|c' p']]; cbn [length]; try lia. intros _ _.
  destruct path as [|x [|y path]]; cbn [starts_with]; [done|by rewrite andb_false_r|].
  intros [_ [->%Z.eqb_eq _]%andb_prop]%andb_prop [_ [->%Z.eqb_eq _]%andb_prop]%andb_prop. done.
Qed.

Lemma other_prefix p p' path :
  (1 < length p)%nat → (1 < length p')%nat → nth 1 p 0 ≠ nth 1 p' 0 →
  starts_with p path = true → starts_with p' path = false.
Proof.
  intros Hp Hp' Hne E. apply not_true_is_false. intros E'. by apply Hne, (second_char p p' path).
Qed.

Section Mounts.
Context (c : Card) (dir socket : string) (f : Manifest.OperatorFactory).
Abbreviation handlers := (fpga_handlers c dir socket f).

Definition listed : list string :=
  set_emplace "metal-cat" (set_emplace "datagen"
    (foldl (λ l s, set_emplace s l) [] (Manifest.operatorSpecifications f).*1)).

Lemma fpga_handlers_eq :
  ∃ dram nvme, let sock := SocketHandler socket in let ops := OperatorHandler listed in handlers =
    [(str "/.hello", sock)] ++
    (if Manifest.isDRAMEnabled f && Manifest.isNVMeEnabled f then [(str "/files", FilesystemHandler nvme)] else []) ++
    [(str "/operators", ops)] ++
    (if Manifest.isDRAMEnabled f then [(str "/tmp", FilesystemHandler dram)] else []).
Proof.
  unfold fpga_handlers. destruct (Manifest.isDRAMEnabled f), (Manifest.isNVMeEnabled f);
    eexists _, _; reflexivity.
Unshelve. all: exact (MkFilesystem None ATHost MTNone "" false false).
Qed.

(** a path is served by exactly the mount point it starts with: the
    socket, the operators, the DRAM file system if there is DRAM, and the NVMe
    one if there are both; no other registered prefix fits it. *)
Theorem mounts_disjoint path :
  fst <$> resolveHandler handlers path
  = mount_point (Manifest.isDRAMEnabled f) (Manifest.isNVMeEnabled f) path ∧
  ∀ e e', e ∈ handlers → e' ∈ handlers →
    starts_with e.1 path = true → starts_with e'.1 path = true → e = e'.
Proof.
  destruct fpga_handlers_eq as (dram & nvme & ->).
  split.
  - unfold mount_point. destruct (Manifest.isDRAMEnabled f), (Manifest.isNVMeEnabled f);
      cbn [andb app resolveHandler];
      destruct (starts_with (str "/.hello") path) eqn:E1; try done;
      destruct (starts_with (str "/operators") path) eqn:E2; cbn [negb];
      rewrite ?(other_prefix (str "/operators") (str "/files") path) by (done || (cbn; lia)); try done;
      destruct (starts_with (str "/tmp") path) eqn:E3; cbn [negb];
      rewrite ?(other_prefix (str "/tmp") (str "/files") path) by (done || (cbn; lia)); try done.
    by destruct (starts_with (str "/files") path).
  - intros e e' He He' E E'. pose proof (λ H1 H2, second_char e.1 e'.1 path H1 H2 E E') as Hc.
    destruct (Manifest.isDRAMEnabled f), (Manifest.isNVMeEnabled f); cbn [andb app] in He, He';
      rewrite !elem_of_cons in He, He';
      repeat match goal with H : _ ∨ _ |- _ => destruct H | H : _ ∈ [] |- _ => by apply elem_of_nil in H end;
      subst; try done; exfalso; discriminate Hc; cbn; lia.
Qed.

(** the directory of operators lists exactly the programs the server
    accepts as the first of a pipeline: the operators of the image and the two
    that need none. *)
Theorem listed_operators_accepted operators a :
  (str "/operators", OperatorHandler operators) ∈ handlers →
  ag_operatorType a ∈ operators ↔
  ∃ r, Agents.resolveOperatorSpecifications (Manifest.operatorSpecifications f) [a] = Ok r.
Proof.
  intros Hin.
  assert (operators = listed) as ->.
  { destruct fpga_handlers_eq as (dram & nvme & E). rewrite E in Hin. clear E. revert Hin.
    destruct (Manifest.isDRAMEnabled f), (Manifest.isNVMeEnabled f); cbn [andb app];
      rewrite !elem_of_cons, elem_of_nil; intuition congruence. }
  unfold listed.
  unfold Agents.resolveOperatorSpecifications. cbn [Agents.resolve_loop].
  rewrite !elem_of_set_emplace, elem_of_set_emplaced, elem_of_nil.
  unfold Agents.isDatagenAgent, Agents.isMetalCatAgent. repeat case_bool_decide; cbn.
  all: try (split; [by eexists|tauto]).
  all: rewrite <-JobFacts.assoc_is_Some;
    destruct (assoc (ag_operatorType a) (Manifest.operatorSpecifications f)) as [op|].
  all: first [by exfalso; eapply not_elem_of_nil
             |split; [intros _; by eexists|intros _; right; right; left; by eexists]
             |split; [intros [?|[?|[[? ?]|[]]]]; done|by intros [? ?]]].
Qed.
End Mounts.
End MainFacts.

(** ** A card with DRAM and one operator *)

Section Witnesses.
Import MainFacts Main Agents.

Definition small_image : Manifest.OperatorFactory :=
  Manifest.MkOperatorFactory [("changecase", Spec "changecase" "" 1 false [])] true false.

Definition program (type : string) : OperatorAgent :=
  create_agent (MkRegistrationRequest 11 "/" "/mnt" type 0 0 [] None None).

Lemma listed_operators_accepted_witness :
  (str "/operators", OperatorHandler ["changecase"; "datagen"; "metal-cat"])
    ∈ fpga_handlers (MkCard 0 2) "/var/metal" "/tmp/sock" small_image ∧
  ∃ r, resolveOperatorSpecifications (Manifest.operatorSpecifications small_image)
         [program "changecase"] = Ok r.
Proof.
  assert ((str "/operators", OperatorHandler ["changecase"; "datagen"; "metal-cat"])
    ∈ fpga_handlers (MkCard 0 2) "/var/metal" "/tmp/sock" small_image) as Hin.
  { change (fpga_handlers (MkCard 0 2) "/var/metal" "/tmp/sock" small_image) with
      [(str "/.hello", SocketHandler "/tmp/sock");
       (str "/operators", OperatorHandler ["changecase"; "datagen"; "metal-cat"]);
       (str "/tmp", FilesystemHandler
          (MkFilesystem (Some (MkCard 0 2)) ATCardDRAM MTDRAM "/var/metal_tmp" true false))].
    right. by left. }
  split; [exact Hin|].
  apply (listed_operators_accepted (MkCard 0 2) "/var/metal" "/tmp/sock" small_image
    ["changecase"; "datagen"; "metal-cat"] (program "changecase") Hin).
  by left.
Defined.
End Witnesses.
