(* ===== verification/AgentContexts.v ===== *)
(** * The driver's state during a pipeline, and agents as data sources and
    sinks (operator_agent.cpp, pseudo_operators.cpp,
    agent_data_source_context.cpp, agent_data_sink_context.cpp)

    The requests an agent's program sends until it closes the connection are
    an input of the model, the responses it is sent are logged. Libraries and
    the operating system are the classes [OptionParser] and [Host]. *)
From S2P Require Import Prelude Lmdb Structs Dirent Inode Metal File Fuse.
From S2P Require Import Endian Extmap OpMem Jobs Pipeline Runner DataContexts Messages Agents.

(** ** cxxopts *)

Inductive cx_type := CxBool | CxUint32 | CxUint64 | CxString.

(** [add_option]. *)
Record cx_option := CxOption {
  cx_short : string;
  cx_long : string;
  cx_description : string;
  cx_value_type : cx_type;
  cx_default : option string;
}.

Record cx_options := CxOptions {
  co_program : string;
  co_help : string;
  co_options : list cx_option;
  co_positional : list string;
}.

Inductive cx_value := CvBool (b : bool) | CvUint (n : Z) | CvString (s : string).

(** [parse] throws, or gives the value of every option that has one. *)
Class OptionParser := {
  cx_parse : cx_options → list string → option (string → option cx_value);
  cx_help : cx_options → string;
}.

(** [result.as<T>()]. *)
Definition as_bool (v : option cx_value) : result bool :=
  match v with Some (CvBool b) => Ok b | _ => Fault (Throw "OptionException") end.
Definition as_uint (v : option cx_value) : result Z :=
  match v with Some (CvUint n) => Ok n | _ => Fault (Throw "OptionException") end.
Definition as_string (v : option cx_value) : result string :=
  match v with Some (CvString s) => Ok s | _ => Fault (Throw "OptionException") end.

(** ** The operating system *)

Class Host := {
  realpath : string → option string;
  (** the first bytes of a file, at most the number given; [fopen] fails *)
  read_file : string → nat → option (list Z);
  (** the shared buffers created, in order; creating one fails *)
  shared_buffer : nat → option Messages.Buffer;
}.

(** [path.rfind(prefix, 0) == 0] and [path.substr(n)]. *)
Definition starts_with_string (prefix path : string) : bool := String.prefix prefix path.
Definition string_drop (n : nat) (s : string) : string :=
  String.substring n (String.length s - n) s.

Module AgentContexts.
Import Agents DataContexts.
Section Driver.
Context `{Lmdb} `{Machine} `{Device} `{OptionParser} `{Host} {B : Type}.
Abbreviation storage_t := (PipelineStorage (B := B)).

Record driver := Driver {
  dr_pool : pool;
  dr_pipeline : Pipeline.state;
  dr_requests : nat → list ProcessingRequest;     (* still to be received *)
  dr_responses : list (nat * ProcessingResponse); (* sent *)
  dr_buffers : nat;                               (* shared buffers created *)
  dr_storages : list storage_t;
}.

Definition with_pool (p : pool) (d : driver) : driver :=
  Driver p (dr_pipeline d) (dr_requests d) (dr_responses d) (dr_buffers d) (dr_storages d).

#[export] Instance driver_pipeline : HasPipeline driver := {|
  pipeline_of := dr_pipeline;
  with_pipeline p d :=
    Driver (dr_pool d) p (dr_requests d) (dr_responses d) (dr_buffers d) (dr_storages d);
|}.

Definition on_pool {A} (m : M pool A) : Exc driver A := e_part dr_pool with_pool m.

Definition get_agent (i : nat) : Exc driver OperatorAgent :=
  s ← e_get; e_deref (po_agents (dr_pool s) !! i).

Definition set_agents (agents : list OperatorAgent) (p : pool) : pool :=
  Pool agents (po_registered p) (po_pipeline p) (po_cached p) (po_sent p).

Definition update_agent (i : nat) (f : OperatorAgent → OperatorAgent) : Exc driver unit :=
  e_modify (λ d, with_pool (set_agents (alter f i (po_agents (dr_pool d))) (dr_pool d)) d).

Definition update_files (i : nat) (f : agent_files → agent_files) : Exc driver unit :=
  update_agent i (λ a, setFiles (f (ag_files a)) a).

(** ** operator_agent.cpp *)

Definition parseOptions (options : cx_options) (i : nat) :
    Exc driver (string → option cx_value) :=
  a ← get_agent i;
  match cx_parse options (ag_args a) with
  | None => e_throw (RuntimeError "OptionException")
  | Some parseResult =>
      help ← e_lift (as_bool (parseResult "help"));
      if (help : bool) then e_throw (ClientError i (cx_help options)) else mret parseResult
  end.

(** [Buffer::createTempFileForSharedBuffer]. *)
Definition createTempFileForSharedBuffer : Exc driver Messages.Buffer :=
  d ← e_get;
  match shared_buffer (dr_buffers d) with
  | None => e_throw (RuntimeError "Failed to extend buffer file")
  | Some b =>
      _ ← e_put (Driver (dr_pool d) (dr_pipeline d) (dr_requests d) (dr_responses d)
                        (S (dr_buffers d)) (dr_storages d));
      mret b
  end.

Definition set_input_buffer (b : option Messages.Buffer) (f : agent_files) : agent_files :=
  AgentFiles b (ag_outputBuffer f) (ag_internalInputFile f) (ag_internalOutputFile f)
             (ag_agentLoadFile f).
Definition set_output_buffer (b : option Messages.Buffer) (f : agent_files) : agent_files :=
  AgentFiles (ag_inputBuffer f) b (ag_internalInputFile f) (ag_internalOutputFile f)
             (ag_agentLoadFile f).
Definition set_input_file (x : Z * option nat) (f : agent_files) : agent_files :=
  AgentFiles (ag_inputBuffer f) (ag_outputBuffer f) x (ag_internalOutputFile f)
             (ag_agentLoadFile f).
Definition set_output_file (x : Z * option nat) (f : agent_files) : agent_files :=
  AgentFiles (ag_inputBuffer f) (ag_outputBuffer f) (ag_internalInputFile f) x
             (ag_agentLoadFile f).
Definition set_load_file (x : string) (f : agent_files) : agent_files :=
  AgentFiles (ag_inputBuffer f) (ag_outputBuffer f) (ag_internalInputFile f)
             (ag_internalOutputFile f) x.

Definition createInputBuffer (i : nat) : Exc driver unit :=
  b ← createTempFileForSharedBuffer; update_files i (set_input_buffer (Some b)).
Definition createOutputBuffer (i : nat) : Exc driver unit :=
  b ← createTempFileForSharedBuffer; update_files i (set_output_buffer (Some b)).

(** The prefixes registered with the context, and the storage behind each if
    it is a file system on a [PipelineStorage]. *)
Context (mounts : list (cstr * option nat)).

(** The common part of [setInternalInputFile] and [setInternalOutputFile]. *)
Definition open_internal (error : string) (filename : string) : Exc driver (Z * option nat) :=
  match CombinedFuse.resolveHandler mounts (str filename) with
  | Some (prefix, Some k) =>
      d ← e_get;
      storage ← e_deref (dr_storages d !! k);
      let internalFilename := drop (length prefix) (str filename) in
      '((res, inode_id), _) ← e_lift (Metal.mtl_open internalFilename (ps_world storage));
      if negb (res =? MTL_SUCCESS) then e_throw (RuntimeError error)
      else mret (inode_id, Some k)
  | _ => e_throw (RuntimeError error)
  end.

Definition setInternalInputFile (filename : string) (i : nat) : Exc driver unit :=
  x ← open_internal "An invalid input file path was provided." filename;
  update_files i (set_input_file x).

Definition setInternalOutputFile (filename : string) (i : nat) : Exc driver unit :=
  x ← open_internal "An invalid output file path was provided." filename;
  update_files i (set_output_file x).

Definition setInputFile (filename : string) (i : nat) : Exc driver unit :=
  a ← get_agent i;
  if negb ((ag_internalInputFile (ag_files a)).1 =? 0) then mret tt
  else
    match realpath (resolvePath filename a) with
    | None => e_throw (ClientError i "Could not find input file.")
    | Some realPath =>
        if starts_with_string (ag_metalMountpoint a) realPath
        then setInternalInputFile (string_drop (String.length (ag_metalMountpoint a)) realPath) i
        else update_files i (set_load_file realPath)
    end.

Definition sendRegistrationResponse (message : RegistrationResponse) (i : nat) :
    Exc driver unit :=
  e_modify (λ d, with_pool (let p := dr_pool d in
    Pool (po_agents p) (po_registered p) (po_pipeline p) (po_cached p)
         (po_sent p ++ [(i, message)])) d).

(** After its last request the program has closed the connection. *)
Definition receiveProcessingRequest (i : nat) : Exc driver ProcessingRequest :=
  d ← e_get;
  match dr_requests d i with
  | [] => e_throw (RuntimeError "Could not read message header from socket")
  | request :: rest =>
      _ ← e_put (Driver (dr_pool d) (dr_pipeline d)
                        (λ j, if decide (j = i) then rest else dr_requests d j)
                        (dr_responses d) (dr_buffers d) (dr_storages d));
      mret request
  end.

Definition sendProcessingResponse (message : ProcessingResponse) (i : nat) : Exc driver unit :=
  e_modify (λ d, Driver (dr_pool d) (dr_pipeline d) (dr_requests d)
                        (dr_responses d ++ [(i, message)]) (dr_buffers d) (dr_storages d)).

(** ** pseudo_operators.cpp *)

Definition input_option : cx_option := CxOption "" "input" "Input" CxString (Some "").
Definition help_option : cx_option := CxOption "h" "help" "Print help" CxBool (Some "false").
Definition profile_option : cx_option :=
  CxOption "p" "profile" "Enable profiling" CxBool (Some "false").

Definition datagen_options : cx_options :=
  CxOptions "datagen" "Generate data on the FPGA for benchmarking operators."
    [help_option; profile_option;
     CxOption "l" "length" "The amount of data to generate, in bytes" CxUint64 (Some "4096");
     input_option] ["input"].

Definition datagen_isProfilingEnabled (i : nat) : Exc driver bool :=
  optionValues ← parseOptions datagen_options i; e_lift (as_bool (optionValues "profile")).

Definition datagenLength (i : nat) : Exc driver Z :=
  optionValues ← parseOptions datagen_options i; e_lift (as_uint (optionValues "length")).

(** [setInputFile] of both pseudo operators. *)
Definition pseudo_setInputFile (options : cx_options) (i : nat) : Exc driver unit :=
  optionValues ← parseOptions options i;
  input ← e_lift (as_string (optionValues "input"));
  if negb (bool_decide (input = "")) then setInputFile input i else mret tt.

(** [validate] of both. *)
Definition pseudo_validate (options : cx_options) (i : nat) : Exc driver unit :=
  _ ← parseOptions options i; mret tt.

Definition metal_cat_options : cx_options :=
  CxOptions "metal-cat" "Loop data through the FPGA."
    [help_option; profile_option; input_option] ["input"].

Definition metal_cat_isProfilingEnabled (i : nat) : Exc driver bool :=
  optionValues ← parseOptions metal_cat_options i; e_lift (as_bool (optionValues "profile")).

(** ** agent_data_source_context.cpp *)

Record agent_source := AgentSource {
  as_file : file_source (B := B);       (* the base class *)
  as_agent : nat;
  as_skipSendingProcessingResponse : bool;
  as_remainingTotalSize : Z;
  as_size : Z;
  as_eof : bool;
}.

(** [internalInputFile()], with the storage itself. *)
Definition file_of (x : Z * option nat) : Exc driver (option storage_t * Z) :=
  match x.2 with
  | None => mret (None, x.1)
  | Some k => d ← e_get; storage ← e_deref (dr_storages d !! k); mret (Some storage, x.1)
  end.

Definition create_agent_source (i : nat) (skip : bool) : Exc driver agent_source :=
  a ← get_agent i;
  '(storage, inode_id) ← file_of (ag_internalInputFile (ag_files a));
  file ← e_lift (create_file_source storage inode_id 0 Messages.BufferSize);
  remaining ←
    (if bool_decide (is_Some (ag_inputBuffer (ag_files a)))
     then mret (uninit "AgentDataSourceContext._remainingTotalSize")
     else if isDatagenAgent a then datagenLength i
     else if negb (inode_id =? 0)
     then mret (uninit "AgentDataSourceContext._remainingTotalSize")
     else e_throw (RuntimeError "Unknown data source"));
  mret (AgentSource file i skip remaining (uninit "AgentDataSourceContext._size")
          (negb (uninit "AgentDataSourceContext._eof" =? 0))).

Definition with_file (file : file_source) (c : agent_source) : agent_source :=
  AgentSource file (as_agent c) (as_skipSendingProcessingResponse c) (as_remainingTotalSize c)
              (as_size c) (as_eof c).

Definition with_chunk (size : Z) (eof : bool) (c : agent_source) : agent_source :=
  AgentSource (as_file c) (as_agent c) (as_skipSendingProcessingResponse c)
              (as_remainingTotalSize c) size eof.

Definition agent_dataSource (c : agent_source) (d : driver) : result DataSource :=
  match po_agents (dr_pool d) !! as_agent c with
  | None => Fault NullDeref
  | Some a =>
      match ag_inputBuffer (ag_files a) with
      | Some b => Ok (MkAddress (Messages.current b) (as_size c) ATHost MTNone)
      | None =>
          if isDatagenAgent a then Ok (MkAddress 0 (as_size c) ATRandom MTNone)
          else if negb (fs_inode_id (as_file c) =? 0) then Ok (fs_dataSource (as_file c))
          else Fault (Throw "Unknown data source")
      end
  end.

Definition agent_source_configure (initial : bool) (c : agent_source) :
    Exc driver agent_source :=
  a ← get_agent (as_agent c);
  let buffer := bool_decide (is_Some (ag_inputBuffer (ag_files a))) in
  request ← (if initial || buffer then receiveProcessingRequest (as_agent c)
             else mret (MkProcessingRequest 0 false));
  if buffer then mret (with_chunk (pq_size request) (pq_eof request) c)
  else if isDatagenAgent a then
    let size := Z.min (as_remainingTotalSize c) Messages.BufferSize in
    mret (with_chunk size (as_remainingTotalSize c =? size) c)
  else if negb (fs_inode_id (as_file c) =? 0) then
    file ← on_pipeline (source_configure initial (as_file c)); mret (with_file file c)
  else mret c.

Definition agent_endOfInput (c : agent_source) : bool :=
  if negb (fs_inode_id (as_file c) =? 0) then source_endOfInput (as_file c) else as_eof c.

(** The end of [finalize]: the response to the agent. *)
Definition source_answer (eof : bool) (a : OperatorAgent) (c : agent_source) : Exc driver unit :=
  if (eof || bool_decide (is_Some (ag_inputBuffer (ag_files a))))
     && negb (as_skipSendingProcessingResponse c)
  then
    d ← e_get;
    let message :=
      if isDatagenAgent a || isMetalCatAgent a
      then Some (fs_profilingResults (as_file c))
      else Pipeline.oc_profilingResults <$> head (Pipeline.p_operators (dr_pipeline d)) in
    sendProcessingResponse (MkProcessingResponse 0 eof message) (as_agent c)
  else mret tt.

Definition agent_source_finalize (c : agent_source) : Exc driver agent_source :=
  let eof := agent_endOfInput c in
  a ← get_agent (as_agent c);
  c ← match ag_inputBuffer (ag_files a) with
      | Some b =>
          _ ← update_files (as_agent c) (set_input_buffer (Some (Messages.swap b))); mret c
      | None =>
          if isDatagenAgent a then
            mret (AgentSource (as_file c) (as_agent c) (as_skipSendingProcessingResponse c)
                    (as_remainingTotalSize c -ᵤ as_size c) (as_size c) (as_eof c))
          else if negb (fs_inode_id (as_file c) =? 0) then
            file ← on_pipeline (source_finalize (as_file c)); mret (with_file file c)
          else mret c
      end;
  _ ← source_answer eof a c;
  mret c.

Definition agent_source_setProfilingResults (r : string) (c : agent_source) : agent_source :=
  let f := as_file c in
  with_file (FileSource (fs_storage f) (fs_inode_id f) (fs_dataSource f) (fs_extents f)
               (fs_fileLength f) (fs_profilingEnabled f) r) c.

Definition agent_source_setProfilingEnabled (enabled : bool) (c : agent_source) : agent_source :=
  let f := as_file c in
  with_file (FileSource (fs_storage f) (fs_inode_id f) (fs_dataSource f) (fs_extents f)
               (fs_fileLength f) enabled (fs_profilingResults f)) c.

(** [reportTotalSize] is not [const] here either. *)
Definition AgentDataSourceContext : DataSourceContext driver agent_source := {|
  sc_configure := agent_source_configure;
  sc_finalize := agent_source_finalize;
  sc_dataSource := agent_dataSource;
  sc_reportTotalSize := λ _, 0;
  sc_endOfInput := agent_endOfInput;
  sc_profilingEnabled := λ c, fs_profilingEnabled (as_file c);
  sc_setProfilingResults := agent_source_setProfilingResults;
|}.

Definition AgentDataSourceContext_reportTotalSize (c : agent_source) (d : driver) : Z :=
  if agent_is isDatagenAgent (po_agents (dr_pool d)) (as_agent c) then as_remainingTotalSize c
  else if negb (fs_inode_id (as_file c) =? 0)
  then FileDataSourceContext_reportTotalSize (as_file c)
  else 0.

(** ** agent_data_sink_context.cpp *)

Record agent_sink := AgentSink {
  ak_file : file_sink (B := B);         (* the base class *)
  ak_agent : nat;
  ak_skipReceivingProcessingRequest : bool;
}.

(** The storage of the sink is shared: what an operation of the base class
    makes of it is seen by everybody. *)
Definition with_sink_file (file : file_sink) (c : agent_sink) : Exc driver agent_sink :=
  d ← e_get;
  a ← e_deref (po_agents (dr_pool d) !! ak_agent c);
  _ ← match (ag_internalOutputFile (ag_files a)).2, fk_storage file with
      | Some k, Some storage =>
          e_put (Driver (dr_pool d) (dr_pipeline d) (dr_requests d) (dr_responses d)
                        (dr_buffers d) (<[k := storage]> (dr_storages d)))
      | _, _ => mret tt
      end;
  mret (AgentSink file (ak_agent c) (ak_skipReceivingProcessingRequest c)).

Definition create_agent_sink (i : nat) (skip : bool) : Exc driver agent_sink :=
  a ← get_agent i;
  '(storage, inode_id) ← file_of (ag_internalOutputFile (ag_files a));
  file ← e_lift (create_file_sink storage inode_id 0 Messages.BufferSize true);
  with_sink_file file (AgentSink file i skip).

Definition agent_dataSink (c : agent_sink) (d : driver) : result DataSink :=
  match po_agents (dr_pool d) !! ak_agent c with
  | None => Fault NullDeref
  | Some a =>
      match ag_outputBuffer (ag_files a) with
      | Some b => Ok (MkAddress (Messages.current b) Messages.BufferSize ATHost MTNone)
      | None =>
          if isNullOutput a then Ok (MkAddress 0 0 ATNull MTNone)
          else if negb (fk_inode_id (ak_file c) =? 0) then Ok (fk_dataSink (ak_file c))
          else Fault (Throw "Unknown data sink")
      end
  end.

Definition agent_sink_configure (inputSize : Z) (initial : bool) (c : agent_sink) :
    Exc driver agent_sink :=
  a ← get_agent (ak_agent c);
  _ ← (if (initial || bool_decide (is_Some (ag_outputBuffer (ag_files a))))
           && negb (ak_skipReceivingProcessingRequest c)
       then _ ← receiveProcessingRequest (ak_agent c); mret tt
       else mret tt);
  if negb (fk_inode_id (ak_file c) =? 0) then
    file ← on_pipeline (sink_configure inputSize initial (ak_file c)); with_sink_file file c
  else mret c.

Definition agent_sink_finalize (outputSize : Z) (endOfInput : bool) (c : agent_sink) :
    Exc driver agent_sink :=
  d ← e_get;
  a ← get_agent (ak_agent c);
  let message :=
    match last (Pipeline.p_operators (dr_pipeline d)) with
    | Some op => Pipeline.oc_profilingResults op
    | None => fk_profilingResults (ak_file c)
    end in
  '(c, size) ←
    match ag_outputBuffer (ag_files a) with
    | Some b =>
        _ ← update_files (ak_agent c) (set_output_buffer (Some (Messages.swap b)));
        mret (c, outputSize)
    | None =>
        if isNullOutput a then mret (c, 0)
        else if negb (fk_inode_id (ak_file c) =? 0) then
          file ← on_pipeline (sink_finalize outputSize endOfInput (ak_file c));
          c ← with_sink_file file c;
          mret (c, 0)
        else mret (c, 0)
    end;
  _ ← (if endOfInput || bool_decide (is_Some (ag_outputBuffer (ag_files a)))
           || bool_decide (is_Some (ag_inputBuffer (ag_files a)))
       then
         _ ← sendProcessingResponse (MkProcessingResponse size endOfInput (Some message))
               (ak_agent c);
         if (endOfInput : bool) then update_agent (ak_agent c) setTerminated else mret tt
       else mret tt);
  mret c.

Definition agent_sink_prepareForTotalSize (totalSize : Z) (c : agent_sink) :
    Exc driver agent_sink :=
  if negb (fk_inode_id (ak_file c) =? 0) then
    file ← e_lift (prepareForTotalSize totalSize (ak_file c)); with_sink_file file c
  else mret c.

Definition agent_sink_setProfilingResults (r : string) (c : agent_sink) : agent_sink :=
  let f := ak_file c in
  AgentSink (FileSink (fk_storage f) (fk_inode_id f) (fk_dataSink f) (fk_truncateOnFinalize f)
               (fk_extents f) (fk_cachedTotalSize f) (fk_profilingEnabled f) r)
            (ak_agent c) (ak_skipReceivingProcessingRequest c).

Definition agent_sink_setProfilingEnabled (enabled : bool) (c : agent_sink) : agent_sink :=
  let f := ak_file c in
  AgentSink (FileSink (fk_storage f) (fk_inode_id f) (fk_dataSink f) (fk_truncateOnFinalize f)
               (fk_extents f) (fk_cachedTotalSize f) enabled (fk_profilingResults f))
            (ak_agent c) (ak_skipReceivingProcessingRequest c).

Definition AgentDataSinkContext : DataSinkContext driver agent_sink := {|
  kc_dataSink := agent_dataSink;
  kc_prepareForTotalSize := agent_sink_prepareForTotalSize;
  kc_configure := agent_sink_configure;
  kc_finalize := agent_sink_finalize;
  kc_profilingEnabled := λ c, fk_profilingEnabled (ak_file c);
  kc_setProfilingResults := agent_sink_setProfilingResults;
|}.
End Driver.
End AgentContexts.
