(* ===== verification/Driver.v ===== *)
(** * The server (pipeline_builder.cpp, pipeline_loop.cpp, server.cpp)

    A connection is registered; when the agents form a pipeline it is built
    from their arguments and run until the end of the input. *)
From S2P Require Import Prelude Lmdb Structs Dirent Inode Metal File Fuse.
From S2P Require Import Endian Extmap OpMem Jobs Pipeline Runner DataContexts Messages Agents AgentContexts.

Module Server.
Import Agents DataContexts AgentContexts.
Section Server.
Context `{HashOrder} `{Lmdb} `{Machine} `{Device} `{OptionParser} `{Host} {B : Type}.
Context (mounts : list (cstr * option nat)).
Abbreviation driver := (AgentContexts.driver (B := B)).
Abbreviation agent_source := (AgentContexts.agent_source (B := B)).
Abbreviation agent_sink := (AgentContexts.agent_sink (B := B)).

(** ** pipeline_builder.cpp *)

Definition option_of (o : string * OperatorOptionDefinition) : cx_option :=
  let option := o.2 in
  match od_type option with
  | OTBool => CxOption (od_short option) (od_key option) (od_description option) CxBool (Some "false")
  | OTUint => CxOption (od_short option) (od_key option) (od_description option) CxUint32 None
  | OTBuffer => CxOption (od_short option) (od_key option) (od_description option) CxString None
  end.

Definition buildOperatorOptions (op : OperatorSpecification) : cx_options :=
  CxOptions (sp_id op) (sp_description op)
    ([help_option; profile_option; input_option] ++ (option_of <$> sp_options op)) ["input"].

(** The constructor keeps the options of every operator of the registry. *)
Definition operatorOptions (reg : registry) : list (string * cx_options) :=
  (λ op, (op.1, buildOperatorOptions op.2)) <$> reg.

Definition option_value (agent : OperatorAgent) (d : OperatorOptionDefinition)
    (v : option cx_value) : result OperatorArgumentValue :=
  match od_type d with
  | OTUint => n ← as_uint v; mret (AVUint n)
  | OTBool => b ← as_bool v; mret (AVBool b)
  | OTBuffer =>
      match od_bufferSize d with
      | None => Fault (Throw "File option metadata not found")
      | Some size =>
          path ← as_string v;
          let size := Z.to_nat size in
          match read_file (resolvePath path agent) size with
          | None => Fault (Throw "Could not open file")
          | Some [] => Fault (Throw "Could not read from file")
          | Some bytes =>
              let bytes := take size bytes in
              mret (AVBuffer (bytes ++ repeat 0 (size - length bytes)))
          end
      end
  end.

Fixpoint set_options (agent : OperatorAgent)
    (parseResult : string → option cx_value)
    (definitions : list (string * OperatorOptionDefinition)) (userOperator : Operator.operator) :
    result Operator.operator :=
  match definitions with
  | [] => mret userOperator
  | (key, d) :: rest =>
      v ← option_value agent d (parseResult key);
      userOperator ← Operator.setOption key v userOperator;
      set_options agent parseResult rest userOperator
  end.

Definition instantiateOperator (reg : registry) (op : OperatorSpecification) (i : nat) :
    Exc driver Pipeline.OperatorContext :=
  match assoc (sp_id op) (operatorOptions reg) with
  | None => e_throw (RuntimeError "out_of_range")
  | Some options =>
      parseResult ← parseOptions options i;
      agent ← get_agent i;
      userOperator ← e_lift (set_options agent parseResult (sp_options op) (Operator.create op));
      input ← e_lift (as_string (parseResult "input"));
      _ ← (if negb (bool_decide (input = "")) then setInputFile mounts input i else mret tt);
      profile ← e_lift (as_bool (parseResult "profile"));
      mret (Pipeline.MkOperatorContext userOperator false profile "")
  end.

Record ConfiguredPipeline := MkConfiguredPipeline {
  cp_dataSourceAgent : nat;
  cp_dataSinkAgent : nat;
  cp_operatorAgents : list nat;
}.

(** The specifications with the agents, as pointers. *)
Definition resolved (reg : registry) (agents : list nat) :
    Exc driver (list (option OperatorSpecification * nat)) :=
  d ← e_get;
  let objects := omap (λ i, po_agents (dr_pool d) !! i) agents in
  specs ← e_lift (resolveOperatorSpecifications reg objects);
  mret (zip specs.*1 agents).

Fixpoint instantiate_all (reg : registry)
    (l : list (option OperatorSpecification * nat)) : Exc driver (list Pipeline.OperatorContext) :=
  match l with
  | [] => mret []
  | (None, _) :: rest => instantiate_all reg rest
  | (Some op, i) :: rest =>
      c ← instantiateOperator reg op i;
      cs ← instantiate_all reg rest;
      mret (c :: cs)
  end.

(** Validation of the pseudo operators, for the first agent only. *)
Definition configure_pseudo (i : nat) : Exc driver unit :=
  a ← get_agent i;
  if isDatagenAgent a then
    _ ← pseudo_validate datagen_options i; pseudo_setInputFile mounts datagen_options i
  else if isMetalCatAgent a then
    _ ← pseudo_validate metal_cat_options i; pseudo_setInputFile mounts metal_cat_options i
  else mret tt.

Definition configure_source (i : nat) : Exc driver unit :=
  a ← get_agent i;
  match (ag_internalInputFile (ag_files a)).2 with
  | Some _ => mret tt
  | None =>
      if negb (bool_decide (ag_internalInputFilename a = ""))
      then setInternalInputFile mounts (ag_internalInputFilename a) i
      else if negb (isDatagenAgent a) then createInputBuffer i
      else mret tt
  end.

Definition configure_sink (i : nat) : Exc driver unit :=
  a ← get_agent i;
  if negb (bool_decide (ag_internalOutputFilename a = "")) && negb (isNullOutput a)
  then setInternalOutputFile mounts (ag_internalOutputFilename a) i
  else createOutputBuffer i.

Definition acceptance (a : OperatorAgent) : RegistrationResponse :=
  let f := ag_files a in
  MkRegistrationResponse None true
    (Messages.bf_filename <$> ag_inputBuffer f) (Messages.bf_filename <$> ag_outputBuffer f)
    (if bool_decide (ag_agentLoadFile f = "") then None else Some (ag_agentLoadFile f)).

Fixpoint accept_all (agents : list nat) : Exc driver unit :=
  match agents with
  | [] => mret tt
  | i :: rest =>
      a ← get_agent i;
      _ ← sendRegistrationResponse (acceptance a) i;
      accept_all rest
  end.

Definition configure (reg : registry) (pipeline_agents : list nat) :
    Exc driver ConfiguredPipeline :=
  orderedOperatorSpecsAndAgents ← resolved reg pipeline_agents;
  operatorContexts ← instantiate_all reg orderedOperatorSpecsAndAgents;
  _ ← on_pipeline (m_modify (λ p, Pipeline.State (Pipeline.p_log p) operatorContexts false));
  dataSourceAgent ← e_deref (head orderedOperatorSpecsAndAgents.*2);
  dataSinkAgent ← e_deref (last orderedOperatorSpecsAndAgents.*2);
  _ ← configure_pseudo dataSourceAgent;
  _ ← configure_source dataSourceAgent;
  _ ← configure_sink dataSinkAgent;
  _ ← accept_all orderedOperatorSpecsAndAgents.*2;
  mret (MkConfiguredPipeline dataSourceAgent dataSinkAgent pipeline_agents).

(** ** pipeline_loop.cpp *)

Context (formatted : Runner.ProfilingResults → bool → bool → string).

Definition is_end (p : ConfiguredPipeline) (i : nat) : bool :=
  bool_decide (i = cp_dataSourceAgent p) || bool_decide (i = cp_dataSinkAgent p).

(** [setProfilingEnabled] of the source or the sink for a pseudo operator. *)
Definition enable_profiling (p : ConfiguredPipeline) (dataSource : agent_source)
    (dataSink : agent_sink) : Exc driver (agent_source * agent_sink) :=
  a ← get_agent (cp_dataSourceAgent p);
  let set (isProfilingEnabled : bool) : Exc driver (agent_source * agent_sink) :=
    d ← e_get;
    match Pipeline.p_operators (dr_pipeline d) with
    | [] => mret (dataSource, agent_sink_setProfilingEnabled isProfilingEnabled dataSink)
    | _ => mret (agent_source_setProfilingEnabled isProfilingEnabled dataSource, dataSink)
    end in
  if isDatagenAgent a then
    isProfilingEnabled ← datagen_isProfilingEnabled (cp_dataSourceAgent p);
    set isProfilingEnabled
  else if isMetalCatAgent a then
    isProfilingEnabled ← metal_cat_isProfilingEnabled (cp_dataSourceAgent p);
    set isProfilingEnabled
  else mret (dataSource, dataSink).

Fixpoint receive_idle (p : ConfiguredPipeline) (agents : list nat) : Exc driver unit :=
  match agents with
  | [] => mret tt
  | i :: rest =>
      _ ← (if is_end p i then mret tt else _ ← receiveProcessingRequest i; mret tt);
      receive_idle p rest
  end.

(** [currentOperator] starts at the first operator of the pipeline. *)
Fixpoint respond_idle (p : ConfiguredPipeline) (agents : list nat)
    (operators : list Pipeline.OperatorContext) : Exc driver unit :=
  match agents with
  | [] => mret tt
  | i :: rest =>
      if is_end p i then respond_idle p rest operators
      else
        match operators with
        | [] => λ _, Stuck OutOfBounds
        | currentOperator :: operators =>
            _ ← sendProcessingResponse
                  (MkProcessingResponse 0 true (Some (Pipeline.oc_profilingResults currentOperator))) i;
            respond_idle p rest operators
        end
  end.

Definition run (fuel : nat) (p : ConfiguredPipeline) : Exc driver unit :=
  let singleStagePipeline := bool_decide (cp_dataSourceAgent p = cp_dataSinkAgent p) in
  dataSource ← create_agent_source (cp_dataSourceAgent p) singleStagePipeline;
  dataSink ← create_agent_sink (cp_dataSinkAgent p) singleStagePipeline;
  '(dataSource, dataSink) ← enable_profiling p dataSource dataSink;
  _ ← receive_idle p (cp_operatorAgents p);
  _ ← Runner.run_loop formatted AgentDataSourceContext AgentDataSinkContext fuel true
        dataSource dataSink (Runner.MkRunner false None Runner.no_results);
  d ← e_get;
  respond_idle p (cp_operatorAgents p) (Pipeline.p_operators (dr_pipeline d)).

(** ** server.cpp *)

(** [try] with the two handlers of [processRequest]; a log entry is nothing. *)
Definition e_try (m : Exc driver unit) : Exc driver unit := λ d,
  match m d with
  | Thrown (ClientError i what) d' => update_agent i (setError what) d'
  | Thrown (RuntimeError _) d' => Done tt d'
  | r => r
  end.

Definition processRequest (fuel : nat) (reg : registry) (socket : option RegistrationRequest) :
    Exc driver unit := λ d,
  match on_pool (registerAgent socket) d with
  | Thrown _ d' => Done tt d'
  | Stuck f => Stuck f
  | Done _ d =>
      (found ← on_pool containsValidPipeline;
       if negb found then mret tt
       else
         d ← e_get;
         let pipeline := po_pipeline (dr_pool d) in
         _ ← on_pool releaseUnusedAgents;
         _ ← e_try (configuredPipeline ← configure reg pipeline; run fuel configuredPipeline);
         on_pool reset) d
  end.

(** [Server::start]: one connection after the other. *)
Fixpoint serve (fuel : nat) (reg : registry) (connections : list (option RegistrationRequest)) :
    Exc driver unit :=
  match connections with
  | [] => mret tt
  | c :: rest => _ ← processRequest fuel reg c; serve fuel reg rest
  end.
End Server.
End Server.
