(* ===== verification/Entry.v ===== *)
(** * The driver as a program (metal_fuse_operations.cpp, metal_fs.cpp, server.cpp)

    [Main] says what [main] makes of a configuration; here is what surrounds it:
    the table of functions that FUSE calls and the handler behind it, the options
    of the command line, the socket of the server and its loop over connections,
    and the end of the process. How FUSE matches options and what a temporary
    directory is called are the classes [FuseOptions] and [SocketHost]. *)
From S2P Require Import Prelude Lmdb Structs Dirent Inode Path Metal Fuse Endian Messages Sockets.
From S2P Require Import Extmap OpMem Jobs Pipeline Runner Manifest Agents AgentContexts DataContexts Driver Main.

(** ** metal_fuse_operations.cpp *)

Module Context.
Import CombinedFuse.

Section Context.
Context {W : Type}.

(** The static [handler]. The functions of the table look for it when they are
    called: its value is their first argument. *)
Abbreviation static_handler := (option (list (cstr * fuse_handler W))).

(** The fields of FUSE's [struct fuse_operations] that the source assigns: a null
    pointer or a function. *)
Record fuse_operations := Operations {
  op_chown : option (static_handler → cstr → Z → Z → M W Z);
  op_create : option (static_handler → Z → cstr → Z → Z → M W (Z * Z));
  op_getattr : option (static_handler → cstr → stat → M W (Z * stat));
  op_mkdir : option (static_handler → Z → cstr → Z → M W Z);
  op_open : option (static_handler → cstr → Z → M W (Z * Z));
  op_read : option (static_handler → cstr → list Z → Z → Z → Z → M W (Z * list Z));
  op_readdir : option (static_handler → cstr → list cstr → M W (Z * list cstr));
  op_readlink : option (static_handler → cstr → list Z → Z → M W (Z * list Z));
  op_release : option (static_handler → cstr → Z → M W Z);
  op_rename : option (static_handler → cstr → cstr → M W Z);
  op_rmdir : option (static_handler → cstr → M W Z);
  op_truncate : option (static_handler → cstr → Z → M W Z);
  op_unlink : option (static_handler → cstr → M W Z);
  op_write : option (static_handler → cstr → list Z → Z → Z → Z → M W Z);
}.

(** The two static variables. *)
Record statics := Statics { handler : static_handler; ops : fuse_operations }.

(** [static struct fuse_operations ops {}]: all pointers are null. *)
Definition no_operations : fuse_operations :=
  Operations None None None None None None None None None None None None None None.

Definition initial : statics := Statics None no_operations.

(** [handler->]. *)
Definition with_handler {A} (handler : static_handler) (call : fuse_handler W → M W A) : M W A :=
  match handler with
  | Some hs => call (CombinedFuseHandler hs)
  | None => m_fault NullDeref
  end.

(** A new combined handler, and one assignment for each field of the table. *)
Definition createHandler (s : statics) : statics :=
  Statics (Some []) {|
    op_chown := Some (λ handler path uid gid,
      with_handler handler (λ h, fuse_chown h path uid gid));
    op_create := Some (λ handler now path mode fi,
      with_handler handler (λ h, fuse_create h now path mode fi));
    op_getattr := Some (λ handler path stbuf,
      with_handler handler (λ h, fuse_getattr h path stbuf));
    op_mkdir := Some (λ handler now path mode,
      with_handler handler (λ h, fuse_mkdir h now path mode));
    op_open := Some (λ handler path fi,
      with_handler handler (λ h, fuse_open h path fi));
    op_read := Some (λ handler path buf size offset fi,
      with_handler handler (λ h, fuse_read h path buf size offset fi));
    op_readdir := Some (λ handler path buf,
      with_handler handler (λ h, fuse_readdir h path buf));
    op_readlink := Some (λ handler path buf size,
      with_handler handler (λ h, fuse_readlink h path buf size));
    op_release := Some (λ handler path fi,
      with_handler handler (λ h, fuse_release h path fi));
    op_rename := Some (λ handler from_path to_path,
      with_handler handler (λ h, fuse_rename h from_path to_path));
    op_rmdir := Some (λ handler path,
      with_handler handler (λ h, fuse_rmdir h path));
    op_truncate := Some (λ handler path size,
      with_handler handler (λ h, fuse_truncate h path size));
    op_unlink := Some (λ handler path,
      with_handler handler (λ h, fuse_unlink h path));
    op_write := Some (λ handler path buf size offset fi,
      with_handler handler (λ h, fuse_write h path buf size offset fi));
  |}.

Definition when_null (s : statics) : statics :=
  match handler s with None => createHandler s | Some _ => s end.

(** The table as it is passed to [fuse_main]. *)
Definition fuseOperations (s : statics) : fuse_operations * statics :=
  let s := when_null s in (ops s, s).

(** The calls of FUSE on a table with all its functions, while the static [handler]
    has a value; none if a function is missing. *)
Definition calls (table : fuse_operations) (handler : static_handler) : option (fuse_handler W) :=
  chown ← op_chown table; create ← op_create table; getattr ← op_getattr table;
  mkdir ← op_mkdir table; open ← op_open table; read ← op_read table;
  readdir ← op_readdir table; readlink ← op_readlink table; release ← op_release table;
  rename ← op_rename table; rmdir ← op_rmdir table; truncate ← op_truncate table;
  unlink ← op_unlink table; write ← op_write table;
  Some (FuseHandler (chown handler) (create handler) (getattr handler) (mkdir handler)
    (open handler) (read handler) (readdir handler) (readlink handler) (release handler)
    (rename handler) (rmdir handler) (truncate handler) (unlink handler) (write handler)).

Definition addHandler (prefix : cstr) (h : fuse_handler W) (s : statics) : result statics :=
  let s := when_null s in
  match handler s with
  | Some hs => Ok (Statics (Some (CombinedFuse.addHandler hs prefix h)) (ops s))
  | None => Fault NullDeref
  end.

(** No handler at all, or none that fits: an empty prefix and a null pointer. *)
Definition resolveHandler (s : statics) (path : cstr) : cstr * option (fuse_handler W) :=
  match handler s with
  | None => ([], None)
  | Some hs =>
      match CombinedFuse.resolveHandler hs path with
      | Some (prefix, h) => (prefix, Some h)
      | None => ([], None)
      end
  end.

Fixpoint add_all (l : list (cstr * fuse_handler W)) (s : statics) : result statics :=
  match l with
  | [] => Ok s
  | (prefix, h) :: rest => s ← addHandler prefix h s; add_all rest s
  end.
End Context.

(** The handlers that [main] names, those of the file systems on the state of theirs,
    and the static variables once it has added them. *)
Section Mounting.
Context {W : Type} (PlaceholderBinary : list Z) (files : filesystem → fuse_handler W).

Definition make_handler (m : mounted) : fuse_handler W :=
  match m with
  | SocketHandler socketFilename => SocketFuse.SocketFuseHandler (str socketFilename)
  | OperatorHandler operators => OperatorFuse.OperatorFuseHandler PlaceholderBinary (str <$> operators)
  | FilesystemHandler fs => files fs
  end.

Definition install (hs : list (cstr * mounted)) : statics :=
  Statics (Some (prod_map id make_handler <$> hs)) (ops (createHandler initial)).
End Mounting.
End Context.

(** ** The options of metal_fs.cpp *)

Module Options.

Inductive config_field := FCard | FTimeout | FMetadataDir | FInMemory | FVerbosity.
Inductive option_key := KEY_HELP | KEY_VERSION.

(** An entry of the table sets a field, or calls [metal_opt_proc] with a key. *)
Inductive fuse_opt := METAL_OPT (t : string) (p : config_field) (v : Z) | FUSE_OPT_KEY (t : string) (key : option_key).

Definition metal_opts : list fuse_opt := [
  METAL_OPT "--card=%i" FCard 0;
  METAL_OPT "-c %i" FCard 0;
  METAL_OPT "--timeout=%i" FTimeout 0;
  METAL_OPT "-t %i" FTimeout 0;
  METAL_OPT "--metadata %s" FMetadataDir 0;
  METAL_OPT "--in-memory" FInMemory 1;
  METAL_OPT "--in-memory=true" FInMemory 1;
  METAL_OPT "--in-memory=false" FInMemory 0;
  METAL_OPT "-v" FVerbosity 1;
  METAL_OPT "-vv" FVerbosity 2;
  METAL_OPT "-vvv" FVerbosity 3;
  FUSE_OPT_KEY "-V" KEY_VERSION;
  FUSE_OPT_KEY "--version" KEY_VERSION;
  FUSE_OPT_KEY "-h" KEY_HELP;
  FUSE_OPT_KEY "--help" KEY_HELP
].

(** What stands for the placeholder of a template. *)
Inductive parameter := NoParameter | IntParameter (z : Z) | TextParameter (s : string).

(** [fuse_opt_parse] goes through the arguments: the entries of the table that they
    match with their parameters, and whether it got to the end without an error. *)
Class FuseOptions := {
  fuse_opt_match : list fuse_opt → list string → list (nat * parameter) * bool;
}.

Definition set_field (p : config_field) (v : Z) (par : parameter) (c : metal_config) : metal_config :=
  let z := match par with IntParameter z => z | _ => v end in
  match p with
  | FCard => MetalConfig z (mc_timeout c) (mc_metadata_dir c) (mc_in_memory c) (mc_verbosity c)
  | FTimeout => MetalConfig (mc_card c) z (mc_metadata_dir c) (mc_in_memory c) (mc_verbosity c)
  | FMetadataDir =>
      MetalConfig (mc_card c) (mc_timeout c) (match par with TextParameter s => Some s | _ => None end)
                  (mc_in_memory c) (mc_verbosity c)
  | FInMemory => MetalConfig (mc_card c) (mc_timeout c) (mc_metadata_dir c) z (mc_verbosity c)
  | FVerbosity => MetalConfig (mc_card c) (mc_timeout c) (mc_metadata_dir c) (mc_in_memory c) z
  end.

(** [metal_opt_proc] for a key: it prints and ends the process. *)
Definition metal_opt_proc (key : option_key) : Z :=
  match key with KEY_HELP => 1 | KEY_VERSION => 0 end.

Definition no_config : metal_config := MetalConfig 0 0 None 0 0.

Inductive parsed := Exited (code : Z) | Failed | Parsed (c : metal_config).

Fixpoint fuse_opt_loop (matches : list (nat * parameter)) (complete : bool) (c : metal_config) : parsed :=
  match matches with
  | [] => if complete then Parsed c else Failed
  | (i, par) :: rest =>
      match metal_opts !! i with
      | Some (METAL_OPT _ p v) => fuse_opt_loop rest complete (set_field p v par c)
      | Some (FUSE_OPT_KEY _ key) => Exited (metal_opt_proc key)
      | None => fuse_opt_loop rest complete c
      end
  end.

Section Options.
Context `{FuseOptions, Json, Device}.

Definition fuse_opt_parse (args : list string) (c : metal_config) : parsed :=
  let '(matches, complete) := fuse_opt_match metal_opts args in fuse_opt_loop matches complete c.

(** [main] from its arguments to [fuse_main]. *)
Definition program (args : list string) (socketFilename : string) : M Pipeline.state Main.started :=
  match fuse_opt_parse args no_config with
  | Exited code => mret (Main.Exit code)
  | Failed => Main.main None socketFilename
  | Parsed c => Main.main (Some c) socketFilename
  end.
End Options.
End Options.

(** ** The sockets of server.cpp *)

Module Listening.
Import Sockets Agents.

(** [mkdtemp]: the name with its six last characters replaced, or none. *)
Class SocketHost := { mkdtemp : string → option string }.

Class SocketHostLaws `{SocketHost} : Prop := {
  mkdtemp_length template dir : mkdtemp template = Some dir → String.length dir = String.length template;
}.

(** [Server::Server]: the name of the socket. *)
Definition Server_create `{SocketHost} : result string :=
  match mkdtemp "/tmp/metal-socket-XXXXXX" with
  | None => Fault (Throw "Could not create temporary directory.")
  | Some socket_dir => Ok (socket_dir ++ "/metal.sock")%string
  end.

(** [sockaddr_un], whose path has room for 108 bytes: [strcpy] into it. *)
Definition sun_path_size : Z := 108.

Definition server_address (socketFileName : string) : result cstr :=
  let path := str socketFileName in
  if strlen path + 1 <=? sun_path_size then Ok path else Fault OutOfBounds.

Section Start.
Context `{HashOrder} `{Lmdb} `{Machine} `{Device} `{OptionParser} `{Host} {B : Type}.
Context `{Protobuf} `{Network}.
Context (mounts : list (cstr * option nat)).
Context (formatted : Runner.ProfilingResults → bool → bool → string).
Abbreviation driver := (AgentContexts.driver (B := B)).

(** The constructor of [OperatorAgent] waits for the request of the program behind
    the connection; none: it throws. *)
Definition receive_request (connection : inbound) : Exc driver (option RegistrationRequest) := λ d,
  match Sockets.receiveMessage MTRegistrationRequest connection with
  | Done request _ => Done (Some request) d
  | Thrown _ _ => Done None d
  | Stuck f => Stuck f
  end.

(** The loop of [Server::start] over the connections that [accept] gives. It has no
    end; the list holds those that are made. *)
Fixpoint accept_loop (fuel : nat) (reg : registry) (connections : list inbound) : Exc driver unit :=
  match connections with
  | [] => mret tt
  | connection :: rest =>
      request ← receive_request connection;
      _ ← Server.processRequest mounts formatted fuel reg request;
      accept_loop fuel reg rest
  end.

(** The results of [socket], [bind] and [listen] are not looked at. *)
Definition start (fuel : nat) (reg : registry) (socketFileName : string) (connections : list inbound) :
    Exc driver unit :=
  _ ← e_lift (server_address socketFileName);
  accept_loop fuel reg connections.
End Start.

(** The end of [main]: with a server, its thread is waited for after [fuse_main] has
    returned. *)
Definition finish (r : Main.running) (retc : Z) : result Z :=
  match Main.rn_server r with
  | Some _ => Fault WouldBlock
  | None => Ok retc
  end.
End Listening.
