(* ===== verification/ServerProofs.v ===== *)
(** * The server

    What holds of the driver's pool of agents whatever the programs, the card
    and the operating system do: nobody is left without an answer, and errors
    reach the program that caused them. *)
From S2P Require Import Prelude Lmdb Structs Dirent Inode Metal File Fuse.
From S2P Require Import Endian Extmap OpMem Jobs Pipeline Runner DataContexts Messages Agents AgentContexts.
From S2P Require Import Driver AgentProofs.

Module ServerFacts.
Import Agents AgentContexts DataContexts Server AgentFacts.

(** ** The pool during a pipeline *)

Section Keep.
Context `{HashOrder} `{Lmdb} `{Machine} `{Device} `{OptionParser} `{Host} {B : Type}.
Context (mounts : list (cstr * option nat)).
Context (formatted : Runner.ProfilingResults → bool → bool → string).
Abbreviation driver := (AgentContexts.driver (B := B)).
Implicit Types (d : driver) (T : nat → Prop) (i : nat).

Definition agents_of_driver d : list OperatorAgent := po_agents (dr_pool d).

(** A relation between the states before and after that lets everything but
    the pool change, and the files of the agents. *)
Class PoolRelation (R : driver → driver → Prop) := {
  pr_preorder :: PreOrder R;
  pr_same d d' : dr_pool d' = dr_pool d → R d d';
  pr_files i f : keeps R (update_files i f);
}.

Section AnyRelation.
Context (R : driver → driver → Prop) `{!PoolRelation R}.

Lemma keeps_pipeline {A} (m : M Pipeline.state A) : keeps R (on_pipeline m).
Proof.
  intros d. unfold on_pipeline, e_part.
  destruct (m _) as [[a p]|[]]; try done; by apply pr_same.
Qed.

Lemma keeps_files i f : keeps R (update_files (B := B) i f).
Proof. apply pr_files. Qed.

Lemma keeps_processing msg i : keeps R (sendProcessingResponse (B := B) msg i).
Proof. apply keeps_modify. intros d. by apply pr_same. Qed.

Lemma keeps_receive i : keeps R (receiveProcessingRequest (B := B) i).
Proof.
  intros d. unfold receiveProcessingRequest. rewrite (e_bind_run e_get _ d d d) by done.
  destruct (dr_requests d i); by apply pr_same.
Qed.

Lemma keeps_temp_file : keeps R (createTempFileForSharedBuffer (B := B)).
Proof.
  intros d. unfold createTempFileForSharedBuffer. rewrite (e_bind_run e_get _ d d d) by done.
  destruct (shared_buffer _); by apply pr_same.
Qed.
End AnyRelation.

(** The pool of [d'] differs from the one of [d] in what was sent and in the
    fields of the agents, of which only those of [T] may have become
    terminated. *)
Record advances T d d' : Prop := Advances {
  adv_registered : po_registered (dr_pool d') = po_registered (dr_pool d);
  adv_pipeline : po_pipeline (dr_pool d') = po_pipeline (dr_pool d);
  adv_length : length (agents_of_driver d') = length (agents_of_driver d);
  adv_sent : ∃ l, po_sent (dr_pool d') = po_sent (dr_pool d) ++ l;
  adv_terminated i : is_terminated (agents_of_driver d') i = true →
    is_terminated (agents_of_driver d) i = true ∨ T i;
}.

#[export] Instance advances_preorder T : PreOrder (advances T).
Proof.
  split.
  - intros d. split; [done|done|done|by exists []; rewrite app_nil_r|by left].
  - intros d1 d2 d3 [F1 F2 F3 [l F4] F5] [I1 I2 I3 [m I4] I5]. split; try congruence.
    + exists (l ++ m). by rewrite I4, F4, app_assoc.
    + intros i [?|?]%I5; auto.
Qed.

(** The pool itself is untouched. *)
Lemma advances_same T d d' : dr_pool d' = dr_pool d → advances T d d'.
Proof.
  intros E. destruct d, d'. cbn in E. subst. split; cbn; try done; [by exists []; rewrite app_nil_r|by left].
Qed.

Lemma keeps_update T i f :
  (∀ a, ag_terminated (f a) = ag_terminated a) → keeps (advances T) (update_agent (B := B) i f).
Proof.
  intros Hf. apply keeps_modify. intros d. split; cbn; try done.
  - unfold agents_of_driver. cbn. by rewrite length_alter.
  - by exists []; rewrite app_nil_r.
  - intros j Hj0. left. revert Hj0. unfold is_terminated, agent_is, agents_of_driver. cbn.
    destruct (decide (j = i)) as [->|Hj].
    + rewrite list_lookup_alter_eq. destruct (po_agents (dr_pool d) !! i); cbn; [|done]. by rewrite Hf.
    + by rewrite list_lookup_alter_ne.
Qed.

Lemma keeps_terminated T i : T i → keeps (advances T) (update_agent (B := B) i setTerminated).
Proof.
  intros HT. apply keeps_modify. intros d. split; cbn; try done.
  - unfold agents_of_driver. cbn. by rewrite length_alter.
  - by exists []; rewrite app_nil_r.
  - intros j. unfold is_terminated, agent_is, agents_of_driver. cbn.
    destruct (decide (j = i)) as [->|Hj]; [by right|]. rewrite list_lookup_alter_ne by done. by left.
Qed.

#[export] Instance advances_pool_relation T : PoolRelation (advances T).
Proof.
  split; [typeclasses eauto|apply advances_same|]. intros i f. by apply keeps_update.
Qed.

Lemma keeps_respond T msg i : keeps (advances T) (sendRegistrationResponse (B := B) msg i).
Proof.
  apply keeps_modify. intros d. split; cbn; try done; [by eexists|by left].
Qed.

End Keep.

#[export] Hint Resolve keeps_pipeline keeps_files keeps_respond keeps_processing keeps_receive
  keeps_temp_file : keeps.

Section Builder.
Context `{HashOrder} `{Lmdb} `{Machine} `{Device} `{OptionParser} `{Host} {B : Type}.
Context (mounts : list (cstr * option nat)).
Abbreviation driver := (AgentContexts.driver (B := B)).
Context (R : driver → driver → Prop) `{!PoolRelation R}.
Implicit Types (d : driver) (i : nat).

Lemma keeps_get_agent i : keeps R (get_agent i).
Proof. unfold get_agent. keep. Qed.
#[local] Hint Resolve keeps_get_agent : keeps.

Lemma keeps_parse options i : keeps R (parseOptions options i).
Proof. unfold parseOptions. keep. Qed.
#[local] Hint Resolve keeps_parse : keeps.

Lemma keeps_create_input i : keeps R (createInputBuffer i).
Proof. unfold createInputBuffer. keep. Qed.
Lemma keeps_create_output i : keeps R (createOutputBuffer i).
Proof. unfold createOutputBuffer. keep. Qed.
#[local] Hint Resolve keeps_create_input keeps_create_output : keeps.

Lemma keeps_open_internal error filename : keeps R (open_internal mounts error filename).
Proof. unfold open_internal. keep. Qed.
#[local] Hint Resolve keeps_open_internal : keeps.

Lemma keeps_internal_input filename i : keeps R (setInternalInputFile mounts filename i).
Proof. unfold setInternalInputFile. keep. Qed.
Lemma keeps_internal_output filename i : keeps R (setInternalOutputFile mounts filename i).
Proof. unfold setInternalOutputFile. keep. Qed.
#[local] Hint Resolve keeps_internal_input keeps_internal_output : keeps.

Lemma keeps_input_file filename i : keeps R (setInputFile mounts filename i).
Proof. unfold setInputFile. keep. Qed.
#[local] Hint Resolve keeps_input_file : keeps.

Lemma keeps_pseudo options i :
  keeps R (pseudo_validate options i) ∧ keeps R (pseudo_setInputFile mounts options i).
Proof. unfold pseudo_validate, pseudo_setInputFile. split; keep. Qed.

Lemma keeps_configure_pseudo i : keeps R (configure_pseudo mounts i).
Proof.
  unfold configure_pseudo. keep; apply keeps_bind; try typeclasses eauto; intros;
    apply keeps_pseudo.
Qed.
Lemma keeps_configure_source i : keeps R (configure_source mounts i).
Proof. unfold configure_source. keep. Qed.
Lemma keeps_configure_sink i : keeps R (configure_sink mounts i).
Proof. unfold configure_sink. keep. Qed.
#[local] Hint Resolve keeps_configure_pseudo keeps_configure_source keeps_configure_sink : keeps.

Lemma keeps_resolved reg agents : keeps R (resolved reg agents).
Proof. unfold resolved. keep. Qed.
Lemma keeps_instantiate reg op i : keeps R (instantiateOperator mounts reg op i).
Proof. unfold instantiateOperator. keep. Qed.
#[local] Hint Resolve keeps_resolved keeps_instantiate : keeps.

Lemma keeps_instantiate_all reg l : keeps R (instantiate_all mounts reg l).
Proof. induction l as [|[[op|] i] l IH]; cbn [instantiate_all]; keep. Qed.
#[local] Hint Resolve keeps_instantiate_all : keeps.

(** What [configure] does before it tells the agents. *)
Definition prepare reg (agents : list nat) : Exc driver (list nat * ConfiguredPipeline) :=
  ordered ← resolved reg agents;
  operatorContexts ← instantiate_all mounts reg ordered;
  _ ← on_pipeline (m_modify (λ p, Pipeline.State (Pipeline.p_log p) operatorContexts false));
  dataSourceAgent ← e_deref (head ordered.*2);
  dataSinkAgent ← e_deref (last ordered.*2);
  _ ← configure_pseudo mounts dataSourceAgent;
  _ ← configure_source mounts dataSourceAgent;
  _ ← configure_sink mounts dataSinkAgent;
  mret (ordered.*2, MkConfiguredPipeline dataSourceAgent dataSinkAgent agents).

Lemma keeps_prepare reg agents : keeps R (prepare reg agents).
Proof. unfold prepare. keep. Qed.
End Builder.

#[export] Hint Resolve keeps_get_agent keeps_parse keeps_create_input keeps_create_output keeps_open_internal
  keeps_internal_input keeps_internal_output keeps_input_file keeps_configure_pseudo
  keeps_configure_source keeps_configure_sink keeps_resolved keeps_instantiate
  keeps_instantiate_all keeps_prepare : keeps.

Section Compound.
Context `{HashOrder} `{Lmdb} `{Machine} `{Device} `{OptionParser} `{Host} {B : Type}.
Context (mounts : list (cstr * option nat)).
Context (formatted : Runner.ProfilingResults → bool → bool → string).
Abbreviation driver := (AgentContexts.driver (B := B)).
Abbreviation keep_all T m := (keeps (advances (B := B) T) m).
Implicit Types (d : driver) (T : nat → Prop) (i : nat).

Lemma keeps_accept T agents : keep_all T (accept_all agents).
Proof. induction agents; cbn [accept_all]; keep. Qed.
Hint Resolve keeps_accept : keeps.

Lemma keeps_configure T reg agents : keep_all T (configure mounts reg agents).
Proof. unfold configure. keep. Qed.

(** ** The run *)

Lemma keeps_file_of T x : keep_all T (file_of x).
Proof. unfold file_of. keep. Qed.
Hint Resolve keeps_file_of : keeps.

Lemma keeps_datagen T i :
  keep_all T (datagenLength i) ∧ keep_all T (datagen_isProfilingEnabled i) ∧
  keep_all T (metal_cat_isProfilingEnabled i).
Proof. unfold datagenLength, datagen_isProfilingEnabled, metal_cat_isProfilingEnabled. split_and!; keep. Qed.

Lemma keeps_create_source T i skip : keep_all T (create_agent_source i skip).
Proof. unfold create_agent_source. keep. all: apply keeps_datagen. Qed.

Lemma keeps_with_sink_file T file c : keep_all T (with_sink_file file c).
Proof.
  unfold with_sink_file. intros d. unfold mbind, exc_bind, e_get, e_deref, e_put, mret, exc_ret.
  destruct (_ !! _) as [a|]; [|done].
  destruct (ag_internalOutputFile _).2, (fk_storage file); by apply advances_same.
Qed.
Hint Resolve keeps_with_sink_file : keeps.

Lemma keeps_create_sink T i skip : keep_all T (create_agent_sink i skip).
Proof. unfold create_agent_sink. keep. Qed.
Hint Resolve keeps_create_source keeps_create_sink : keeps.

Lemma keeps_enable T p c k : keep_all T (enable_profiling p c k).
Proof.
  unfold enable_profiling. keep; apply keeps_bind; try typeclasses eauto; keep; apply keeps_datagen.
Qed.
Lemma keeps_receive_idle T p l : keep_all T (receive_idle p l).
Proof. induction l; cbn [receive_idle]; keep. Qed.
Lemma keeps_respond_idle T p l : ∀ ops, keep_all T (respond_idle p l ops).
Proof. induction l; cbn [respond_idle]; keep. Qed.
Hint Resolve keeps_enable keeps_receive_idle keeps_respond_idle : keeps.

Lemma keeps_source_configure T initial c : keep_all T (agent_source_configure initial c).
Proof. unfold agent_source_configure. keep. Qed.
Lemma keeps_source_finalize T c : keep_all T (agent_source_finalize c).
Proof. unfold agent_source_finalize, source_answer. keep. Qed.
Lemma keeps_sink_configure T n initial c : keep_all T (agent_sink_configure n initial c).
Proof. unfold agent_sink_configure. keep. Qed.

(** The context of the sink stays with its agent. *)
Definition of_agent i (c : agent_sink (B := B)) : Prop := ak_agent c = i.

Lemma post_with_sink_file T file c i :
  of_agent i c → keeps_post (advances T) (of_agent i) (with_sink_file file c).
Proof.
  intros Hc d. unfold with_sink_file, mbind, exc_bind, e_get, e_deref, e_put, mret, exc_ret.
  destruct (_ !! _) as [a|]; [|done].
  destruct (ag_internalOutputFile _).2, (fk_storage file); (split; [by apply advances_same|done]).
Qed.

(** A statement without interest, then the rest. *)
Lemma post_step {A A'} T (P : A' → Prop) (m : Exc driver A) (k : A → Exc driver A') :
  keep_all T m → (∀ a, keeps_post (advances T) P (k a)) → keeps_post (advances T) P (x ← m; k x).
Proof. intros Hm Hk. eapply keeps_post_bind; [typeclasses eauto|by apply keeps_keeps_post|auto]. Qed.

Lemma post_sink_prepare T n c i :
  of_agent i c → keeps_post (advances T) (of_agent i) (agent_sink_prepareForTotalSize n c).
Proof.
  intros Hc. unfold agent_sink_prepareForTotalSize. destruct (negb _); [|by apply keeps_post_ret; [typeclasses eauto|]].
  apply post_step; [keep|]. intros file. by apply post_with_sink_file.
Qed.

Lemma post_sink_configure T n initial c i :
  of_agent i c → keeps_post (advances T) (of_agent i) (agent_sink_configure n initial c).
Proof.
  intros Hc. unfold agent_sink_configure. apply post_step; [keep|]. intros a.
  apply post_step; [keep|]. intros _. destruct (negb _); [|by apply keeps_post_ret; [typeclasses eauto|]].
  apply post_step; [keep|]. intros file. by apply post_with_sink_file.
Qed.

Lemma post_sink_finalize T n e c i :
  T i → of_agent i c → keeps_post (advances T) (of_agent i) (agent_sink_finalize n e c).
Proof.
  intros HT Hc. unfold agent_sink_finalize. apply post_step; [keep|]. intros d.
  apply post_step; [keep|]. intros a.
  apply (keeps_post_bind _ (λ x : agent_sink * Z, of_agent i x.1)).
  - destruct (ag_outputBuffer _).
    { apply post_step; [keep|]. intros _. by apply keeps_post_ret; [typeclasses eauto|]. }
    destruct (isNullOutput a); [by apply keeps_post_ret; [typeclasses eauto|]|].
    destruct (negb _); [|by apply keeps_post_ret; [typeclasses eauto|]].
    apply post_step; [keep|]. intros file.
    eapply keeps_post_bind; [typeclasses eauto|by apply (post_with_sink_file T file c i)|].
    intros c' Hc'. by apply keeps_post_ret; [typeclasses eauto|].
  - intros [c' size] Hc'. cbn in Hc'. apply post_step.
    + keep. rewrite Hc'. by apply keeps_terminated.
    + intros _. by apply keeps_post_ret; [typeclasses eauto|].
Qed.

Lemma keeps_preRun T (c : agent_source (B := B)) (k : agent_sink (B := B)) initialize r :
  keep_all T (Runner.preRun AgentDataSourceContext AgentDataSinkContext c k initialize r).
Proof. unfold Runner.preRun. keep. Qed.

Lemma post_postRun T c k finalize r i :
  of_agent i k →
  keeps_post (advances T) (λ '(_, k', _), of_agent i k')
    (Runner.postRun formatted AgentDataSourceContext AgentDataSinkContext c k finalize r).
Proof.
  intros Hk. unfold Runner.postRun.
  destruct (Runner.rn_profileStreamIds r) as [[]|]; [|by apply keeps_post_ret; [typeclasses eauto|]].
  apply post_step; [keep|]. intros res. cbn zeta.
  destruct (negb finalize); [by apply keeps_post_ret; [typeclasses eauto|]|].
  destruct (sc_profilingEnabled _ _); [by apply keeps_post_ret; [typeclasses eauto|]|].
  destruct (kc_profilingEnabled _ _); [by apply keeps_post_ret; [typeclasses eauto|]|].
  apply post_step; [keep|]. intros _. by apply keeps_post_ret; [typeclasses eauto|].
Qed.
Lemma keeps_source_address T (c : agent_source (B := B)) :
  keep_all T (Runner.source_address AgentDataSourceContext c).
Proof. unfold Runner.source_address. keep. Qed.
Lemma keeps_sink_address T (c : agent_sink (B := B)) :
  keep_all T (Runner.sink_address AgentDataSinkContext c).
Proof. unfold Runner.sink_address. keep. Qed.
Hint Resolve keeps_source_address keeps_sink_address keeps_preRun keeps_source_configure
  keeps_source_finalize : keeps.

Lemma post_run_once T profiling c k r i :
  T i → of_agent i k →
  keeps_post (advances T) (λ '(_, _, _, k', _), of_agent i k')
    (Runner.run_once formatted AgentDataSourceContext AgentDataSinkContext profiling c k r).
Proof.
  intros HT Hk. unfold Runner.run_once. cbn zeta.
  eapply (keeps_post_bind _ (of_agent i)).
  { destruct (negb _); [|by apply keeps_post_ret; [typeclasses eauto|]].
    eapply (keeps_post_bind _ (of_agent i)).
    - destruct (0 <? _); [by apply post_sink_prepare|by apply keeps_post_ret; [typeclasses eauto|]].
    - intros k' Hk'. apply post_step; [keep|]. intros _. by apply keeps_post_ret; [typeclasses eauto|]. }
  intros k1 Hk1. apply post_step; [cbn [sc_configure AgentDataSourceContext]; keep|]. intros c1.
  apply post_step; [keep|]. intros a.
  eapply (keeps_post_bind _ (of_agent i)); [by apply post_sink_configure|]. intros k2 Hk2.
  apply post_step; [keep|]. intros r1. apply post_step; [keep|]. intros outputSize.
  eapply (keeps_post_bind _ (λ x, of_agent i x.1.2)).
  { destruct profiling; [|by apply keeps_post_ret; [typeclasses eauto|]].
    pose proof (post_postRun T c1 k2 (sc_endOfInput AgentDataSourceContext c1) r1 i Hk2) as Hp.
    intros s. specialize (Hp s). destruct (Runner.postRun _ _ _ _ _ _ _ _) as [[[] ]| |]; done. }
  intros [[c2 k3] r2] Hk3. cbn in Hk3.
  apply post_step; [cbn [sc_finalize AgentDataSourceContext]; keep|]. intros c3.
  eapply (keeps_post_bind _ (of_agent i)); [by apply post_sink_finalize|]. intros k4 Hk4.
  by apply keeps_post_ret; [typeclasses eauto|].
Qed.

Lemma keeps_run_loop T fuel profiling i : T i → ∀ c k r, of_agent i k →
  keep_all T (Runner.run_loop formatted AgentDataSourceContext AgentDataSinkContext fuel profiling c k r).
Proof.
  intros HT. induction fuel as [|fuel IH]; intros c k r Hk; cbn [Runner.run_loop]; [keep|].
  apply (keeps_post_keeps _ (λ _, True)). eapply keeps_post_bind; [typeclasses eauto|by apply post_run_once|].
  intros [[[[n e] c'] k'] r'] Hk'. apply keeps_keeps_post. destruct e; [keep|by apply IH].
Qed.

Lemma post_create_sink T i skip : keeps_post (advances T) (of_agent i) (create_agent_sink i skip).
Proof.
  unfold create_agent_sink. apply post_step; [keep|]. intros a. apply post_step; [keep|].
  intros [storage inode_id]. apply post_step; [keep|]. intros file. by apply post_with_sink_file.
Qed.

Lemma post_enable T p c k i :
  of_agent i k → keeps_post (advances T) (λ x, of_agent i x.2) (enable_profiling p c k).
Proof.
  intros Hk. unfold enable_profiling. apply post_step; [keep|]. intros a. cbn zeta.
  assert (∀ b : bool, keeps_post (advances T) (λ x : agent_source * agent_sink, of_agent i x.2)
    (d ← e_get; match Pipeline.p_operators (dr_pipeline d) with
                | [] => (mret (c, agent_sink_setProfilingEnabled b k) : Exc driver _)
                | _ => mret (agent_source_setProfilingEnabled b c, k) end)) as Hset.
  { intros b. apply post_step; [keep|]. intros d.
    destruct (Pipeline.p_operators _); by apply keeps_post_ret; [typeclasses eauto|]. }
  destruct (isDatagenAgent a); [|destruct (isMetalCatAgent a)].
  - apply post_step; [apply keeps_datagen|]. apply Hset.
  - apply post_step; [apply keeps_datagen|]. apply Hset.
  - by apply keeps_post_ret; [typeclasses eauto|].
Qed.

(** Running a pipeline marks no agent but the one of the sink. *)
Lemma keeps_run T fuel p :
  T (cp_dataSinkAgent p) → keep_all T (run formatted fuel p).
Proof.
  intros HT. apply (keeps_post_keeps _ (λ _, True)). unfold run. cbn zeta.
  apply post_step; [keep|]. intros c.
  eapply keeps_post_bind; [typeclasses eauto|apply post_create_sink|]. intros k Hk.
  eapply keeps_post_bind; [typeclasses eauto|by apply post_enable|]. intros [c' k'] Hk'. cbn in Hk'.
  apply keeps_keeps_post. apply keeps_bind; [typeclasses eauto|keep|]. intros _.
  apply keeps_bind; [typeclasses eauto| |keep]. by eapply keeps_run_loop.
Qed.
End Compound.

(** ** Every program is answered *)

Section Answers.
Context `{HashOrder} `{Lmdb} `{Machine} `{Device} `{OptionParser} `{Host} {B : Type}.
Context (mounts : list (cstr * option nat)).
Context (formatted : Runner.ProfilingResults → bool → bool → string).
Abbreviation driver := (AgentContexts.driver (B := B)).
Implicit Types (d : driver) (i : nat) (s : pool) (A : list OperatorAgent).

(** *** The walk visits no agent twice *)

Lemma walk_mono A : ∀ fuel fuel' o l l',
  walk_outputs fuel A o = Ok l → walk_outputs fuel' A o = Ok l' → l = l'.
Proof.
  induction fuel as [|fuel IH]; intros fuel' [i|] l l' E E'; cbn in E; try done.
  - destruct fuel'; cbn in E'; congruence.
  - destruct fuel' as [|fuel']; [done|]. cbn in E'. destruct (A !! i) as [a|]; [|done].
    destruct (isOutputAgent a); [congruence|].
    destruct (walk_outputs fuel A _) eqn:W; [|done]. destruct (walk_outputs fuel' A _) eqn:W'; [|done].
    cbn in E, E'. assert (a0 = a1) as <- by (by eapply IH). congruence.
  - destruct fuel'; cbn in E'; congruence.
Qed.

Lemma walk_more A : ∀ fuel o l,
  walk_outputs fuel A o = Ok l → walk_outputs (S fuel) A o = Ok l.
Proof.
  induction fuel as [|fuel IH]; intros [i|] l W; try done.
  cbn [walk_outputs] in W. change (walk_outputs (S (S fuel)) A (Some i)) with
    (match A !! i with
     | None => Fault OutOfBounds
     | Some a => if isOutputAgent a then Ok [i]
                 else rest ← walk_outputs (S fuel) A (ag_outputAgent a); mret (i :: rest)
     end).
  destruct (A !! i) as [a|]; [|done]. destruct (isOutputAgent a); [done|].
  destruct (walk_outputs fuel A _) as [rest|] eqn:E; [|done]. by rewrite (IH _ _ E).
Qed.

Lemma walk_suffix A : ∀ fuel o l, walk_outputs fuel A o = Ok l →
  ∀ k i, l !! k = Some i → walk_outputs fuel A (Some i) = Ok (drop k l) ∧ is_Some (A !! i).
Proof.
  induction fuel as [|fuel IH]; intros [j|] l E k i Hk; cbn in E; try done.
  - by injection E as <-.
  - destruct (A !! j) as [a|] eqn:Ha; [|done]. destruct (isOutputAgent a) eqn:Eo.
    { injection E as <-. destruct k; [|done]. injection Hk as <-. cbn. by rewrite Ha, Eo. }
    destruct (walk_outputs fuel A _) as [rest|] eqn:W; [|done]. cbn in E. injection E as <-.
    destruct k as [|k].
    { injection Hk as <-. cbn [walk_outputs drop]. rewrite Ha, Eo, W. done. }
    destruct (IH _ _ W k i Hk) as [E Hi]. split; [|done]. cbn [drop].
    by apply walk_more.
  - by injection E as <-.
Qed.

Lemma walk_nodup A fuel o l : walk_outputs fuel A o = Ok l → NoDup l ∧ ∀ i, i ∈ l → is_Some (A !! i).
Proof.
  intros E. split.
  - apply NoDup_alt. intros k k' i Hk Hk'.
    destruct (walk_suffix A fuel o l E k i Hk) as [Wk _].
    destruct (walk_suffix A fuel o l E k' i Hk') as [Wk' _].
    rewrite Wk in Wk'. injection Wk' as Ed. apply (f_equal length) in Ed. rewrite !length_drop in Ed.
    apply lookup_lt_Some in Hk, Hk'. lia.
  - intros i [k Hk]%list_elem_of_lookup. by destruct (walk_suffix A fuel o l E k i Hk).
Qed.

(** *** Registration and the search for a pipeline *)

Lemma connect_flags i A j :
  length (connect_agents i A j) = length A ∧
  ∀ k, is_terminated (connect_agents i A j) k = is_terminated A k.
Proof.
  assert (∀ j o o', A !! j = Some o → length (<[j := setOutputAgent o' o]> A) = length A ∧
    ∀ k, is_terminated (<[j := setOutputAgent o' o]> A) k = is_terminated A k) as Hins.
  { intros j' o o' Ho. split; [apply length_insert|]. intros k. unfold is_terminated, agent_is.
    destruct (decide (j' = k)) as [->|Hk].
    - rewrite list_lookup_insert_eq by (by eapply lookup_lt_Some). by rewrite Ho.
    - by rewrite list_lookup_insert_ne. }
  unfold connect_agents. destruct (A !! j) as [o|] eqn:Ej; [|done].
  destruct (A !! i) as [a|] eqn:Ei; [|done].
  destruct (isOutputConnectedTo o a); [by apply Hins|].
  destruct (isOutputConnectedTo a o); [by apply Hins|done].
Qed.

Lemma connect_fold_flags i js : ∀ A,
  length (foldl (connect_agents i) A js) = length A ∧
  ∀ k, is_terminated (foldl (connect_agents i) A js) k = is_terminated A k.
Proof.
  induction js as [|j js IH]; intros A; cbn [foldl]; [done|].
  destruct (connect_flags i A j) as [Hl Hf]. destruct (IH (connect_agents i A j)) as [Hl' Hf'].
  split; [congruence|]. intros k. by rewrite Hf'.
Qed.

Definition answered s i : Prop := ∃ response, (i, response) ∈ po_sent s.

(** Between two connections: the agents of the pool wait, or were answered. *)
Record served s : Prop := Served {
  sv_nodup : NoDup (po_registered s);
  sv_agents i : i ∈ po_registered s → is_Some (po_agents s !! i);
  sv_answer i : is_Some (po_agents s !! i) → i ∈ po_registered s ∨ answered s i;
  sv_flag i : is_terminated (po_agents s) i = true → answered s i;
}.

Lemma new_pool_served garbage : served (new_pool garbage).
Proof.
  split; cbn; [constructor|by intros i ?%elem_of_nil|by intros i [? ?]|].
  intros i. unfold is_terminated, agent_is. done.
Qed.

Lemma register_served r s s' :
  served s → registerAgent (Some r) s = Ok (tt, s') →
  served s' ∧ po_pipeline s' = po_pipeline s ∧ po_cached s' = false.
Proof.
  intros [Hnd Ha Hw Hf]. unfold registerAgent. rewrite (bind_run m_get _ s s s) by done.
  intros [= <-]. split; [|done].
  destruct (connect_fold_flags (length (po_agents s)) (po_registered s) (po_agents s ++ [create_agent r]))
    as [Hlen Hflag].
  assert (∀ i, is_Some (foldl (connect_agents (length (po_agents s))) (po_agents s ++ [create_agent r])
    (po_registered s) !! i) ↔ is_Some (po_agents s !! i) ∨ i = length (po_agents s)) as Hex.
  { intros i. rewrite !lookup_lt_is_Some, Hlen, length_app. cbn. lia. }
  assert (∀ i, i ∈ emplace (length (po_agents s)) (po_registered s) ↔
    i = length (po_agents s) ∨ i ∈ po_registered s) as Hin.
  { intros i. rewrite emplace_perm. apply elem_of_cons. }
  split; cbn [po_registered po_agents po_sent].
  - rewrite emplace_perm. constructor; [|done]. intros [x Hx]%Ha. apply lookup_lt_Some in Hx. lia.
  - intros i [->|Hi]%Hin; apply Hex; auto.
  - intros i [Hi| ->]%Hex; [|left; apply Hin; by left].
    destruct (Hw i Hi); [left; apply Hin; by right|by right].
  - intros i. rewrite Hflag. unfold is_terminated, agent_is. intros Ht. apply (Hf i).
    unfold is_terminated, agent_is. destruct (decide (i < length (po_agents s))%nat) as [Hi|Hi].
    + by rewrite lookup_app_l in Ht.
    + rewrite lookup_app_r in Ht by lia. by destruct (i - length (po_agents s))%nat as [|[]].
Qed.

Lemma search_served s found s' :
  po_cached s = false → containsValidPipeline s = Ok (found, s') →
  po_agents s' = po_agents s ∧ po_sent s' = po_sent s ∧
  if (found : bool) then NoDup (po_pipeline s') ∧ (∀ i, i ∈ po_pipeline s' → is_Some (po_agents s !! i)) ∧
    po_registered s' = filter (λ i, i ∉ po_pipeline s') (po_registered s)
  else po_registered s' = po_registered s ∧ po_pipeline s' = po_pipeline s.
Proof.
  intros Hc. unfold containsValidPipeline. rewrite (bind_run m_get _ s s s) by done. rewrite Hc.
  destruct (List.find _ _) as [i|]; [|by intros [= <- <-]].
  intros E. apply bind_Ok_inv in E as (l & s1 & E1 & E). unfold m_lift in E1.
  destruct (walk_outputs _ _ _) as [l'|] eqn:W; [|done]. injection E1 as -> ->.
  destruct (walk_nodup _ _ _ _ W) as [Hnd Hin].
  destruct (last l) as [b|]; [|done]. destruct (agent_is _ _ _); by injection E as <- <-.
Qed.

Lemma release_run s :
  (∀ i, i ∈ po_registered s → is_Some (po_agents s !! i)) →
  releaseUnusedAgents s
  = Ok (tt, Pool (terminate (po_registered s) (po_agents s)) [] (po_pipeline s) (po_cached s)
                 (po_sent s ++ refusals (po_agents s) (po_registered s))).
Proof.
  intros Ha. unfold releaseUnusedAgents. rewrite (bind_run m_get _ s s s) by done.
  by erewrite (bind_run (send_all _)); [|apply send_all_run].
Qed.

Lemma refusals_answer s s' js i :
  (∃ l, po_sent s' = po_sent s ++ refusals (po_agents s) js ++ l) → i ∈ js →
  is_Some (po_agents s !! i) → answered s' i.
Proof.
  intros [l E] Hi [a Ha]. exists (refusal a). rewrite E. apply elem_of_app. right.
  apply elem_of_app. left. unfold refusals. apply list_elem_of_omap. exists i. by rewrite Ha.
Qed.
End Answers.

(** Splits a hypothesis that a sequence of statements returned. *)
Ltac inv_exc H :=
  repeat match type of H with
  | mbind _ _ _ = Done _ _ =>
      let a := fresh "a" in let d := fresh "d" in let E := fresh "E" in
      apply e_bind_Done_inv in H as (a & d & E & H)
  end.

Section Serving.
Context `{HashOrder} `{Lmdb} `{Machine} `{Device} `{OptionParser} `{Host} {B : Type}.
Context (mounts : list (cstr * option nat)).
Context (formatted : Runner.ProfilingResults → bool → bool → string).
Abbreviation driver := (AgentContexts.driver (B := B)).
Implicit Types (d : driver) (i : nat) (s : pool) (reg : registry).

Definition nobody : nat → Prop := λ _, False.

Lemma answered_advances T d d' i :
  advances T d d' → answered (dr_pool d) i → answered (dr_pool d') i.
Proof.
  intros [_ _ _ [l E] _] [r Hr]. exists r. rewrite E. apply elem_of_app. by left.
Qed.

Lemma advances_weaken T T' d d' :
  (∀ i, T i → T' i) → advances T d d' → advances T' d d'.
Proof. intros HT [F1 F2 F3 F4 F5]. split; try done. intros i [?|?]%F5; auto. Qed.

Lemma accept_all_answers js : ∀ d d',
  accept_all js d = Done tt d' → ∀ i, i ∈ js → answered (dr_pool d') i.
Proof.
  induction js as [|j js IH]; intros d d' E i Hi; [by apply elem_of_nil in Hi|].
  cbn [accept_all] in E. inv_exc E.
  apply elem_of_cons in Hi as [->|Hi]; [|by eapply IH].
  pose proof (keeps_accept nobody js d1) as Hk. destruct a0. rewrite E in Hk.
  apply (answered_advances nobody d1 d' j Hk). injection E1 as <-.
  eexists. cbn. apply elem_of_app. right. by left.
Qed.

Lemma configure_answers reg agents d p d' :
  configure mounts reg agents d = Done p d' → answered (dr_pool d') (cp_dataSinkAgent p).
Proof.
  intros E. unfold configure in E. inv_exc E. injection E as <- <-. cbn [cp_dataSinkAgent].
  match goal with E : accept_all ?l _ = Done ?u _ |- _ => destruct u; apply (accept_all_answers l _ _ E) end.
  match goal with E : e_deref (last ?l) _ = Done ?x _ |- ?x ∈ ?l =>
    destruct (last l) eqn:El; [|done]; injection E as <- <-;
    apply last_Some in El as [l' ->]; apply elem_of_app; right; by left end.
Qed.

(** Whatever the outcome of the pipeline, who is marked was answered. *)
Lemma try_advances reg agents fuel d d' :
  e_try (p ← configure mounts reg agents; run formatted fuel p) d = Done tt d' →
  advances (answered (dr_pool d')) d d'.
Proof.
  assert (∀ d0 d1 e d', advances (answered (dr_pool d1)) d0 d1 →
    match e with
    | ClientError i what => update_agent i (setError what) d1
    | RuntimeError _ => Done tt d1
    end = Done tt d' → advances (answered (dr_pool d')) d0 d') as Hcatch.
  { intros d0 d1 e d2 Hadv. destruct e as [what|i what]; intros E.
    - by injection E as <-.
    - pose proof (keeps_update (B := B) nobody i (setError what) (λ _, eq_refl) d1) as Hk.
      rewrite E in Hk. etransitivity; [|by apply (advances_weaken nobody)].
      eapply advances_weaken; [|exact Hadv]. intros j. by apply (answered_advances nobody). }
  unfold e_try, mbind, exc_bind. pose proof (keeps_configure mounts nobody reg agents d) as Hconf.
  destruct (configure mounts reg agents d) as [p d1|e d1|f] eqn:Ec; [| |done].
  - pose proof (configure_answers _ _ _ _ _ Ec) as Hsink.
    pose proof (keeps_run formatted (λ i, i = cp_dataSinkAgent p) fuel p eq_refl d1) as Hrun.
    assert (∀ d2, advances (λ i, i = cp_dataSinkAgent p) d1 d2 → advances (answered (dr_pool d2)) d d2) as Hall.
    { intros d2 Hadv. etransitivity; [by apply (advances_weaken nobody)|].
      eapply advances_weaken; [|exact Hadv]. intros i ->. by eapply answered_advances. }
    destruct (run formatted fuel p d1) as [u d2|e d2|f]; [| |done].
    + intros E. injection E as _ <-. by apply Hall.
    + intros E. apply (Hcatch d d2 e); [by apply Hall|]. by destruct e.
  - intros E. apply (Hcatch d d1 e); [by apply (advances_weaken nobody)|]. by destruct e.
Qed.

Lemma served_advances T d d' :
  advances T d d' → (∀ i, T i → answered (dr_pool d') i) → served (dr_pool d) → served (dr_pool d').
Proof.
  intros Hadv HT [Hnd Ha Hw Hf].
  assert (∀ i, is_Some (po_agents (dr_pool d') !! i) ↔ is_Some (po_agents (dr_pool d) !! i)) as Hex.
  { intros i. rewrite !lookup_lt_is_Some. pose proof (adv_length _ _ _ Hadv) as E.
    unfold agents_of_driver in E. by rewrite E. }
  split.
  - by rewrite (adv_registered _ _ _ Hadv).
  - intros i. rewrite (adv_registered _ _ _ Hadv), Hex. auto.
  - intros i. rewrite (adv_registered _ _ _ Hadv), Hex. intros [?|?]%Hw; [by left|].
    right. by eapply answered_advances.
  - intros i [Hi|Hi]%(adv_terminated _ _ _ Hadv); [|by apply HT].
    eapply answered_advances; [exact Hadv|]. by apply Hf.
Qed.

Lemma reset_served s :
  NoDup (po_pipeline s) → (∀ i, i ∈ po_pipeline s → is_Some (po_agents s !! i)) →
  served (Pool (po_agents s) (po_pipeline s ++ po_registered s) [] false (po_sent s)) →
  ∃ s', reset s = Ok (tt, s') ∧ served s' ∧ po_pipeline s' = [].
Proof.
  intros Hnd Hp [_ Ha Hw Hf]. cbn [po_registered po_agents po_sent] in Ha, Hw, Hf.
  destruct (reset_run s) as (A' & E & Hlen & HA); [by split|].
  eexists. split; [exact E|]. split; [|done].
  set (refused := List.filter _ _ ++ po_registered s) in *.
  assert (∀ i, i ∈ po_pipeline s ++ po_registered s → answered
    (Pool A' [] [] (po_cached s) (po_sent s ++ refusals (po_agents s) refused)) i) as Hall.
  { intros i Hi. destruct (is_terminated (po_agents s) i) eqn:Et.
    - destruct (Hf i Et) as [r Hr]. exists r. cbn. apply elem_of_app. by left.
    - apply (refusals_answer s _ refused); [by exists []; rewrite app_nil_r| |by apply Ha].
      unfold refused. apply elem_of_app. apply elem_of_app in Hi as [Hi|Hi]; [left|by right].
      rewrite list_elem_of_In, filter_In, <-list_elem_of_In. by rewrite Et. }
  split; cbn [po_registered po_agents po_sent]; [constructor|by intros i ?%elem_of_nil| |].
  - intros i Hi. right. rewrite HA in Hi.
    assert (is_Some (po_agents s !! i)) as Hi' by (case_decide; [by apply fmap_is_Some in Hi|done]).
    destruct (Hw i Hi') as [?|[r Hr]]; [by apply Hall|]. exists r. cbn. apply elem_of_app. by left.
  - intros i Hi. destruct (decide (i ∈ po_pipeline s ++ po_registered s)) as [Hin|Hin]; [by apply Hall|].
    unfold is_terminated, agent_is in Hi. rewrite HA, decide_False in Hi by done.
    destruct (Hf i) as [r Hr]; [done|]. exists r. cbn. apply elem_of_app. by left.
Qed.

Lemma on_pool_run {A} (m : M pool A) d a s :
  m (dr_pool d) = Ok (a, s) → on_pool m d = Done a (with_pool (B := B) s d).
Proof. unfold on_pool, e_part. by intros ->. Qed.

Lemma on_pool_inv {A} (m : M pool A) d :
  match on_pool m d with
  | Done a d' => m (dr_pool d) = Ok (a, dr_pool (B := B) d')
  | Thrown _ d' => d' = d ∧ ∃ what, m (dr_pool d) = Fault (Throw what)
  | Stuck _ => True
  end.
Proof. unfold on_pool, e_part. destruct (m (dr_pool d)) as [[]|[]]; eauto. Qed.

Lemma walk_never_throws A : ∀ fuel o what, walk_outputs fuel A o ≠ Fault (Throw what).
Proof.
  induction fuel as [|fuel IH]; intros [i|] what; cbn [walk_outputs]; try done.
  destruct (A !! i) as [a|]; [|done]. destruct (isOutputAgent a); [done|].
  specialize (IH (ag_outputAgent a) what). by destruct (walk_outputs fuel A _) as [|[]].
Qed.

Lemma search_never_throws s what : containsValidPipeline s ≠ Fault (Throw what).
Proof.
  unfold containsValidPipeline. rewrite (bind_run m_get _ s s s) by done.
  destruct (po_cached s); [done|]. destruct (List.find _ _) as [i|]; [|done].
  pose proof (walk_never_throws (po_agents s) (length (po_agents s)) (Some i) what) as Hw.
  unfold mbind, M_bind, m_lift. destruct (walk_outputs _ _ _) as [l|[]]; try done; [|congruence].
  destruct (last l); [|done]. by destruct (agent_is _ _ _).
Qed.

(** From a pipeline found to an idle pool. *)
Lemma pipeline_served fuel reg d :
  served (Pool (po_agents (dr_pool d)) (po_pipeline (dr_pool d) ++ po_registered (dr_pool d)) []
            false (po_sent (dr_pool d))) →
  match (let pipeline := po_pipeline (dr_pool d) in
         _ ← on_pool releaseUnusedAgents;
         _ ← e_try (p ← configure mounts reg pipeline; run formatted fuel p);
         on_pool reset) d with
  | Done _ d' => served (dr_pool d') ∧ po_pipeline (dr_pool d') = []
  | Thrown _ _ => False
  | Stuck _ => True
  end.
Proof.
  intros [Hnd Ha Hw Hf]. cbn [po_registered po_agents po_sent] in Hnd, Ha, Hw, Hf. cbn zeta.
  apply NoDup_app in Hnd as (Hndp & _ & _).
  erewrite e_bind_run; [|apply on_pool_run, release_run; intros i Hi; apply Ha, elem_of_app; by right].
  set (d1 := with_pool _ d).
  assert (served (Pool (po_agents (dr_pool d1)) (po_pipeline (dr_pool d)) [] false (po_sent (dr_pool d1)))) as Hs1.
  { assert (∀ i, is_Some (terminate (po_registered (dr_pool d)) (po_agents (dr_pool d)) !! i) ↔
      is_Some (po_agents (dr_pool d) !! i)) as Hex
      by (intros i; by rewrite !lookup_lt_is_Some, length_terminate).
    split; cbn [po_registered po_agents po_sent d1 with_pool dr_pool]; [done| | |].
    - intros i Hi. apply Hex, Ha, elem_of_app. by left.
    - intros i Hi%Hex. destruct (Hw i Hi) as [[Hp|Hr]%elem_of_app|[r Hr]]; [by left| |].
      + right. by eapply refusals_answer; [exists []; cbn; by rewrite app_nil_r| |].
      + right. exists r. cbn. apply elem_of_app. by left.
    - intros i. unfold is_terminated, agent_is. rewrite terminate_lookup. case_decide as Hi.
      + intros _. eapply refusals_answer; [exists []; cbn; by rewrite app_nil_r|done|].
        apply Ha, elem_of_app. by right.
      + intros Ht. destruct (Hf i Ht) as [r Hr]. exists r. cbn. apply elem_of_app. by left. }
  match goal with |- context [e_try ?m] => destruct (e_try m d1) as [[] d2|e d2|f] eqn:Et end.
  - rewrite (e_bind_run _ _ _ _ _ Et). pose proof (try_advances _ _ _ _ _ Et) as Hadv.
    assert (served (Pool (po_agents (dr_pool d2)) (po_pipeline (dr_pool d2) ++ po_registered (dr_pool d2))
      [] false (po_sent (dr_pool d2)))) as Hs2.
    { rewrite (adv_registered _ _ _ Hadv), (adv_pipeline _ _ _ Hadv). cbn [d1 with_pool dr_pool po_registered po_pipeline].
      rewrite app_nil_r.
      apply (served_advances (answered (dr_pool d2))
        (with_pool (Pool (po_agents (dr_pool d1)) (po_pipeline (dr_pool d)) [] false (po_sent (dr_pool d1))) d)
        (with_pool (Pool (po_agents (dr_pool d2)) (po_pipeline (dr_pool d)) [] false (po_sent (dr_pool d2))) d));
        [|done|done].
      destruct Hadv. by split. }
    destruct (reset_served (dr_pool d2)) as (s' & E & Hs & Hp); [| |done|].
    + by rewrite (adv_pipeline _ _ _ Hadv).
    + intros i Hi. destruct Hs2 as [_ Ha2 _ _]. apply Ha2, elem_of_app. by left.
    + by rewrite (on_pool_run _ _ _ _ E).
  - exfalso. unfold e_try in Et.
    match type of Et with match ?r with _ => _ end = _ => destruct r as [|[]|] end;
      try done; by unfold update_agent, e_modify in Et.
  - unfold mbind, exc_bind in Et |- *. by rewrite Et.
Qed.

Lemma process_served fuel reg c d :
  served (dr_pool d) → po_pipeline (dr_pool d) = [] →
  match processRequest mounts formatted fuel reg c d with
  | Done _ d' => served (dr_pool d') ∧ po_pipeline (dr_pool d') = []
  | Thrown _ _ => False
  | Stuck _ => True
  end.
Proof.
  intros Hs Hp. unfold processRequest. pose proof (on_pool_inv (registerAgent c) d) as Hreg.
  destruct (on_pool (registerAgent c) d) as [[] d1|e d1|f]; [|by destruct Hreg as [-> _]|done].
  destruct c as [r|]; [|done].
  destruct (register_served _ _ _ Hs Hreg) as (Hs1 & Hp1 & Hc1).
  pose proof (on_pool_inv containsValidPipeline d1) as Hsearch.
  unfold mbind at 1, exc_bind at 1.
  destruct (on_pool containsValidPipeline d1) as [found d2|e d2|f];
    [|by destruct Hsearch as (_ & what & ?%search_never_throws)|done].
  destruct (search_served _ _ _ Hc1 Hsearch) as (HA & Hsent & Hfound).
  destruct found; cbn [negb].
  - destruct Hfound as (Hnd & Hin & Hreg2). destruct Hs1 as [Hnd1 Ha1 Hw1 Hf1].
    rewrite (e_bind_run e_get _ d2 d2 d2) by done. apply pipeline_served.
    rewrite HA, Hsent, Hreg2. split; cbn [po_registered po_agents po_sent].
    + apply NoDup_app. split; [done|]. split; [|by apply NoDup_filter].
      intros i Hi [? _]%list_elem_of_filter. done.
    + intros i [Hi|[_ Hi]%list_elem_of_filter]%elem_of_app; auto.
    + intros i [Hi|[x Hx]]%Hw1; [|right; by exists x]. left. apply elem_of_app.
      destruct (decide (i ∈ po_pipeline (dr_pool d2))); [by left|right]. by apply list_elem_of_filter.
    + intros i [x Hx]%Hf1. by exists x.
  - destruct Hfound as [Hr2 Hp2]. cbn. destruct Hs1 as [Hnd1 Ha1 Hw1 Hf1].
    split; [|by rewrite Hp2, Hp1]. split; rewrite ?HA, ?Hr2; [done|done| |].
    + intros i [Hi|[x Hx]]%Hw1; [by left|right]. exists x. by rewrite Hsent.
    + intros i [x Hx]%Hf1. exists x. by rewrite Hsent.
Qed.

Lemma serve_served fuel reg connections : ∀ d,
  served (dr_pool d) → po_pipeline (dr_pool d) = [] →
  match serve mounts formatted fuel reg connections d with
  | Done _ d' => served (dr_pool d') ∧ po_pipeline (dr_pool d') = []
  | Thrown _ _ => False
  | Stuck _ => True
  end.
Proof.
  induction connections as [|c rest IH]; intros d Hs Hp; [done|]. cbn [serve].
  pose proof (process_served fuel reg c d Hs Hp) as Hone. unfold mbind, exc_bind.
  destruct (processRequest _ _ _ _ c d) as [u d1|e d1|f]; [|done|done].
  destruct Hone. by apply IH.
Qed.

(** however many programs connect, whatever they send and whatever goes
    wrong in a pipeline, the server never throws, and between two connections
    every program that has registered either still waits for the rest of its
    pipeline or has been sent an answer; no pipeline is left behind. *)
Theorem everyone_is_answered fuel reg connections d garbage :
  dr_pool d = new_pool garbage →
  match serve mounts formatted fuel reg connections d with
  | Done _ d' =>
      po_pipeline (dr_pool d') = [] ∧
      ∀ i, (i < length (po_agents (dr_pool d')))%nat →
        i ∈ po_registered (dr_pool d') ∨ answered (dr_pool d') i
  | Thrown _ _ => False
  | Stuck _ => True
  end.
Proof.
  intros Hnew. pose proof (serve_served fuel reg connections d) as Hserve. rewrite Hnew in Hserve.
  specialize (Hserve (new_pool_served garbage) eq_refl).
  destruct (serve _ _ _ _ _ d) as [u d'|e d'|f]; [|done|done]. destruct Hserve as [[_ _ Hw _] Hp].
  split; [done|]. intros i Hi%lookup_lt_is_Some. by apply Hw.
Qed.
End Serving.

(** ** Errors reach the program that caused them *)

Section Errors.
Context `{HashOrder} `{Lmdb} `{Machine} `{Device} `{OptionParser} `{Host} {B : Type}.
Context (mounts : list (cstr * option nat)).
Context (formatted : Runner.ProfilingResults → bool → bool → string).
Abbreviation driver := (AgentContexts.driver (B := B)).
Implicit Types (d : driver) (i : nat) (A : list OperatorAgent) (reg : registry).

(** Nothing was sent, and no agent has a new error or mark. *)
Record untouched d d' : Prop := Untouched {
  un_registered : po_registered (dr_pool d') = po_registered (dr_pool d);
  un_pipeline : po_pipeline (dr_pool d') = po_pipeline (dr_pool d);
  un_sent : po_sent (dr_pool d') = po_sent (dr_pool d);
  un_agents i : (λ a, (ag_error a, ag_terminated a)) <$> po_agents (dr_pool d') !! i
    = (λ a, (ag_error a, ag_terminated a)) <$> po_agents (dr_pool d) !! i;
}.

#[local] Instance untouched_relation : PoolRelation untouched.
Proof.
  split.
  - split; [intros d; by split|]. intros d1 d2 d3 [F1 F2 F3 F4] [I1 I2 I3 I4].
    split; congruence.
  - intros d d' E. split; by rewrite E.
  - intros i f. apply keeps_modify. intros d. split; try done. intros j. cbn.
    destruct (decide (j = i)) as [->|Hj].
    + rewrite list_lookup_alter_eq. by destruct (po_agents (dr_pool d) !! i).
    + by rewrite list_lookup_alter_ne.
Qed.

Lemma accept_all_never_throws js : ∀ d e d', accept_all (B := B) js d ≠ Thrown e d'.
Proof.
  induction js as [|j js IH]; intros d e d'; cbn [accept_all]; [done|].
  unfold get_agent, sendRegistrationResponse, mbind, exc_bind, e_get, e_deref, e_modify.
  destruct (_ !! j); [apply IH|done].
Qed.

(** An error of [configure] comes before anybody is told. *)
Lemma configure_throws reg agents d e d' :
  configure mounts reg agents d = Thrown e d' → untouched d d'.
Proof.
  intros E. assert (prepare mounts reg agents d = Thrown e d') as Ep.
  { revert E. unfold configure, prepare, mbind, exc_bind.
    repeat (match goal with |- context [match ?x with Done _ _ => _ | Thrown _ _ => _ | Stuck _ => _ end] =>
      destruct x eqn:? end; try done; try (intros [= -> ->]; reflexivity)). intros _.
    exfalso. by eapply accept_all_never_throws. }
  pose proof (keeps_prepare mounts untouched reg agents d) as Hk. by rewrite Ep in Hk.
Qed.

(** The refusals, with an error for [i]. *)
Definition refusals_with A i what js : list (nat * RegistrationResponse) :=
  omap (λ j, (λ a, (j, refusal (if decide (j = i) then setError what a else a))) <$> A !! j) js.

Lemma refusals_error A A' i what js :
  (∀ j, ag_error <$> A' !! j = ag_error <$> A !! j) →
  refusals (alter (setError what) i A') js = refusals_with A i what js.
Proof.
  intros HA. unfold refusals, refusals_with. induction js as [|j js IH]; cbn; [done|]. rewrite IH.
  specialize (HA j). case_decide as Hj.
  - subst j. rewrite list_lookup_alter_eq. destruct (A' !! i), (A !! i); done.
  - rewrite list_lookup_alter_ne by done. destruct (A' !! j) as [a'|], (A !! j) as [a|]; try done.
    cbn in *. injection HA as HA. unfold refusal. by rewrite HA.
Qed.

(** C32: when building the pipeline fails because of the arguments of one
    agent, that agent is sent its own error, every other agent of the pipeline
    the general one, each exactly once and none an acceptance, and the pool is
    idle again. *)
Theorem client_error_reported fuel reg d d1 i what :
  let pipeline := po_pipeline (dr_pool d) in
  NoDup pipeline → po_registered (dr_pool d) = [] →
  (∀ j, j ∈ pipeline → ag_terminated <$> po_agents (dr_pool d) !! j = Some false) →
  configure mounts reg pipeline d = Thrown (ClientError i what) d1 →
  ∃ d', (_ ← e_try (p ← configure mounts reg pipeline; run formatted fuel p); on_pool reset) d
        = Done tt d' ∧
    po_sent (dr_pool d')
    = po_sent (dr_pool d) ++ refusals_with (po_agents (dr_pool d)) i what pipeline ∧
    po_pipeline (dr_pool d') = [] ∧ po_registered (dr_pool d') = [].
Proof.
  intros pipeline Hnd Hreg Hflags E. destruct (configure_throws _ _ _ _ _ E) as [U1 U2 U3 U4].
  set (d2 := with_pool (set_agents (alter (setError what) i (po_agents (dr_pool d1))) (dr_pool d1)) d1).
  assert (e_try (p ← configure mounts reg pipeline; run formatted fuel p) d = Done tt d2) as Et.
  { unfold e_try, mbind, exc_bind. by rewrite E. }
  rewrite (e_bind_run _ _ _ _ _ Et).
  assert (∀ j, ag_terminated <$> po_agents (dr_pool d2) !! j = ag_terminated <$> po_agents (dr_pool d) !! j) as Hflag.
  { intros j. specialize (U4 j). cbn. destruct (decide (j = i)) as [->|Hj].
    - rewrite list_lookup_alter_eq. destruct (po_agents (dr_pool d1) !! i), (po_agents (dr_pool d) !! i); try done.
      cbn in *. by injection U4 as _ ->.
    - rewrite list_lookup_alter_ne by done.
      destruct (po_agents (dr_pool d1) !! j), (po_agents (dr_pool d) !! j); try done.
      cbn in *. by injection U4 as _ ->. }
  assert (po_pipeline (dr_pool d2) = pipeline) as Hp by exact U2.
  assert (po_registered (dr_pool d2) = []) as Hr by (cbn; congruence).
  destruct (reset_run (dr_pool d2)) as (A' & Er & _).
  { split; [by rewrite Hp|]. rewrite Hp, Hr, app_nil_r. intros j Hj.
    specialize (Hflags j Hj). rewrite <-Hflag in Hflags.
    by destruct (po_agents (dr_pool d2) !! j). }
  rewrite (on_pool_run _ _ _ _ Er). eexists. split; [done|]. cbn [with_pool dr_pool po_sent po_pipeline po_registered].
  split; [|done]. rewrite Hp, Hr, app_nil_r.
  assert (List.filter (λ j, negb (is_terminated (po_agents (dr_pool d2)) j)) pipeline = pipeline) as ->.
  { apply forallb_filter_id, forallb_forall. intros j Hj%list_elem_of_In.
    specialize (Hflags j Hj). rewrite <-Hflag in Hflags. unfold is_terminated, agent_is.
    destruct (po_agents (dr_pool d2) !! j); [|done]. cbn in Hflags. by injection Hflags as ->. }
  cbn [d2 with_pool dr_pool po_sent set_agents po_agents]. rewrite U3. f_equal.
  apply refusals_error. intros j. specialize (U4 j).
  destruct (po_agents (dr_pool d1) !! j), (po_agents (dr_pool d) !! j); try done.
  cbn in *. by injection U4 as -> _.
Qed.
End Errors.

(** ** The results of the agents in the middle *)

Section Idle.
Context `{HashOrder} `{Lmdb} `{Machine} `{Device} `{OptionParser} `{Host} {B : Type}.
Abbreviation driver := (AgentContexts.driver (B := B)).
Implicit Types (d : driver) (i : nat) (ops : list Pipeline.OperatorContext).

Definition result_for (x : nat * Pipeline.OperatorContext) : nat * ProcessingResponse :=
  (x.1, MkProcessingResponse 0 true (Some (Pipeline.oc_profilingResults x.2))).

Lemma zip_short {A A'} (l : list A) (k k' : list A') :
  (length l ≤ length k)%nat → zip l (k ++ k') = zip l k.
Proof.
  revert k. induction l as [|x l IH]; intros [|y k] Hl; cbn in Hl; try done; [lia|].
  cbn. f_equal. apply IH. lia.
Qed.

Lemma respond_idle_run p js : ∀ ops d,
  (∀ i, i ∈ js → is_end p i = false) → (length js ≤ length ops)%nat →
  ∃ d', respond_idle (B := B) p (js ++ [cp_dataSinkAgent p]) ops d = Done tt d' ∧
    dr_responses d' = dr_responses d ++ (result_for <$> zip js ops).
Proof.
  assert (is_end p (cp_dataSinkAgent p) = true) as Hk
    by (unfold is_end; by rewrite (bool_decide_eq_true_2 (cp_dataSinkAgent p = cp_dataSinkAgent p)), orb_true_r).
  induction js as [|j js IH]; intros ops d Hjs Hlen; cbn [respond_idle app].
  { rewrite Hk. exists d. split; [done|]. cbn. by rewrite app_nil_r. }
  rewrite (Hjs j) by (by left). destruct ops as [|o ops]; [cbn in Hlen; lia|].
  set (d1 := Driver (dr_pool d) (dr_pipeline d) (dr_requests d)
    (dr_responses d ++ [result_for (j, o)]) (dr_buffers d) (dr_storages d)).
  rewrite (e_bind_run _ _ d tt d1) by done.
  destruct (IH ops d1) as (d' & E & Hd'); [intros i Hi; apply Hjs; by right|cbn in Hlen; lia|].
  exists d'. split; [done|]. rewrite Hd'. cbn [zip_with fmap list_fmap d1 dr_responses].
  by rewrite <-app_assoc.
Qed.

(** when the pipeline starts with a user operator, every agent in the
    middle is sent the results of the operator before its own: the loop that
    answers the agents skips the first agent but not the first operator. *)
Theorem idle_results_shifted p (js : list nat) (first final : Pipeline.OperatorContext) ops d :
  (∀ i, i ∈ js → is_end p i = false) → length js = length ops →
  cp_operatorAgents p = cp_dataSourceAgent p :: js ++ [cp_dataSinkAgent p] →
  ∃ d', respond_idle p (cp_operatorAgents p) (first :: ops ++ [final]) d = Done tt d' ∧
    dr_responses d' = dr_responses d ++ (result_for <$> zip js (first :: ops)).
Proof.
  intros Hjs Hlen ->. cbn [respond_idle].
  assert (is_end p (cp_dataSourceAgent p) = true) as ->
    by (unfold is_end; by rewrite (bool_decide_eq_true_2 (cp_dataSourceAgent p = cp_dataSourceAgent p))).
  destruct (respond_idle_run p js (first :: ops ++ [final]) d Hjs) as (d' & E & Hd').
  { cbn. rewrite length_app. lia. }
  exists d'. split; [done|]. rewrite Hd', app_comm_cons, zip_short by (cbn; lia). done.
Qed.
End Idle.
End ServerFacts.

(** ** Instances *)

Module Demo.
Import Agents AgentContexts Server AgentFacts ServerFacts.

(** New agents come first in the set. *)
#[local] Instance order : HashOrder.
Proof. refine {| emplace := cons |}. done. Defined.

#[local] Instance machine : Machine :=
  {| stack_limit := 65536; garbage := λ _, 0; uninit := λ _, 0 |}.

(** A card that does every job and passes the data on as it is. *)
#[local] Instance card : Device :=
  {| device_freed := Operator.intact_memory; device := λ _ j, Some (MkJobResult (a_size (hj_source j)) 0 []); snap_malloc_byte := λ _, 0 |}.

(** Programs without options but "--help". *)
#[local] Instance parser : OptionParser := {|
  cx_parse := λ _ args, Some (λ key,
    if decide (key = "help") then Some (CvBool (bool_decide ("--help" ∈ args)))
    else if decide (key = "profile") then Some (CvBool false)
    else if decide (key = "input") then Some (CvString "")
    else if decide (key = "length") then Some (CvUint 4096)
    else None);
  cx_help := λ _, "Usage";
|}.

#[local] Instance host : Host := {|
  realpath := λ _, None;
  read_file := λ _ _, None;
  shared_buffer := λ k, Some (Messages.MkBuffer "/tmp/metal-mmap" (Z.of_nat k * 2 ^ 28) false);
|}.

Definition program (pid input output : Z) (type : string) (args : list string) :
    RegistrationRequest :=
  MkRegistrationRequest pid "/" "/mnt" type input output args None None.

Definition changecase : registry :=
  [("changecase", Spec "changecase" "" 1 false []); ("blowfish", Spec "blowfish" "" 2 false [])].

(** The driver after start-up; every program asks once. *)
Definition started : AgentContexts.driver (B := unit) :=
  Driver (new_pool true) (Pipeline.State [] [] false) (λ _, [MkProcessingRequest 100 true]) [] 0 [].

Definition serve_all (connections : list RegistrationRequest) :
    outcome (AgentContexts.driver (B := unit)) unit :=
  serve [] (λ _ _ _, "profile") 3 changecase (Some <$> connections) started.

(** What is observed of a run. *)
Definition observed {A} (r : outcome (AgentContexts.driver (B := unit)) A) :
    option (list (nat * bool) * list nat * list (nat * ProcessingResponse)) :=
  match r with
  | Done _ d => Some ((λ x, (x.1, rs_valid x.2)) <$> po_sent (dr_pool d),
                      po_registered (dr_pool d), dr_responses d)
  | _ => None
  end.
End Demo.

Section Witnesses.
Import Agents AgentContexts Server AgentFacts ServerFacts.
#[local] Existing Instance Demo.order.
#[local] Existing Instance Demo.machine.
#[local] Existing Instance Demo.card.
#[local] Existing Instance Demo.parser.
#[local] Existing Instance Demo.host.

Definition piped (args : list string) : list RegistrationRequest :=
  [Demo.program 12 11 0 "changecase" args; Demo.program 11 0 12 "datagen" []].

Lemma registration_any_order_witness :
  let rs := [Demo.program 11 0 12 "datagen" []; Demo.program 12 11 13 "changecase" [];
             Demo.program 13 12 0 "blowfish" []] in
  let l := [Demo.program 12 11 13 "changecase" []; Demo.program 13 12 0 "blowfish" [];
            Demo.program 11 0 12 "datagen" []] in
  l ≡ₚ rs ∧
  ∃ s, hello_all l (new_pool true) = Ok ([false; false; true], s) ∧
    po_registered s = [] ∧ po_sent s = po_sent (new_pool true) ∧
    (λ i, setOutputAgent None <$> po_agents s !! i) <$> po_pipeline s = Some ∘ create_agent <$> rs.
Proof.
  intros rs l. assert (l ≡ₚ rs) as Hperm by (apply (bool_decide_unpack _); vm_compute; exact I).
  split; [exact Hperm|]. apply (registration_any_order rs l (new_pool true)); [|exact Hperm|reflexivity].
  split; try done.
  - apply (bool_decide_unpack _). vm_compute. exact I.
  - intros r Hr. unfold rs in Hr. rewrite !elem_of_cons in Hr.
    by destruct Hr as [->|[->|[->|?%elem_of_nil]]].
  - intros r Hr. by injection Hr as <-.
  - intros r Hr. by injection Hr as <-.
  - intros k r r' Hk Hk'. destruct k as [|[|[|k]]]; cbn in Hk, Hk'; by simplify_eq.
Defined.

Lemma everyone_is_answered_witness :
  Demo.observed (Demo.serve_all (piped [])) ≠ None ∧
  match Demo.serve_all (piped []) with
  | Done _ d' =>
      po_pipeline (dr_pool d') = [] ∧
      ∀ i, (i < length (po_agents (dr_pool d')))%nat →
        i ∈ po_registered (dr_pool d') ∨ ∃ response, (i, response) ∈ po_sent (dr_pool d')
  | Thrown _ _ => False
  | Stuck _ => True
  end.
Proof.
  split; [by vm_compute|].
  apply (everyone_is_answered [] (λ _ _ _, "profile") 3 Demo.changecase (Some <$> piped [])
    Demo.started true). reflexivity.
Defined.

(** after a run that succeeded, a program that was accepted and is not
    the last of its pipeline is sent a refusal as well: only the agent of the
    sink is marked as terminated before the pool is reset. *)
Theorem source_refused_after_success :
  Demo.observed (Demo.serve_all (piped []))
  = Some ([(1%nat, true); (0%nat, true); (1%nat, false)], [],
          [(1%nat, MkProcessingResponse 0 true (Some ""));
           (0%nat, MkProcessingResponse 4096 true (Some ""))]).
Proof. vm_compute. reflexivity. Qed.

(** The driver when the pipeline of [piped] has been found. *)
Definition found (args : list string) : AgentContexts.driver (B := unit) :=
  match hello_all (piped args) (new_pool true) with
  | Ok (_, s) => with_pool s Demo.started
  | Fault _ => Demo.started
  end.

Lemma client_error_reported_witness :
  let d := found ["--help"] in
  let pipeline := po_pipeline (dr_pool d) in
  pipeline = [1%nat; 0%nat] ∧
  ∃ d', (_ ← e_try (p ← configure [] Demo.changecase pipeline; run (λ _ _ _, "profile") 3 p);
         on_pool reset) d = Done tt d' ∧
    po_sent (dr_pool d')
    = po_sent (dr_pool d) ++ refusals_with (po_agents (dr_pool d)) 0 "Usage" pipeline ∧
    po_pipeline (dr_pool d') = [] ∧ po_registered (dr_pool d') = [].
Proof.
  intros d pipeline. split; [by vm_compute|].
  set (d1 := match configure [] Demo.changecase pipeline d with Thrown _ d1 => d1 | _ => d end).
  apply (client_error_reported [] (λ _ _ _, "profile") 3 Demo.changecase d d1 0 "Usage").
  - apply (bool_decide_unpack _). by vm_compute.
  - by vm_compute.
  - intros j Hj. assert (j = 1%nat ∨ j = 0%nat) as [->| ->]; [|by vm_compute|by vm_compute].
    change (po_pipeline (dr_pool d)) with [1%nat; 0%nat] in Hj.
    rewrite !elem_of_cons in Hj. destruct Hj as [?|[?|?%elem_of_nil]]; tauto.
  - by vm_compute.
Defined.

Lemma idle_results_shifted_witness :
  let context r := Pipeline.MkOperatorContext (Operator.create (Spec "" "" 1 false [])) false true r in
  ∃ d', respond_idle (MkConfiguredPipeline 0 2 [0; 1; 2]%nat) [0; 1; 2]%nat
          [context "first"; context "second"; context "third"] Demo.started = Done tt d' ∧
    dr_responses d' = [(1%nat, MkProcessingResponse 0 true (Some "first"))].
Proof.
  intros context.
  destruct (idle_results_shifted (MkConfiguredPipeline 0 2 [0; 1; 2]%nat) [1%nat] (context "first")
    (context "third") [context "second"] Demo.started) as (d' & E & Hd').
  - intros i ->%list_elem_of_singleton. reflexivity.
  - reflexivity.
  - reflexivity.
  - exists d'. split; [exact E|]. rewrite Hd'. reflexivity.
Defined.
End Witnesses.
