(* ===== verification/EntryProofs.v ===== *)
(** * The driver from its command line to its connections

    Facts about [Entry]: the functions that FUSE calls reach the handlers that were
    added; the options that come last count; every program that connects and says
    what it wants is answered, whatever else arrives. *)
From S2P Require Import Prelude Lmdb Structs Dirent Inode Path Metal Fuse FuseProofs Endian Messages Sockets.
From S2P Require Import Extmap OpMem Jobs Pipeline Runner Manifest Agents AgentContexts DataContexts Driver Main.
From S2P Require Import MainProofs ServerProofs Entry.

(** ** The functions that FUSE calls *)

Module ContextFacts.
Import Context FuseFacts.

Section Context.
Context {W : Type}.
Implicit Types (l : list (cstr * fuse_handler W)) (s : statics (W := W)).

Lemma add_all_run l hs table :
  add_all l (Statics (Some hs) table)
  = Ok (Statics (Some (foldl (λ hs '(prefix, h), CombinedFuse.addHandler hs prefix h) hs l)) table).
Proof.
  revert hs. induction l as [|[prefix h] l IH]; intros hs; [done|]. cbn [add_all foldl].
  unfold Context.addHandler. cbn [when_null handler mbind result_bind]. apply IH.
Qed.

(** The functions that were assigned call the combined handler. *)
Lemma calls_created s hs : calls (ops (createHandler s)) (Some hs) = Some (CombinedFuse.CombinedFuseHandler hs).
Proof. reflexivity. Qed.

(** Whatever is added, in whatever order, the table is complete and its functions
    are those of the combined handler. *)
Lemma added_operations l : ∃ s table s',
  add_all l initial = Ok s ∧ fuseOperations s = (table, s') ∧
  calls table (handler s') = Some (CombinedFuse.CombinedFuseHandler (register l)) ∧
  ∀ path, Context.resolveHandler s path = match CombinedFuse.resolveHandler (register l) path with
    | Some (prefix, h) => (prefix, Some h) | None => ([], None) end.
Proof.
  exists (if decide (l = []) then initial else Statics (Some (register l)) (ops (createHandler initial))).
  exists (ops (createHandler initial)), (Statics (Some (register l)) (ops (createHandler initial))).
  cbn [handler]. split; [|split; [by destruct l|split; [apply calls_created|by destruct l]]].
  destruct l as [|[prefix h] l]; [done|]. rewrite decide_False by done. cbn [add_all]. unfold Context.addHandler.
  cbn [when_null handler initial createHandler mbind result_bind]. apply add_all_run.
Qed.

(** The handler of a prefix: the one that was added first for it. *)
Fixpoint added_first (prefix : cstr) l : option (fuse_handler W) :=
  match l with
  | [] => None
  | (p, h) :: l' => if decide (p = prefix) then Some h else added_first prefix l'
  end.

Lemma added_first_None prefix l : (∀ h, (prefix, h) ∉ l) → added_first prefix l = None.
Proof.
  induction l as [|[p h] l IH]; intros Hn; [done|]. cbn [added_first].
  case_decide as E; [subst; by destruct (Hn h); left|]. apply IH. intros h' ?. apply (Hn h'). by right.
Qed.

Lemma addHandler_first hs prefix h p : ordered hs →
  added_first p (CombinedFuse.addHandler hs prefix h)
  = match added_first p hs with Some h' => Some h' | None => if decide (prefix = p) then Some h else None end.
Proof.
  induction hs as [|[q h'] hs IH]; cbn [CombinedFuse.addHandler ordered]; [done|]. intros [Hall Hord].
  destruct (memcmp prefix q) eqn:E; cbn [added_first].
  - apply memcmp_eq in E as ->. repeat case_decide; try done. by destruct (added_first p hs).
  - assert (prefix ≠ q) by (intros ->; by rewrite memcmp_refl in E).
    destruct (decide (prefix = p)) as [->|E1];
      [|by destruct (if decide (q = p) then Some h' else added_first p hs)].
    rewrite decide_False by done. rewrite added_first_None; [done|].
    intros h2 Hin. pose proof (proj1 (Forall_forall _ _) Hall _ Hin) as Hlt.
    unfold key_before, mem_lt in Hlt. cbn [fst] in Hlt. by rewrite memcmp_antisym, E in Hlt.
  - destruct (decide (q = p)); [done|]. by apply IH.
Qed.

Lemma register_first l p : added_first p (register l) = added_first p l.
Proof.
  unfold register. assert (∀ hs, ordered hs →
    added_first p (foldl (λ hs '(prefix, h), CombinedFuse.addHandler hs prefix h) hs l)
    = match added_first p hs with Some h => Some h | None => added_first p l end) as Hl.
  { induction l as [|[q h] l IH]; intros hs Ho; cbn [foldl added_first]; [by destruct (added_first p hs)|].
    rewrite IH by by apply addHandler_ordered. rewrite addHandler_first by done.
    destruct (added_first p hs); [done|]. by case_decide. }
  by rewrite Hl.
Qed.

Lemma addHandler_keys hs prefix (h : fuse_handler W) p :
  p ∈ (CombinedFuse.addHandler hs prefix h).*1 ↔ p = prefix ∨ p ∈ hs.*1.
Proof.
  induction hs as [|[q h'] hs IH]; cbn [CombinedFuse.addHandler].
  - cbn. rewrite elem_of_cons, !elem_of_nil. tauto.
  - destruct (memcmp prefix q) eqn:E; rewrite !fmap_cons, !elem_of_cons; cbn [fst].
    + apply memcmp_eq in E as ->. tauto.
    + tauto.
    + rewrite IH. tauto.
Qed.

Lemma register_keys l p : p ∈ (register l).*1 ↔ p ∈ l.*1.
Proof.
  unfold register. assert (∀ hs, p ∈ (foldl (λ hs '(prefix, h), CombinedFuse.addHandler hs prefix h) hs l).*1
    ↔ p ∈ l.*1 ∨ p ∈ hs.*1) as Hl.
  { induction l as [|[q h] l IH]; intros hs; cbn [foldl].
    - cbn. rewrite elem_of_nil. tauto.
    - rewrite IH, addHandler_keys, fmap_cons, elem_of_cons. cbn [fst]. tauto. }
  rewrite Hl. cbn. rewrite elem_of_nil. tauto.
Qed.

(** The calls of one handler: what the table does with [path] is what [h] does with
    [rest]. The root is answered by the combined handler, and an empty rest names the
    root of the handler where a directory is listed. *)
Record reaches_handler (table h : fuse_handler W) (path rest : cstr) : Prop := {
  rh_chown uid gid : fuse_chown table path uid gid = fuse_chown h rest uid gid;
  rh_create now mode fi : fuse_create table now path mode fi = fuse_create h now rest mode fi;
  rh_getattr stbuf : path ≠ str "/" → fuse_getattr table path stbuf = fuse_getattr h rest stbuf;
  rh_mkdir now mode : fuse_mkdir table now path mode = fuse_mkdir h now rest mode;
  rh_open fi : fuse_open table path fi = fuse_open h rest fi;
  rh_read buf size offset fi : fuse_read table path buf size offset fi = fuse_read h rest buf size offset fi;
  rh_readdir buf : fuse_readdir table path buf = fuse_readdir h (if decide (rest = []) then str "/" else rest) buf;
  rh_readlink buf size : fuse_readlink table path buf size = fuse_readlink h rest buf size;
  rh_release fi : fuse_release table path fi = fuse_release h rest fi;
  rh_rmdir : fuse_rmdir table path = fuse_rmdir h rest;
  rh_truncate size : fuse_truncate table path size = fuse_truncate h rest size;
  rh_unlink : fuse_unlink table path = fuse_unlink h rest;
  rh_write buf size offset fi : fuse_write table path buf size offset fi = fuse_write h rest buf size offset fi;
}.

Lemma table_reaches hs (h : fuse_handler W) path rest :
  (∀ A (none : A) call, CombinedFuse.dispatch hs path none call = call h rest) →
  reaches_handler (CombinedFuse.CombinedFuseHandler hs) h path rest.
Proof.
  intros Hd. split; intros; cbn -[CombinedFuse.dispatch]; unfold CombinedFuse.combined_chown,
    CombinedFuse.combined_create, CombinedFuse.combined_getattr, CombinedFuse.combined_mkdir,
    CombinedFuse.combined_open, CombinedFuse.combined_read, CombinedFuse.combined_readdir,
    CombinedFuse.combined_readlink, CombinedFuse.combined_release, CombinedFuse.combined_rmdir,
    CombinedFuse.combined_truncate, CombinedFuse.combined_unlink, CombinedFuse.combined_write;
    rewrite ?decide_False by done; by rewrite Hd.
Qed.

Lemma resolve_added hs path p : p ∈ hs.*1 → CombinedFuse.starts_with p path = true →
  ∃ prefix h, CombinedFuse.resolveHandler hs path = Some (prefix, h) ∧ added_first prefix hs = Some h.
Proof.
  induction hs as [|[q h] hs IH]; [by intros ?%elem_of_nil|]. rewrite fmap_cons, elem_of_cons.
  cbn [CombinedFuse.resolveHandler fst added_first]. intros Hin Hp.
  destruct (CombinedFuse.starts_with q path) eqn:Eq; cbn [negb].
  - exists q, h. split; [done|]. by rewrite decide_True.
  - destruct Hin as [->|Hin]; [congruence|]. destruct (IH Hin Hp) as (prefix & h' & Hr & Hf).
    exists prefix, h'. split; [done|]. rewrite decide_False; [done|]. intros ->.
    clear -Hr Eq. induction hs as [|[q' h2] hs IH]; [done|]. cbn [CombinedFuse.resolveHandler] in Hr.
    destruct (CombinedFuse.starts_with q' path) eqn:E; cbn [negb] in Hr; [congruence|by apply IH].
Qed.

(** C35: Whatever handlers are added, in whatever order, the table of functions is
    complete when FUSE gets it. Every path that starts with one of the added prefixes
    belongs to the handler that was added first for the shortest such prefix: every
    other prefix that fits is an extension of that one. Each of the calls for the
    path reaches that handler as the same call for the rest of the path; a rename
    whose target does not start with the same prefix is refused with ENOSYS. *)
Theorem operations_reach_handler l :
  ∃ s table s' fuse, add_all l initial = Ok s ∧ fuseOperations s = (table, s') ∧
    calls table (handler s') = Some fuse ∧
    ∀ path p, p ∈ l.*1 → CombinedFuse.starts_with p path = true →
      ∃ prefix h rest, Context.resolveHandler s path = (prefix, Some h) ∧
        added_first prefix l = Some h ∧ path = prefix ++ rest ∧
        reaches_handler fuse h path rest ∧
        (∀ to_path, fuse_rename fuse path to_path =
           if CombinedFuse.starts_with prefix to_path
           then fuse_rename h rest (drop (length prefix) to_path) else mret (- ENOSYS)) ∧
        ∀ q, q ∈ l.*1 → CombinedFuse.starts_with q path = true → CombinedFuse.starts_with prefix q = true.
Proof.
  destruct (added_operations l) as (s & table & s' & Ha & Hf & Hc & Hres).
  exists s, table, s', (CombinedFuse.CombinedFuseHandler (register l)). do 3 (split; [done|]). intros path p Hin Hp.
  destruct (resolve_added (register l) path p) as (prefix & h & E & Hfirst); [by apply register_keys|done|].
  destruct (resolve_first _ _ _ _ (register_ordered l) E) as (Hpath & Hd & Hshort).
  pose proof Hpath as [rest ->]%starts_with_iff. exists prefix, h, rest.
  rewrite Hres, E, <-register_first. do 3 (split; [done|]). split; [|split].
  - apply table_reaches. intros A none call. by rewrite Hd, drop_app_length.
  - intros to_path. cbn [fuse_rename CombinedFuse.CombinedFuseHandler].
    by rewrite (rename_stays_in_handler _ _ _ _ _ E), drop_app_length.
  - intros q Hq%register_keys Hqp. apply list_elem_of_fmap in Hq as ([q' h2] & -> & Hq).
    by apply (Hshort (q', h2)).
Qed.
End Context.

Lemma operations_reach_handler_witness :
  ∃ s table s' fuse rest, add_all two_handlers initial = Ok s ∧ fuseOperations s = (table, s') ∧
    calls table (handler s') = Some fuse ∧ str "/files/tmp/x" = str "/files" ++ rest ∧
    reaches_handler fuse no_handler (str "/files/tmp/x") rest.
Proof.
  destruct (operations_reach_handler two_handlers) as (s & table & s' & fuse & Ha & Hf & Hc & Hr).
  destruct (Hr (str "/files/tmp/x") (str "/files")) as (prefix & h & rest & Hres & Hfirst & E & Hreach & _).
  - right. by left.
  - reflexivity.
  - exists s, table, s', fuse, rest. do 3 (split; [done|]).
    assert (prefix = str "/files" ∧ h = no_handler) as [-> ->]; [|done].
    vm_compute in Ha. injection Ha as <-. vm_compute in Hres. injection Hres as <- <-. done.
Defined.

(** The handlers that [main] names are added as it adds the names. *)
Lemma install_adds {W} (binary : list Z) (files : filesystem → fuse_handler W) hs prefix m :
  Context.addHandler prefix (make_handler binary files m) (install binary files hs)
  = Ok (install binary files (Main.context_addHandler hs prefix m)).
Proof.
  unfold Context.addHandler, install. cbn [when_null handler ops]. do 3 f_equal. unfold Main.context_addHandler.
  induction hs as [|[p h] hs IH]; [done|]. cbn [fmap list_fmap prod_map CombinedFuse.addHandler id fst snd].
  destruct (memcmp prefix p); cbn [fmap list_fmap prod_map id fst snd]; [done|done|]. by rewrite IH.
Qed.

Lemma length_strncpy n : ∀ s, length (Metal.strncpy n s) = n.
Proof.
  induction n as [|n IH]; intros [|c s]; cbn [Metal.strncpy]; [done|done|cbn; by rewrite IH|].
  destruct (c =? 0); [by rewrite repeat_length|]. cbn. by rewrite IH.
Qed.

(** Reading the link ".hello" gives the name of the socket, as far as the buffer goes. *)
Lemma hello_leads_to_socket {W} (binary : list Z) (files : filesystem → fuse_handler W) c dir name f buf (w : W) :
  (length buf = Z.to_nat FILENAME_MAX)%nat →
  let mounted := install binary files (Main.fpga_handlers c dir name f) in
  ∃ fuse, calls (ops mounted) (handler mounted) = Some fuse ∧
    fuse_readlink fuse (str "/.hello") buf FILENAME_MAX w
    = Ok ((0, Metal.strncpy (Z.to_nat FILENAME_MAX) (str name)), w).
Proof.
  intros Hl mounted. eexists. split; [apply calls_created|]. subst mounted. destruct (MainFacts.fpga_handlers_eq c dir name f) as (dram & nvme & ->).
  cbn -[Z.to_nat FILENAME_MAX Metal.strncpy str length]. unfold CombinedFuse.combined_readlink.
  cbn -[Z.to_nat FILENAME_MAX Metal.strncpy str length drop].
  change (CombinedFuse.starts_with (str "/.hello") (str "/.hello")) with true. cbn [negb].
  rewrite drop_all. unfold SocketFuse.sock_readlink. rewrite decide_True by done.
  unfold Metal.store_prefix, mbind, M_bind, m_lift. rewrite length_strncpy, Hl, Nat.leb_refl.
  by rewrite drop_ge, app_nil_r by lia.
Qed.
End ContextFacts.

(** ** The options *)

Module OptionFacts.
Import Options Listening.

Definition int_field (p : config_field) (c : metal_config) : Z :=
  match p with
  | FCard => mc_card c | FTimeout => mc_timeout c | FInMemory => mc_in_memory c
  | FVerbosity => mc_verbosity c | FMetadataDir => 0
  end.

#[export] Instance config_field_eq_dec : EqDecision config_field.
Proof. solve_decision. Defined.

(** What a match assigns to a number, and the key it calls the function with. *)
Definition sets (p : config_field) (m : nat * parameter) : option Z :=
  match metal_opts !! m.1 with
  | Some (METAL_OPT _ q v) =>
      if decide (q = p) then Some (match m.2 with IntParameter z => z | _ => v end) else None
  | _ => None
  end.

Definition key_of (m : nat * parameter) : option option_key :=
  match metal_opts !! m.1 with Some (FUSE_OPT_KEY _ key) => Some key | _ => None end.

(** The first match with a key ends the process; without one every number is what
    was assigned last. *)
Theorem options_parsed (ms : list (nat * parameter)) (complete : bool) c :
  match omap key_of ms with
  | key :: _ => fuse_opt_loop ms complete c = Exited (metal_opt_proc key)
  | [] =>
      if complete
      then ∃ c', fuse_opt_loop ms complete c = Parsed c' ∧
        ∀ p, p ≠ FMetadataDir → int_field p c' = default (int_field p c) (last (omap (sets p) ms))
      else fuse_opt_loop ms complete c = Failed
  end.
Proof.
  revert c. induction ms as [|[i par] ms IH]; intros c; [by destruct complete; [exists c|]|].
  cbn [fuse_opt_loop omap list_omap]. unfold key_of at 1, sets at 1. cbn [fst snd].
  destruct (metal_opts !! i) as [[t q v|t key]|].
  - specialize (IH (set_field q v par c)). destruct (omap key_of ms); [|done].
    destruct complete; [|done]. destruct IH as (c' & E & Hc). exists c'. split; [done|].
    intros p Hp. rewrite (Hc p Hp).
    assert (int_field p (set_field q v par c) =
      if decide (q = p) then match par with IntParameter z => z | _ => v end else int_field p c) as ->
      by (destruct q, p; try done; by destruct par).
    case_decide; [|done]. rewrite last_cons. by destruct (last _).
  - done.
  - specialize (IH c). destruct (omap key_of ms); [|done]. by destruct complete.
Qed.

(** ** The sockets *)

(** The name of the socket fits its address, and programs find it where they look
    for it: reading the link ".hello" through FUSE gives it. *)
Lemma socket_name_fits `{SocketHostLaws} name : Server_create = Ok name →
  String.length name = 35%nat ∧ server_address name = Ok (str name).
Proof.
  unfold Server_create. destruct (mkdtemp _) as [dir|] eqn:E; [|done]. intros [= <-].
  apply mkdtemp_length in E. cbn in E.
  assert (String.length (dir ++ "/metal.sock")%string = 35%nat) as Hl by (rewrite string_length_app, E; done).
  split; [done|]. unfold server_address, strlen.
  rewrite length_str, Hl. done.
Qed.

(** A host that replaces the last characters by digits. *)
Definition counting_host : SocketHost := {|
  mkdtemp template :=
    if (String.length template <? 6)%nat then None
    else Some (String.substring 0 (String.length template - 6) template ++ "000001")%string;
|}.

Lemma substring_length s : ∀ n, (n ≤ String.length s)%nat → String.length (String.substring 0 n s) = n.
Proof.
  induction s as [|c s IH]; intros [|n] Hn; cbn in *; [done|lia|done|]. by rewrite IH by lia.
Qed.

Lemma counting_host_laws : SocketHostLaws (H := counting_host).
Proof.
  split. intros template dir. cbn [mkdtemp counting_host]. destruct (Nat.ltb_spec (String.length template) 6); [done|].
  intros [= <-]. rewrite string_length_app, substring_length by lia. cbn [String.length]. lia.
Qed.

Example socket_of_counting_host :
  Server_create (H := counting_host) = Ok "/tmp/metal-socket-000001/metal.sock"%string.
Proof. reflexivity. Qed.

(** With a card the process does not end when the file system is unmounted: the
    thread of the server is waited for, and its loop has no end. *)
Lemma driver_ends `{Json} `{Device} c socket s r s' retc :
  Main.main (Some c) socket s = Ok (Main.Mounted r, s') →
  finish r retc = if mc_in_memory c =? 0 then Fault WouldBlock else Ok retc.
Proof.
  unfold Main.main. destruct (mc_metadata_dir c); [|done].
  destruct (mc_in_memory c =? 0); unfold mbind, M_bind.
  - destruct (Manifest.fromFPGA s) as [[factory s1]|]; [|done]. by intros [= <- _].
  - by intros [= <- _].
Qed.
End OptionFacts.

(** ** The connections *)

Module ListeningFacts.
Import Sockets Agents AgentContexts Server ServerFacts Listening.

Section Connections.
Context `{HashOrder} `{Lmdb} `{Machine} `{Device} `{OptionParser} `{Host} {B : Type}.
Context `{ProtobufLaws} `{Network}.
Context (mounts : list (cstr * option nat)).
Context (formatted : Runner.ProfilingResults → bool → bool → string).
Implicit Types (d : AgentContexts.driver (B := B)).

Lemma request_received c d :
  match receive_request (B := B) c d with Done _ d' => d' = d | Thrown _ _ => False | Stuck _ => True end.
Proof. unfold receive_request. by destruct (receiveMessage _ c). Qed.

Lemma accepted_served fuel reg connections : ∀ d,
  served (dr_pool d) → po_pipeline (dr_pool d) = [] →
  match accept_loop mounts formatted fuel reg connections d with
  | Done _ d' => served (dr_pool d') ∧ po_pipeline (dr_pool d') = []
  | Thrown _ _ => False
  | Stuck _ => True
  end.
Proof.
  induction connections as [|c rest IH]; intros d Hs Hp; [done|]. cbn [accept_loop].
  pose proof (request_received c d) as Hr. unfold mbind, exc_bind.
  destruct (receive_request c d) as [request d0|e d0|f]; [|done|done]. subst d0.
  pose proof (process_served mounts formatted fuel reg request d Hs Hp) as Hone.
  destruct (processRequest _ _ _ _ _ d); [|done|done]. destruct Hone. by apply IH.
Qed.

(** The connections of programs that say what they want. *)
Definition said (r : RegistrationRequest) (more : list Z * bool) : inbound :=
  Inbound (sendMessage MTRegistrationRequest r ++ more.1) more.2.

Lemma accepted_requests fuel reg requests more d : whole_delivery →
  Forall (fits_header MTRegistrationRequest) requests → length more = length requests →
  accept_loop mounts formatted fuel reg (zip_with said requests more) d
  = serve mounts formatted fuel reg (Some <$> requests) d.
Proof.
  intros Hw Hr. revert more d. induction Hr as [|r requests Hm Hr IH]; intros [|[rest ended] more] d Hl; try done.
  cbn [zip_with accept_loop fmap list_fmap serve]. unfold mbind, exc_bind, receive_request, said.
  cbn [fst snd]. rewrite message_received by done.
  destruct (processRequest _ _ _ _ _ d); [|done|done]. apply IH. by injection Hl.
Qed.

(** C8: whatever the connections send, and whatever goes wrong in a pipeline, the
    server throws no exception, and between two connections every program that has
    registered either still waits for the rest of its pipeline or has been sent an
    answer; no pipeline is left behind. Programs that send a registration request
    are served with the request that they sent, whatever follows it on the
    connection. A connection on which nothing is sent is waited for, with all
    others behind it. *)
Theorem connections_are_answered fuel reg name connections d garbage :
  dr_pool d = new_pool garbage →
  match start mounts formatted fuel reg name connections d with
  | Done _ d' =>
      po_pipeline (dr_pool d') = [] ∧
      ∀ i, (i < length (po_agents (dr_pool d')))%nat →
        i ∈ po_registered (dr_pool d') ∨ answered (dr_pool d') i
  | Thrown _ _ => False
  | Stuck _ => True
  end ∧
  (server_address name = Ok (str name) →
    (∀ requests more, whole_delivery → Forall (fits_header MTRegistrationRequest) requests →
       connections = zip_with said requests more → length more = length requests →
       start mounts formatted fuel reg name connections d
       = serve mounts formatted fuel reg (Some <$> requests) d) ∧
    ∀ rest, connections = Inbound [] false :: rest →
      start mounts formatted fuel reg name connections d = Stuck WouldBlock).
Proof.
  intros Hnew. unfold start. split.
  - unfold server_address, mbind, exc_bind. destruct (_ <=? _); [|done]. cbn [e_lift].
    pose proof (accepted_served fuel reg connections d) as Hserve. rewrite Hnew in Hserve.
    specialize (Hserve (new_pool_served garbage) eq_refl).
    destruct (accept_loop _ _ _ _ _ d) as [u d'|e d'|f]; [|done|done]. destruct Hserve as [[_ _ Hw _] Hp].
    split; [done|]. intros i Hi%lookup_lt_is_Some. by apply Hw.
  - intros Haddr. rewrite Haddr. unfold mbind, exc_bind. cbn [e_lift]. split.
    + intros requests more Hw Hr -> Hl. by apply accepted_requests.
    + by intros rest ->.
Qed.
End Connections.
End ListeningFacts.

Section Witnesses.
Import Sockets Agents AgentContexts Server Listening ListeningFacts.
#[local] Existing Instance Demo.order.
#[local] Existing Instance Demo.machine.
#[local] Existing Instance Demo.card.
#[local] Existing Instance Demo.parser.
#[local] Existing Instance Demo.host.
#[local] Existing Instance reference_protobuf.
#[local] Existing Instance reference_protobuf_laws.
#[local] Existing Instance whole_network.

Lemma served_observed : Demo.observed (Demo.serve_all (piped [])) ≠ None.
Proof. by vm_compute. Qed.

Lemma connections_are_answered_witness :
  let name := "/tmp/metal-socket-fR3x8q/metal.sock"%string in
  let connections := zip_with said (piped []) [([7], false); ([], true)] in
  start [] (λ _ _ _, "profile") 3 Demo.changecase name connections Demo.started
  = Demo.serve_all (piped []) ∧ Demo.observed (Demo.serve_all (piped [])) ≠ None ∧
  match Demo.serve_all (piped []) with
  | Done _ d' =>
      po_pipeline (dr_pool d') = [] ∧
      ∀ i, (i < length (po_agents (dr_pool d')))%nat →
        i ∈ po_registered (dr_pool d') ∨ ServerFacts.answered (dr_pool d') i
  | Thrown _ _ => False
  | Stuck _ => True
  end.
Proof.
  intros name connections.
  destruct (connections_are_answered [] (λ _ _ _, "profile") 3 Demo.changecase name connections
    Demo.started true eq_refl) as [Hserved Hrest].
  destruct (Hrest eq_refl) as [Hsaid _].
  pose proof (Hsaid (piped []) [([7], false); ([], true)] ltac:(intros l n; reflexivity)
    ltac:(repeat constructor; vm_compute; reflexivity) eq_refl eq_refl) as E.
  split; [exact E|]. split; [apply served_observed|]. rewrite E in Hserved. exact Hserved.
Defined.
End Witnesses.
