(* ===== verification/DriverFiles.v ===== *)
(** * A file as the user sees it

    The driver with its files in memory, from the command line to the bytes: what
    FUSE's create, write and read do to a path below the mount point, through the
    table of functions, the handlers, the calls of metal.h and the backend. *)
From S2P Require Import Prelude Lmdb Structs Heap Extent ExtentInv AllocProofs Dirent Inode InodeProofs Path.
From S2P Require Import Metal File Storage Namespace FileProofs StorageProofs Growth Fuse FuseProofs.
From S2P Require Import Endian Extmap OpMem Jobs Pipeline Runner Manifest ManifestProofs.
From S2P Require Import RunProofs Agents Main Entry EntryProofs.

Module DriverFiles.
Import Dir Metal File Ns Files Growth FuseFacts Context ContextFacts Options.

(** In memory [main] mounts one file system and starts no server. *)
Lemma in_memory_handlers `{FuseOptions} `{Json} `{Device} args socket s r s' :
  program args socket s = Ok (Main.Mounted r, s') → Main.rn_server r = None →
  ∃ fs, Main.rn_handlers r = [(str "/files", FilesystemHandler fs)].
Proof.
  unfold program. destruct (fuse_opt_parse args no_config) as [code| |c]; [done|done|].
  unfold Main.main. destruct (mc_metadata_dir c); [|done].
  destruct (mc_in_memory c =? 0); unfold mbind, M_bind.
  - destruct (Manifest.fromFPGA s) as [[factory s1]|]; [|done]. by intros [= <- _].
  - intros [= <- _] _. by eexists.
Qed.

(** The calls of the only handler. *)
Lemma one_handler {W} prefix (h : fuse_handler W) p :
  reaches_handler (CombinedFuse.CombinedFuseHandler [(prefix, h)]) h (prefix ++ p) p.
Proof.
  apply table_reaches. intros A none call. cbn [CombinedFuse.dispatch].
  rewrite (proj2 (starts_with_iff prefix (prefix ++ p))) by (by exists p).
  cbn [negb]. by rewrite drop_app_length.
Qed.

Section InMemory.
Context `{LmdbLaws} `{Machine} (malloc : Z → Z).
Let storage := Storage.in_memory_storage malloc.
Abbreviation world := (world (B := Storage.store)).
Implicit Types (w : world) (t : txn) (xs : list mtl_file_extent).

(** What the allocator needs depends on its own databases only. *)
Lemma room_kept t t' N n : inodes_frame t t' →
  Alloc.inv N t → merged t → enough t n → Alloc.inv N t' ∧ merged t' ∧ enough t' n.
Proof.
  intros [Hh%Alloc.heap_of_same He%Alloc.ext_of_same] Hi Hm Hn.
  assert (∀ b, Alloc.free_in t' b ↔ Alloc.free_in t b) as Hf.
  { intros b. unfold Alloc.free_in. by rewrite He. }
  split; [unfold Alloc.inv in *; by rewrite He, Hh|]. split.
  - intros o e Ho Hfr. rewrite Hf. rewrite He in Ho. by apply Hm.
  - destruct Hn as (l & Hd & Hl & Hlen). exists l. split; [done|]. split; [|done].
    eapply Forall_impl; [exact Hl|]. intros b. apply Hf.
Qed.

(** The directories of a tree in which one file changed. *)
Lemma file_changed_grows t t' id ino xs : file_at t id ino xs → inodes_kept id t t' → grows t t'.
Proof.
  intros Hf Hk d dino es Hd. exists dino, es. split; [|done].
  apply (dir_at_frame t); [|done]. apply Hk. intros ->.
  pose proof (da_get _ _ _ _ Hd) as Hg. rewrite (fa_get _ _ _ _ Hf) in Hg. injection Hg as <- _.
  pose proof (da_type _ _ _ _ Hd) as Hty. by rewrite (fa_type _ _ _ _ Hf) in Hty.
Qed.

Lemma byte_after_all m xs buffer :
  byte_after m xs 0 buffer <$> seqZ 0 (Z.of_nat (length buffer)) = buffer.
Proof.
  apply list_eq. intros i. rewrite list_lookup_fmap. destruct (decide (i < length buffer)%nat) as [Hi|Hi].
  - rewrite lookup_seqZ_lt by lia. cbn. unfold byte_after. rewrite decide_True by lia.
    rewrite nth_lookup. replace (Z.to_nat (0 + Z.of_nat i - 0)) with i by lia.
    by destruct (lookup_lt_is_Some_2 buffer i Hi) as [b ->].
  - by rewrite lookup_seqZ_ge, lookup_ge_None_2 by lia.
Qed.

(** Creating a file and writing its first bytes. *)
Lemma create_and_write N w cs c d ino es now mode buffer :
  let t := committed w in
  let id := next_id t in
  let size := Z.of_nat (length buffer) in
  let need := blocks_up size Storage.BLOCK_SIZE in
  let path := abs_path (cs ++ [c]) in
  locked w = false → tree_ok t → Forall name_ok cs → short_name c → c ∉ (de_name <$> es) →
  walk t cs (Found d) → dir_at t d ino es → fits ino → id < 2 ^ 64 - 1 →
  w_metadata w = StorageMetadata N Storage.BLOCK_SIZE → N ≤ Storage.NUM_BLOCKS →
  Alloc.inv N t → merged t → enough t need → sizeof_inode + 32 * (N + 1) ≤ stack_limit < 2 ^ 40 →
  0 < size ≤ MTL_MAX_EXTENTS * Storage.BLOCK_SIZE →
  ∃ w1 w2,
    mtl_create now path mode w = Ok ((MTL_SUCCESS, Some id), w1) ∧
    mtl_write storage id buffer size 0 w1 = Ok (MTL_SUCCESS, w2) ∧ locked w2 = false ∧
    mtl_open path w2 = Ok ((MTL_SUCCESS, id), w2) ∧
    (∀ out, length out = length buffer → mtl_read storage id out size 0 w2 = Ok ((size, buffer), w2)) ∧
    Alloc.inv N (committed w2) ∧
    (∀ cs' i, walk t cs' (Found i) → walk (committed w2) cs' (Found i)) ∧
    ∀ ys i a, stored t ys → Backend.file_addr ys i = Some a →
      Backend.contents malloc (w_store w2) a = Backend.contents malloc (w_store w) a.
Proof.
  intros t id size need path Hl Hok Hcs Hc Hnew Hw Hd Hfits Hid Hmd HN Hi Hm Hen Hst Hs.
  assert (Storage.NUM_BLOCKS = 2 ^ 15 ∧ Storage.BLOCK_SIZE = 2 ^ 12 ∧ MTL_MAX_EXTENTS = 512) as (HNB & HBS & HME) by done.
  destruct (create_run w cs c d ino es now mode Hl Hok Hcs Hc Hw Hd Hfits Hid) as (w1 & Hl1 & [Hb1 Hb2] & Hx).
  fold t path id in Hx. rewrite decide_False in Hx by done.
  destruct Hx as (Hcr & Hok1 & Hwalk & Hext & Hold & _ & Hfr).
  destruct (room_kept t (committed w1) N need Hfr Hi Hm Hen) as (Hi1 & Hm1 & Hen1).
  assert (file_at (committed w1) id (new_file now mode).1 []) as Hf1.
  { split; [|done|done]. apply (xt_new _ _ _ _ _ _ _ _ Hext). }
  assert (stored (committed w1) []) as Hs1 by (split; [by apply NoDup_nil|by intros x ?%elem_of_nil]).
  destruct (blocks_up_spec size Storage.BLOCK_SIZE) as [Hup Hup0]; [lia|lia|]. fold need in Hup, Hup0.
  pose proof (write_grows_run malloc N w1 id (new_file now mode).1 [] buffer 0) as Hrun.
  fold size in Hrun. cbv zeta in Hrun. change (count []) with 0 in Hrun.
  rewrite Z.add_0_l, Z.sub_0_r in Hrun. fold need in Hrun.
  rewrite decide_True, Z.max_r in Hrun by lia.
  destruct Hrun as (t' & xs' & Hg & Hk & Hf' & Hwr); try done; try lia.
  { by rewrite Hb1. }
  destruct Hwr as (w2 & Hwr & Hc2 & Hl2 & Hread & Hothers).
  { destruct (gr_blocks _ _ _ _ _ _ Hg) as (new & E & Hn & _). cbn in E. subst new.
    destruct (stored_count N t' xs' (gr_inv _ _ _ _ _ _ Hg) (gr_stored _ _ _ _ _ _ Hg)) as [_ Hcount].
    pose proof (extents_at_most_blocks xs' ltac:(intros x Hx; by apply (stored_range N t' xs' x (gr_inv _ _ _ _ _ _ Hg) (gr_stored _ _ _ _ _ _ Hg)))). nia. }
  exists w1, w2. split; [exact Hcr|]. split; [exact Hwr|]. split; [exact Hl2|].
  pose proof (file_changed_grows _ _ _ _ _ Hf1 Hk) as Hgrows.
  split; [apply open_found; [rewrite Hc2; by eapply walk_grows|by apply names_snoc]|].
  split; [|split; [rewrite Hc2; by apply Hg|split]].
  - intros out Hout. pose proof (Hread out 0 ltac:(lia)) as Hr. rewrite Hout in Hr.
    rewrite byte_after_all in Hr. apply Hr; cbn [i_length with_length]; lia.
  - intros cs' i Hi'. rewrite Hc2. eapply walk_grows; [exact Hgrows|]. by apply Hold.
  - intros ys i a Hys Ha. rewrite <-Hb2. apply (Hothers ys i a); [|by intros b _ ?%elem_of_nil|done].
    destruct Hys as [Hnd Hu]. split; [done|]. intros x Hx. destruct (Hu x Hx) as (e & He & ?).
    exists e. split; [|done]. destruct Hfr as [_ E]. unfold Alloc.ext_of. by rewrite E.
Qed.

(** C3: the driver with its files in memory, whatever options led there: creating a
    file through FUSE under a new name of an existing directory below "/files",
    writing up to 2 MiB to it and reading them back succeed, as long as so many
    blocks are free and no two free extents are neighbours (freeing merges an extent
    with the one behind it only, extent.c:232, and a free neighbour behind the last
    extent of the file would run into extent.c:130): the read gives exactly the
    bytes that were written. Every path that led somewhere still leads there, and
    the bytes of all other files are what they were. *)
Theorem driver_file_round_trip `{FuseOptions} `{Json} `{Device} args socket s0 s1 r binary
    N w cs c d ino es now mode fh buffer :
  let t := committed w in
  let size := Z.of_nat (length buffer) in
  let path := str "/files" ++ abs_path (cs ++ [c]) in
  let driver := install binary (λ _, FilesystemFuse.FilesystemFuseHandler storage) (Main.rn_handlers r) in
  program args socket s0 = Ok (Main.Mounted r, s1) → Main.rn_server r = None →
  locked w = false → tree_ok t → Forall name_ok cs → short_name c → c ∉ (de_name <$> es) →
  walk t cs (Found d) → dir_at t d ino es → fits ino → next_id t < 2 ^ 64 - 1 →
  w_metadata w = StorageMetadata N Storage.BLOCK_SIZE → N ≤ Storage.NUM_BLOCKS →
  Alloc.inv N t → merged t → enough t (blocks_up size Storage.BLOCK_SIZE) →
  sizeof_inode + 32 * (N + 1) ≤ stack_limit < 2 ^ 40 →
  0 < size ≤ MTL_MAX_EXTENTS * Storage.BLOCK_SIZE →
  ∃ fuse id w1 w2,
    calls (ops driver) (handler driver) = Some fuse ∧
    fuse_create fuse now path mode fh w = Ok ((0, id), w1) ∧
    fuse_write fuse path buffer size 0 id w1 = Ok (size, w2) ∧ locked w2 = false ∧
    (∀ out fh', length out = length buffer →
       fuse_read fuse path out size 0 fh' w2 = Ok ((size, buffer), w2)) ∧
    Alloc.inv N (committed w2) ∧
    (∀ cs' i, walk t cs' (Found i) → walk (committed w2) cs' (Found i)) ∧
    ∀ ys i a, stored t ys → Backend.file_addr ys i = Some a →
      Backend.contents malloc (w_store w2) a = Backend.contents malloc (w_store w) a.
Proof.
  intros t size path driver Hmain Hserver Hl Hok Hcs Hc Hnew Hw Hd Hfits Hid Hmd HN Hi Hm Hen Hst Hs.
  destruct (in_memory_handlers args socket s0 r s1 Hmain Hserver) as (fs & Hhs).
  assert (handler driver = Some [(str "/files", FilesystemFuse.FilesystemFuseHandler storage)]) as Hdriver
    by (unfold driver; by rewrite Hhs).
  pose proof (one_handler (str "/files") (FilesystemFuse.FilesystemFuseHandler storage) (abs_path (cs ++ [c]))) as Hreach.
  destruct (create_and_write N w cs c d ino es now mode buffer) as (w1 & w2 & Hcr & Hwr & Hl2 & Hop & Hrd & Hi2 & Hold & Hbytes);
    try done.
  assert (s32 size = size) as Hsize.
  { assert (MTL_MAX_EXTENTS * Storage.BLOCK_SIZE = 2 ^ 21) by done. unfold s32, u32.
    rewrite wrap_small by lia. by rewrite (proj2 (Z.ltb_lt _ _)) by lia. }
  assert (0 < next_id t) as Hpos.
  { destruct (tk_root t Hok) as (rino & res & Hroot). destruct (tk_ids t Hok 0); [|done].
    eexists. apply (da_get _ _ _ _ Hroot). }
  eexists _, (next_id t), w1, w2. split; [rewrite Hdriver; apply calls_created|].
  split; [|split; [|split; [done|split; [|done]]]].
  - rewrite (rh_create _ _ _ _ Hreach). cbn [fuse_create FilesystemFuse.FilesystemFuseHandler].
    unfold FilesystemFuse.fs_create. by run_step Hcr.
  - rewrite (rh_write _ _ _ _ Hreach). cbn [fuse_write FilesystemFuse.FilesystemFuseHandler].
    unfold FilesystemFuse.fs_write. rewrite (proj2 (Z.eqb_neq _ 0)) by lia. cbn [negb].
    run_step Hwr. exact (f_equal (λ z, Ok (z, w2)) Hsize).
  - intros out fh' Hout. rewrite (rh_read _ _ _ _ Hreach). cbn [fuse_read FilesystemFuse.FilesystemFuseHandler].
    unfold FilesystemFuse.fs_read. run_step Hop. cbn [negb Z.eqb MTL_SUCCESS].
    change (u64 0) with 0. run_step (Hrd out Hout).
    exact (f_equal (λ z, Ok ((z, buffer), w2)) Hsize).
Qed.
End InMemory.
End DriverFiles.

(** ** A volume of 12 blocks without files *)

Module DriverDemo.
Import Dir Metal File Ns Files Growth Context Options DriverFiles.
#[local] Existing Instance Ns.Demo.machine.

(** Templates without a placeholder are matched as they are, those with "%s" after a
    blank take the next argument. *)
Definition template (o : fuse_opt) : string := match o with METAL_OPT t _ _ | FUSE_OPT_KEY t _ => t end.

Fixpoint index_of (t : string) (l : list fuse_opt) (i : nat) : option nat :=
  match l with [] => None | o :: l => if decide (template o = t) then Some i else index_of t l (S i) end.

Fixpoint match_all (l : list fuse_opt) (args : list string) : list (nat * parameter) :=
  match args with
  | [] => []
  | a :: rest =>
      match index_of a l 0, index_of (a ++ " %s")%string l 0, rest with
      | Some i, _, _ => (i, NoParameter) :: match_all l rest
      | None, Some i, v :: rest' => (i, TextParameter v) :: match_all l rest'
      | _, _, _ => match_all l rest
      end
  end.

#[local] Instance reference_options : FuseOptions := {| fuse_opt_match l args := (match_all l args, true) |}.
#[local] Existing Instance RunDemo.card.
#[local] Existing Instance RefJson.ref_json.

Definition command_line : list string := ["metal-driver"; "/mnt"; "--metadata"; "meta"; "--in-memory"; "-v"].

Definition volume_txn : txn :=
  AllocProofs.Demo.final (InodeDb.mtl_create_root_directory 7) AllocProofs.Demo.fresh.

Definition volume : Metal.world (B := Storage.store) :=
  World (volume_txn, false) (StorageMetadata 12 Storage.BLOCK_SIZE) (Storage.Store None []).

Lemma volume_facts :
  tree_ok volume_txn ∧ dir_at volume_txn 0 (root_inode 7) Ns.Demo.root_entries ∧ next_id volume_txn = 1 ∧
  Alloc.inv 12 volume_txn ∧ merged volume_txn ∧ enough volume_txn 1.
Proof.
  destruct (create_root_run AllocProofs.Demo.fresh 7) as (t & Hr & Hok & Hd & Hn & Hfr & _); [done|done|].
  unfold volume_txn, AllocProofs.Demo.final. rewrite Hr. do 3 (split; [done|]).
  assert (∀ o e, Alloc.ext_of AllocProofs.Demo.fresh o = Some e → o = 0 ∧ e = Extent 12 MTL_FREE (NodeId 12 0)) as Hone.
  { intros o e He. unfold Alloc.ext_of in He.
    let x := eval vm_compute in (tx_extents AllocProofs.Demo.fresh) in change (tx_extents AllocProofs.Demo.fresh) with x in He.
    cbn in He. case_decide; by simplify_eq. }
  apply (room_kept _ _ 12 1 Hfr AllocProofs.Demo.fresh_inv).
  - intros o e [-> ->]%Hone _ (o' & e' & [-> ->]%Hone & _ & Hb). cbn in Hb. lia.
  - exists [0]. split; [apply NoDup_singleton|]. split; [|done]. constructor; [|done].
    exists 0, (Extent 12 MTL_FREE (NodeId 12 0)). split; [vm_compute; reflexivity|]. split; [done|]. cbn. lia.
Qed.

Lemma driver_file_round_trip_witness :
  ∃ r s1, program command_line "" (Pipeline.State [] [] false) = Ok (Main.Mounted r, s1) ∧
  let driver := install [] (λ _, FilesystemFuse.FilesystemFuseHandler
    (Storage.in_memory_storage (λ _, 0))) (Main.rn_handlers r) in
  ∃ fuse id w1 w2,
    calls (ops driver) (handler driver) = Some fuse ∧
    fuse_create fuse 9 (str "/files/a") 420 0 volume = Ok ((0, id), w1) ∧
    fuse_write fuse (str "/files/a") [1; 2; 3] 3 0 id w1 = Ok (3, w2) ∧
    fuse_read fuse (str "/files/a") [0; 0; 0] 3 0 0 w2 = Ok ((3, [1; 2; 3]), w2).
Proof.
  destruct (program command_line "" (Pipeline.State [] [] false)) as [[[code|r] s1]|] eqn:E; [by vm_compute in E| |by vm_compute in E].
  pose proof E as Er. vm_compute in Er. injection Er as Er _.
  exists r, s1. split; [done|]. destruct volume_facts as (Hok & Hd & Hn & Hi & Hm & He).
  destruct (driver_file_round_trip (λ _, 0) command_line "" (Pipeline.State [] [] false) s1 r [] 12 volume [] (str "a") 0
    (root_inode 7) Ns.Demo.root_entries 9 420 0 [1; 2; 3] E)
    as (fuse & id & w1 & w2 & Hcalls & Hc & Hw & _ & Hread & _).
  - by subst r.
  - reflexivity.
  - exact Hok.
  - constructor.
  - exact Ns.Demo.short_a.
  - by apply lookup_name_None.
  - apply walk_root.
  - exact Hd.
  - exact Ns.Demo.root_fits.
  - change (committed volume) with volume_txn. rewrite Hn. lia.
  - reflexivity.
  - vm_compute. congruence.
  - exact Hi.
  - exact Hm.
  - exact He.
  - vm_compute. split; congruence.
  - vm_compute. split; congruence.
  - exists fuse, id, w1, w2. split; [exact Hcalls|]. split; [exact Hc|]. split; [exact Hw|].
    by apply (Hread [0; 0; 0] 0).
Defined.
End DriverDemo.
