(* ===== verification/AgentRound.v ===== *)
(** * Rounds of a pipeline between shared buffers

    [SnapPipelineRunner::run] and [PipelineLoop::run] for a pipeline of one
    program that has an input and an output buffer: a round takes one request
    of the program, works on the current halves, swaps both buffers and sends
    one response. *)
From S2P Require Import Prelude Lmdb Structs Dirent Inode Metal File Fuse.
From S2P Require Import Endian Extmap OpMem Jobs Pipeline Runner DataContexts Messages Agents AgentContexts.
From S2P Require Import Driver AgentProofs JobsProofs RunProofs ServerProofs.

Module AgentRound.
Import Agents AgentContexts DataContexts Server.

Section Round.
Context `{Lmdb} `{Machine} `{Device} `{OptionParser} {B : Type}.
Context (formatted : Runner.ProfilingResults → bool → bool → string).
Abbreviation driver := (AgentContexts.driver (B := B)).
Abbreviation agent_source := (AgentContexts.agent_source (B := B)).
Abbreviation agent_sink := (AgentContexts.agent_sink (B := B)).
Implicit Types (d : driver) (i : nat) (c : agent_source) (k : agent_sink) (p : Pipeline.state).

(** The contexts of the source and the sink, both for agent [i], which is the
    only one of its pipeline. *)
Definition alone_source i c : Prop :=
  as_agent c = i ∧ as_skipSendingProcessingResponse c = true ∧
  fs_inode_id (as_file c) = 0 ∧ fs_profilingEnabled (as_file c) = false.

Definition alone_sink i k : Prop :=
  ak_agent k = i ∧ ak_skipReceivingProcessingRequest k = true ∧
  fk_inode_id (ak_file k) = 0 ∧ fk_profilingEnabled (ak_file k) = false.

(** Agent [i] has the two buffers. *)
Definition has_buffers i d (a : OperatorAgent) (bi bo : Messages.Buffer) : Prop :=
  po_agents (dr_pool d) !! i = Some a ∧
  ag_inputBuffer (ag_files a) = Some bi ∧ ag_outputBuffer (ag_files a) = Some bo.

Definition after_request i (rest : list ProcessingRequest) d : driver :=
  Driver (dr_pool d) (dr_pipeline d) (λ j, if decide (j = i) then rest else dr_requests d j)
    (dr_responses d) (dr_buffers d) (dr_storages d).

Definition set_agent i (a : OperatorAgent) d : driver :=
  with_pool (set_agents (<[i := a]> (po_agents (dr_pool d))) (dr_pool d)) d.

Definition respond i (r : ProcessingResponse) d : driver :=
  Driver (dr_pool d) (dr_pipeline d) (dr_requests d) (dr_responses d ++ [(i, r)])
    (dr_buffers d) (dr_storages d).

Lemma get_agent_run i d a : po_agents (dr_pool d) !! i = Some a → get_agent i d = Done a d.
Proof. intros Ha. unfold get_agent. rewrite (e_bind_run e_get _ d d d) by done. by rewrite Ha. Qed.

Lemma update_run i d a f :
  po_agents (dr_pool d) !! i = Some a → update_agent i f d = Done tt (set_agent i (f a) d).
Proof.
  intros Ha. unfold update_agent, e_modify, set_agent. do 4 f_equal.
  apply list_eq. intros j. destruct (decide (j = i)) as [->|Hj].
  - rewrite list_lookup_alter_eq, list_lookup_insert_eq by (by eapply lookup_lt_Some). by rewrite Ha.
  - by rewrite list_lookup_alter_ne, list_lookup_insert_ne.
Qed.

(** *** The statements of a round *)

Lemma configure_run i d a bi bo c q rest initial :
  alone_source i c → has_buffers i d a bi bo → dr_requests d i = q :: rest →
  agent_source_configure initial c d
  = Done (with_chunk (pq_size q) (pq_eof q) c) (after_request i rest d).
Proof.
  intros (Hi & _) (Ha & Hin & Hout) Hq. unfold agent_source_configure. rewrite Hi.
  e_step (get_agent_run i d a Ha). rewrite Hin. rewrite bool_decide_eq_true_2 by done.
  rewrite orb_true_r. unfold receiveProcessingRequest.
  assert (receiveProcessingRequest i d = Done q (after_request i rest d)) as Hr.
  { unfold receiveProcessingRequest. rewrite (e_bind_run e_get _ d d d) by done. by rewrite Hq. }
  unfold receiveProcessingRequest in Hr. e_step Hr. done.
Qed.

Lemma source_address_run i d a bi bo c :
  alone_source i c → has_buffers i d a bi bo →
  Runner.source_address AgentDataSourceContext c d
  = Done (MkAddress (Messages.current bi) (u32 (as_size c)) ATHost MTNone) d.
Proof.
  intros (Hi & _) (Ha & Hin & _). unfold Runner.source_address.
  rewrite (e_bind_run e_get _ d d d) by done. cbn [sc_dataSource AgentDataSourceContext].
  unfold agent_dataSource. by rewrite Hi, Ha, Hin.
Qed.

Lemma sink_address_run i d a bi bo k :
  alone_sink i k → has_buffers i d a bi bo →
  Runner.sink_address AgentDataSinkContext k d
  = Done (MkAddress (Messages.current bo) (u32 Messages.BufferSize) ATHost MTNone) d.
Proof.
  intros (Hi & _) (Ha & _ & Hout). unfold Runner.sink_address.
  rewrite (e_bind_run e_get _ d d d) by done. cbn [kc_dataSink AgentDataSinkContext].
  unfold agent_dataSink. by rewrite Hi, Ha, Hout.
Qed.

Lemma sink_configure_run i d a bi bo k n initial :
  alone_sink i k → has_buffers i d a bi bo → agent_sink_configure n initial k d = Done k d.
Proof.
  intros (Hi & Hskip & Hino & _) (Ha & _ & _). unfold agent_sink_configure. rewrite Hi.
  e_step (get_agent_run i d a Ha). rewrite Hskip, andb_false_r, Hino. done.
Qed.

Lemma source_finalize_run i d a bi bo c :
  alone_source i c → has_buffers i d a bi bo →
  agent_source_finalize c d
  = Done c (set_agent i (setFiles (set_input_buffer (Some (Messages.swap bi)) (ag_files a)) a) d).
Proof.
  intros (Hi & Hskip & _) (Ha & Hin & _). unfold agent_source_finalize. rewrite Hi.
  e_step (get_agent_run i d a Ha). rewrite Hin.
  unfold update_files, source_answer, mbind, exc_bind. rewrite (update_run i d a) by done.
  cbn [mret exc_ret]. rewrite Hskip, andb_false_r. done.
Qed.

Lemma sink_finalize_run i d a bi bo k n (eof : bool) :
  alone_sink i k → has_buffers i d a bi bo →
  let a1 := setFiles (set_output_buffer (Some (Messages.swap bo)) (ag_files a)) a in
  let a2 := if eof then setTerminated a1 else a1 in
  let message := match last (Pipeline.p_operators (dr_pipeline d)) with
                 | Some op => Pipeline.oc_profilingResults op
                 | None => fk_profilingResults (ak_file k)
                 end in
  agent_sink_finalize n eof k d
  = Done k (respond i (MkProcessingResponse n eof (Some message)) (set_agent i a2 d)).
Proof.
  intros (Hi & _) (Ha & Hin & Hout) a1 a2 message. unfold agent_sink_finalize. rewrite Hi.
  rewrite (e_bind_run e_get _ d d d) by done. e_step (get_agent_run i d a Ha).
  rewrite Hout, Hin. unfold update_files, mbind, exc_bind. rewrite (update_run i d a) by done.
  cbn [mret exc_ret]. rewrite Hi. replace (eof || _ || _) with true by (by destruct eof).
  assert (Hlen : (i < length (po_agents (dr_pool d)))%nat) by (by eapply lookup_lt_Some).
  unfold sendProcessingResponse, e_modify. subst a2. destruct eof; [|done].
  erewrite (update_run i); [|cbn; by rewrite list_lookup_insert_eq].
  unfold set_agent, respond, with_pool, set_agents. cbn. by rewrite list_insert_insert_eq.
Qed.

(** The agent and the driver after a round. *)
Definition round_agent (a : OperatorAgent) (bi bo : Messages.Buffer) (eof : bool) : OperatorAgent :=
  let f := ag_files a in
  let a1 := setFiles (AgentFiles (Some (Messages.swap bi)) (Some (Messages.swap bo))
              (ag_internalInputFile f) (ag_internalOutputFile f) (ag_agentLoadFile f)) a in
  if eof then setTerminated a1 else a1.

Definition after_round i (a : OperatorAgent) (bi bo : Messages.Buffer)
    (rest : list ProcessingRequest) (eof : bool) (r : ProcessingResponse) p d : driver :=
  respond i r (set_agent i (round_agent a bi bo eof) (with_pipeline p (after_request i rest d))).

Lemma after_round_buffers i a bi bo rest eof r p d :
  has_buffers i d a bi bo →
  has_buffers i (after_round i a bi bo rest eof r p d) (round_agent a bi bo eof)
    (Messages.swap bi) (Messages.swap bo).
Proof.
  intros (Ha & _). split; [|by destruct eof].
  cbn. apply list_lookup_insert_eq. by eapply lookup_lt_Some.
Qed.

(** The pipeline of a round: the switch is configured before the first one,
    and there is no run for an empty input. *)
Definition round_pipeline (initialized : bool) (size : Z) (src dst : Address) p p' (n : Z) : Prop :=
  ∃ p1, (if initialized then p1 = p else Pipeline.configureSwitch true p = Ok (tt, p1)) ∧
    Runner.select_streams (Pipeline.p_operators p1) false false = Ok None ∧
    if 0 <? size then Pipeline.run src dst p1 = Ok (n, p') else n = 0 ∧ p' = p1.

(** Nothing is profiled. *)
Lemma pre_run_nothing i c k r d :
  alone_source i c → alone_sink i k →
  (Runner.rn_initialized r = true → Runner.rn_profileStreamIds r = None) →
  Runner.select_streams (Pipeline.p_operators (dr_pipeline d)) false false = Ok None →
  Runner.preRun AgentDataSourceContext AgentDataSinkContext c k (negb (Runner.rn_initialized r))
    (Runner.MkRunner true (Runner.rn_profileStreamIds r) (Runner.rn_results r)) d
  = Done (Runner.MkRunner true None (Runner.rn_results r)) d.
Proof.
  intros (_ & _ & _ & Hc) (_ & _ & _ & Hk) Hids Hsel. unfold Runner.preRun.
  destruct (Runner.rn_initialized r); cbn [negb]; [by rewrite Hids|].
  cbn [sc_profilingEnabled kc_profilingEnabled AgentDataSourceContext AgentDataSinkContext].
  rewrite Hc, Hk. unfold mbind, exc_bind, e_get, e_lift. cbn [pipeline_of driver_pipeline].
  by rewrite Hsel.
Qed.

(** The run itself, left out for an empty input. *)
Lemma run_or_skip i a bi bo c k d p' n :
  alone_source i c → alone_sink i k → has_buffers i d a bi bo →
  (if 0 <? u32 (as_size c)
   then Pipeline.run (MkAddress (Messages.current bi) (u32 (as_size c)) ATHost MTNone)
          (MkAddress (Messages.current bo) (u32 Messages.BufferSize) ATHost MTNone)
          (dr_pipeline d) = Ok (n, p')
   else n = 0 ∧ p' = dr_pipeline d) →
  (if 0 <? u32 (as_size c)
   then
     source ← Runner.source_address AgentDataSourceContext c;
     sink ← Runner.sink_address AgentDataSinkContext k;
     on_pipeline (Pipeline.run source sink)
   else mret 0) d = Done n (with_pipeline p' d).
Proof.
  intros Hc Hk Hb Hrun. destruct (0 <? u32 (as_size c)).
  - e_step (source_address_run i d a bi bo c Hc Hb). e_step (sink_address_run i d a bi bo k Hk Hb).
    unfold on_pipeline, e_part. cbn [pipeline_of driver_pipeline]. by rewrite Hrun.
  - destruct Hrun as [-> ->]. by destruct d.
Qed.

(** The switch is configured before the first round. *)
Lemma first_switch c k r d p1 :
  (if Runner.rn_initialized r then p1 = dr_pipeline d
   else Pipeline.configureSwitch true (dr_pipeline d) = Ok (tt, p1)) →
  (if negb (Runner.rn_initialized r) then
     dataSink ← (if 0 <? sc_reportTotalSize AgentDataSourceContext c
                 then kc_prepareForTotalSize AgentDataSinkContext
                        (sc_reportTotalSize AgentDataSourceContext c) k
                 else mret k);
     _ ← on_pipeline (Pipeline.configureSwitch true);
     mret dataSink
   else mret k) d = Done k (with_pipeline p1 d).
Proof.
  intros Hp. destruct (Runner.rn_initialized r); cbn [negb]; [rewrite Hp; by destruct d|].
  unfold on_pipeline, e_part, mbind, exc_bind. cbn. by rewrite Hp.
Qed.

(** What a round does, statement by statement. *)
Lemma round_run i a bi bo c k r d q rest n p' :
  alone_source i c → alone_sink i k → has_buffers i d a bi bo → dr_requests d i = q :: rest →
  (Runner.rn_initialized r = true → Runner.rn_profileStreamIds r = None) →
  round_pipeline (Runner.rn_initialized r) (u32 (pq_size q))
    (MkAddress (Messages.current bi) (u32 (pq_size q)) ATHost MTNone)
    (MkAddress (Messages.current bo) (u32 Messages.BufferSize) ATHost MTNone) (dr_pipeline d) p' n →
  let message := match last (Pipeline.p_operators p') with
                 | Some op => Pipeline.oc_profilingResults op
                 | None => fk_profilingResults (ak_file k)
                 end in
  Runner.run_once formatted AgentDataSourceContext AgentDataSinkContext true c k r d
  = Done (n, pq_eof q, with_chunk (pq_size q) (pq_eof q) c, k,
          Runner.MkRunner true None (Runner.rn_results r))
      (after_round i a bi bo rest (pq_eof q) (MkProcessingResponse n (pq_eof q) (Some message)) p' d).
Proof.
  intros Hc Hk Hb Hq Hids (p1 & Hp1 & Hsel & Hrun) message. unfold Runner.run_once. cbn zeta.
  set (d1 := with_pipeline p1 d).
  e_step (first_switch c k r d p1 Hp1). fold d1.
  assert (has_buffers i d1 a bi bo) as Hb1 by done.
  cbn [sc_configure AgentDataSourceContext].
  e_step (configure_run i d1 a bi bo c q rest (negb (Runner.rn_initialized r)) Hc Hb1 Hq).
  set (c1 := with_chunk (pq_size q) (pq_eof q) c). set (d2 := after_request i rest d1).
  assert (alone_source i c1) as Hc1 by done.
  assert (has_buffers i d2 a bi bo) as Hb2 by done.
  e_step (source_address_run i d2 a bi bo c1 Hc1 Hb2). cbn [a_size].
  assert (sc_endOfInput AgentDataSourceContext c1 = pq_eof q) as ->.
  { cbn [sc_endOfInput AgentDataSourceContext]. unfold agent_endOfInput.
    destruct Hc1 as (_ & _ & -> & _). done. }
  cbn [kc_configure AgentDataSinkContext].
  e_step (sink_configure_run i d2 a bi bo k (u32 (as_size c1)) (negb (Runner.rn_initialized r)) Hk Hb2).
  e_step (pre_run_nothing i c1 k r d2 Hc1 Hk Hids Hsel).
  set (d3 := with_pipeline p' d2). e_step (run_or_skip i a bi bo c1 k d2 p' n Hc1 Hk Hb2 Hrun). fold d3.
  unfold Runner.postRun. cbn [Runner.rn_profileStreamIds].
  rewrite (e_bind_run _ _ d3 (c1, k, Runner.MkRunner true None (Runner.rn_results r)) d3) by done.
  cbn [sc_finalize AgentDataSourceContext].
  assert (has_buffers i d3 a bi bo) as Hb3 by done.
  e_step (source_finalize_run i d3 a bi bo c1 Hc1 Hb3).
  cbn [kc_finalize AgentDataSinkContext].
  match goal with |- context [set_agent i ?x d3] => set (a1 := x) end.
  assert (has_buffers i (set_agent i a1 d3) a1 (Messages.swap bi) bo) as Hb4.
  { destruct Hb3 as (Ha & _ & Hout). split; [|done]. cbn.
    rewrite list_lookup_insert_eq; [done|]. by eapply lookup_lt_Some. }
  e_step (sink_finalize_run i (set_agent i a1 d3) a1 (Messages.swap bi) bo k n (pq_eof q) Hk Hb4).
  unfold after_round, respond, set_agent, with_pool, set_agents, mret, exc_ret. cbn.
  rewrite list_insert_insert_eq. done.
Qed.

(** ** All rounds *)

(** A pipeline that can be run and is not profiled. *)
Definition valid p : Prop :=
  Forall RunFacts.runnable (Pipeline.p_operators p) ∧
  Forall (λ o, Pipeline.oc_profilingEnabled o = false) (Pipeline.p_operators p).

(** The jobs that move data. *)
Definition is_run (j : HostJob) : bool :=
  match hj_type j with RunOperators => hj_data1 j =? 1 | _ => false end.

Definition moved (jobs : list HostJob) : list Address := hj_source <$> List.filter is_run jobs.

Lemma moved_app l m : moved (l ++ m) = moved l ++ moved m.
Proof. unfold moved. by rewrite List.filter_app, fmap_app. Qed.

Lemma moved_configuration n jobs : RunFacts.configuration n jobs → moved jobs = [].
Proof.
  intros [_ Hj]. unfold moved. induction Hj as [|j jobs Hj _ IH]; [done|].
  cbn. unfold is_run at 1. by rewrite Hj.
Qed.

Lemma moved_preparation cs : moved (RunFacts.preparation cs) = [].
Proof. unfold RunFacts.preparation. by destruct (existsb _ cs). Qed.

Lemma not_profiled cs : Forall (λ o, Pipeline.oc_profilingEnabled o = false) cs →
  Runner.select_streams cs false false = Ok None.
Proof.
  intros Hcs. unfold Runner.select_streams.
  assert (Runner.find_profiled cs None = Ok None) as ->; [|done].
  induction Hcs as [|c cs Hc _ IH]; [done|]. cbn [Runner.find_profiled]. by rewrite Hc.
Qed.

Lemma valid_prepared p l b :
  valid p → valid (Pipeline.State l (Pipeline.set_prepared true <$> Pipeline.p_operators p) b).
Proof.
  intros [Hr Hn]. split; cbn; apply Forall_fmap.
  - eapply Forall_impl; [exact Hr|done].
  - eapply Forall_impl; [exact Hn|done].
Qed.

(** A round on a card that works: the data is moved from its source, in one
    job, unless there is none. *)
Lemma valid_round (initialized : bool) size src dst p :
  RunFacts.card_works → valid p →
  ∃ n p' jobs, round_pipeline initialized size src dst p p' n ∧ valid p' ∧
    Pipeline.p_log p' = Pipeline.p_log p ++ jobs ∧ moved jobs = if 0 <? size then [src] else [].
Proof.
  intros Hcard Hp.
  assert (∃ p1 jobs, (if initialized then p1 = p else Pipeline.configureSwitch true p = Ok (tt, p1)) ∧
    valid p1 ∧ Pipeline.p_log p1 = Pipeline.p_log p ++ jobs ∧ moved jobs = []) as (p1 & j1 & E1 & Hp1 & Hl1 & Hm1).
  { destruct initialized; [exists p, []; by rewrite app_nil_r|]. destruct Hp as [Hr Hn].
    destruct (JobFacts.switch_block_run (Pipeline.p_operators p)) as (block & Hb & _).
    { eapply Forall_impl; [exact Hr|]. by intros c [? _]. }
    destruct (RunFacts.executeJob_run Hcard (Pipeline.indirect ConfigureStreams block)
      (Pipeline.State (Pipeline.p_log p) (Pipeline.p_operators p) true)) as (r & E & _).
    exists (Pipeline.State (Pipeline.p_log p ++ [Pipeline.indirect ConfigureStreams block])
      (Pipeline.p_operators p) true), [Pipeline.indirect ConfigureStreams block].
    split; [|split; [|done]].
    - unfold Pipeline.configureSwitch. rewrite (bind_run m_get _ _ _ _ eq_refl).
      rewrite (bind_run (m_put _) _ _ _ _ eq_refl).
      rewrite (bind_run (m_lift _) _ _ block _) by (unfold m_lift; by rewrite Hb).
      run_step E. done.
    - by split. }
  destruct (0 <? size) eqn:Es.
  - destruct p1 as [log cs cached]. destruct Hp1 as [Hr Hn]. cbn [Pipeline.p_log Pipeline.p_operators] in *.
    destruct (RunFacts.run_log Hcard log cs cached src dst Hr) as (n & jobs & block & _ & E & Hj).
    eexists n, _, (j1 ++ _). split; [|split; [|split]].
    + exists (Pipeline.State log cs cached). split; [done|]. split; [by apply not_profiled|].
      rewrite Es. exact E.
    + by apply (valid_prepared (Pipeline.State log cs cached)).
    + cbn [Pipeline.p_log]. rewrite Hl1, <-app_assoc. done.
    + rewrite !moved_app, Hm1, (moved_configuration _ _ Hj), moved_preparation. by destruct cached.
  - exists 0, p1, j1. split; [|done]. exists p1. split; [done|].
    split; [by apply not_profiled, Hp1|]. by rewrite Es.
Qed.

(** The source of each round with data: the halves take turns. *)
Fixpoint sources (b : Messages.Buffer) (qs : list ProcessingRequest) : list Address :=
  match qs with
  | [] => []
  | q :: rest =>
      let size := u32 (pq_size q) in
      (if 0 <? size then [MkAddress (Messages.current b) size ATHost MTNone] else [])
        ++ sources (Messages.swap b) rest
  end.

Definition swapped (n : nat) (b : Messages.Buffer) : Messages.Buffer := Nat.iter n Messages.swap b.

Lemma swapped_S n b : swapped n (Messages.swap b) = swapped (S n) b.
Proof. unfold swapped. by rewrite Nat.iter_succ_r. Qed.

(** C13: with a card that works, the loop of a pipeline of one program with
    shared buffers makes exactly one round per request up to the one that ends
    the input, and then stops: every request is answered, the last answer and
    no other says that the input has ended, each request with data leads to
    exactly one job that moves it, out of the two halves of the input buffer
    in turn, both buffers end at the half their swaps lead to, and the agent
    is marked as terminated. *)
Theorem buffered_loop_serves (qs : list ProcessingRequest) : ∀ q i a bi bo c k r d,
  RunFacts.card_works → valid (dr_pipeline d) →
  alone_source i c → alone_sink i k → has_buffers i d a bi bo → dr_requests d i = qs ++ [q] →
  Forall (λ q, pq_eof q = false) qs → pq_eof q = true →
  (Runner.rn_initialized r = true → Runner.rn_profileStreamIds r = None) →
  ∃ out d' a' responses jobs,
    Runner.run_loop formatted AgentDataSourceContext AgentDataSinkContext (S (length qs)) true c k r d
    = Done out d' ∧
    dr_requests d' i = [] ∧
    dr_responses d' = dr_responses d ++ ((λ x, (i, x)) <$> responses) ∧
    ps_eof <$> responses = pq_eof <$> qs ++ [q] ∧
    has_buffers i d' a' (swapped (S (length qs)) bi) (swapped (S (length qs)) bo) ∧
    ag_terminated a' = true ∧
    Pipeline.p_log (dr_pipeline d') = Pipeline.p_log (dr_pipeline d) ++ jobs ∧
    moved jobs = sources bi (qs ++ [q]).
Proof.
  induction qs as [|q1 qs IH]; intros q i a bi bo c k r d Hcard Hp Hc Hk Hb Hq Hfalse Htrue Hids.
  - cbn [app] in Hq. destruct (valid_round (Runner.rn_initialized r) (u32 (pq_size q))
      (MkAddress (Messages.current bi) (u32 (pq_size q)) ATHost MTNone)
      (MkAddress (Messages.current bo) (u32 Messages.BufferSize) ATHost MTNone) (dr_pipeline d) Hcard Hp)
      as (n & p' & jobs & Hround & Hp' & Hlog & Hmoved).
    cbn [length Runner.run_loop].
    e_step (round_run i a bi bo c k r d q [] n p' Hc Hk Hb Hq Hids Hround). rewrite Htrue.
    eexists _, _, (round_agent a bi bo true), [_], jobs. split; [done|]. split; [cbn; by rewrite decide_True|].
    split; [done|]. split; [cbn; by rewrite Htrue|].
    split; [by apply after_round_buffers|].
    split; [done|]. split; [done|]. cbn [sources app]. by rewrite app_nil_r.
  - apply Forall_cons in Hfalse as [Hq1 Hfalse]. cbn [app] in Hq.
    destruct (valid_round (Runner.rn_initialized r) (u32 (pq_size q1))
      (MkAddress (Messages.current bi) (u32 (pq_size q1)) ATHost MTNone)
      (MkAddress (Messages.current bo) (u32 Messages.BufferSize) ATHost MTNone) (dr_pipeline d) Hcard Hp)
      as (n & p' & jobs & Hround & Hp' & Hlog & Hmoved).
    change (Runner.run_loop formatted AgentDataSourceContext AgentDataSinkContext (S (length (q1 :: qs))) true c k r)
      with ('(_, endOfInput, dataSource, dataSink, r) ←
              Runner.run_once formatted AgentDataSourceContext AgentDataSinkContext true c k r;
            if (endOfInput : bool) then mret (dataSource, dataSink, r)
            else Runner.run_loop formatted AgentDataSourceContext AgentDataSinkContext (S (length qs)) true
                   dataSource dataSink r : Exc driver _).
    e_step (round_run i a bi bo c k r d q1 (qs ++ [q]) n p' Hc Hk Hb Hq Hids Hround). rewrite Hq1.
    match goal with |- context [Runner.run_loop _ _ _ _ _ ?c' ?k' ?r' ?d1] =>
      destruct (IH q i (round_agent a bi bo false) (Messages.swap bi) (Messages.swap bo) c' k' r' d1)
        as (out & d' & a' & responses & jobs' & E & H1' & H2' & H3' & H4' & H5' & H6' & H7') end; try done.
    + by apply after_round_buffers.
    + cbn. by rewrite decide_True.
    + eexists out, d', a', (_ :: responses), (jobs ++ jobs').
      split; [exact E|]. split; [done|]. split; [rewrite H2'; cbn; by rewrite <-app_assoc|].
      split; [cbn [fmap list_fmap app]; fold (ps_eof <$> responses); by rewrite H3', Hq1|].
      split; [by rewrite !swapped_S in H4'|]. split; [done|]. split.
      * rewrite H6'. cbn. by rewrite Hlog, <-app_assoc.
      * rewrite moved_app, Hmoved, H7'. done.
Qed.
End Round.
End AgentRound.

(** ** Instances: a file read in three requests *)

Section Witnesses.
Import Agents AgentContexts DataContexts Server AgentRound.
#[local] Existing Instance Demo.machine.
#[local] Existing Instance Demo.card.
#[local] Existing Instance Demo.parser.

Definition in_buffer : Messages.Buffer := Messages.MkBuffer "/tmp/metal-mmap-in" 0 false.
Definition out_buffer : Messages.Buffer := Messages.MkBuffer "/tmp/metal-mmap-out" (2 ^ 28) false.

Definition buffered_agent : OperatorAgent :=
  setFiles (AgentFiles (Some in_buffer) (Some out_buffer) (0, None) (0, None) "")
    (create_agent (Demo.program 12 0 0 "changecase" [])).

Definition three_requests : list ProcessingRequest :=
  [MkProcessingRequest 4096 false; MkProcessingRequest 0 false].

Definition buffered_driver : AgentContexts.driver (B := unit) :=
  Driver (Pool [buffered_agent] [] [0%nat] true [])
    (Pipeline.State [] RunDemo.operators false)
    (λ _, three_requests ++ [MkProcessingRequest 100 true]) [] 2 [].

Definition buffered_source : agent_source (B := unit) :=
  AgentSource (FileSource None 0 no_address [] 0 false "") 0 true 0 0 false.
Definition buffered_sink : agent_sink (B := unit) :=
  AgentSink (FileSink None 0 no_address true [] 0 false "") 0 true.

Lemma buffered_loop_serves_witness :
  ∃ out d' a' responses jobs,
    Runner.run_loop (λ _ _ _, "") AgentDataSourceContext AgentDataSinkContext 3 true
      buffered_source buffered_sink (Runner.MkRunner false None Runner.no_results) buffered_driver
    = Done out d' ∧
    dr_requests d' 0%nat = [] ∧
    dr_responses d' = [] ++ ((λ x, (0%nat, x)) <$> responses) ∧
    ps_eof <$> responses = [false; false; true] ∧
    has_buffers 0 d' a' (swapped 3 in_buffer) (swapped 3 out_buffer) ∧
    ag_terminated a' = true ∧
    Pipeline.p_log (dr_pipeline d') = [] ++ jobs ∧
    moved jobs = [MkAddress 0 4096 ATHost MTNone; MkAddress 0 100 ATHost MTNone].
Proof.
  apply (buffered_loop_serves (λ _ _ _, "") three_requests (MkProcessingRequest 100 true) 0
    buffered_agent in_buffer out_buffer buffered_source buffered_sink
    (Runner.MkRunner false None Runner.no_results) buffered_driver).
  - by eexists.
  - split; [|by repeat constructor]. repeat constructor; cbn; try (split; lia); try done.
  - done.
  - done.
  - done.
  - reflexivity.
  - by repeat constructor.
  - reflexivity.
  - done.
Defined.
End Witnesses.
