(* ===== verification/SourceProofs.v ===== *)
(** * The pieces of a data source

    What the runner asks for, round by round, when the source of a pipeline is
    the data generator or a file on the card. *)
From S2P Require Import Prelude Lmdb Structs Dirent Inode Metal File Fuse.
From S2P Require Import Endian Extmap OpMem Jobs Pipeline Runner DataContexts Messages Agents AgentContexts.
From S2P Require Import Driver AgentProofs JobsProofs RunProofs ServerProofs AgentRound.

Module SourceFacts.
Import Agents AgentContexts DataContexts AgentRound.

Section Rounds.
Context `{Lmdb} `{Machine} `{Device} `{OptionParser} {B : Type}.
Abbreviation driver := (AgentContexts.driver (B := B)).
Abbreviation agent_source := (AgentContexts.agent_source (B := B)).
Implicit Types (d : driver) (i : nat) (c : agent_source) (a : OperatorAgent).

(** The calls [run] makes on its source, until the end of the input; the
    result is the address of every round. *)
Fixpoint source_rounds (fuel : nat) (initial : bool) c : Exc driver (list Address) :=
  match fuel with
  | O => λ _, Stuck OutOfFuel
  | S fuel' =>
      c ← sc_configure AgentDataSourceContext initial c;
      x ← Runner.source_address AgentDataSourceContext c;
      let endOfInput := sc_endOfInput AgentDataSourceContext c in
      c ← sc_finalize AgentDataSourceContext c;
      if endOfInput then mret [x] else rest ← source_rounds fuel' false c; mret (x :: rest)
  end.

(** The agent exists, without an input buffer; its program has asked. *)
Definition unbuffered i a d : Prop :=
  po_agents (dr_pool d) !! i = Some a ∧ ag_inputBuffer (ag_files a) = None.

Lemma request_run i d : dr_requests d i ≠ [] →
  ∃ q rest, receiveProcessingRequest i d = Done q (after_request i rest d).
Proof.
  intros Hq. destruct (dr_requests d i) as [|q rest] eqn:E; [done|]. exists q, rest.
  unfold receiveProcessingRequest. rewrite (e_bind_run e_get _ d d d) by done. by rewrite E.
Qed.

(** Only the first round waits for the program. *)
Lemma ask i d (initial : bool) :
  (initial = true → dr_requests d i ≠ []) →
  ∃ q d', (if initial || bool_decide (is_Some (None : option Messages.Buffer))
           then receiveProcessingRequest i else mret (MkProcessingRequest 0 false)) d = Done q d' ∧
    dr_pool d' = dr_pool d.
Proof.
  intros Hq. destruct initial; cbn [orb].
  - destruct (request_run i d (Hq eq_refl)) as (q & rest & E). by exists q, (after_request i rest d).
  - by eexists _, d.
Qed.

Lemma answer_run eof a c d :
  ∃ d', source_answer eof a c d = Done tt d' ∧ dr_pool d' = dr_pool d ∧ dr_pipeline d' = dr_pipeline d.
Proof.
  unfold source_answer. destruct (_ && _).
  - rewrite (e_bind_run e_get _ d d d) by done. by eexists.
  - by exists d.
Qed.

(** ** The data generator *)

Definition generates n c : Prop :=
  fs_inode_id (as_file c) = 0 ∧ as_remainingTotalSize c = n.

Definition piece (n : Z) : Z := Z.min n Messages.BufferSize.

Lemma datagen_configure i a c n (initial : bool) d :
  unbuffered i a d → isDatagenAgent a = true → as_agent c = i → generates n c →
  (initial = true → dr_requests d i ≠ []) →
  ∃ d', agent_source_configure initial c d = Done (with_chunk (piece n) (n =? piece n) c) d' ∧
    dr_pool d' = dr_pool d.
Proof.
  intros [Ha Hb] Hgen Hi [Hino Hn] Hq. destruct (ask i d initial Hq) as (q & d' & E & Hp).
  exists d'. split; [|done]. unfold agent_source_configure. rewrite Hi.
  e_step (get_agent_run i d a Ha). rewrite Hb. e_step E. rewrite Hgen, Hn. done.
Qed.

Definition after_chunk c : agent_source :=
  AgentSource (as_file c) (as_agent c) (as_skipSendingProcessingResponse c)
    (as_remainingTotalSize c -ᵤ as_size c) (as_size c) (as_eof c).

Lemma datagen_finalize i a c d :
  unbuffered i a d → isDatagenAgent a = true → as_agent c = i →
  ∃ d', agent_source_finalize c d = Done (after_chunk c) d' ∧
    dr_pool d' = dr_pool d.
Proof.
  intros [Ha Hb] Hgen <-. unfold agent_source_finalize.
  rewrite (e_bind_run _ _ _ _ _ (get_agent_run (as_agent c) d a Ha)).
  rewrite Hb, Hgen. erewrite (e_bind_run (mret _)); [|reflexivity].
  match goal with |- context [source_answer ?eof ?a ?c] =>
    destruct (answer_run eof a c d) as (d' & E & Hp & _) end.
  exists d'. split; [|done]. e_step E. done.
Qed.

Lemma unbuffered_pool i a d d' : dr_pool d' = dr_pool d → unbuffered i a d → unbuffered i a d'.
Proof. intros E [Ha Hb]. split; [by rewrite E|done]. Qed.

Lemma BufferSize_val : Messages.BufferSize = 2 ^ 26.
Proof. reflexivity. Qed.

(** The rounds of an amount of data: at least one. *)
Definition data_rounds (n : Z) (m : nat) : Prop :=
  0 ≤ n < 2 ^ 64 ∧ n ≤ Z.of_nat m * Messages.BufferSize ∧
  (m = 1%nat ∨ (1 < m)%nat ∧ (Z.of_nat m - 1) * Messages.BufferSize < n).

Definition random_pieces (n : Z) (m : nat) : list Address :=
  (λ k, MkAddress 0 (piece (n - Z.of_nat k * Messages.BufferSize)) ATRandom MTNone) <$> seq 0 m.

Lemma random_pieces_S n m :
  random_pieces n (S m)
  = MkAddress 0 (piece n) ATRandom MTNone :: random_pieces (n - Messages.BufferSize) m.
Proof.
  unfold random_pieces. rewrite <-cons_seq, fmap_cons. f_equal; [f_equal; f_equal; lia|].
  rewrite <-fmap_S_seq, <-list_fmap_compose. apply list_fmap_ext. intros j k _. cbn.
  f_equal. f_equal. lia.
Qed.

Lemma piece_address n d : 0 ≤ n →
  (y ← e_lift (Ok (MkAddress 0 (piece n) ATRandom MTNone)); mret (address y)) d
  = Done (MkAddress 0 (piece n) ATRandom MTNone) d.
Proof.
  intros Hn. assert (u32 (piece n) = piece n) as E.
  { apply wrap_small. unfold piece. rewrite BufferSize_val. lia. }
  change (Done (MkAddress 0 (u32 (piece n)) ATRandom MTNone) d
    = Done (MkAddress 0 (piece n) ATRandom MTNone) d). by rewrite E.
Qed.

(** C28: a data generator asked for [n] bytes is read in pieces of the buffer
    size and a last one with the rest, [n] bytes in all, and the input ends
    with the last of them, in the first round already when [n] is zero. *)
Theorem datagen_pieces i a m : ∀ n c (initial : bool) d,
  unbuffered i a d → isDatagenAgent a = true → as_agent c = i → generates n c →
  (initial = true → dr_requests d i ≠ []) → data_rounds n m →
  ∃ d', source_rounds m initial c d = Done (random_pieces n m) d' ∧
    foldr (λ x s, a_size x + s) 0 (random_pieces n m) = n.
Proof.
  induction m as [|m IH]; intros n c initial d Hu Hgen Hi Hc Hq (Hn & Hle & Hm); [lia|].
  rewrite BufferSize_val in *.
  destruct (datagen_configure i a c n initial d Hu Hgen Hi Hc Hq) as (d1 & E1 & Hp1).
  pose proof (unbuffered_pool i a d d1 Hp1 Hu) as Hu1.
  set (c1 := with_chunk (piece n) (n =? piece n) c).
  destruct (datagen_finalize i a c1 d1 Hu1 Hgen Hi) as (d2 & E2 & Hp2).
  pose proof (unbuffered_pool i a d1 d2 Hp2 Hu1) as Hu2. cbn [source_rounds sc_configure AgentDataSourceContext].
  e_step E1. fold c1.
  assert (Runner.source_address AgentDataSourceContext c1 d1
    = Done (MkAddress 0 (piece n) ATRandom MTNone) d1) as Ea.
  { destruct Hu1 as [Ha Hb]. unfold Runner.source_address.
    rewrite (e_bind_run e_get _ d1 d1 d1) by done. cbn [sc_dataSource AgentDataSourceContext].
    unfold agent_dataSource. change (as_agent c1) with (as_agent c). rewrite Hi, Ha, Hb, Hgen.
    change (as_size c1) with (piece n). apply piece_address; lia. }
  e_step Ea. cbn [sc_finalize AgentDataSourceContext]. e_step E2.
  destruct Hc as [Hino Hrem].
  assert (sc_endOfInput AgentDataSourceContext c1 = (n =? piece n)) as ->.
  { cbn [sc_endOfInput AgentDataSourceContext]. unfold agent_endOfInput.
    change (as_file c1) with (as_file c). by rewrite Hino. }
  rewrite random_pieces_S. destruct (Z.eqb_spec n (piece n)) as [Eend|Eend].
  - assert (m = 0%nat) as -> by (unfold piece in Eend; rewrite BufferSize_val in Eend; lia).
    exists d2. split; [done|]. cbn. lia.
  - unfold piece in Eend. rewrite BufferSize_val in Eend.
    assert (piece n = 2 ^ 26) as Hpc by (unfold piece; rewrite BufferSize_val; lia).
    edestruct (IH (n - 2 ^ 26) (after_chunk c1) false d2) as (d3 & E3 & Hsum); [exact Hu2|exact Hgen|exact Hi| |done| |].
    + split; [exact Hino|]. change (as_remainingTotalSize c -ᵤ piece n = n - 2 ^ 26).
      rewrite Hrem, Hpc. apply u64_small. unfold in_u64. lia.
    + unfold data_rounds. rewrite BufferSize_val. lia.
    + exists d3. rewrite BufferSize_val. split.
      * e_step E3. done.
      * cbn [foldr a_size]. rewrite Hsum, Hpc. lia.
Qed.

(** ** A file on the card *)

(** The file the source reads, at its [k]-th piece; the extents are handed to
    the card in one job, or not at all. *)
Definition reads_file (size length : Z) (t : AddressType) (m : MapType) (k : nat) c : Prop :=
  fs_inode_id (as_file c) ≠ 0 ∧ fs_extents (as_file c) ≠ [] ∧
  fs_fileLength (as_file c) = length ∧
  fs_dataSource (as_file c) = MkAddress (Z.of_nat k * size) size t m.

Lemma file_configure i a c size length t m k (initial : bool) d :
  RunFacts.card_works → m ≠ MTDRAMAndNVMe → unbuffered i a d → isDatagenAgent a = false → as_agent c = i →
  reads_file size length t m k c → (initial = true → dr_requests d i ≠ []) →
  ∃ d', agent_source_configure initial c d = Done c d' ∧ dr_pool d' = dr_pool d.
Proof.
  intros Hcard Hm [Ha Hb] Hgen Hi (Hino & Hext & Hlen & Hd) Hq.
  destruct (ask i d initial Hq) as (q & d1 & E & Hp).
  unfold agent_source_configure. rewrite Hi. e_step (get_agent_run i d a Ha). rewrite Hb. e_step E.
  rewrite bool_decide_eq_false_2 by (by intros []). rewrite Hgen, (proj2 (Z.eqb_neq _ _)) by done.
  cbn [negb]. unfold source_configure. destruct (fs_extents (as_file c)) as [|x xs] eqn:Ex; [done|].
  assert (∃ p, transfer_extents (fs_storage (as_file c)) (a_map (fs_dataSource (as_file c)))
    PagefileReadPath CardDRAMRead NVMeRead (x :: xs) (dr_pipeline d1) = Ok (tt, p)) as [p Ep].
  { rewrite Hd. cbn [a_map]. unfold transfer_extents, mapExtents.
    destruct m; try done; [by eexists| |];
      (match goal with |- context [Pipeline.executeJob_throw ?j] =>
        destruct (RunFacts.executeJob_run Hcard j (dr_pipeline d1)) as (r & Er & _) end;
       eexists; by run_step Er). }
  exists (with_pipeline p d1). split; [|done].
  assert (on_pipeline (_ ← transfer_extents (fs_storage (as_file c)) (a_map (fs_dataSource (as_file c)))
      PagefileReadPath CardDRAMRead NVMeRead (x :: xs); mret (as_file c)) d1
    = Done (as_file c) (with_pipeline p d1)) as Eo.
  { unfold on_pipeline, e_part. cbn [pipeline_of driver_pipeline]. by run_step Ep. }
  e_step Eo. by destruct c.
Qed.

Definition next_piece c : agent_source :=
  let x := address (fs_dataSource (as_file c)) in
  with_file (with_source (MkAddress (a_addr x +ᵤ a_size x) (a_size x) (a_type x) (a_map x)) (as_file c)) c.

Lemma file_finalize i a c d :
  unbuffered i a d → isDatagenAgent a = false → as_agent c = i → fs_inode_id (as_file c) ≠ 0 →
  ∃ d', agent_source_finalize c d = Done (next_piece c) d' ∧ dr_pool d' = dr_pool d.
Proof.
  intros [Ha Hb] Hgen Hi Hino. unfold agent_source_finalize. rewrite Hi.
  rewrite (e_bind_run _ _ _ _ _ (get_agent_run i d a Ha)).
  rewrite Hb, Hgen, (proj2 (Z.eqb_neq _ _)) by done. cbn [negb].
  assert ((file ← on_pipeline (source_finalize (as_file c)); mret (with_file file c)) d
    = Done (next_piece c) d) as Ef by (by destruct d).
  e_step Ef. destruct (answer_run (agent_endOfInput c) a (next_piece c) d) as (d' & E & Hp & _).
  exists d'. split; [|done]. by e_step E.
Qed.
Definition file_pieces (size : Z) (t : AddressType) (mp : MapType) (k m : nat) : list Address :=
  (λ j, MkAddress (Z.of_nat j * size) size t mp) <$> seq k m.

Lemma file_pieces_total size t mp m : ∀ k,
  foldr (λ x s, a_size x + s) 0 (file_pieces size t mp k m) = Z.of_nat m * size.
Proof.
  induction m as [|m IH]; intros k; [done|].
  change (size + foldr (λ x s, a_size x + s) 0 (file_pieces size t mp (S k) m) = Z.of_nat (S m) * size).
  rewrite IH. lia.
Qed.

(** Sizes that a buffer holds, and a file that ends below the wrap-around. *)
Definition file_sizes (size length : Z) : Prop :=
  0 < size ≤ Messages.BufferSize ∧ length < 2 ^ 63.

Section File.
Context (i : nat) (a : OperatorAgent) (size length : Z) (t : AddressType) (mp : MapType).
Context (Hcard : RunFacts.card_works) (Hmp : mp ≠ MTDRAMAndNVMe).
Context (Hgen : isDatagenAgent a = false) (Hsizes : file_sizes size length).

Lemma file_source_address k c :
  reads_file size length t mp k c →
  address (fs_dataSource (as_file c)) = MkAddress (Z.of_nat k * size) size t mp.
Proof.
  destruct Hsizes as [Hs _]. intros (_ & _ & _ & ->). unfold address. cbn [a_addr a_size a_type a_map].
  f_equal. apply wrap_small. rewrite BufferSize_val in Hs. lia.
Qed.

Lemma file_address_run k c d :
  unbuffered i a d → as_agent c = i → reads_file size length t mp k c →
  Runner.source_address AgentDataSourceContext c d
  = Done (MkAddress (Z.of_nat k * size) size t mp) d.
Proof.
  intros [Ha Hb] Hi Hc. pose proof (file_source_address k c Hc) as Hx. destruct Hc as (Hino & _).
  unfold Runner.source_address. rewrite (e_bind_run e_get _ d d d) by done.
  cbn [sc_dataSource AgentDataSourceContext]. unfold agent_dataSource.
  rewrite Hi, Ha, Hb, Hgen, (proj2 (Z.eqb_neq _ _)) by done. cbn [negb].
  change (Done (address (fs_dataSource (as_file c))) d = Done (MkAddress (Z.of_nat k * size) size t mp) d).
  by rewrite Hx.
Qed.

Lemma next_piece_reads k c : (Z.of_nat k + 1) * size < length →
  reads_file size length t mp k c → reads_file size length t mp (S k) (next_piece c).
Proof.
  intros Hk Hc. pose proof (file_source_address k c Hc) as Hx. destruct Hc as (? & ? & ? & ?).
  repeat split; try done. destruct Hsizes as [Hs Hl]. rewrite BufferSize_val in Hs.
  unfold next_piece. cbn [as_file with_file with_source fs_dataSource]. rewrite Hx.
  cbn [a_addr a_size a_type a_map]. f_equal. rewrite u64_small by (unfold in_u64; lia). lia.
Qed.

Lemma file_ends k c : (Z.of_nat k + 1) * size < 2 ^ 64 → reads_file size length t mp k c →
  sc_endOfInput AgentDataSourceContext c = (length <=? (Z.of_nat k + 1) * size).
Proof.
  intros Hk Hc. pose proof (file_source_address k c Hc) as Hx. destruct Hc as (Hino & _ & Hl & _).
  cbn [sc_endOfInput AgentDataSourceContext]. unfold agent_endOfInput.
  rewrite (proj2 (Z.eqb_neq _ _)) by done. cbn [negb]. unfold source_endOfInput. rewrite Hx, Hl.
  cbn [a_addr a_size]. destruct Hsizes as [Hs _]. rewrite u64_small by (unfold in_u64; lia).
  f_equal. lia.
Qed.

Lemma file_rounds m : ∀ k c (initial : bool) d,
  unbuffered i a d → as_agent c = i → reads_file size length t mp k c →
  (initial = true → dr_requests d i ≠ []) →
  (Z.of_nat k + Z.of_nat m) * size < length ≤ (Z.of_nat k + Z.of_nat m + 1) * size →
  ∃ d', source_rounds (S m) initial c d = Done (file_pieces size t mp k (S m)) d'.
Proof.
  induction m as [|m IH]; intros k c initial d Hu Hi Hc Hq Hm;
    destruct (file_configure i a c size length t mp k initial d Hcard Hmp Hu Hgen Hi Hc Hq)
      as (d1 & E1 & Hp1);
    pose proof (unbuffered_pool i a d d1 Hp1 Hu) as Hu1;
    destruct (file_finalize i a c d1 Hu1 Hgen Hi (proj1 Hc)) as (d2 & E2 & Hp2);
    pose proof (unbuffered_pool i a d1 d2 Hp2 Hu1) as Hu2;
    destruct Hsizes as [Hs Hl]; rewrite BufferSize_val in Hs;
    cbn [source_rounds sc_configure AgentDataSourceContext]; e_step E1;
    e_step (file_address_run k c d1 Hu1 Hi Hc); cbn [sc_finalize AgentDataSourceContext]; e_step E2;
    rewrite (file_ends k c) by (done || lia).
  - rewrite (proj2 (Z.leb_le _ _)) by lia. by eexists.
  - rewrite (proj2 (Z.leb_gt _ _)) by lia.
    destruct (IH (S k) (next_piece c) false d2 Hu2 Hi) as [d3 E3]; [|done|lia|].
    + apply next_piece_reads; [lia|done].
    + cbn [source_rounds] in E3. e_step E3. by eexists.
Qed.
End File.

(** The file behind an agent's input, opened from the start. *)
Definition input_file (storage : PipelineStorage (B := B)) (k : nat) (ino : Z)
    (extents : list mtl_file_extent) (length : Z) a d : Prop :=
  ino ≠ 0 ∧ ag_internalInputFile (ag_files a) = (ino, Some k) ∧
  dr_storages d !! k = Some storage ∧ extents ≠ [] ∧
  ∃ res w, Metal.mtl_load_extent_list ino (ps_world storage)
    = Ok ((res, Some (extents, length)), w).

Lemma create_file_source_run storage ino extents length res w :
  ino ≠ 0 → 0 < length < 2 ^ 63 →
  Metal.mtl_load_extent_list ino (ps_world storage) = Ok ((res, Some (extents, length)), w) →
  create_file_source (Some storage) ino 0 Messages.BufferSize
  = Ok (FileSource (B := B) (Some storage) ino
          (MkAddress 0 (Z.min Messages.BufferSize length) (ps_type storage) (ps_map storage))
          extents length false "").
Proof.
  intros Hino Hl E. unfold create_file_source. rewrite (proj2 (Z.eqb_neq _ _)) by done.
  cbn [r_deref]. change (@mbind result _ _ _ ?f (Ok ?x)) with (f x). cbv beta. rewrite E.
  change (@mbind result _ _ _ ?f (Ok ?x)) with (f x). cbv beta iota.
  do 2 f_equal. unfold withSize, file_address. cbn [a_addr a_type a_map].
  rewrite BufferSize_val, (u64_small (0 + 2 ^ 26)), Z.sub_0_r, u64_small; unfold in_u64; lia || done.
Qed.

(** C27: a file on the card that an agent's input names is read from its start
    in pieces of one size, the buffer's or the file's length if that is less,
    until the pieces cover the file. The last piece has that size too: together
    they are as long as the file only when its length is a multiple of the size,
    and reach beyond its end otherwise. *)
Theorem file_source_pieces i a storage k ino extents length skip m d :
  RunFacts.card_works → ps_map storage ≠ MTDRAMAndNVMe → unbuffered i a d →
  isDatagenAgent a = false → input_file storage k ino extents length a d →
  dr_requests d i ≠ [] → 0 < length < 2 ^ 63 →
  Z.of_nat m * Z.min Messages.BufferSize length < length
    ≤ Z.of_nat (S m) * Z.min Messages.BufferSize length →
  let size := Z.min Messages.BufferSize length in
  let pieces := file_pieces size (ps_type storage) (ps_map storage) 0 (S m) in
  let total := foldr (λ x s, a_size x + s) 0 pieces in
  (∃ d', (c ← create_agent_source i skip; source_rounds (S m) true c) d = Done pieces d') ∧
  length ≤ total ∧ (total = length ↔ (size | length)).
Proof.
  intros Hcard Hmp [Ha Hb] Hgen (Hino & Hfile & Hk & Hext & res & w & E) Hq Hl Hm size pieces total.
  split; [|unfold total, pieces; rewrite file_pieces_total; fold size in Hm].
  - assert (create_agent_source i skip d = Done (AgentSource
      (FileSource (Some storage) ino (MkAddress 0 size (ps_type storage) (ps_map storage))
         extents length false "") i skip (uninit "AgentDataSourceContext._remainingTotalSize")
      (uninit "AgentDataSourceContext._size") (negb (uninit "AgentDataSourceContext._eof" =? 0))) d) as Ec.
    { unfold create_agent_source. e_step (get_agent_run i d a Ha). rewrite Hfile, Hb, Hgen.
      assert (file_of (ino, Some k) d = Done (Some storage, ino) d) as Ef.
      { unfold file_of. cbn [fst snd]. rewrite (e_bind_run e_get _ d d d) by done. by rewrite Hk. }
      e_step Ef. cbn [fst snd].
      rewrite (create_file_source_run storage ino extents length res w Hino Hl E).
      by rewrite (proj2 (Z.eqb_neq ino 0) Hino), bool_decide_eq_false_2 by (by intros []). }
    e_step Ec. eapply (file_rounds i a size length); [done..| |done|done| |done|lia].
    + split; [|lia]. unfold size. rewrite BufferSize_val. lia.
    + done.
  - split; [lia|]. split.
    + intros Ht. exists (Z.of_nat (S m)). lia.
    + assert (0 < size) as Hpos by (unfold size; rewrite BufferSize_val; lia).
      clear -Hm Hpos. clearbody size. intros [q ->]. f_equal. apply Z.le_antisymm.
      * assert (Z.of_nat m < q) by (apply (Zmult_lt_reg_r _ _ size); lia). lia.
      * apply (Zmult_le_reg_r _ _ size); lia.
Qed.
End Rounds.
End SourceFacts.

(** ** Instances: generated data, and a file of 100 MB *)

Module SourceDemo.
Import Agents AgentContexts DataContexts.
#[local] Existing Instance Demo.machine.

Definition generator : OperatorAgent := create_agent (Demo.program 11 0 12 "datagen" []).
Definition cat : OperatorAgent :=
  setFiles (AgentFiles None None (3, Some 0%nat) (0, None) "")
    (create_agent (Demo.program 11 0 12 "metal-cat" [])).

Definition extents : list mtl_file_extent := [FileExtent 6 24415].

Definition world : Metal.world (B := unit) :=
  Metal.World
    (set_inodes (mdb_put mdb_empty 3
       (Inode MTL_FILE 100000000 0 0 7 7 7 33188, extents_bytes extents)) empty_txn, false)
    (StorageMetadata (64 * 1024 * 1024) 4096) tt.

Definition storage : PipelineStorage (B := unit) := MkPipelineStorage ATCardDRAM MTDRAM world None.

Definition driver : AgentContexts.driver (B := unit) :=
  Driver (Pool [generator; cat] [] [0%nat; 1%nat] true []) (Pipeline.State [] [] false)
    (λ _, [MkProcessingRequest 0 false]) [] 0 [storage].

Definition source (n : Z) : agent_source (B := unit) :=
  AgentSource (FileSource None 0 no_address [] 0 false "") 0 false n 0 false.
End SourceDemo.

Section Witnesses.
Import Agents AgentContexts DataContexts SourceFacts.
#[local] Existing Instance Demo.machine.
#[local] Existing Instance Demo.card.
#[local] Existing Instance Demo.parser.

Lemma datagen_pieces_witness :
  ∃ d', source_rounds 2 true (SourceDemo.source 100000000) SourceDemo.driver
        = Done (random_pieces 100000000 2) d' ∧
    foldr (λ x s, a_size x + s) 0 (random_pieces 100000000 2) = 100000000.
Proof.
  apply (datagen_pieces 0 SourceDemo.generator 2 100000000 (SourceDemo.source 100000000) true
    SourceDemo.driver); try done.
  split; [lia|]. rewrite BufferSize_val. lia.
Defined.

Lemma file_source_pieces_witness :
  let size := Z.min Messages.BufferSize 100000000 in
  let pieces := file_pieces size ATCardDRAM MTDRAM 0 2 in
  let total := foldr (λ x s, a_size x + s) 0 pieces in
  (∃ d', (c ← create_agent_source 1 false; source_rounds 2 true c) SourceDemo.driver = Done pieces d') ∧
  100000000 ≤ total ∧ (total = 100000000 ↔ (size | 100000000)).
Proof.
  apply (file_source_pieces 1 SourceDemo.cat SourceDemo.storage 0 3 SourceDemo.extents 100000000 false 1
    SourceDemo.driver); try done.
  - by eexists.
  - split; [done|]. split; [done|]. split; [done|]. split; [done|]. do 2 eexists. vm_compute. reflexivity.
Defined.
End Witnesses.
