(* ===== verification/Placeholder.v ===== *)
(** * The placeholder program (metal-driver-placeholder/operator_agent.cpp)

    The executable behind every operator of the file system: it finds out what
    its standard input and output are connected to, registers with the driver
    and then moves data between its files and the shared buffers. *)
From Stdlib Require Import Ascii.
From S2P Require Import Prelude Messages.

(** ** What the program sees of the system *)

Record process := MkProcess {
  pr_name : string;                  (* the entry of /proc *)
  pr_fd : Z → option string;         (* /proc/<name>/fd/<n> *)
  pr_exe : string;                   (* /proc/<name>/exe *)
}.

Record environment := MkEnvironment {
  en_fd : Z → string;                (* /proc/self/fd/<n> *)
  en_exists : string → bool;         (* access(path, F_OK) == 0 *)
  en_inode : Z → Z;                  (* st_ino of a descriptor *)
  en_processes : list process;       (* in the order of readdir *)
  en_mounts : list string;           (* mnt_dir of /proc/mounts, in order *)
  en_self_exe : string;              (* /proc/self/exe *)
  en_cwd : string;
  en_pid : Z;
}.

Module Placeholder.
(** ** C strings as lists of characters *)

Definition chars (s : string) : list ascii := String.list_ascii_of_string s.

Definition isdigit (c : ascii) : bool := (48 <=? nat_of_ascii c)%nat && (nat_of_ascii c <=? 57)%nat.

(** [strncmp(a, b, n) == 0] for strings without zeros. *)
Fixpoint strneq (n : nat) (a b : list ascii) : bool :=
  match n, a, b with
  | O, _, _ => true
  | S _, [], [] => true
  | S n', x :: a', y :: b' => bool_decide (x = y) && strneq n' a' b'
  | S _, _, _ => false
  end.

(** [atoll] of digits. *)
Fixpoint atoll_from (acc : Z) (l : list ascii) : Z :=
  match l with
  | c :: l' =>
      if isdigit c then atoll_from (10 * acc + (Z.of_nat (nat_of_ascii c) - 48)) l' else acc
  | [] => acc
  end.
Definition atoll (l : list ascii) : Z := atoll_from 0 l.

(** ** get_process_connected_to_std_fd *)

Record ConnectedFile := MkConnectedFile { cf_path : string; cf_pid : Z; cf_is_metal_file : bool }.
Definition no_file : ConnectedFile := MkConnectedFile "" 0 false.

(** [readlink] into a buffer: what lies after the name stays as it was, and
    after an error the length is that of [(uint64_t)-1]. *)
Definition readlink (link : option string) (buffer : list ascii) : list ascii * Z :=
  match link with
  | Some name => (chars name ++ drop (String.length name) buffer, Z.of_nat (String.length name))
  | None => (buffer, 2 ^ 64 - 1)
  end.

Fixpoint scan_processes (fd_no inode : Z) (processes : list process) (pipename : list ascii) :
    ConnectedFile :=
  match processes with
  | [] => no_file
  | p :: rest =>
      if negb (forallb isdigit (chars (pr_name p))) then scan_processes fd_no inode rest pipename
      else
        let '(pipename, len) := readlink (pr_fd p (1 - fd_no)) pipename in
        if strneq (Z.to_nat (Z.min 5 len)) pipename (chars "pipe:") && (8 <? len)
           && (atoll (drop 6 pipename) =? inode)
        then MkConnectedFile (pr_exe p) (atoll (chars (pr_name p))) false
        else scan_processes fd_no inode rest pipename
  end.

Definition get_process_connected_to_std_fd (env : environment) (fd_no : Z) : ConnectedFile :=
  scan_processes fd_no (en_inode env fd_no) (en_processes env) [].

(** ** determineProcessOrFileConnectedToStandardFileDescriptor *)

(** [strncmp] with the shorter of both lengths. *)
Definition common_prefix (prefix s : string) : bool :=
  strneq (Nat.min (String.length prefix) (String.length s)) (chars prefix) (chars s).

Definition determineProcessOrFileConnectedToStandardFileDescriptor (env : environment)
    (metal_mountpoint : string) (fd_no : Z) : result ConnectedFile :=
  let fd_file := en_fd env fd_no in
  if en_exists env fd_file then
    let files_prefix := String.append metal_mountpoint "/" in
    internal_filename ←
      (if common_prefix files_prefix fd_file then
         (* [fd_file + strlen(files_prefix) - 1] *)
         if (String.length fd_file <? String.length files_prefix - 1)%nat then Fault OutOfBounds
         else mret (drop (String.length files_prefix - 1) (chars fd_file))
       else mret []);
    match internal_filename with
    | _ :: _ =>
        mret (MkConnectedFile (String.string_of_list_ascii internal_filename) 0 true)
    | [] =>
        if strneq 9 (chars "/dev/null") (chars fd_file) then mret (MkConnectedFile "$NULL" 0 true)
        else mret (MkConnectedFile fd_file 0 false)
    end
  else
    let connected_process := get_process_connected_to_std_fd env fd_no in
    if negb (bool_decide (cf_path connected_process = "")) then
      let operators_prefix := String.append metal_mountpoint "/operators/" in
      if negb (common_prefix operators_prefix (cf_path connected_process))
      then mret (MkConnectedFile (cf_path connected_process) 0 false)
      else mret connected_process
    else mret no_file.

(** ** getMountPointOfFilesystem *)

Fixpoint longest_mount (path : string) (mounts : list string) (previousLongestPath : nat)
    (result : string) : nat * string :=
  match mounts with
  | [] => (previousLongestPath, result)
  | mnt_dir :: rest =>
      let mntlen := String.length mnt_dir in
      if (String.length path <? mntlen)%nat then longest_mount path rest previousLongestPath result
      else if (mntlen <? previousLongestPath)%nat
      then longest_mount path rest previousLongestPath result
      else if strneq mntlen (chars path) (chars mnt_dir)
      then longest_mount path rest mntlen mnt_dir
      else longest_mount path rest previousLongestPath result
  end.

Definition getMountPointOfFilesystem (mounts : list string) (path : string) : result string :=
  let '(previousLongestPath, res) := longest_mount path mounts 0 "" in
  if (previousLongestPath =? 0)%nat then Fault (Throw "Could not determine mount point")
  else Ok res.

(** [basename] of a path that does not end in a slash. *)
Fixpoint basename_from (current : list ascii) (l : list ascii) : list ascii :=
  match l with
  | [] => current
  | c :: l' => if decide (c = "/"%char) then basename_from l' l' else basename_from current l'
  end.

Definition determineOperatorName (env : environment) : string :=
  String.string_of_list_ascii
    (basename_from (chars (en_self_exe env)) (chars (en_self_exe env))).

(** ** main: the request *)

Definition hello (env : environment) (argv : list string) : result RegistrationRequest :=
  ownFSMountPoint ← getMountPointOfFilesystem (en_mounts env) (en_self_exe env);
  input ← determineProcessOrFileConnectedToStandardFileDescriptor env ownFSMountPoint 0;
  output ← determineProcessOrFileConnectedToStandardFileDescriptor env ownFSMountPoint 1;
  mret (MkRegistrationRequest (en_pid env) (en_cwd env) ownFSMountPoint
          (determineOperatorName env) (cf_pid input) (cf_pid output) argv
          (if cf_is_metal_file input then Some (cf_path input) else None)
          (if cf_is_metal_file output then Some (cf_path output) else None)).

(** ** main: the processing loop *)

Section Loop.
(** [BufferSize], the size of a half of a shared buffer. *)
Context (size : nat).

(** The two halves of a shared buffer; [true] is the second one. *)
Definition halves : Type := bool → list Z.

(** Writes to the start of a half. *)
Definition store_half (b : bool) (bytes : list Z) (m : halves) : halves :=
  λ b', if decide (b' = b) then bytes ++ drop (length bytes) (m b) else m b'.

Record client := Client {
  cl_input : option bool;            (* [current] of the buffer, if there is one *)
  cl_output : option bool;
  cl_bytesRead : Z;
  cl_eof : bool;
  cl_response : ProcessingResponse;
  cl_infd : list Z;                  (* what can still be read *)
  cl_stdout : list Z;
  cl_stderr : string;
}.

(** [fread] of a whole half, [feof] and [swap]. *)
Definition read_input (c : client) (shared : halves) : client * halves :=
  match cl_input c with
  | None => (c, shared)
  | Some current =>
      let bytes := take size (cl_infd c) in
      (Client (Some (negb current)) (cl_output c) (Z.of_nat (length bytes))
              (length (cl_infd c) <? size)%nat (cl_response c) (drop size (cl_infd c))
              (cl_stdout c) (cl_stderr c),
       store_half current bytes shared)
  end.

(** The messages of the loop body, in its order. *)
Definition tell_server (c : client) : option ProcessingRequest :=
  if negb (ps_eof (cl_response c))
  then Some (MkProcessingRequest (cl_bytesRead c) (cl_eof c)) else None.

Definition write_output (c : client) (shared : halves) : client :=
  match cl_output c with
  | Some current =>
      if negb (ps_size (cl_response c) =? 0) then
        Client (cl_input c) (Some (negb current)) (cl_bytesRead c) (cl_eof c) (cl_response c)
               (cl_infd c)
               (cl_stdout c ++ take (Z.to_nat (ps_size (cl_response c))) (shared current))
               (cl_stderr c)
      else c
  | None => c
  end.

Definition print_message (c : client) : client :=
  match ps_message (cl_response c) with
  | None => c
  | Some m =>
      Client (cl_input c) (cl_output c) (cl_bytesRead c) (cl_eof c) (cl_response c) (cl_infd c)
             (cl_stdout c) (String.append (cl_stderr c) m)
  end.

Definition read_next (c : client) (shared : halves) : client * halves :=
  if negb (cl_eof c) then read_input c shared else (c, shared).

Definition take_response (r : ProcessingResponse) (c : client) : client :=
  Client (cl_input c) (cl_output c) (cl_bytesRead c) (cl_eof c) r (cl_infd c)
         (cl_stdout c) (cl_stderr c).

(** The file opened instead of standard input, if the driver names one. *)
Definition input_filename (response : RegistrationResponse) : option string :=
  match rs_input_buffer_filename response with
  | Some _ => rs_agent_read_filename response
  | None => None
  end.

(** After an acceptance: the buffers are mapped, both at their first half;
    [infd] is what the file or standard input holds. *)
Definition start_client (response : RegistrationResponse) (infd : list Z) : client :=
  Client ((λ _, false) <$> rs_input_buffer_filename response)
         ((λ _, false) <$> rs_output_buffer_filename response)
         0 false (MkProcessingResponse 0 false None) infd [] "".
End Loop.
End Placeholder.

(** ** The mount point *)

Module PlaceholderFacts.
Import Placeholder.

Lemma strneq_prefix b : ∀ a,
  (length b ≤ length a)%nat → strneq (length b) a b = true ↔ b `prefix_of` a.
Proof.
  induction b as [|y b IH]; intros a Hl; [split; [|done]; intros _; apply prefix_nil|].
  destruct a as [|x a]; cbn [length] in Hl; [lia|]. cbn [length strneq].
  rewrite andb_true_iff, IH, bool_decide_eq_true by lia. split.
  - intros [-> Hb]. by apply prefix_cons.
  - intros Hb. split; [by apply prefix_cons_inv_1 in Hb|by apply prefix_cons_inv_2 in Hb].
Qed.

Lemma length_chars s : length (chars s) = String.length s.
Proof. unfold chars. induction s as [|c s IH]; [done|]. cbn. by rewrite IH. Qed.

(** [m] is a mount point above [path], as strings. *)
Definition above (path m : string) : Prop := chars m `prefix_of` chars path.

Lemma above_test path m : (String.length m ≤ String.length path)%nat →
  strneq (String.length m) (chars path) (chars m) = true ↔ above path m.
Proof.
  intros Hl. rewrite <-(length_chars m). apply strneq_prefix. by rewrite !length_chars.
Qed.

Lemma above_length path m : above path m → (String.length m ≤ String.length path)%nat.
Proof. intros Hm%prefix_length. by rewrite !length_chars in Hm. Qed.

(** What the scan keeps is as long as every mount point above the path. *)
Lemma longest_mount_spec path mounts : ∀ n best,
  (n = 0%nat ∧ best = "" ∨ n = String.length best ∧ above path best) →
  let '(n', best') := longest_mount path mounts n best in
  n' = String.length best' ∧ (n ≤ n')%nat ∧
  (best' = best ∨ best' ∈ mounts ∧ above path best') ∧
  ∀ m, m ∈ mounts → above path m → (String.length m ≤ n')%nat.
Proof.
  induction mounts as [|m mounts IH]; intros n best Hb; cbn [longest_mount].
  { split; [by destruct Hb as [[-> ->]|[-> _]]|]. split; [done|]. split; [by left|].
    by intros ? ?%elem_of_nil. }
  assert (∀ (skip : above path m → (String.length m ≤ n)%nat),
    let '(n', best') := longest_mount path mounts n best in
    n' = String.length best' ∧ (n ≤ n')%nat ∧
    (best' = best ∨ best' ∈ m :: mounts ∧ above path best') ∧
    ∀ m', m' ∈ m :: mounts → above path m' → (String.length m' ≤ n')%nat) as Hskip.
  { intros Hskip. specialize (IH n best Hb).
    destruct (longest_mount path mounts n best) as [n' best']. destruct IH as (H1 & H2 & H3 & H4).
    split; [done|]. split; [done|]. split; [destruct H3 as [?|[? ?]]; [by left|right; split; [by right|done]]|].
    intros m' [->|Hm']%elem_of_cons Ha; [|by apply H4]. specialize (Hskip Ha). lia. }
  destruct (Nat.ltb_spec (String.length path) (String.length m)) as [Hl|Hl].
  { apply Hskip. intros Ha%above_length. lia. }
  destruct (Nat.ltb_spec (String.length m) n) as [Hn|Hn]; [apply Hskip; lia|].
  destruct (strneq _ _ _) eqn:E.
  - apply above_test in E; [|done]. specialize (IH (String.length m) m (or_intror (conj eq_refl E))).
    destruct (longest_mount path mounts (String.length m) m) as [n' best']. destruct IH as (H1 & H2 & H3 & H4).
    split; [done|]. split; [lia|].
    split; [right; destruct H3 as [->|[? ?]]; split; try done; [by left|by right]|].
    intros m' [->|Hm']%elem_of_cons Ha; [done|by apply H4].
  - apply Hskip. intros Ha. apply above_test in Ha; [congruence|done].
Qed.

(** the program takes for the mount point of its file system the longest
    mount point that its own path starts with, and gives up exactly when only
    the empty one is left. *)
Theorem mount_point_longest mounts path :
  match getMountPointOfFilesystem mounts path with
  | Ok r => r ∈ mounts ∧ r ≠ "" ∧ above path r ∧
      ∀ m, m ∈ mounts → above path m → m = r ∨ (String.length m < String.length r)%nat
  | Fault _ => ∀ m, m ∈ mounts → above path m → m = ""
  end.
Proof.
  unfold getMountPointOfFilesystem.
  pose proof (longest_mount_spec path mounts 0 "" (or_introl (conj eq_refl eq_refl))) as Hs.
  destruct (longest_mount path mounts 0 "") as [n r]. destruct Hs as (-> & _ & Hr & Hall).
  destruct (Nat.eqb_spec (String.length r) 0) as [E|E].
  - intros m Hm Ha. specialize (Hall m Hm Ha). destruct m; [done|]. cbn in Hall. lia.
  - assert (r ≠ "") as Hne by (by intros ->). destruct Hr as [->|[Hr Har]]; [done|].
    split; [done|]. split; [done|]. split; [done|]. intros m Hm Ha.
    destruct (decide (String.length m = String.length r)) as [El|El];
      [left|right; specialize (Hall m Hm Ha); lia].
    assert (chars m = chars r) as Ec.
    { destruct Ha as [k1 E1], Har as [k2 E2]. rewrite E1 in E2.
      apply app_inj_1 in E2 as [? _]; [done|]. by rewrite !length_chars. }
    rewrite <-(String.string_of_list_ascii_of_string m), <-(String.string_of_list_ascii_of_string r).
    unfold chars in Ec. by rewrite Ec.
Qed.
End PlaceholderFacts.
