(* ===== verification/Protocol.v ===== *)
(** * The data protocol between a program and the driver

    A program and the driver share an input and an output buffer of two halves
    each and tell each other over a socket what is in them. While the driver
    works on one half of each the program reads and writes the other ones, so
    their steps interleave. The driver's side is the round that
    [AgentRound.round_run] shows [SnapPipelineRunner::run] to make. *)
From S2P Require Import Prelude Messages Placeholder.

Module Protocol.
Import Placeholder.

Section Protocol.
(** The size of a half, and what the pipeline gives the sink in its [n]-th run. *)
Context (size : nat) (process : nat → list Z → list Z) (message : nat → string).

(** Program points: of the loop of the program (send, write, read, receive),
    and of a round of the driver (receive, read the input, write the output,
    send). *)
Inductive client_pc := CSend | CWrite | CRead | CRecv | CDone.

Inductive server_pc :=
  | SRecv
  | SRead (request : ProcessingRequest)
  | SWrite (request : ProcessingRequest) (input : list Z)
  | SSend (response : ProcessingResponse)
  | SDone.

Record config := Config {
  cg_client : client;
  cg_cpc : client_pc;
  cg_half : bool;                       (* the current half of both buffers *)
  cg_round : nat;
  cg_spc : server_pc;
  cg_in : halves;
  cg_out : halves;
  cg_requests : list ProcessingRequest; (* sent and not yet received *)
  cg_responses : list ProcessingResponse;
}.

(** What arrives in the sink, whose length is that of a half: no more than this. The
    pipeline is not run on an empty input. *)
Definition output_of (n : nat) (input : list Z) : list Z :=
  match input with [] => [] | _ => take size (process n input) end.

Inductive step : config → config → Prop :=
  | step_send c h n s i o rq rs :
      step (Config c CSend h n s i o rq rs)
           (Config c CWrite h n s i o (rq ++ option_list (tell_server c)) rs)
  | step_write c h n s i o rq rs :
      step (Config c CWrite h n s i o rq rs)
           (Config (print_message (write_output c o))
                   (if ps_eof (cl_response c) then CDone else CRead) h n s i o rq rs)
  | step_read c h n s i o rq rs :
      step (Config c CRead h n s i o rq rs)
           (Config (read_next size c i).1 CRecv h n s (read_next size c i).2 o rq rs)
  | step_receive c h n s i o rq r rs :
      step (Config c CRecv h n s i o rq (r :: rs))
           (Config (take_response r c) CSend h n s i o rq rs)
  | step_server_receive c p h n i o q rq rs :
      step (Config c p h n SRecv i o (q :: rq) rs)
           (Config c p h n (SRead q) i o rq rs)
  | step_server_read c p h n q i o rq rs :
      step (Config c p h n (SRead q) i o rq rs)
           (Config c p h n (SWrite q (take (Z.to_nat (pq_size q)) (i h))) i o rq rs)
  | step_server_write c p h n q input i o rq rs :
      let output := output_of n input in  (* at most a half *)
      step (Config c p h n (SWrite q input) i o rq rs)
           (Config c p (negb h) (S n)
              (SSend (MkProcessingResponse (Z.of_nat (length output)) (pq_eof q) (Some (message n))))
              i (store_half h output o) rq rs)
  | step_server_send c p h n r i o rq rs :
      step (Config c p h n (SSend r) i o rq rs)
           (Config c p h n (if ps_eof r then SDone else SRecv) i o rq (rs ++ [r])).

(** An accepted program that has read its first input. *)
Definition start (stdin : list Z) (i o : halves) : config :=
  let c := Client (Some false) (Some false) 0 false (MkProcessingResponse 0 false None) stdin [] "" in
  Config (read_input size c i).1 CSend false 0 SRecv (read_input size c i).2 o [] [].

Inductive reachable (σ0 : config) : config → Prop :=
  | reach_refl : reachable σ0 σ0
  | reach_step σ σ' : reachable σ0 σ → step σ σ' → reachable σ0 σ'.

(** ** The stream, cut into pieces *)

Context (stdin : list Z).

Definition chunk (k : nat) : list Z := take size (drop (k * size) stdin).
Definition chunk_output (k : nat) : list Z := output_of k (chunk k).
(** The index of the last piece, which is shorter than a half. *)
Definition final : nat := (length stdin / size)%nat.

Definition par (k : nat) : bool := Nat.odd k.

Definition holds (m : halves) (b : bool) (l : list Z) : Prop := take (length l) (m b) = l.

Definition request_at (k : nat) : ProcessingRequest :=
  MkProcessingRequest (Z.of_nat (length (chunk k))) (k =? final)%nat.
Definition response_at (k : nat) : ProcessingResponse :=
  MkProcessingResponse (Z.of_nat (length (chunk_output k))) (k =? final)%nat (Some (message k)).

(** What the program has written in the rounds before [k]. *)
Definition written (k : nat) : list Z := mjoin (chunk_output <$> seq 0 k).

(** ** The invariant *)

(** The program has read piece [k]. *)
Record client_has (k : nat) (c : client) : Prop := ClientHas {
  ch_input : cl_input c = Some (par (S k));
  ch_bytes : cl_bytesRead c = Z.of_nat (length (chunk k));
  ch_eof : cl_eof c = (k =? final)%nat;
  ch_infd : cl_infd c = drop (S k * size) stdin;
}.

(** Its last response is the one of the round before [k], which it has not
    written yet. *)
Record to_write (k : nat) (c : client) (o : halves) : Prop := ToWrite {
  tw_response : ps_eof (cl_response c) = false ∧
    match k with
    | O => ps_size (cl_response c) = 0
    | S j => ps_size (cl_response c) = Z.of_nat (length (chunk_output j)) ∧ holds o (par j) (chunk_output j)
    end;
  tw_output : cl_output c = Some (par (pred k));
  tw_stdout : cl_stdout c = written (pred k);
}.

Definition has_written (k : nat) (c : client) : Prop :=
  cl_output c = Some (par k) ∧ cl_stdout c = written k.

(** The program during round [k] of the driver. *)
Definition client_busy (k : nat) (pc : client_pc) (c : client) (i o : halves) : Prop :=
  match pc with
  | CWrite => client_has k c ∧ to_write k c o
  | CRead => client_has k c ∧ has_written k c ∧ ps_eof (cl_response c) = false
  | CRecv => has_written k c ∧
      (k < final → client_has (S k) c ∧ holds i (par (S k)) (chunk (S k)))%nat
  | _ => False
  end.

(** The driver in its round [k]. *)
Inductive server_busy (k : nat) (i o : halves) :
    bool → nat → server_pc → list ProcessingRequest → list ProcessingResponse → Prop :=
  | busy_receive : holds i (par k) (chunk k) →
      server_busy k i o (par k) k SRecv [request_at k] []
  | busy_read : holds i (par k) (chunk k) →
      server_busy k i o (par k) k (SRead (request_at k)) [] []
  | busy_write : server_busy k i o (par k) k (SWrite (request_at k) (chunk k)) [] []
  | busy_send : holds o (par k) (chunk_output k) →
      server_busy k i o (par (S k)) (S k) (SSend (response_at k)) [] []
  | busy_sent : holds o (par k) (chunk_output k) →
      server_busy k i o (par (S k)) (S k) (if (k =? final)%nat then SDone else SRecv) []
        [response_at k].

(** [inv k]: the program has received the responses of the rounds before [k]. *)
Inductive inv : nat → config → Prop :=
  | inv_send k c i o : (k ≤ final)%nat → client_has k c → to_write k c o →
      holds i (par k) (chunk k) →
      inv k (Config c CSend (par k) k SRecv i o [] [])
  | inv_busy k pc c h n s i o rq rs : (k ≤ final)%nat → client_busy k pc c i o →
      server_busy k i o h n s rq rs →
      inv k (Config c pc h n s i o rq rs)
  | inv_last pc c h n i o : pc = CSend ∨ pc = CWrite →
      cl_response c = response_at final → has_written final c →
      holds o (par final) (chunk_output final) →
      inv (S final) (Config c pc h n SDone i o [] [])
  | inv_done c h n i o : cl_stdout c = written (S final) →
      inv (S final) (Config c CDone h n SDone i o [] []).

(** Steps left to the program and to the driver. *)
Definition client_rank (k : nat) (pc : client_pc) : nat :=
  let left := (4 * (S final - k))%nat in
  match pc with
  | CSend => left + 2 | CWrite => left + 1 | CRead => left | CRecv => left - 1 | CDone => 0
  end.

Definition server_rank (n : nat) (s : server_pc) : nat :=
  let left := (4 * (S final - n))%nat in
  match s with
  | SRecv => left | SRead _ => left - 1 | SWrite _ _ => left - 2 | SSend _ => left + 1
  | SDone => 0
  end.

Definition rank (k : nat) (g : config) : nat :=
  (client_rank k (cg_cpc g) + server_rank (cg_round g) (cg_spc g))%nat.
End Protocol.

Section Proofs.
Context (size : nat) (process : nat → list Z → list Z) (message : nat → string).
Context (stdin : list Z).
Abbreviation final := (final size stdin).
Abbreviation chunk := (chunk size stdin).
Abbreviation chunk_output := (chunk_output size process stdin).
Abbreviation inv := (inv size process message stdin).
Abbreviation step := (step size process message).
Context (Hsize : (0 < size)%nat).
Context (Hfull : ∀ k, (k < final)%nat → chunk_output k ≠ []).

(** Every write stays within its half. *)
Definition within (m : halves) : Prop := ∀ b, length (m b) = size.

Lemma output_length n input : (length (output_of size process n input) ≤ size)%nat.
Proof. unfold output_of. destruct input; [cbn; lia|]. rewrite length_take. lia. Qed.

Lemma store_within b l m : (length l ≤ size)%nat → within m → within (store_half b l m).
Proof.
  intros Hl Hm b'. unfold store_half. case_decide; [|apply Hm].
  rewrite length_app, length_drop, Hm. lia.
Qed.

Lemma step_within σ σ' : step σ σ' → within (cg_in σ) → within (cg_out σ) →
  within (cg_in σ') ∧ within (cg_out σ').
Proof.
  intros [] Hi Ho; cbn [cg_in cg_out] in *; try done.
  - split; [|done]. unfold read_next, read_input. destruct (cl_eof c), (cl_input c); cbn [negb snd]; try done.
    apply store_within; [rewrite length_take; lia|done].
  - split; [done|]. by apply store_within; [apply output_length|].
Qed.

Lemma start_within i o σ : within i → within o →
  reachable size process message (start size stdin i o) σ → within (cg_in σ) ∧ within (cg_out σ).
Proof.
  intros Hi Ho. induction 1 as [|σ σ' _ [IHi IHo] Hstep]; [|by apply (step_within σ)].
  split; [|done]. cbn. apply store_within; [rewrite length_take; lia|done].
Qed.

Lemma par_S k : par (S k) = negb (par k).
Proof. unfold par. by rewrite Nat.odd_succ, <-Nat.negb_odd. Qed.

Lemma par_ne k : par (S k) ≠ par k.
Proof. rewrite par_S. by destruct (par k). Qed.

Lemma holds_store b l m : holds (store_half b l m) b l.
Proof. unfold holds, store_half. rewrite decide_True by done. apply take_app_length. Qed.

Lemma holds_store_ne b b' l l' m : b ≠ b' → holds m b l → holds (store_half b' l' m) b l.
Proof. intros Hb Hm. unfold holds, store_half. by rewrite decide_False. Qed.

(** [fread] of a half takes the next piece, the last one with [feof]. *)
Lemma chunk_length k :
  length (chunk k) = Nat.min size (length stdin - k * size).
Proof. unfold Protocol.chunk. by rewrite length_take, length_drop. Qed.

Lemma chunk_eof k : (k ≤ final)%nat →
  (length (drop (k * size) stdin) <? size)%nat = (k =? final)%nat.
Proof.
  intros Hk. rewrite length_drop. unfold Protocol.final in *.
  pose proof (Nat.div_mod_eq (length stdin) size) as Hd.
  pose proof (Nat.mod_upper_bound (length stdin) size ltac:(lia)) as Hm.
  destruct (Nat.eqb_spec k (length stdin / size)) as [->|Hne].
  - apply Nat.ltb_lt. nia.
  - apply Nat.ltb_ge. nia.
Qed.

Lemma written_S k : written size process stdin (S k) = written size process stdin k ++ chunk_output k.
Proof.
  unfold written. rewrite seq_S, fmap_app, join_app. cbn. by rewrite app_nil_r.
Qed.

(** Writing what the last round left takes the program to the next one. *)
Lemma write_previous k c o :
  (k ≤ final)%nat → to_write size process stdin k c o →
  has_written size process stdin k (print_message (write_output c o)) ∧
  ps_eof (cl_response (print_message (write_output c o))) = false ∧
  (∀ j, client_has size stdin j c → client_has size stdin j (print_message (write_output c o))).
Proof.
  intros Hk [[Heof Hr] Hout Hstd].
  assert (has_written size process stdin k (write_output c o) ∧
    ps_eof (cl_response (write_output c o)) = false ∧
    (∀ j, client_has size stdin j c → client_has size stdin j (write_output c o))) as Hw.
  { unfold write_output. rewrite Hout. destruct k as [|j].
    - rewrite Hr. cbn. split; [by split|]. done.
    - destruct Hr as [Hr Ho]. cbn [pred] in *. rewrite Hr.
      assert (length (chunk_output j) ≠ 0)%nat as Hne by (intros ?%nil_length_inv; by apply (Hfull j ltac:(lia))).
      rewrite (proj2 (Z.eqb_neq _ _)) by lia. cbn [negb]. split; [|split; [done|]].
      + split; cbn [cl_output cl_stdout]; [by rewrite par_S|]. rewrite Hstd, written_S, Nat2Z.id. by rewrite Ho.
      + intros q [? ? ? ?]. by split. }
  unfold print_message. destruct (ps_message _); [|done].
  destruct Hw as ([? ?] & ? & Hj). split; [by split|]. split; [done|].
  intros q [? ? ? ?]%Hj. by split.
Qed.

(** Writing the last round completes the output, also when it has none. *)
Lemma write_last c o : cl_response c = response_at size process message stdin final →
  has_written size process stdin final c → holds o (par final) (chunk_output final) →
  cl_stdout (print_message (write_output c o)) = written size process stdin (S final).
Proof.
  intros Hr [Hout Hstd] Ho. rewrite written_S.
  assert (cl_stdout (print_message (write_output c o)) = cl_stdout (write_output c o)) as ->
    by (unfold print_message; by destruct (ps_message _)).
  unfold write_output. rewrite Hout, Hr. cbn [ps_size response_at].
  destruct (Z.eqb_spec (Z.of_nat (length (chunk_output final))) 0) as [E|E]; cbn [negb].
  - rewrite (nil_length_inv (chunk_output final)) by lia. by rewrite Hstd, app_nil_r.
  - cbn [cl_stdout]. rewrite Hstd, Nat2Z.id. by rewrite Ho.
Qed.

(** Reading on changes only the half the driver does not use. *)
Lemma read_next_piece k c i : (k ≤ final)%nat → client_has size stdin k c →
  let '(c', i') := read_next size c i in
  (k < final → client_has size stdin (S k) c' ∧ holds i' (par (S k)) (chunk (S k)))%nat ∧
  cl_output c' = cl_output c ∧ cl_stdout c' = cl_stdout c ∧
  ∀ l, holds i (par k) l → holds i' (par k) l.
Proof.
  intros Hk [Hin Hb He Hfd]. unfold read_next. rewrite He.
  destruct (Nat.eqb_spec k final) as [->|Hne]; cbn [negb].
  { split; [lia|]. done. }
  unfold read_input. rewrite Hin, Hfd. split; [|split; [done|split; [done|]]].
  - intros Hlt. split; [|apply holds_store]. split; cbn [cl_input cl_bytesRead cl_eof cl_infd].
    + by rewrite (par_S (S k)).
    + done.
    + by rewrite chunk_eof.
    + rewrite drop_drop. f_equal. lia.
  - intros l Hl. apply holds_store_ne; [|done]. intros E. by apply (par_ne k).
Qed.

Lemma start_inv i o : inv 0 (start size stdin i o).
Proof.
  unfold start. cbn [read_input cl_input fst snd].
  apply inv_send; [lia| | |].
  - split; cbn [cl_input cl_bytesRead cl_eof cl_infd]; [done|done| |].
    + rewrite <-(chunk_eof 0) by lia. done.
    + by rewrite Nat.mul_1_l.
  - by split.
  - apply holds_store.
Qed.

Lemma response_again k c o r : to_write size process stdin k c o → client_has size stdin k c →
  client_has size stdin k (take_response r c).
Proof. intros _ [? ? ? ?]. by split. Qed.

(** The driver's steps keep what the program relies on. *)
Lemma client_busy_store k pc c i o l :
  client_busy size process stdin k pc c i o →
  client_busy size process stdin k pc c i (store_half (par k) l o).
Proof.
  destruct pc; try done. intros [Hc [[He Hr] Ho Hs]]. split; [done|]. split; [|done|done].
  split; [done|]. destruct k as [|j]; [done|]. destruct Hr as [Hr Hh]. split; [done|].
  apply holds_store_ne; [|done]. intros E. by apply (par_ne j).
Qed.

(** The cases of the invariant that fit the program points. *)
Ltac inv_cases H :=
  inversion H as [k c' i' o' Hk Hc Hw Hi|k pc c' h' n' s' i' o' rq' rs' Hk Hb Hs
                 |pc c' h' n' i' o' Hpc Hr Hw Ho|c' h' n' i' o' Hd];
  subst; try done; try (by destruct Hb); try (by destruct Hpc).

Ltac ranked := unfold rank, client_rank, server_rank; cbn [cg_cpc cg_round cg_spc]; lia.

(** The driver stays in its round. *)
Ltac same_round :=
  match goal with H : (?q ≤ _)%nat |- _ => exists q; split; cycle 1 end.

Lemma step_inv σ σ' p : step σ σ' → inv p σ →
  ∃ q, inv q σ' ∧ (rank size stdin q σ' < rank size stdin p σ)%nat.
Proof.
  intros Hstep Hinv. destruct Hstep.
  - (* the program sends *)
    inv_cases Hinv.
    + same_round; [ranked|]. apply inv_busy; [done|by split|].
      replace ([] ++ option_list (tell_server c)) with [request_at size stdin n]; [by constructor|].
      unfold tell_server. rewrite (proj1 (tw_response _ _ _ _ _ _ Hw)). destruct Hc as [? Hb He ?].
      cbn. by rewrite Hb, He.
    + assert (tell_server c = None) as ->.
      { unfold tell_server. rewrite Hr. cbn. by rewrite Nat.eqb_refl. }
      eexists; split; [by apply inv_last; auto|ranked].
  - (* the program writes *)
    inv_cases Hinv.
    + destruct Hb as [Hc Hw]. destruct (write_previous _ c o Hk Hw) as (Hwr & He & Hcl).
      rewrite (proj1 (tw_response _ _ _ _ _ _ Hw)).
      same_round; [ranked|]. apply inv_busy; [done| |done]. split; [by apply Hcl|]. by split.
    + assert (ps_eof (cl_response c) = true) as -> by (rewrite Hr; apply Nat.eqb_refl).
      exists (S final); split; [|ranked]. by apply inv_done, write_last.
  - (* the program reads *)
    inv_cases Hinv.
    destruct Hb as (Hc & Hw & He). pose proof (read_next_piece _ c i Hk Hc) as Hr.
    destruct (read_next size c i) as [c2 i2] eqn:E. cbn [fst snd].
    destruct Hr as (Hnext & Ho & Hstd & Hold).
    same_round; [ranked|]. apply inv_busy; [done| |].
    + split; [|done]. destruct Hw. split; congruence.
    + destruct Hs; constructor; auto.
  - (* the program receives *)
    inv_cases Hinv.
    destruct Hb as [Hw Hnext]. inversion Hs; subst. clear Hs Hinv.
    destruct (Nat.eqb_spec p final) as [->|Hne].
    + exists (S final). split; [|ranked]. apply inv_last; [by left|done| |done]. by destruct Hw.
    + destruct Hnext as [Hc Hi]; [lia|]. destruct Hc, Hw.
      exists (S p). split; [|ranked]. apply inv_send; [lia|by split| |done].
      split; [|done|done]. split; [by apply Nat.eqb_neq|done].
  - (* the driver receives *)
    inv_cases Hinv.
    inversion Hs; subst. eexists; split; [apply inv_busy; [done|done|by constructor]|ranked].
  - (* the driver reads *)
    inv_cases Hinv.
    inversion Hs as [|Hh| | |Hh E1 E2 E3]; subst; [|by destruct (_ =? final)%nat].
    cbn [pq_size request_at]. rewrite Nat2Z.id, Hh.
    eexists; split; [apply inv_busy; [done|done|by constructor]|ranked].
  - (* the driver writes *)
    inv_cases Hinv.
    inversion Hs as [| | | |Hh E1 E2 E3]; subst; [|by destruct (_ =? final)%nat].
    same_round; [ranked|]. apply inv_busy; [done|by apply client_busy_store|].
    rewrite <-par_S. apply busy_send, holds_store.
  - (* the driver sends *)
    inv_cases Hinv.
    inversion Hs as [| | |Hh|Hh E1 E2 E3]; subst; [|by destruct (_ =? final)%nat].
    eexists; split; [apply inv_busy; [done|done|by apply busy_sent]|].
    unfold rank, client_rank, server_rank. cbn [cg_cpc cg_round cg_spc ps_eof response_at].
    destruct (_ =? final)%nat; lia.
Qed.

(** A configuration that is not final can go on. *)
Lemma inv_progress k σ : inv k σ → cg_cpc σ ≠ CDone → ∃ σ', step σ σ'.
Proof.
  intros Hinv Hpc. destruct Hinv as [k c i o Hk Hc Hw Hi|k pc c h n s i o rq rs Hk Hb Hs|pc c h n i o [->| ->]|];
    try done; try (eexists; constructor).
  destruct pc; try done; try (eexists; constructor).
  destruct Hs; try (eexists; constructor).
Qed.

Lemma reachable_inv i o σ : reachable size process message (start size stdin i o) σ → ∃ k, inv k σ.
Proof.
  induction 1 as [|σ σ' _ [k IH] Hstep]; [exists 0%nat; apply start_inv|].
  destruct (step_inv _ _ _ Hstep IH) as (q & ? & _). by exists q.
Qed.

(** The pieces make up the input. *)
Lemma chunks_join : ∀ k, mjoin (chunk <$> seq 0 k) = take (k * size) stdin.
Proof.
  induction k as [|k IH]; [done|]. rewrite seq_S, fmap_app, join_app, IH. cbn. rewrite app_nil_r.
  unfold Protocol.chunk. rewrite take_take_drop. f_equal. lia.
Qed.

(** All steps end. *)
Inductive steps : nat → config → config → Prop :=
  | steps_none σ : steps 0 σ σ
  | steps_more n σ σ' σ'' : step σ σ' → steps n σ' σ'' → steps (S n) σ σ''.

Lemma steps_bounded n σ σ' : steps n σ σ' → ∀ k, inv k σ → (n ≤ rank size stdin k σ)%nat.
Proof.
  induction 1 as [|n σ σ' σ'' Hstep _ IH]; intros k Hinv; [lia|].
  destruct (step_inv _ _ _ Hstep Hinv) as (q & Hq & Hlt). specialize (IH q Hq). lia.
Qed.
End Proofs.

(** C2: a program and the driver, working on the two halves of their shared
    buffers at the same time, move the whole input through the pipeline in
    every interleaving of their steps: they never wait for each other for
    ever, stop after at most eight steps per piece and two more, and the
    program has then written exactly the outputs of the pipeline for the
    successive pieces of its input, provided only the last piece has no
    output. An output is what arrives in the sink, at most a half; no half is ever
    written beyond its end. *)
Theorem stream_delivered (size : nat) (process : nat → list Z → list Z) (message : nat → string)
    (stdin : list Z) i o :
  (0 < size)%nat →
  (∀ k, (k < final size stdin)%nat → chunk_output size process stdin k ≠ []) →
  (∀ σ, reachable size process message (start size stdin i o) σ →
    (cg_cpc σ = CDone →
       cl_stdout (cg_client σ)
       = mjoin (chunk_output size process stdin <$> seq 0 (S (final size stdin)))) ∧
    (cg_cpc σ ≠ CDone → ∃ σ', step size process message σ σ')) ∧
  (∀ n σ, steps size process message n (start size stdin i o) σ →
    (n ≤ 8 * S (final size stdin) + 2)%nat) ∧
  mjoin (chunk size stdin <$> seq 0 (S (final size stdin))) = stdin ∧
  (within size i → within size o →
   ∀ σ, reachable size process message (start size stdin i o) σ →
     within size (cg_in σ) ∧ within size (cg_out σ)).
Proof.
  intros Hsize Hfull. split; [|split; [|split]].
  - intros σ Hσ. destruct (reachable_inv size process message stdin Hsize Hfull i o σ Hσ) as [k Hinv].
    split; [|by eapply inv_progress].
    intros Hdone. destruct Hinv as [|k pc c h n s i' o' rq rs _ Hb|pc c h n i' o' [->| ->]|]; try done.
    by destruct pc.
  - intros n σ Hn. pose proof (steps_bounded size process message stdin Hsize Hfull _ _ _ Hn 0
      (start_inv size process message stdin Hsize i o)) as Hb.
    unfold rank, client_rank, server_rank, start in Hb. cbn [cg_cpc cg_round cg_spc] in Hb. lia.
  - rewrite chunks_join by done. apply take_ge. unfold final.
    pose proof (Nat.div_mod_eq (length stdin) size).
    pose proof (Nat.mod_upper_bound (length stdin) size ltac:(lia)). lia.
  - intros Hi Ho σ. by apply start_within.
Qed.

(** ** Instances *)

Module Demo.
(** A pipeline that passes its input on, halves of two bytes. *)
Definition pass : nat → list Z → list Z := λ _ l, l.
(** One that drops zeros. *)
Definition nonzero : nat → list Z → list Z := λ _ l, List.filter (λ b, negb (b =? 0)) l.
Definition blank : halves := λ _, [0; 0].

(** Strictly one after the other: the driver works when the program waits. *)
Definition advance (process : nat → list Z → list Z) (g : config) : config :=
  let '(Config c pc h n s i o rq rs) := g in
  match pc with
  | CSend => Config c CWrite h n s i o (rq ++ option_list (tell_server c)) rs
  | CWrite => Config (print_message (write_output c o))
                (if ps_eof (cl_response c) then CDone else CRead) h n s i o rq rs
  | CRead => Config (read_next 2 c i).1 CRecv h n s (read_next 2 c i).2 o rq rs
  | _ =>
      match s, rq, rs with
      | SRecv, q :: rq, _ => Config c pc h n (SRead q) i o rq rs
      | SRead q, _, _ => Config c pc h n (SWrite q (take (Z.to_nat (pq_size q)) (i h))) i o rq rs
      | SWrite q input, _, _ =>
          let output := output_of 2 process n input in
          Config c pc (negb h) (S n)
            (SSend (MkProcessingResponse (Z.of_nat (length output)) (pq_eof q) (Some ""))) i
            (store_half h output o) rq rs
      | SSend r, _, _ => Config c pc h n (if ps_eof r then SDone else SRecv) i o rq (rs ++ [r])
      | _, _, r :: rs =>
          match pc with CRecv => Config (take_response r c) CSend h n s i o rq rs | _ => g end
      | _, _, [] => g
      end
  end.

Definition result process stdin : client_pc * list Z :=
  let g := Nat.iter 40 (advance process) (start 2 stdin blank blank) in
  (cg_cpc g, cl_stdout (cg_client g)).
End Demo.

Section Witnesses.
(** [advance] takes steps, if any. *)
Lemma advance_steps process g :
  Demo.advance process g = g ∨ step 2 process (λ _, "") g (Demo.advance process g).
Proof.
  destruct g as [c pc h n s i o rq rs].
  destruct pc; [right; constructor|right; constructor|right; constructor| |];
    (destruct s; [destruct rq; [destruct rs|]|..|destruct rs]);
    try (right; constructor); by left.
Qed.

Lemma advance_reachable process σ0 n :
  reachable 2 process (λ _, "") σ0 (Nat.iter n (Demo.advance process) σ0).
Proof.
  induction n as [|n IH]; [constructor|]. rewrite Nat.iter_succ.
  destruct (advance_steps process (Nat.iter n (Demo.advance process) σ0)) as [->|Hs]; [done|].
  by eapply reach_step.
Qed.

Lemma stream_delivered_witness :
  (∀ σ, reachable 2 Demo.pass (λ _, "") (start 2 [1; 2; 3; 4; 5] Demo.blank Demo.blank) σ →
    (cg_cpc σ = CDone →
       cl_stdout (cg_client σ) = mjoin (chunk_output 2 Demo.pass [1; 2; 3; 4; 5] <$> seq 0 3)) ∧
    (cg_cpc σ ≠ CDone → ∃ σ', step 2 Demo.pass (λ _, "") σ σ')) ∧
  (∀ n σ, steps 2 Demo.pass (λ _, "") n (start 2 [1; 2; 3; 4; 5] Demo.blank Demo.blank) σ →
    (n ≤ 26)%nat) ∧
  mjoin (chunk 2 [1; 2; 3; 4; 5] <$> seq 0 3) = [1; 2; 3; 4; 5] ∧
  ∀ σ, reachable 2 Demo.pass (λ _, "") (start 2 [1; 2; 3; 4; 5] Demo.blank Demo.blank) σ →
    within 2 (cg_in σ) ∧ within 2 (cg_out σ).
Proof.
  destruct (stream_delivered 2 Demo.pass (λ _, "") [1; 2; 3; 4; 5] Demo.blank Demo.blank)
    as (Hall & Hsteps & Hjoin & Hin); [lia| |split; [exact Hall|split; [exact Hsteps|split; [exact Hjoin|apply Hin; by intros []]]]].
  intros k Hk. change (final 2 [1; 2; 3; 4; 5]) with 2%nat in Hk.
  destruct k as [|[|k]]; [by vm_compute|by vm_compute|lia].
Defined.

(** when a piece other than the last has no output, data is lost: the
    driver changes the half of the output buffer after every round, the
    program only after a response with data. A pipeline that drops zeros
    delivers 1, 2, what the other half held before (zeros here), and 5 for the input
    1, 2, 0, 0, 5, 6, 7 in halves of two. *)
Theorem empty_output_loses_data :
  ∃ σ, reachable 2 Demo.nonzero (λ _, "")
         (start 2 [1; 2; 0; 0; 5; 6; 7] Demo.blank Demo.blank) σ ∧
    cg_cpc σ = CDone ∧ cl_stdout (cg_client σ) = [1; 2; 0; 0; 5] ∧
    mjoin (chunk_output 2 Demo.nonzero [1; 2; 0; 0; 5; 6; 7] <$> seq 0 4) = [1; 2; 5; 6; 7].
Proof.
  exists (Nat.iter 40 (Demo.advance Demo.nonzero)
    (start 2 [1; 2; 0; 0; 5; 6; 7] Demo.blank Demo.blank)).
  split; [apply advance_reachable|]. by vm_compute.
Qed.
End Witnesses.
End Protocol.
