(* ===== verification/Streams.v ===== *)
(** * Operators on streams (stream.h, hls_streamgen.cpp, changecase.cpp)

    A stream carries elements of [STREAM_BYTES] bytes, each with a bit that
    says whether the byte counts and a flag on the last element. [Streams] has
    the generator, the example operator changecase and the two templates that
    move a stream by a number of bytes; [StreamFacts] says what they do to the
    bytes that count. A stream is the list of elements still to be read; to read
    from an empty one blocks. *)
From S2P Require Import Prelude.

Module Streams.

(** [sizeof(element.data)] with the default width. *)
Definition STREAM_BYTES : Z := 8.

Record mtl_stream_element : Type := Element {
  data : Z;    (** ap_uint<8 * STREAM_BYTES> *)
  keep : Z;    (** ap_uint<STREAM_BYTES> *)
  last : bool;
}.

(** [x(hi, lo)] of an [ap_uint], read and assigned. *)
Definition range (x hi lo : Z) : Z := Z.land (Z.shiftr x lo) (Z.ones (hi - lo + 1)).
Definition set_range (x hi lo v : Z) : Z :=
  Z.lor (Z.ldiff x (Z.shiftl (Z.ones (hi - lo + 1)) lo))
        (Z.shiftl (Z.land v (Z.ones (hi - lo + 1))) lo).

(** ** hls_streamgen *)

Fixpoint streamgen_loop (fuel : nat) (length bytes_written : Z)
    (element : mtl_stream_element) : result (list mtl_stream_element) :=
  match fuel with
  | O => Fault OutOfFuel
  | S fuel =>
      let bytes_written := u32 (bytes_written + STREAM_BYTES) in
      let element :=
        if length <=? bytes_written
        then Element (data element) (Z.shiftr (keep element) (bytes_written - length)) true
        else element in
      if last element then Ok [element]
      else out ← streamgen_loop fuel length bytes_written element; Ok (element :: out)
  end.

Definition hls_streamgen (fuel : nat) (length : Z) : result (list mtl_stream_element) :=
  streamgen_loop fuel length 0 (Element 0 (wrap STREAM_BYTES (Z.lnot 0)) false).

(** ** hls_streamsink *)

(** It takes every element there is and waits for the next one. *)
Fixpoint hls_streamsink (input : list mtl_stream_element) : result unit :=
  match input with
  | [] => Fault WouldBlock
  | _ :: input => hls_streamsink input
  end.

(** ** changecase *)

Definition to_upper (keep data i : Z) : Z :=
  let tmp := range data (i * 8 + 7) (i * 8) in
  if (97 <=? tmp) && (tmp <=? 122) && Z.testbit keep i
  then set_range data (i * 8 + 7) (i * 8) (tmp - 32) else data.

Definition to_lower (keep data i : Z) : Z :=
  let tmp := range data (i * 8 + 7) (i * 8) in
  if (65 <=? tmp) && (tmp <=? 90) && Z.testbit keep i
  then set_range data (i * 8 + 7) (i * 8) (tmp + 32) else data.

Definition change_element (mode : Z) (element : mtl_stream_element) : mtl_stream_element :=
  let lane := if mode =? 0 then to_upper else to_lower in
  Element (foldl (lane (keep element)) (data element) (seqZ 0 STREAM_BYTES))
          (keep element) (last element).

(** Returns what was written and what is left in the input. *)
Fixpoint changecase (mode : Z) (input : list mtl_stream_element) :
    result (list mtl_stream_element * list mtl_stream_element) :=
  match input with
  | [] => Fault WouldBlock
  | element :: input =>
      let element := change_element mode element in
      if last element then Ok ([element], input)
      else '(out, input) ← changecase mode input; Ok (element :: out, input)
  end.

(** ** insert_padding and remove_padding

    [bytes] is the parameter of the templates. *)

Section Padding.
Context (bytes : Z).

Definition zero_element : mtl_stream_element := Element 0 0 false.

(** The upper part of the element to write, from the lower part of the one read. *)
Definition fill_current (current element : mtl_stream_element) : mtl_stream_element :=
  Element
    (set_range (data current) (STREAM_BYTES * 8 - 1) (bytes * 8)
       (range (data element) ((STREAM_BYTES - bytes) * 8 - 1) 0))
    (set_range (keep current) (STREAM_BYTES - 1) bytes
       (range (keep element) (STREAM_BYTES - bytes - 1) 0))
    (last current).

(** The rest of the element read. *)
Definition fill_next (next element : mtl_stream_element) : mtl_stream_element :=
  Element
    (set_range (data next) (bytes * 8 - 1) 0
       (range (data element) (STREAM_BYTES * 8 - 1) ((STREAM_BYTES - bytes) * 8)))
    (set_range (keep next) (bytes - 1) 0
       (range (keep element) (STREAM_BYTES - 1) (STREAM_BYTES - bytes)))
    (last next).

Fixpoint insert_loop (current next : mtl_stream_element) (input : list mtl_stream_element) :
    result (list mtl_stream_element * mtl_stream_element * list mtl_stream_element) :=
  match input with
  | [] => Fault WouldBlock
  | element :: input =>
      let current := fill_current current element in
      let next := fill_next next element in
      let current := Element (data current) (keep current) (last element && (keep next =? 0)) in
      if last element then Ok ([current], next, input)
      else '(out, n, input) ← insert_loop next next input; Ok (current :: out, n, input)
  end.

Definition insert_padding (input : list mtl_stream_element) :
    result (list mtl_stream_element * list mtl_stream_element) :=
  '(out, next, input) ← insert_loop zero_element zero_element input;
  if negb (keep next =? 0)
  then Ok (out ++ [Element (data next) (keep next) true], input)
  else Ok (out, input).

(** The upper part of the previous element, then the lower one of this. *)
Definition fill_out (out previous current : mtl_stream_element) : mtl_stream_element :=
  Element
    (set_range
       (set_range (data out) ((STREAM_BYTES - bytes) * 8 - 1) 0
          (range (data previous) (STREAM_BYTES * 8 - 1) (bytes * 8)))
       (STREAM_BYTES * 8 - 1) ((STREAM_BYTES - bytes) * 8)
       (range (data current) (bytes * 8 - 1) 0))
    (set_range
       (set_range (keep out) (STREAM_BYTES - bytes - 1) 0
          (range (keep previous) (STREAM_BYTES - 1) bytes))
       (STREAM_BYTES - 1) (STREAM_BYTES - bytes)
       (range (keep current) (bytes - 1) 0))
    (last current && (range (keep current) (STREAM_BYTES - 1) bytes =? 0)).

(** What is left of the last element once its lower part is written. *)
Definition flushed (current : mtl_stream_element) : mtl_stream_element :=
  Element (Z.shiftr (data current) (bytes * 8)) (Z.shiftr (keep current) bytes) (last current).

(** The variables are not initialised: [previous] and [out] start from
    whatever is there. *)
Fixpoint remove_padding_loop (out previous : mtl_stream_element) (previous_valid : bool)
    (input : list mtl_stream_element) :
    result (list mtl_stream_element * list mtl_stream_element) :=
  match input with
  | [] => Fault WouldBlock
  | current :: input =>
      let out := fill_out out previous current in
      let flush := last current && negb (last out) in
      let current := if flush then flushed current else current in
      let written := (if previous_valid || last out then [out] else []) ++
                     (if flush then [current] else []) in
      if last current then Ok (written, input)
      else '(more, input) ← remove_padding_loop out current true input; Ok (written ++ more, input)
  end.

Definition remove_padding (out previous : mtl_stream_element)
    (input : list mtl_stream_element) :
    result (list mtl_stream_element * list mtl_stream_element) :=
  remove_padding_loop out previous false input.
End Padding.

(** ** What a stream means *)

Definition byte_at (d i : Z) : Z := range d (i * 8 + 7) (i * 8).

(** Byte [i] of an element, with whether it counts. *)
Definition lane (e : mtl_stream_element) (i : Z) : bool * Z :=
  (Z.testbit (keep e) i, byte_at (data e) i).

Definition lanes (e : mtl_stream_element) : list (bool * Z) :=
  lane e <$> seqZ 0 STREAM_BYTES.

Definition kept (l : list (bool * Z)) : list Z :=
  omap (λ p : bool * Z, if p.1 then Some p.2 else None) l.

Definition payload (es : list mtl_stream_element) : list Z := kept (es ≫= lanes).

Definition typed (e : mtl_stream_element) : Prop := 0 ≤ keep e < 2 ^ STREAM_BYTES.

(** A whole stream: exactly its last element is marked. *)
Inductive whole : list mtl_stream_element → Prop :=
  | whole_last e : typed e → last e = true → whole [e]
  | whole_more e es : typed e → last e = false → whole es → whole (e :: es).
End Streams.

Module StreamFacts.
Import Streams.

(** ** Bits and bytes of slices *)

Lemma testbit_range x hi lo n : 0 ≤ lo → 0 ≤ n → lo ≤ hi + 1 →
  Z.testbit (range x hi lo) n = Z.testbit x (n + lo) && (n <? hi - lo + 1).
Proof.
  intros. unfold range. rewrite Z.land_spec, Z.shiftr_spec by lia.
  f_equal. destruct (Z.ltb_spec n (hi - lo + 1));
    [apply Z.ones_spec_low|apply Z.ones_spec_high]; lia.
Qed.

Lemma testbit_set_range x hi lo v n : 0 ≤ lo → 0 ≤ n → lo ≤ hi + 1 →
  Z.testbit (set_range x hi lo v) n =
    if (lo <=? n) && (n <=? hi) then Z.testbit v (n - lo) else Z.testbit x n.
Proof.
  intros. unfold set_range.
  rewrite Z.lor_spec, Z.ldiff_spec, !Z.shiftl_spec, Z.land_spec by lia.
  destruct (Z.leb_spec lo n), (Z.leb_spec n hi); cbn.
  - rewrite !Z.ones_spec_low by lia. by rewrite andb_false_r, andb_true_r.
  - rewrite !Z.ones_spec_high by lia. by rewrite !andb_true_r, andb_false_r, orb_false_r.
  - rewrite !(Z.testbit_neg_r _ (n - lo)) by lia. by rewrite andb_true_r, orb_false_r.
  - rewrite !(Z.testbit_neg_r _ (n - lo)) by lia. by rewrite andb_true_r, orb_false_r.
Qed.

Ltac bits := apply Z.bits_inj'; intros b Hb; unfold byte_at;
  repeat (first [rewrite testbit_range by lia | rewrite testbit_set_range by lia |
                 rewrite Z.shiftr_spec by lia]).

(** Bytes of a slice that starts and ends at a byte. *)
Lemma byte_at_range d hi lo h l i : lo = 8 * l → hi = 8 * h - 1 →
  0 ≤ l ≤ h → 0 ≤ i < h - l → byte_at (range d hi lo) i = byte_at d (i + l).
Proof.
  intros -> -> ??. bits. destruct (Z.ltb_spec b (i * 8 + 7 - i * 8 + 1)).
  - destruct (Z.ltb_spec b ((i + l) * 8 + 7 - (i + l) * 8 + 1)); [|lia].
    destruct (Z.ltb_spec (b + i * 8) (8 * h - 1 - 8 * l + 1)); [|lia].
    rewrite !andb_true_r. f_equal. lia.
  - destruct (Z.ltb_spec b ((i + l) * 8 + 7 - (i + l) * 8 + 1)); [lia|].
    by rewrite !andb_false_r.
Qed.

Lemma byte_at_set_range d hi lo h l v i : lo = 8 * l → hi = 8 * h - 1 →
  0 ≤ l ≤ h → 0 ≤ i → byte_at (set_range d hi lo v) i =
    if (l <=? i) && (i <? h) then byte_at v (i - l) else byte_at d i.
Proof.
  intros -> -> ??.
  destruct (Z.leb_spec l i), (Z.ltb_spec i h); cbn [andb]; bits;
    (destruct (Z.ltb_spec b (i * 8 + 7 - i * 8 + 1));
      [rewrite ?andb_true_r|rewrite ?andb_false_r]);
    try (destruct (Z.ltb_spec b ((i - l) * 8 + 7 - (i - l) * 8 + 1)); [|lia]);
    try (destruct (Z.leb_spec (8 * l) (b + i * 8)), (Z.leb_spec (b + i * 8) (8 * h - 1));
         try lia; cbn [andb]; rewrite ?andb_true_r; f_equal; lia).
  all: try done.
  all: destruct (Z.ltb_spec b ((i - l) * 8 + 7 - (i - l) * 8 + 1)); [lia|].
  all: by rewrite ?andb_false_r.
Qed.

Lemma byte_at_shiftr d k i : 0 ≤ k → 0 ≤ i →
  byte_at (Z.shiftr d (k * 8)) i = byte_at d (i + k).
Proof.
  intros. bits.
  replace (i * 8 + 7 - i * 8 + 1) with ((i + k) * 8 + 7 - (i + k) * 8 + 1) by lia.
  f_equal. f_equal. lia.
Qed.

Lemma payload_cons e es : payload (e :: es) = kept (lanes e) ++ payload es.
Proof. unfold payload, kept. cbn [mbind list_bind]. apply omap_app. Qed.

(** ** The generator *)

Definition full : mtl_stream_element := Element 0 (wrap STREAM_BYTES (Z.lnot 0)) false.

Lemma payload_cut s : 0 ≤ s ≤ 8 →
  payload [Element 0 (Z.shiftr (keep full) s) true] = replicate (Z.to_nat (8 - s)) 0.
Proof.
  intros. assert (s = 0 ∨ s = 1 ∨ s = 2 ∨ s = 3 ∨ s = 4 ∨ s = 5 ∨ s = 6 ∨ s = 7 ∨ s = 8) as Hs by lia.
  by destruct_or! Hs; subst s.
Qed.

Lemma typed_cut s : 0 ≤ s → typed (Element 0 (Z.shiftr (keep full) s) true).
Proof.
  intros. unfold typed. cbn [keep]. change (keep full) with 255. change (2 ^ STREAM_BYTES) with 256.
  rewrite Z.shiftr_div_pow2 by done.
  pose proof (Z.pow_pos_nonneg 2 s ltac:(done) ltac:(done)).
  split; [apply Z.div_pos; lia|]. apply Z.div_lt_upper_bound; lia.
Qed.

(** Every round but the last writes a full element. *)
Lemma streamgen_loop_run length : length ≤ 2 ^ 32 - 8 → ∀ (fuel : nat) bw,
  0 ≤ bw → bw < length ∨ bw = length ∧ bw = 0 → length - bw < 8 * Z.of_nat fuel →
  ∃ es, streamgen_loop fuel length bw full = Ok es ∧ whole es ∧
    payload es = replicate (Z.to_nat (length - bw)) 0.
Proof.
  intros Hl fuel. induction fuel as [|fuel IH]; intros bw H0 Hbw Hf; [lia|].
  cbn [streamgen_loop]. unfold u32. rewrite (wrap_small 32 (bw + STREAM_BYTES)) by (unfold STREAM_BYTES; lia).
  destruct (Z.leb_spec length (bw + STREAM_BYTES)) as [Hle|Hgt]; unfold STREAM_BYTES in *; cbn [last full data].
  - eexists. split; [done|]. split; [by apply whole_last; [apply typed_cut; lia|]|].
    rewrite payload_cut by lia. f_equal. lia.
  - destruct (IH (bw + 8)) as (es & E & Hw & Hp); [lia..|].
    exists (full :: es). rewrite E. split; [done|]. split; [by apply whole_more|].
    rewrite payload_cons, Hp. change (kept (lanes full)) with (replicate 8 0).
    rewrite <-replicate_add. f_equal. lia.
Qed.

(** The counter steps over the end of the range without reaching the length. *)
Lemma streamgen_loop_overrun length : 2 ^ 32 - 8 < length → ∀ fuel bw,
  (8 | bw) → streamgen_loop fuel length bw full = Fault OutOfFuel.
Proof.
  intros Hl fuel. induction fuel as [|fuel IH]; intros bw [q Hq]; [done|]. cbn [streamgen_loop].
  assert (u32 (bw + STREAM_BYTES) = 8 * ((q + 1) mod 2 ^ 29)) as E.
  { unfold u32, wrap, STREAM_BYTES. rewrite <-Z.mul_mod_distr_l by done. f_equal. lia. }
  pose proof (Z.mod_pos_bound (q + 1) (2 ^ 29) ltac:(done)).
  rewrite E. destruct (Z.leb_spec length (8 * ((q + 1) mod 2 ^ 29))); [lia|].
  cbn [last full]. rewrite IH; [done|]. exists ((q + 1) mod 2 ^ 29). lia.
Qed.

(** The sink never stands in the way of its source, and never ends. *)
Lemma streamsink_never_ends input : hls_streamsink input = Fault WouldBlock.
Proof. by induction input. Qed.

(** C36: the stream generator writes one whole stream whose bytes that count
    are exactly [length] zeros, for every length up to 2^32 - 8; for a larger
    length its counter wraps before it reaches the length and it never ends. *)
Theorem streamgen_exact length : 0 ≤ length < 2 ^ 32 →
  if decide (length ≤ 2 ^ 32 - 8)
  then ∃ es, hls_streamgen (S (Z.to_nat (length / 8))) length = Ok es ∧ whole es ∧
         payload es = replicate (Z.to_nat length) 0
  else ∀ fuel, hls_streamgen fuel length = Fault OutOfFuel.
Proof.
  intros Hl. case_decide.
  - destruct (streamgen_loop_run length ltac:(done) (S (Z.to_nat (length / 8))) 0)
      as (es & E & Hw & Hp); [lia|lia| |].
    { pose proof (Z.mul_div_le length 8). pose proof (Z.mul_succ_div_gt length 8). lia. }
    exists es. rewrite Z.sub_0_r in Hp. done.
  - intros fuel. apply streamgen_loop_overrun; [lia|by exists 0].
Qed.

Lemma streamgen_exact_witness :
  0 ≤ 2 ^ 32 - 7 < 2 ^ 32 ∧ ∀ fuel, hls_streamgen fuel (2 ^ 32 - 7) = Fault OutOfFuel.
Proof. split; [lia|]. exact (streamgen_exact (2 ^ 32 - 7) ltac:(lia)). Defined.

(** ** changecase *)

(** A loop over lanes that touches one lane in each round. *)
Lemma byte_at_lanes (f : Z → Z → Z) (g : Z → Z → Z) d l j :
  (∀ d i j, 0 ≤ i → 0 ≤ j → byte_at (f d i) j = if decide (i = j) then g i (byte_at d j) else byte_at d j) →
  NoDup l → Forall (λ i, 0 ≤ i) l → 0 ≤ j →
  byte_at (foldl f d l) j = if decide (j ∈ l) then g j (byte_at d j) else byte_at d j.
Proof.
  intros Hf Hd Hl Hj. revert d. induction Hd as [|i l Hi Hd IH]; intros d; [done|].
  apply Forall_cons in Hl as [H0 Hl]. cbn [foldl]. rewrite IH, Hf by done.
  destruct (decide (j ∈ l)), (decide (i = j)), (decide (j ∈ i :: l)) as [Hin|Hin];
    subst; try done; rewrite elem_of_cons in Hin; naive_solver.
Qed.

Definition upper (b : Z) : Z := if (97 <=? b) && (b <=? 122) then b - 32 else b.
Definition lower (b : Z) : Z := if (65 <=? b) && (b <=? 90) then b + 32 else b.

Definition changed (mode b : Z) : Z := if mode =? 0 then upper b else lower b.

Lemma byte_range d i : 0 ≤ byte_at d i < 256.
Proof.
  unfold byte_at, range. replace (i * 8 + 7 - i * 8 + 1) with 8 by lia.
  rewrite Z.land_ones by done. by apply Z.mod_pos_bound.
Qed.

Lemma byte_at_0 v : 0 ≤ v < 256 → byte_at v 0 = v.
Proof.
  intros. unfold byte_at, range. rewrite Z.shiftr_0_r.
  rewrite Z.land_ones by done. by apply Z.mod_small.
Qed.

(** One byte of the range is replaced, if it counts. *)
Lemma byte_at_replace (t : bool) d i v j : 0 ≤ i → 0 ≤ j → (t = true → 0 ≤ v < 256) →
  byte_at (if t then set_range d (i * 8 + 7) (i * 8) v else d) j =
    if decide (i = j) then (if t then v else byte_at d j) else byte_at d j.
Proof.
  intros ?? Hv. destruct t; [specialize (Hv eq_refl)|by case_decide].
  rewrite (byte_at_set_range _ _ _ (i + 1) i) by lia.
  case_decide as E.
  - subst j. destruct (Z.leb_spec i i), (Z.ltb_spec i (i + 1)); try lia. cbn [andb].
    rewrite Z.sub_diag. by apply byte_at_0.
  - destruct (Z.leb_spec i j), (Z.ltb_spec j (i + 1)); try done. lia.
Qed.

Lemma change_lane mode k d i j : 0 ≤ i → 0 ≤ j →
  byte_at ((if mode =? 0 then to_upper else to_lower) k d i) j =
    if decide (i = j) then (if Z.testbit k i then changed mode (byte_at d j) else byte_at d j)
    else byte_at d j.
Proof.
  intros. unfold changed. destruct (mode =? 0); unfold to_upper, to_lower, upper, lower.
  all: fold (byte_at d i); pose proof (byte_range d i).
  all: rewrite byte_at_replace by lia.
  all: case_decide; [subst j|done].
  all: by destruct (_ <=? _), (_ <=? _), (Z.testbit k i).
Qed.

Lemma lanes_change mode e : lanes (change_element mode e) =
  (λ p : bool * Z, if p.1 then (true, changed mode p.2) else p) <$> lanes e.
Proof.
  unfold lanes. rewrite <-list_fmap_compose. apply list_fmap_ext. intros n i Hi.
  apply lookup_seqZ in Hi as [-> Hn]. unfold lane, change_element. cbn [keep data].
  rewrite (byte_at_lanes _ (λ i b, if Z.testbit (keep e) i then changed mode b else b));
    [|intros; by apply change_lane|apply NoDup_seqZ|by apply Forall_seqZ; lia|lia].
  rewrite decide_True by (apply elem_of_seqZ; lia). cbn.
  by destruct (Z.testbit (keep e) _).
Qed.

Lemma kept_change mode l :
  kept ((λ p : bool * Z, if p.1 then (true, changed mode p.2) else p) <$> l) =
  changed mode <$> kept l.
Proof. induction l as [|[[] b] l IH]; cbn; [done|f_equal; exact IH|exact IH]. Qed.

Lemma changecase_exact mode es rest : whole es → ∃ out,
  changecase mode (es ++ rest) = Ok (out, rest) ∧ whole out ∧
  keep <$> out = keep <$> es ∧ payload out = changed mode <$> payload es.
Proof.
  assert (∀ e, kept (lanes (change_element mode e)) = changed mode <$> kept (lanes e)) as He.
  { intros e. by rewrite lanes_change, kept_change. }
  induction 1 as [e Ht Hl|e es Ht Hl _ (out & E & Hw & Hk & Hp)];
    cbn [changecase app]; change (last (change_element mode e)) with (last e); rewrite Hl.
  - exists [change_element mode e]. rewrite !payload_cons, He, !app_nil_r.
    split_and!; [done|by apply whole_last|done|done].
  - rewrite E. exists (change_element mode e :: out). rewrite !payload_cons, He, Hp, fmap_app.
    split_and!; [done|by apply whole_more|by cbn; rewrite Hk|done].
Qed.

(** ** Elements moved by a number of bytes *)

Lemma typed_high e n : typed e → 8 ≤ n → Z.testbit (keep e) n = false.
Proof.
  intros Ht Hn. rewrite <-(Z.mod_small (keep e) (2 ^ 8)) by exact Ht.
  by apply Z.mod_pow2_bits_high.
Qed.

Lemma typed_set_range x hi lo v : 0 ≤ x < 2 ^ 8 → 0 ≤ lo ≤ hi → hi < 8 →
  0 ≤ set_range x hi lo v < 2 ^ 8.
Proof.
  intros Hx ??. replace (set_range x hi lo v) with (set_range x hi lo v mod 2 ^ 8);
    [by apply Z.mod_pos_bound|].
  apply Z.bits_inj'. intros n Hn. destruct (Z.lt_ge_cases n 8).
  - by apply Z.mod_pow2_bits_low.
  - rewrite Z.mod_pow2_bits_high, testbit_set_range by lia.
    destruct (Z.leb_spec n hi); [lia|]. rewrite andb_false_r.
    rewrite <-(Z.mod_small x (2 ^ 8)) by done. by rewrite Z.mod_pow2_bits_high.
Qed.

Lemma kept_app l1 l2 : kept (l1 ++ l2) = kept l1 ++ kept l2.
Proof. apply omap_app. Qed.

Lemma kept_nil l : kept l = [] ↔ Forall (λ p, p.1 = false) l.
Proof.
  induction l as [|[[] b] l IH]; cbn; [by split|..]; rewrite Forall_cons; naive_solver.
Qed.

(** [keep == 0]: no byte counts. *)
Lemma keep_zero e : typed e → (keep e =? 0) = true ↔ kept (lanes e) = [].
Proof.
  intros Ht. rewrite Z.eqb_eq, kept_nil. unfold lanes. rewrite Forall_fmap, Forall_seqZ.
  split; [intros E n _; cbn; rewrite E; apply Z.testbit_0_l|].
  intros Hk. apply Z.bits_inj'. intros n Hn. rewrite Z.testbit_0_l.
  destruct (Z.lt_ge_cases n 8); [apply Hk; unfold STREAM_BYTES; lia|by apply typed_high].
Qed.

Section Shift.
Context (k : Z) (Hk : 0 < k < 8).
Local Abbreviation K := (Z.to_nat k).

Lemma lane_fill_current c e i : 0 ≤ i < 8 →
  lane (fill_current k c e) i = if k <=? i then lane e (i - k) else lane c i.
Proof.
  intros. unfold lane, fill_current, STREAM_BYTES. cbn [data keep].
  rewrite testbit_set_range, (byte_at_set_range _ _ _ 8 k) by lia.
  destruct (Z.leb_spec k i), (Z.leb_spec i (8 - 1)), (Z.ltb_spec i 8); try lia; cbn [andb]; [|done].
  rewrite testbit_range, (byte_at_range _ _ _ (8 - k) 0) by lia.
  destruct (Z.ltb_spec (i - k) (8 - k - 1 - 0 + 1)); [|lia]. by rewrite andb_true_r, !Z.add_0_r.
Qed.

Lemma lane_fill_next c e i : 0 ≤ i < 8 →
  lane (fill_next k c e) i = if i <? k then lane e (i + (8 - k)) else lane c i.
Proof.
  intros. unfold lane, fill_next, STREAM_BYTES. cbn [data keep].
  rewrite testbit_set_range, (byte_at_set_range _ _ _ k 0) by lia.
  destruct (Z.leb_spec 0 i), (Z.leb_spec i (k - 1)), (Z.ltb_spec i k); try lia; cbn [andb]; [|done].
  rewrite testbit_range, (byte_at_range _ _ _ 8 (8 - k)) by lia.
  destruct (Z.ltb_spec (i - 0) (8 - 1 - (8 - k) + 1)); [|lia]. by rewrite andb_true_r, Z.sub_0_r.
Qed.

Lemma lane_fill_out o p c i : 0 ≤ i < 8 →
  lane (fill_out k o p c) i = if i <? 8 - k then lane p (i + k) else lane c (i - (8 - k)).
Proof.
  intros. unfold lane, fill_out, STREAM_BYTES. cbn [data keep].
  rewrite !testbit_set_range, (byte_at_set_range _ _ _ 8 (8 - k)),
    (byte_at_set_range _ _ _ (8 - k) 0) by lia.
  destruct (Z.leb_spec (8 - k) i), (Z.leb_spec i (8 - 1)), (Z.ltb_spec i 8),
    (Z.ltb_spec i (8 - k)), (Z.leb_spec 0 i), (Z.leb_spec i (8 - k - 1)); try lia; cbn [andb].
  - rewrite testbit_range, (byte_at_range _ _ _ k 0) by lia.
    destruct (Z.ltb_spec (i - (8 - k)) (k - 1 - 0 + 1)); [|lia]. by rewrite andb_true_r, !Z.add_0_r.
  - rewrite testbit_range, (byte_at_range _ _ _ 8 k) by lia.
    destruct (Z.ltb_spec (i - 0) (8 - 1 - k + 1)); [|lia]. by rewrite andb_true_r, Z.sub_0_r.
Qed.

Lemma lane_flushed c i : 0 ≤ i → lane (flushed k c) i = lane c (i + k).
Proof.
  intros. unfold lane, flushed. cbn [data keep].
  by rewrite Z.shiftr_spec, byte_at_shiftr by lia.
Qed.

Ltac each_k :=
  assert (k = 1 ∨ k = 2 ∨ k = 3 ∨ k = 4 ∨ k = 5 ∨ k = 6 ∨ k = 7) as Hcase by lia;
  destruct_or! Hcase; subst k.

Ltac by_lane lem :=
  unfold lanes; change (seqZ 0 STREAM_BYTES) with [0; 1; 2; 3; 4; 5; 6; 7];
  cbn [fmap list_fmap]; rewrite !lem by lia; each_k.

Lemma lanes_fill_current c e :
  lanes (fill_current k c e) = take K (lanes c) ++ take (8 - K) (lanes e).
Proof. by by_lane lane_fill_current. Qed.

Lemma lanes_fill_next c e :
  lanes (fill_next k c e) = drop (8 - K) (lanes e) ++ drop K (lanes c).
Proof. by by_lane lane_fill_next. Qed.

Lemma lanes_fill_out o p c :
  lanes (fill_out k o p c) = drop K (lanes p) ++ take K (lanes c).
Proof. by by_lane lane_fill_out. Qed.

Lemma lanes_flushed c : typed c → ∃ t, lanes (flushed k c) = drop K (lanes c) ++ t ∧ kept t = [].
Proof.
  intros Ht. exists (lane c <$> seqZ 8 k). split.
  - by by_lane lane_flushed.
  - apply kept_nil. rewrite Forall_fmap, Forall_seqZ. intros n Hn. cbn.
    apply typed_high; [done|lia].
Qed.

Lemma length_lanes e : length (lanes e) = 8%nat.
Proof. done. Qed.

Lemma typed_fill_current c e b : typed c →
  typed (Element (data (fill_current k c e)) (keep (fill_current k c e)) b).
Proof. intros Hc. apply typed_set_range; [exact Hc|unfold STREAM_BYTES; lia..]. Qed.

Lemma typed_fill_next c e : typed c → typed (fill_next k c e).
Proof. intros Hc. apply typed_set_range; [exact Hc|unfold STREAM_BYTES; lia..]. Qed.

Lemma typed_fill_out o p c : typed o → typed (fill_out k o p c).
Proof. intros Ho. do 2 (apply typed_set_range; [|unfold STREAM_BYTES; lia..]). exact Ho. Qed.

Lemma typed_flushed c : typed c → typed (flushed k c).
Proof.
  intros [Hc1 Hc2]. unfold typed, flushed. cbn [keep]. rewrite Z.shiftr_div_pow2 by lia.
  pose proof (Z.pow_pos_nonneg 2 k ltac:(done) ltac:(lia)).
  split; [apply Z.div_pos; lia|]. apply Z.div_lt_upper_bound; [lia|]. nia.
Qed.

(** The test for bytes above the padding in the last element. *)
Lemma upper_zero c : typed c →
  (range (keep c) (STREAM_BYTES - 1) k =? 0) = true ↔ kept (drop K (lanes c)) = [].
Proof.
  intros Ht. destruct (lanes_flushed c Ht) as (t & El & Et).
  assert (range (keep c) (STREAM_BYTES - 1) k = keep (flushed k c)) as ->.
  { unfold STREAM_BYTES. apply Z.bits_inj'. intros n Hn. rewrite testbit_range by lia.
    cbn [flushed keep]. rewrite Z.shiftr_spec by done.
    destruct (Z.ltb_spec n (8 - 1 - k + 1)); [by rewrite andb_true_r|].
    rewrite andb_false_r. symmetry. apply typed_high; [done|lia]. }
  rewrite keep_zero by by apply typed_flushed. by rewrite El, kept_app, Et, app_nil_r.
Qed.

(** ** insert_padding: everything is written, moved up *)

Lemma insert_loop_run rest es : whole es → ∀ c n, typed c → typed n →
  ∃ out n', insert_loop k c n (es ++ rest) = Ok (out, n', rest) ∧ typed n' ∧
    (out ≫= lanes) ++ take K (lanes n') = take K (lanes c) ++ (es ≫= lanes) ∧
    drop K (lanes n') = drop K (lanes n) ∧
    if keep n' =? 0 then whole out
    else ∀ e, typed e → last e = true → whole (out ++ [e]).
Proof.
  assert (∀ e n, take K (lanes (fill_next k n e)) = drop (8 - K) (lanes e)) as Hn1.
  { intros. rewrite lanes_fill_next. apply take_app_length'. rewrite length_drop, length_lanes. lia. }
  assert (∀ e n, drop K (lanes (fill_next k n e)) = drop K (lanes n)) as Hn2.
  { intros. rewrite lanes_fill_next. apply drop_app_length'. rewrite length_drop, length_lanes. lia. }
  assert (∀ c e b, lanes (Element (data (fill_current k c e)) (keep (fill_current k c e)) b) =
            take K (lanes c) ++ take (8 - K) (lanes e)) as Hc by (intros; apply lanes_fill_current).
  induction 1 as [e Ht Hl|e es Ht Hl _ IH]; intros c n Tc Tn; cbn [insert_loop app]; rewrite Hl.
  - eexists _, _. split; [done|]. split; [by apply typed_fill_next|].
    split; [|split; [apply Hn2|]].
    + cbn [mbind list_bind]. rewrite !app_nil_r, Hc, Hn1, <-app_assoc. by rewrite take_drop.
    + destruct (keep _ =? 0); [by apply whole_last; [apply typed_fill_current|]|].
      intros f ??. apply whole_more; [by apply typed_fill_current|done|by apply whole_last].
  - destruct (IH (fill_next k n e) (fill_next k n e)) as (out & n' & E & T' & Hp & Hd & Hw);
      [by apply typed_fill_next..|].
    rewrite E. eexists _, n'. split; [done|]. split; [done|].
    split; [|split; [by rewrite Hd, Hn2|]].
    + cbn [mbind list_bind]. rewrite <-app_assoc, Hp, Hc, Hn1, <-!app_assoc. f_equal.
      by rewrite (app_assoc (take _ _)), take_drop.
    + destruct (keep n' =? 0); [by apply whole_more; [apply typed_fill_current|..]|].
      intros f ??. apply whole_more; [by apply typed_fill_current|done|by apply Hw].
Qed.

(** The bytes read follow [k] bytes that do not count; what is cut off at the
    end, or added there, does not count either. *)
Lemma insert_padding_run es rest : whole es → ∃ out cut added,
  insert_padding k (es ++ rest) = Ok (out, rest) ∧ whole out ∧
  (out ≫= lanes) ++ cut = replicate K (false, 0) ++ (es ≫= lanes) ++ added ∧
  kept cut = [] ∧ kept added = [].
Proof.
  intros He. unfold insert_padding.
  assert (typed zero_element) as T0 by done.
  destruct (insert_loop_run rest es He zero_element zero_element T0 T0)
    as (out & n & -> & Tn & Hp & Hd & Hw). cbn [mbind result_bind].
  assert (take K (lanes zero_element) = replicate K (false, 0)) as Ez by by each_k.
  assert (drop K (lanes zero_element) = replicate (8 - K) (false, 0)) as Ed by by each_k.
  rewrite Ez in Hp. destruct (keep n =? 0) eqn:E; cbn [negb].
  - apply keep_zero in E; [|done]. exists out, (take K (lanes n)), [].
    split; [done|]. split; [done|]. rewrite app_nil_r. split; [done|]. split; [|done].
    rewrite <-(take_drop K (lanes n)), kept_app in E. by apply app_nil in E as [? _].
  - exists (out ++ [Element (data n) (keep n) true]), [], (drop K (lanes n)).
    split; [done|]. split; [by apply Hw|]. split; [|split; [done|]].
    + rewrite bind_app. cbn [mbind list_bind]. rewrite !app_nil_r.
      change (lanes (Element (data n) (keep n) true)) with (lanes n).
      rewrite <-(take_drop K (lanes n)) at 1. by rewrite !app_assoc, Hp.
    + rewrite Hd, Ed. apply kept_nil. by apply Forall_replicate.
Qed.

(** ** remove_padding: everything above the padding is written, moved down *)

(** What the last round writes, when the element before it is known. *)
Lemma remove_last_round o p e : typed o → typed e → last e = true →
  let out := fill_out k o p e in
  let flush := last e && negb (last out) in
  ∃ cut added, kept cut = [] ∧ kept added = [] ∧
    whole ([out] ++ (if flush then [flushed k e] else [])) ∧
    (([out] ++ (if flush then [flushed k e] else [])) ≫= lanes) ++ cut =
      drop K (lanes p) ++ lanes e ++ added.
Proof.
  intros To Te Hl. cbn [fill_out last]. rewrite Hl. cbn [andb].
  destruct (_ =? 0) eqn:E; cbn [negb].
  - apply upper_zero in E; [|done]. exists (drop K (lanes e)), []. split; [done|]. split; [done|].
    split; [apply whole_last; [by apply typed_fill_out|cbn; by rewrite Hl, (proj2 (upper_zero e Te))]|].
    cbn [app mbind list_bind]. rewrite !app_nil_r, lanes_fill_out, <-app_assoc. by rewrite take_drop.
  - destruct (lanes_flushed e Te) as (t & Et & Kt). exists [], t. split; [done|]. split; [done|].
    split; [apply whole_more; [by apply typed_fill_out|cbn; by rewrite E, andb_false_r|]|].
    { apply whole_last; [by apply typed_flushed|done]. }
    cbn [app mbind list_bind]. rewrite !app_nil_r, lanes_fill_out, Et, <-!app_assoc.
    f_equal. by rewrite (app_assoc (take _ _)), take_drop.
Qed.

Lemma last_flushed (b : bool) e : last (if b then flushed k e else e) = last e.
Proof. by destruct b. Qed.

Lemma not_flushed e : last e = false → ∀ b, (last e && b) = false.
Proof. by intros ->. Qed.

Lemma remove_loop_written rest es : whole es → ∀ o p, typed o → ∃ out cut added,
  remove_padding_loop k o p true (es ++ rest) = Ok (out, rest) ∧ whole out ∧
  (out ≫= lanes) ++ cut = drop K (lanes p) ++ (es ≫= lanes) ++ added ∧
  kept cut = [] ∧ kept added = [].
Proof.
  induction 1 as [e Te Hl|e es Te Hl _ IH]; intros o p To; cbn [remove_padding_loop app].
  - destruct (remove_last_round o p e To Te Hl) as (cut & added & Kc & Ka & Hw & Hp).
    eexists _, cut, added. rewrite last_flushed, Hl. rewrite Hl in Hw, Hp. split; [|done].
    by destruct (true && _).
  - rewrite last_flushed, Hl. cbn [andb orb].
    destruct (IH (fill_out k o p e) e) as (out & cut & added & E & Hw & Hp & Kc & Ka);
      [by apply typed_fill_out|].
    rewrite E. eexists _, cut, added. split; [done|].
    assert (last (fill_out k o p e) = false) as Hlo by (cbn; by rewrite Hl).
    split; [apply whole_more; [by apply typed_fill_out|done|exact Hw]|].
    split; [|done]. cbn [app mbind list_bind].
    rewrite lanes_fill_out, <-!app_assoc. f_equal. cbn [mbind] in Hp. rewrite Hp.
    by rewrite (app_assoc (take _ _)), take_drop.
Qed.

(** A stream with a byte above the padding is what is above it. *)
Lemma remove_padding_run o p es rest : whole es → typed o →
  kept (drop K (es ≫= lanes)) ≠ [] → ∃ out,
  remove_padding k o p (es ++ rest) = Ok (out, rest) ∧ whole out ∧
  payload out = kept (drop K (es ≫= lanes)).
Proof.
  intros He To Hne. unfold remove_padding. destruct He as [e Te Hl|e es Te Hl Hes].
  - cbn [mbind list_bind] in Hne |- *. rewrite app_nil_r in Hne |- *.
    assert (last (fill_out k o p e) = false) as Hlo.
    { cbn [fill_out last]. destruct (_ =? 0) eqn:E; [|apply andb_false_r].
      by apply upper_zero in E. }
    cbn [app remove_padding_loop]. rewrite last_flushed, Hl, Hlo. cbn [andb orb negb app].
    eexists. split; [done|]. split; [apply whole_last; [by apply typed_flushed|done]|].
    destruct (lanes_flushed e Te) as (t & Et & Kt).
    by rewrite payload_cons, Et, kept_app, Kt, !app_nil_r.
  - cbn [app remove_padding_loop]. rewrite last_flushed, Hl. cbn [andb orb].
    destruct (remove_loop_written rest es Hes (fill_out k o p e) e) as (out & cut & added & E & Hw & Hp & Kc & Ka);
      [by apply typed_fill_out|].
    assert (last (fill_out k o p e) = false) as Hlo by (cbn; by rewrite Hl).
    rewrite E, Hlo. exists out. split; [done|]. split; [done|].
    apply (f_equal kept) in Hp. rewrite !kept_app, Kc, Ka, !app_nil_r in Hp. unfold payload. rewrite Hp.
    cbn [mbind list_bind]. rewrite drop_app_le by (rewrite length_lanes; lia). by rewrite kept_app.
Qed.

(** A stream of padding alone is one element of what was in the variable
    before, then the padding, as if it counted. *)
Lemma remove_padding_only o p e rest : typed e → last e = true →
  kept (drop K (lanes e)) = [] → ∃ out,
  remove_padding k o p (e :: rest) = Ok ([out], rest) ∧
  payload [out] = kept (drop K (lanes p)) ++ kept (take K (lanes e)).
Proof.
  intros Te Hl Hz. apply upper_zero in Hz; [|done].
  assert (last (fill_out k o p e) = true) as Hlo by (cbn [fill_out last]; by rewrite Hl, Hz).
  exists (fill_out k o p e). unfold remove_padding. cbn [remove_padding_loop].
  rewrite last_flushed, Hl, Hlo. split; [done|].
  by rewrite payload_cons, lanes_fill_out, kept_app, app_nil_r.
Qed.

(** C39: for every number of bytes below the width of a stream, to insert
    padding keeps the bytes that count and puts that many bytes that do not in
    front, and to remove it gives them back, whatever is in the variables the
    code does not initialise, if there is a byte that counts; both read one whole
    stream and write one whole stream. *)
Theorem padding_round_trip es rest o p : whole es → typed o → payload es ≠ [] →
  ∃ padded out,
    insert_padding k (es ++ rest) = Ok (padded, rest) ∧ whole padded ∧
    payload padded = payload es ∧
    take K (padded ≫= lanes) = replicate K (false, 0) ∧
    remove_padding k o p padded = Ok (out, []) ∧ whole out ∧ payload out = payload es.
Proof.
  intros He To Hne. destruct (insert_padding_run es rest He) as (padded & cut & added & E & Hw & Hp & Kc & Ka).
  assert (K ≤ length (padded ≫= lanes))%nat as Hlen.
  { destruct Hw; cbn [mbind list_bind]; rewrite length_app, length_lanes; lia. }
  assert (take K (padded ≫= lanes) = replicate K (false, 0) ∧
          drop K (padded ≫= lanes) ++ cut = (es ≫= lanes) ++ added) as [Ht Hd].
  { rewrite <-(take_drop K (padded ≫= lanes)), <-app_assoc in Hp.
    apply app_inj_1 in Hp; [done|]. rewrite length_take, length_replicate. lia. }
  apply (f_equal kept) in Hd. rewrite !kept_app, Kc, Ka, !app_nil_r in Hd.
  destruct (remove_padding_run o p padded [] Hw To) as (out & Eo & Ho & Po); [by rewrite Hd|].
  rewrite app_nil_r in Eo. exists padded, out. split_and!; try done.
  - unfold payload. rewrite <-(take_drop K (padded ≫= lanes)), kept_app, Ht, Hd.
    by rewrite (proj2 (kept_nil _)) by by apply Forall_replicate.
  - by rewrite Po, Hd.
Qed.
End Shift.

Lemma padding_round_trip_witness :
  let es := [Element (0x0706050403020100) 255 false; Element 0x0a0908 7 true] in
  let junk := Element 99 255 true in
  payload es = [0; 1; 2; 3; 4; 5; 6; 7; 8; 9; 10] ∧
  ∃ padded out, insert_padding 6 (es ++ []) = Ok (padded, []) ∧ whole padded ∧
    payload padded = payload es ∧
    take 6 (padded ≫= lanes) = replicate 6 (false, 0) ∧
    remove_padding 6 junk junk padded = Ok (out, []) ∧ whole out ∧ payload out = payload es.
Proof.
  split; [done|]. apply (padding_round_trip 6); [lia| |done|done].
  by apply whole_more; [..|apply whole_last].
Defined.
End StreamFacts.
