(* ===== verification/Tests.v ===== *)
(** * The program's own unit tests, on the model

    The tests under src/test and those of the transfers on the card, evaluated on
    the definitions: what the program's authors expect of single calls, in the
    order of their files. A database and a machine are the reference instances;
    every call has a transaction of its own, as in the tests. *)
From stdpp Require Import pretty.
From S2P Require Import Prelude Lmdb Structs Heap Extent Dirent Inode Path Metal File Storage Namespace Fuse.
From S2P Require Import Extmap OpMem TransferProofs Jobs Pipeline Manifest.

(** ** metal-filesystem-test *)

Module FilesystemTests.
Import Heap ExtentDb Metal File.
#[local] Existing Instance Ns.Demo.machine.

(** A script gives its last answer. *)
Definition answers {S A} (m : M S A) (s : S) : option A :=
  match m s with Ok (a, _) => Some a | Fault _ => None end.

Definition insert (value : Z) : M txn mtl_heap_node_id :=
  '(res, id) ← mtl_heap_insert value value; _ ← c_assert (res =? MTL_SUCCESS); mret id.

(** *** heap_test.cpp *)

Example Heap_IsEmptyByDefault : ∀ max_value,
  answers (mtl_heap_extract_max max_value) empty_txn = Some (MTL_ERROR_NOENTRY, max_value).
Proof. reflexivity. Qed.

Example Heap_Returns_Inserted_Element :
  answers (_ ← insert 4711; a ← mtl_heap_extract_max 0; b ← mtl_heap_extract_max 0; mret (a, b)) empty_txn
  = Some ((MTL_SUCCESS, 4711), (MTL_ERROR_NOENTRY, 0)).
Proof. reflexivity. Qed.

Example Heap_Returns_Inserted_Elements_In_Priority_Order :
  answers (_ ← insert 4711; _ ← insert 4712; a ← mtl_heap_extract_max 0; b ← mtl_heap_extract_max 0; mret (a, b))
    empty_txn = Some ((MTL_SUCCESS, 4712), (MTL_SUCCESS, 4711)).
Proof. reflexivity. Qed.

(** The test looks at the results of the calls only; the values taken out show what
    [increase_key_drops_value] states: the third is 0, not 45. *)
Definition complex_sequence : M txn (list (Z * Z) * list Z) :=
  _ ← insert 24; _ ← insert 22; _ ← insert 29; _ ← insert 49; _ ← insert 3;
  node_42_id ← insert 42; _ ← insert 25; node_45_id ← insert 45;
  _ ← insert 40; _ ← insert 37; _ ← insert 34; _ ← insert 32;
  a ← mtl_heap_extract_max 0;
  node_47_id ← insert 47;
  '(r1, _) ← mtl_heap_increase_key node_45_id 49 INVALID_NODE;
  '(r2, _) ← mtl_heap_increase_key node_47_id 48 INVALID_NODE;
  b ← mtl_heap_extract_max 0;
  c ← mtl_heap_extract_max 0;
  '(r3, _) ← mtl_heap_increase_key node_42_id 44 INVALID_NODE;
  mret ([a; b; c], [r1; r2; r3]).

Example Heap_Correctly_Processes_Complex_Operation_Sequence :
  answers complex_sequence empty_txn
  = Some ([(MTL_SUCCESS, 49); (MTL_SUCCESS, 0); (MTL_SUCCESS, 0)], [MTL_SUCCESS; MTL_SUCCESS; MTL_SUCCESS]).
Proof. vm_compute. reflexivity. Qed.

(** *** extent_test.cpp *)

Definition reserve (length offset : Z) : M txn (Z * Z) := mtl_reserve_extent length None offset true.

Example AllocatesAnExtent :
  answers (_ ← mtl_initialize_extents 8; reserve 4 4711) empty_txn = Some (4, 0).
Proof. reflexivity. Qed.

Example AllocatesTwoExtents :
  answers (_ ← mtl_initialize_extents 8; a ← reserve 4 4711; b ← reserve 4 a.2; mret (a, b)) empty_txn
  = Some ((4, 0), (4, 4)).
Proof. reflexivity. Qed.

(** The volume is full then. *)
Example allocates_two_extents :
  answers (_ ← mtl_initialize_extents 8; a ← reserve 4 4711; b ← reserve 4 4711; c ← reserve 4 4711; mret (a, b, c))
    empty_txn = Some ((4, 0), (4, 4), (0, 4711)).
Proof. vm_compute. reflexivity. Qed.

Example FreesAnExtent :
  answers (_ ← mtl_initialize_extents 8; a ← reserve 4 4711; mtl_free_extent a.2) empty_txn = Some MTL_SUCCESS.
Proof. reflexivity. Qed.

Example MakesFreedSpaceAvailableForReuse :
  answers (_ ← mtl_initialize_extents 8; a ← reserve 4 4711; _ ← mtl_free_extent a.2; reserve 8 a.2) empty_txn
  = Some (8, 0).
Proof. vm_compute. reflexivity. Qed.

(** *** metal_test.cpp *)

Definition storage := Ns.Demo.storage.

(** [MetalTest::SetUp] over an empty directory. *)
Definition set_up : option (Metal.world (B := Storage.store)) :=
  match mtl_initialize storage 7 (Some (empty_txn, false)) Ns.Demo.no_store with
  | Ok (_, w) => w
  | Fault _ => None
  end.

Definition on_new_filesystem {A} (m : M (Metal.world (B := Storage.store)) A) : option A := w ← set_up; answers m w.

Example CreatesADirectory : on_new_filesystem (mtl_mkdir 7 (str "/foo") 493) = Some MTL_SUCCESS.
Proof. vm_compute. reflexivity. Qed.

Example CreatesANestedDirectory :
  on_new_filesystem (a ← mtl_mkdir 7 (str "/foo") 493; b ← mtl_mkdir 7 (str "/foo/bar") 493; mret (a, b))
  = Some (MTL_SUCCESS, MTL_SUCCESS).
Proof. vm_compute. reflexivity. Qed.

Example FailsWhenCreatingAnExistingDirectory :
  on_new_filesystem (a ← mtl_mkdir 7 (str "/foo") 493; b ← mtl_mkdir 7 (str "/foo") 493; mret (a, b))
  = Some (MTL_SUCCESS, MTL_ERROR_EXISTS).
Proof. vm_compute. reflexivity. Qed.

Example RemovesADirectory :
  on_new_filesystem (a ← mtl_mkdir 7 (str "/foo") 493; b ← mtl_rmdir (str "/foo"); mret (a, b))
  = Some (MTL_SUCCESS, MTL_SUCCESS).
Proof. vm_compute. reflexivity. Qed.

Example FailsWhenRemovingNonEmptyDirectory :
  on_new_filesystem (_ ← mtl_mkdir 7 (str "/foo") 493; _ ← mtl_mkdir 7 (str "/foo/bar") 493; mtl_rmdir (str "/foo"))
  = Some MTL_ERROR_NOTEMPTY.
Proof. vm_compute. reflexivity. Qed.

Definition create_hello : M (Metal.world (B := Storage.store)) (Z * option Z) :=
  mtl_create 7 (str "/hello_world.txt") 493.

Example CreatesAFile : fst <$> on_new_filesystem create_hello = Some MTL_SUCCESS.
Proof. vm_compute. reflexivity. Qed.

Example OpensACreatedFile :
  on_new_filesystem ('(_, id) ← create_hello; '(res, id') ← mtl_open (str "/hello_world.txt"); mret (res, id, id'))
  = Some (MTL_SUCCESS, Some 1, 1).
Proof. vm_compute. reflexivity. Qed.

Example FailsWhenOpeningNonExistentFile :
  fst <$> on_new_filesystem (mtl_open (str "/hello_world.txt")) = Some MTL_ERROR_NOENTRY.
Proof. vm_compute. reflexivity. Qed.

(** The results and the strings in the buffer. *)
Fixpoint list_directory (n : nat) (dir : mtl_dir) (buffer : list Z) : result (list (Z * cstr)) :=
  match n with
  | O => mret []
  | S n' =>
      '(res, buffer, dir) ← mtl_readdir dir buffer FILENAME_MAX;
      rest ← list_directory n' dir buffer;
      mret ((res, FilesystemFuse.c_string buffer) :: rest)
  end.

Example ListsDirectoryContents :
  on_new_filesystem
    (_ ← mtl_mkdir 7 (str "/foo") 493; '(_, dir) ← mtl_opendir (str "/");
     m_lift (list_directory 4 dir (repeat 0 (Z.to_nat FILENAME_MAX))))
  = Some [(MTL_SUCCESS, str "."); (MTL_SUCCESS, str ".."); (MTL_SUCCESS, str "foo"); (MTL_COMPLETE, str "foo")].
Proof. vm_compute. reflexivity. Qed.

Definition test : list Z := str "hello world!" ++ [0].

Definition write_hello : M (Metal.world (B := Storage.store)) (Z * Z) :=
  '(_, inode) ← create_hello;
  inode ← c_deref inode;
  res ← mtl_write storage inode test 13 0;
  mret (inode, res).

Example WritesToAFile : snd <$> on_new_filesystem write_hello = Some MTL_SUCCESS.
Proof. vm_compute. reflexivity. Qed.

Example ReadsWrittenBytes :
  on_new_filesystem ('(inode, _) ← write_hello; '(n, output) ← mtl_read storage inode (repeat 170 256) 256 0;
                     mret (n, FilesystemFuse.c_string output)) = Some (13, str "hello world!").
Proof. vm_compute. reflexivity. Qed.

Example TruncatesAFile :
  on_new_filesystem ('(inode, _) ← write_hello; mtl_truncate inode 0) = Some MTL_SUCCESS.
Proof. vm_compute. reflexivity. Qed.
End FilesystemTests.

(** ** transfer_to_stream_test.cpp *)

Module TransferTests.
Import OpMem Extmap.
#[local] Existing Instance Transfers.Demo.bus.

Definition no_maps : maps := let m := ExtmapT 0 0 [] [] [] in Maps m m.

Definition host_block : Address := MkAddress (42 * StorageBlockSize) StorageBlockSize ATHost MTNone.
Definition element (type : AddressType) : TransferElement := Element (42 * StorageBlockSize) StorageBlockSize type true.

Example Issue_partial_transfer :
  issue_partial_transfers false Read host_block no_maps = Ok ([element ATHost], [], no_maps).
Proof. vm_compute. reflexivity. Qed.

Example Load_NVMe_blocks_does_nothing : load_nvme_data false [element ATHost] [] = Ok ([element ATHost], []).
Proof. reflexivity. Qed.

Example Transfer_to_stream_returns : (l ← transfer_to_stream [element ATHost]; mret (length l)) = Ok 1%nat.
Proof. reflexivity. Qed.

Example Read_memory_from_host : ∀ random_ctrl r,
  ('(i, _, _) ← op_mem_read false random_ctrl host_block no_maps r; mret (length (i_dm i))) = Ok 1%nat.
Proof. intros. vm_compute. reflexivity. Qed.

Example Load_NVMe_blocks_does_something :
  ('(out, cmds) ← load_nvme_data true [element ATNVMe] [0]; mret (out, length cmds)) = Ok ([element ATNVMe], 1%nat).
Proof. vm_compute. reflexivity. Qed.
End TransferTests.

(** ** metal-pipeline-test *)

(** A reader and a writer of the JSON that manifests are made of: no arrays, no
    escapes, natural numbers. *)
Module Text.

Inductive value := Null | Bool (b : bool) | Number (n : Z) | Str (s : string) | Object (members : list (string * value)).

Definition is_space (c : Z) : bool := bool_decide (c ∈ [9; 10; 13; 32]).
Definition skip (l : cstr) : cstr := drop_while is_space l.

(** What follows the word [w]. *)
Definition after (w : string) (l : cstr) : option cstr :=
  if bool_decide (take (length (str w)) l = str w) then Some (drop (length (str w)) l) else None.

Definition quote : Z := 34.

Definition read_string (l : cstr) : option (string * cstr) :=
  match skip l with
  | 34 :: l =>
      match drop_while (λ c, negb (c =? quote)) l with
      | _ :: rest => Some (Manifest.string_of_bytes (take_while (λ c, negb (c =? quote)) l), rest)
      | [] => None
      end
  | _ => None
  end.

Definition is_digit (c : Z) : bool := (48 <=? c) && (c <=? 57).

Definition read_atom (l : cstr) : option (value * cstr) :=
  match after "true" l, after "false" l, after "null" l, read_string l, take_while is_digit l with
  | Some l, _, _, _, _ => Some (Bool true, l)
  | _, Some l, _, _, _ => Some (Bool false, l)
  | _, _, Some l, _, _ => Some (Null, l)
  | _, _, _, Some (s, l), _ => Some (Str s, l)
  | _, _, _, _, [] => None
  | _, _, _, _, digits => Some (Number (foldl (λ n d, 10 * n + (d - 48)) 0 digits), drop_while is_digit l)
  end.

Fixpoint read_value (fuel : nat) (l : cstr) : option (value * cstr) :=
  match fuel with
  | O => None
  | S fuel =>
      match after "{" (skip l) with
      | None => read_atom (skip l)
      | Some l =>
          match after "}" (skip l) with
          | Some l => Some (Object [], l)
          | None => '(members, l) ← read_members fuel l; Some (Object members, l)
          end
      end
  end
with read_members (fuel : nat) (l : cstr) : option (list (string * value) * cstr) :=
  match fuel with
  | O => None
  | S fuel =>
      '(k, l) ← read_string l;
      l ← after ":" (skip l);
      '(v, l) ← read_value fuel l;
      match after "," (skip l) with
      | Some l => '(members, l) ← read_members fuel l; Some ((k, v) :: members, l)
      | None => l ← after "}" (skip l); Some ([(k, v)], l)
      end
  end.

Definition quoted (s : string) : string :=
  (String (Ascii.ascii_of_nat 34) s ++ String (Ascii.ascii_of_nat 34) "")%string.

Fixpoint write (v : value) : string :=
  match v with
  | Null => "null"
  | Bool b => if b then "true" else "false"
  | Number n => pretty n
  | Str s => quoted s
  | Object members =>
      let member (m : string * value) := let '(k, v) := m in (quoted k ++ ":" ++ write v)%string in
      ("{" ++ String.concat "," (map member members) ++ "}")%string
  end.

Definition members (v : value) : list (string * value) := match v with Object l => l | _ => [] end.

#[local] Instance text_json : Json := {|
  json := value;
  js_null := Null;
  js_bool := Bool;
  js_uint := Number;
  js_string := Str;
  js_object := Object;
  json_parse s := '(v, l) ← read_value (S (length (str s))) (str s); if bool_decide (skip l = []) then Some v else None;
  json_dump v := Some (write v);
  json_is_null v := match v with Null => true | _ => false end;
  json_is_object v := match v with Object _ => true | _ => false end;
  json_is_string v := match v with Str _ => true | _ => false end;
  json_at v k := match v with Object l => Some (default Null (assoc k l)) | Null => Some Null | _ => None end;
  json_items := members;
  json_get_string v := match v with Str s => Some s | _ => None end;
  json_get_bool v := match v with Bool b => Some b | _ => None end;
  json_get_u8 v := match v with Number n => Some (u8 n) | _ => None end;
  json_get_u64 v := match v with Number n => Some n | _ => None end;
|}.
End Text.

Module PipelineTests.
Import Manifest Operator Text.
#[local] Existing Instance text_json.
#[local] Existing Instance intact_memory.

(** A text in which apostrophes stand for quotation marks. *)
Definition json_text (s : string) : string :=
  Manifest.string_of_bytes ((λ c, if c =? 39 then quote else c) <$> str s).

(** *** operator_test.cpp *)

Definition OperatorJson : string := json_text
  "{'id':'blowfish_encrypt','description':'Encrypt data with the blowfish cipher','prepare_required':true,'options':{'key':{'short':'k','type':{'type':'buffer','size':16},'description':'The encryption key to use','offset':256}},'internal_id':4}".

Definition blowfish : OperatorSpecification :=
  Spec "blowfish_encrypt" "Encrypt data with the blowfish cipher" 4 true
    [("key", OptionDefinition 256 OTBuffer "key" "k" "The encryption key to use" (Some 16))].

Example OperatorSpec_Parses_Specification : create_specification "blowfish_encrypt" OperatorJson = Ok blowfish.
Proof. vm_compute. reflexivity. Qed.

Definition op : result operator :=
  spec ← create_specification "blowfish_encrypt" OperatorJson; mret (create spec).

Example Operator_AllowsToSetOptions :
  (op ← op; setOption "key" (AVBuffer (repeat 0 128)) op)
  = Ok (MkOperator blowfish [("key", Some (AVBuffer (repeat 0 128)))]).
Proof. vm_compute. reflexivity. Qed.

Example Operator_RevokesInvalidOptions :
  (op ← op; setOption "does_not_exist" (AVBool false) op) = Fault (Throw "Unknown option").
Proof. vm_compute. reflexivity. Qed.

Example Operator_RevokesInvalidOptionValues :
  (op ← op; setOption "key" (AVBool false) op) = Fault (Throw "Invalid option").
Proof. vm_compute. reflexivity. Qed.

(** *** operator_factory_test.cpp *)

Definition image : string := json_text
  "{ 'operators': { 'changecase': { 'internal_id': 1, 'description': 'Transform ASCII strings to lower- or uppercase (default)', 'options': { 'lowercase': { 'short': 'l', 'type': 'bool', 'description': 'Transform to lowercase', 'offset': 256 } } } }, 'target': { 'dram': false, 'nvme': false } }".

Example DetectsOperatorsInJSON :
  fromManifestString image
  = Ok (MkOperatorFactory
      [("changecase", Spec "changecase" "Transform ASCII strings to lower- or uppercase (default)" 1 false
         [("lowercase", OptionDefinition 256 OTBool "lowercase" "l" "Transform to lowercase" None)])]
      false false).
Proof. vm_compute. reflexivity. Qed.
End PipelineTests.
